(* ===== verification/_CoqProject ===== *)
-Q . S2P
Prelude.v
GoStd.v
Canonical.v
DeviceList.v
DeviceListFacts.v
DeviceListThms.v
Agreement.v
Header.v
Request.v
SyncTypes.v
MemStore.v
MemStoreFacts.v
Slices.v
NonceKeeper.v
Service.v
Erasure.v
VaultInv.v
VaultExtend.v
LoadList.v
Actors.v
InvPairing.v
InvCreate.v
InvApprove.v
InvRekey.v
MakeRoom.v
InvUpload.v
Steps.v
Fixtures.v
Stable.v
Replay.v
SyncSafety.v
SyncEffects.v
SyncHistory.v
HeaderPages.v
Wire.v
Handler.v
GoText.v
WireThms.v
Http.v
Available.v
SyncApprove.v
Witnesses.v
HttpWitnesses.v
SemVer.v
SemVerThms.v
Json.v
JsonFacts.v
SelfStore.v
AuditFacts.v
UpdateStore.v
AuditThms.v
Feed.v
UpdateService.v
UpdateThms.v
UpdateShell.v
UpdateSign.v
SelfWitnesses.v
