(* ===== verification/Prelude.v ===== *)
(** * Sesame server: a verification development

    Sesame keeps password vaults in step between devices.  The server never sees a vault's contents: it keeps
    signed device lists, signed snapshot headers and ciphertexts, and decides who may read and change them.
    This library models the sync core of the server (protocol, service, in-memory store, HTTP layer) and, of the
    self-hosted edition, its audit log, its update settings and its update service; the theorems say that these
    parts keep what they promise.  All paths below are under src/internal/.

    ** The program's parts and the files that model them

    - Shared ground.  [Prelude]: Go errors as lists of sentinels, the result and state monads, loops, machine
      integers, tactics.  [GoStd], [GoText]: what the code uses of Go's standard library (base64, decimal numbers,
      UTF-8, time, string functions).  [Json]: [encoding/json] for strings and string maps, [JsonFacts]: it reads
      back what it wrote.
    - Protocol, syncproto/.  [Canonical]: canonical.go, constants.go.  [DeviceList]: devicelist.go, the signed list
      of a vault's devices as a state machine over entries.  [Header]: header.go.  [Request]: request.go,
      checkpoint.go.  Facts and theorems in [DeviceListFacts], [DeviceListThms], [Agreement].
    - Sync service, syncsvc/.  [SyncTypes]: types.go, with the interfaces [Tx] and [Storage] as type classes.
      [Service]: service.go, one transaction body per operation over [Tx].  [NonceKeeper]: nonce_keeper.go, a
      decorator of any [Tx] and [Storage].  [MemStore]: memstore/memstore.go, the implementation the theorems
      discharge the interfaces with.
    - HTTP layer, syncv3http/.  [Wire]: wire.go, errors.go.  [Handler]: handler.go, the 21 handlers, the route table
      and the dispatch; the class [Host] is the interface of the two hosts.
    - Self-hosting.  [SelfStore]: selfhost/types.go, selfhost/sqlitestore/store.go and audit.go, the audit log and
      its checks.  [UpdateStore]: selfhost/updates.go and selfhost/sqlitestore/updates.go.  [Feed]:
      selfhost/updates/feed.go, keys.go, registry.go, fetch.go.  [UpdateService]: selfhost/updates/service.go,
      install.go.  [SemVer]: releases/semver.go, eligibility.go, selfhost/updates/versions.go.

    A request travels from [Handler] through [Wire] (decoding, signature header) to an operation of [Service], which
    runs in a transaction of the store behind the nonce keeper.  The operation finds the acting device by its token,
    loads and verifies the vault's device list, verifies the request's signature and nonce, changes the rows and
    replies.  In the self-hosted edition the update service reads and writes its settings through the store, and
    every change an owner makes is appended to the audit log in the same transaction.

    ** How the models correspond to the code

    State is a record of maps, as in the code; an operation is a function from a state to a result and a state, an
    early return an [Err] with the sentinels [errors.Is] would find.  A transaction that fails is rolled back by the
    caller, as in the code.  Time is a number of nanoseconds since 1970; the clock readings of a call are an
    argument of it.  64-bit counters wrap.  Map iteration goes through [range_map], whose order is a parameter
    (class [MapRange]).  Loops without a static bound run through [loop 64], which stops after at most 2^64
    iterations by doubling; every such loop is proved to end, with a measure that fits that budget.  Other
    recursions take fuel that is the length of the text they consume.

    Parameters of the whole development: SHA-256 and Ed25519 (class [Crypto], with the lengths and the
    sign/verify law the code relies on; collisions appear as an alternative in conclusions, never as an
    assumption), the reflection-driven JSON codec for structs ([Decodes], [FeedHost]), [net/url], and the host
    that authenticates HTTP callers ([Host]).  [Fixtures], [HttpWitnesses] and [SelfWitnesses] instantiate all of
    them and run the code on concrete inputs.

    SQL.  The statements of the SQLite files that are modelled are read as operations on their tables (a list in
    primary-key order, a map by primary key), with the constraints the schema states; a statement or a commit that
    fails is a fault of the call.

    ** What the theorems show

    - The protocol: a verified list is well formed, is extended only by current members, never forgets, and its head
      digest commits to all of it.
    - The service as a state machine ([Steps]): [VaultInv] is the invariant; [InvPairing], [InvCreate], [InvApprove],
      [InvRekey], [InvUpload] and [MakeRoom] prove that every operation keeps it, [Slices] that operations of one
      vault do not touch another, [Erasure] that the nonce keeper is transparent.  [SyncSafety], [Replay],
      [SyncEffects], [SyncHistory], [HeaderPages], [SyncApprove], [Available] state what follows: the authority
      that each successful call took, rollback, isolation, replay protection, revocation, what devices can read back, paging, budgets, and that
      every failure is one of the contract's.
    - The HTTP layer ([WireThms], [Http]): every route refines a sequence of service calls, and a request
      that succeeds and changed the store was signed over its method, target, body and token, by the member, the
      pairing device or the new device whose authority the call takes.
    - Self-hosting ([AuditFacts], [AuditThms], [UpdateThms], [UpdateSign], [UpdateShell], [SemVerThms]): the audit
      log always verifies, its report commits to the rows it read, incremental checking is enough; feeds never roll back, updates
      are announced only when authentic, signed feeds are accepted, and a shell reads the commands shown as exactly
      the ones meant for the release of the stored feed, on the channels the product has; versions are ordered by
      SemVer's precedence, totally where their numbers fit 64 bits, and have one spelling.

    Each theorem with hypotheses has a witness in [Witnesses], [HttpWitnesses], [SelfWitnesses], [Replay] or
    [SemVerThms].

    ** What is not modelled

    - The PostgreSQL stores and the SQLite sync store: their behaviour is that of embedded SQL of some length; the
      repository's store suite checks them against the in-memory store, which is modelled.
    - Accounts, administration, support, notifications and their HTTP routes: SQL, mail and request plumbing.
    - The rest of the self-hosted store (owners, members, devices, pairings, flags, rate limits), its HTTP server,
      configuration, backups and secrets: files, environment, SQL; the next parts to model.
    - Of modelled parts: log lines, connection deadlines, the recovery timeout of the nonce keeper, the HTTP client
      of the feed (its answer is an argument), the sleeping loop of the update service (its waiting times are
      modelled), goroutines (operations are sequences of atomic transactions, as the stores' locks make them). *)

From stdpp Require Import base list gmap strings sorting.
From Stdlib Require Import ZArith Lia.

(** ** Errors

    A Go [error] is modelled by the sentinels that [errors.Is] finds in its wrap tree, in the
    order the tree is walked; the message is dropped.  [errors.New] outside a sentinel declaration
    gives the empty list, [fmt.Errorf("%w: %w", a, b)] the concatenation. *)
Inductive sentinel :=
| ErrNotFound | ErrConflict | ErrForbidden | ErrInvalid | ErrSignature | ErrReplay
| ErrQuota | ErrNoVault | ErrVaultExists | ErrNotActivated
| ErrDeviceListInvalid | ErrDeviceListBroken | ErrHeaderInvalid | ErrHistoryBroken
| ErrRequestSignature | ErrCheckpointInvalid
| selfhost_ErrNotFound | selfhost_ErrConflict | selfhost_ErrInvalidInput | selfhost_ErrClosed
| updates_ErrInvalid | updates_ErrExpired | updates_ErrRollback | updates_ErrOff.

#[export] Instance sentinel_eq_dec : EqDecision sentinel.
Proof. solve_decision. Defined.

Notation error := (list sentinel).

(** [errors.Is]. *)
Definition is_error (e : error) (s : sentinel) : bool := bool_decide (s ∈ e).

Inductive result (A : Type) : Type :=
| Ok (a : A)
| Err (e : error).
Arguments Ok {A} a.
Arguments Err {A} e.

Definition is_ok {A} (r : result A) : bool := match r with Ok _ => true | Err _ => false end.

Definition rbind {A B} (r : result A) (k : A → result B) : result B :=
  match r with Ok a => k a | Err e => Err e end.

(** [fail_if P e]: [if P { return e }]. *)
Definition rfail_if (P : Prop) `{!Decision P} (e : error) : result unit :=
  if decide P then Err e else Ok tt.

(** [wrap s r]: [if err := r; err != nil { return fmt.Errorf("%w: %w", s, err) }]. *)
Definition wrap {A} (s : sentinel) (r : result A) : result A :=
  match r with Ok a => Ok a | Err e => Err (s :: e) end.

(** [orelse e r]: [if err := r; err != nil { return e }]. *)
Definition orelse {A} (e : error) (r : result A) : result A :=
  match r with Ok a => Ok a | Err _ => Err e end.

(** ** State and errors

    A transaction body is a function from the transaction's state to a result and a state; the
    state is kept on an error, because the caller decides whether it is rolled back. *)
Definition M (S A : Type) : Type := S → result A * S.

Definition mreturn {S A} (a : A) : M S A := λ s, (Ok a, s).
Definition mfail {S A} (e : error) : M S A := λ s, (Err e, s).
Definition mlift {S A} (r : result A) : M S A := λ s, (r, s).
Definition mbindM {S A B} (m : M S A) (k : A → M S B) : M S B :=
  λ s, match m s with (Ok a, s') => k a s' | (Err e, s') => (Err e, s') end.
Definition mfail_if {S} (P : Prop) `{!Decision P} (e : error) : M S unit :=
  if decide P then mfail e else mreturn tt.
(** [mtry m]: [x, err := m()], the error handed to the caller as a value. *)
Definition mtry {S A} (m : M S A) : M S (result A) :=
  λ s, let '(r, s') := m s in (Ok r, s').

Fixpoint mforeach {S A B} (f : B → A → M S B) (acc : B) (xs : list A) : M S B :=
  match xs with
  | [] => mreturn acc
  | x :: xs => mbindM (f acc x) (λ acc', mforeach f acc' xs)
  end.

Declare Scope go_scope.
Delimit Scope go_scope with go.
Notation "'let?' x ':=' r 'in' k" := (rbind r (λ x, k))
  (at level 200, x pattern, r at level 100, k at level 200) : go_scope.
Notation "'check' r ';' k" := (rbind r (λ _ : unit, k))
  (at level 200, r at level 100, k at level 200) : go_scope.
Notation "'let!' x ':=' m 'in' k" := (mbindM m (λ x, k))
  (at level 200, x pattern, m at level 100, k at level 200) : go_scope.
Notation "'run' m ';' k" := (mbindM m (λ _ : unit, k))
  (at level 200, m at level 100, k at level 200) : go_scope.

Lemma rbind_ok {A B} (r : result A) (k : A → result B) b :
  rbind r k = Ok b ↔ ∃ a, r = Ok a ∧ k a = Ok b.
Proof. destruct r; simpl; naive_solver. Qed.

Lemma rfail_if_ok P `{!Decision P} e u : rfail_if P e = Ok u ↔ ¬ P.
Proof. unfold rfail_if. destruct u; case_decide; naive_solver. Qed.

Lemma wrap_ok {A} s (r : result A) a : wrap s r = Ok a ↔ r = Ok a.
Proof. destruct r; naive_solver. Qed.

Lemma orelse_ok {A} e (r : result A) a : orelse e r = Ok a ↔ r = Ok a.
Proof. destruct r; naive_solver. Qed.

Lemma mbindM_run {S A B} (m : M S A) (k : A → M S B) s a s' : m s = (Ok a, s') → mbindM m k s = k a s'.
Proof. intros E. unfold mbindM. by rewrite E. Qed.
Lemma mbindM_ok {S A B} (m : M S A) (k : A → M S B) s b s' :
  mbindM m k s = (Ok b, s') ↔ ∃ a s1, m s = (Ok a, s1) ∧ k a s1 = (Ok b, s').
Proof. unfold mbindM. destruct (m s) as [[a|e] s1]; naive_solver. Qed.

Lemma mfail_if_ok {S} P `{!Decision P} e (s : S) u s' :
  mfail_if P e s = (Ok u, s') ↔ ¬ P ∧ s' = s.
Proof. unfold mfail_if. destruct u; case_decide; unfold mfail, mreturn; naive_solver. Qed.

Lemma mreturn_ok {S A} (a b : A) (s s' : S) :
  mreturn a s = (Ok b, s') ↔ b = a ∧ s' = s.
Proof. unfold mreturn. naive_solver. Qed.

Lemma mfail_ok {S A} e (s : S) (a : A) s' : mfail e s = (Ok a, s') ↔ False.
Proof. unfold mfail. naive_solver. Qed.

Lemma mlift_ok {S A} (r : result A) (s : S) a s' :
  mlift r s = (Ok a, s') ↔ r = Ok a ∧ s' = s.
Proof. unfold mlift. naive_solver. Qed.

Lemma mtry_ok {S A} (m : M S A) s r s' : mtry m s = (Ok r, s') ↔ m s = (r, s').
Proof. unfold mtry. destruct (m s). naive_solver. Qed.

Create HintDb go discriminated.
#[export] Hint Rewrite @rbind_ok rfail_if_ok @wrap_ok @orelse_ok @mbindM_ok @mfail_if_ok @mreturn_ok
  @mfail_ok @mlift_ok @mtry_ok : go_ok.

(** [go_inv H] takes a successful run of a transaction body or of a pure fallible function apart:
    every guard that passed becomes a hypothesis, every intermediate value a variable. *)
Ltac go_destruct H :=
  lazymatch type of H with
  | ∃ x, _ => let y := fresh x in destruct H as [y H]; go_destruct H
  | _ ∧ _ => let H1 := fresh "G" in destruct H as [H1 H]; go_destruct H1; go_destruct H
  | False => destruct H
  | ?x = ?y => first [ is_var x; subst x | is_var y; subst y | idtac ]
  | _ => idtac
  end.
Ltac go_step H :=
  lazymatch type of H with
  | rbind _ _ = Ok _ => apply rbind_ok in H; go_split H
  | rfail_if _ _ = Ok _ => apply rfail_if_ok in H
  | wrap _ _ = Ok _ => apply wrap_ok in H; go_step H
  | orelse _ _ = Ok _ => apply orelse_ok in H; go_step H
  | mbindM _ _ _ = (Ok _, _) => apply mbindM_ok in H; go_split2 H
  | mfail_if _ _ _ = (Ok _, _) => apply mfail_if_ok in H; go_destruct H
  | mreturn _ _ = (Ok _, _) => apply mreturn_ok in H; go_destruct H
  | mfail _ _ = (Ok _, _) => destruct (proj1 (mfail_ok _ _ _ _) H)
  | mlift _ _ = (Ok _, _) => apply mlift_ok in H; go_lift H
  | mtry _ _ = (Ok _, _) => apply (proj1 (mtry_ok _ _ _ _)) in H
  | Ok _ = Ok _ => injection H as H; try (first [subst | idtac])
  | (Ok _, _) = (Ok _, _) => injection H as H; subst
  | Err _ = Ok _ => discriminate H
  | (Err _, _) = (Ok _, _) => discriminate H
  | (match ?b with _ => _ end) = Ok _ => destruct b eqn:?; go_step H
  | (match ?b with _ => _ end) _ = (Ok _, _) => destruct b eqn:?; go_step H
  | (match ?b with _ => _ end) = (Ok _, _) => destruct b eqn:?; go_step H
  | _ => idtac
  end
with go_split H :=
  let a := fresh "r" in let H1 := fresh "G" in
  destruct H as [a [H1 H]]; go_step H1; cbv beta in H; go_step H
with go_split2 H :=
  let a := fresh "r" in let s := fresh "st" in let H1 := fresh "G" in
  destruct H as [a [s [H1 H]]]; go_step H1; cbv beta in H; go_step H
with go_lift H :=
  let H1 := fresh "G" in
  destruct H as [H1 H]; go_step H1; try (lazymatch type of H with ?x = _ => is_var x; subst x end).
Ltac go_inv H := go_step H.

(** One statement of a successful transaction body at a time: [passed H as G] keeps the guard [G] that
    did not fire, [lifted H x as G] the pure computation [G] that gave [x], [called H x s as G] the
    call [G] that gave [x] in the state [s]. *)
Tactic Notation "passed" hyp(H) "as" simple_intropattern(G) :=
  apply mbindM_ok in H as (? & ? & [G ->]%mfail_if_ok & H).
Tactic Notation "lifted" hyp(H) simple_intropattern(x) "as" simple_intropattern(G) :=
  apply mbindM_ok in H as (x & ? & [G ->]%mlift_ok & H).
Tactic Notation "called" hyp(H) simple_intropattern(x) ident(s) "as" simple_intropattern(G) :=
  apply mbindM_ok in H as (x & s & G & H).

(** ** Loops

    A Go [for] without a static bound.  [loop n] runs the body at most [2^n] times, by doubling, so
    [loop 64] has more iterations than there are 64-bit counters and still evaluates: it stops at
    the first [Done]. *)
Inductive step (A B : Type) : Type :=
| Continue (a : A)
| Done (b : B).
Arguments Continue {A B} a.
Arguments Done {A B} b.

Fixpoint loop {A B} (n : nat) (body : A → step A B) (a : A) : step A B :=
  match n with
  | O => body a
  | S n => match loop n body a with
           | Done b => Done b
           | Continue a' => loop n body a'
           end
  end.

(** The runs of a loop body, with no bound on their length. *)
Inductive loop_runs {A B} (body : A → step A B) : A → B → Prop :=
| runs_done a b : body a = Done b → loop_runs body a b
| runs_continue a a' b : body a = Continue a' → loop_runs body a' b → loop_runs body a b.

Inductive loop_steps {A B} (body : A → step A B) : nat → A → A → Prop :=
| steps_zero a : loop_steps body 0 a a
| steps_succ n a a' a'' :
    body a = Continue a' → loop_steps body n a' a'' → loop_steps body (S n) a a''.

Section Loops.
Context {A B : Type} (body : A → step A B).

Lemma loop_steps_app n m a b c :
  loop_steps body n a b → loop_steps body m b c → loop_steps body (n + m) a c.
Proof. induction 1; intros; simpl; [done|econstructor; eauto]. Qed.

Lemma loop_steps_runs n a a' b :
  loop_steps body n a a' → loop_runs body a' b → loop_runs body a b.
Proof. induction 1; intros; [done|]. eapply runs_continue; eauto. Qed.

Lemma loop_continue n a a' :
  loop n body a = Continue a' → loop_steps body (2 ^ n) a a'.
Proof.
  revert a a'. induction n as [|n IH]; intros a a' H; simpl in *.
  - econstructor; [done|constructor].
  - destruct (loop n body a) as [a1|b] eqn:E; [|done].
    rewrite Nat.add_0_r. eapply loop_steps_app; eauto.
Qed.

Lemma loop_done n a b : loop n body a = Done b → loop_runs body a b.
Proof.
  revert a b. induction n as [|n IH]; intros a b H; simpl in *.
  - by apply runs_done.
  - destruct (loop n body a) as [a1|b1] eqn:E; [|naive_solver].
    eapply loop_steps_runs; [by apply loop_continue|eauto].
Qed.

(** A measure that every continuing iteration decreases bounds the iterations, so the loop ends
    within its budget. *)
Lemma loop_terminates (I : A → Prop) (μ : A → nat) n a :
  (∀ x x', I x → body x = Continue x' → I x' ∧ μ x' < μ x) →
  I a → μ a < 2 ^ n → ∃ b, loop n body a = Done b.
Proof.
  intros Hdec HI Hμ. destruct (loop n body a) as [a'|b] eqn:E; [|eauto].
  exfalso. apply loop_continue in E.
  assert (∀ k x y, loop_steps body k x y → I x → k ≤ μ x) as Hk.
  { intros k x y Hs. induction Hs as [|k x y z Hx _ IH]; intros Ix; [lia|].
    destruct (Hdec _ _ Ix Hx) as [Iy ?]. specialize (IH Iy). lia. }
  specialize (Hk _ _ _ E HI). lia.
Qed.
End Loops.

(** A loop inside a transaction body. *)
Definition iteration {S A B} (body : A → M S (step A B)) (a : A * S) : step (A * S) (result B * S) :=
  match body a.1 a.2 with
  | (Ok (Continue a'), s') => Continue (a', s')
  | (Ok (Done b), s') => Done (Ok b, s')
  | (Err e, s') => Done (Err e, s')
  end.

Definition mloop {S A B} (n : nat) (body : A → M S (step A B)) (a : A) : M S B :=
  λ s,
    match loop n (iteration body) (a, s) with
    | Done r => r
    | Continue (_, s') => (Err [], s')
    end.

Lemma mloop_done {S A B} n (body : A → M S (step A B)) a s b :
  loop n (iteration body) (a, s) = Done b → mloop n body a s = b.
Proof. unfold mloop. by intros ->. Qed.

(** ** Machine integers *)
Definition max_uint64 : Z := 2 ^ 64 - 1.
Definition u64 (z : Z) : Z := z mod 2 ^ 64.
Definition i64 (z : Z) : Z := (z + 2 ^ 63) mod 2 ^ 64 - 2 ^ 63.
Definition is_u64 (z : Z) : Prop := (0 ≤ z < 2 ^ 64)%Z.

Lemma u64_small z : is_u64 z → u64 z = z.
Proof. intros [??]. by apply Z.mod_small. Qed.

Lemma i64_small z : (- 2 ^ 63 ≤ z < 2 ^ 63)%Z → i64 z = z.
Proof. intros. unfold i64. rewrite Z.mod_small; lia. Qed.

#[export] Instance is_u64_dec z : Decision (is_u64 z).
Proof. unfold is_u64. apply _. Defined.

(** ** Finite maps *)
Lemma map_size_delete_le {K A} `{Countable K} (i : K) (m : gmap K A) : size (delete i m) ≤ size m.
Proof. apply map_subseteq_size, delete_subseteq. Qed.
