(* ===== verification/GoStd.v ===== *)
(** * What the source uses of Go's standard library

    Byte slices are lists of [Byte.byte], strings are [string] (a Go string is a sequence of bytes).
    [encoding/base64]'s [RawURLEncoding.Strict()] and [strconv]'s decimal conversions are written
    out; time is a number of nanoseconds since the Unix epoch. *)

From stdpp Require Import base list gmap strings pretty.
From Stdlib Require Import ZArith Lia Ascii Strings.Byte.
From Stdlib Require String.
From S2P Require Import Prelude.
Local Open Scope Z_scope.

(** ** Bytes *)
Notation bytes := (list byte).

#[export] Instance byte_eq_dec : EqDecision byte := Byte.byte_eq_dec.

Definition byte_Z (b : byte) : Z := Z.of_N (Byte.to_N b).
Definition byte_of_Z (z : Z) : byte :=
  match Byte.of_N (Z.to_N (z mod 256)) with Some b => b | None => x00 end.

(** [[]byte(s)] and [string(b)]. *)
Notation bytes_of := String.list_byte_of_string.
Notation string_of := String.string_of_list_byte.

(** ** Base64, URL alphabet, no padding, strict *)
Definition alphabet : string :=
  "ABCDEFGHIJKLMNOPQRSTUVWXYZabcdefghijklmnopqrstuvwxyz0123456789-_".

Definition enc_char (v : Z) : ascii :=
  default Ascii.zero (String.get (Z.to_nat (Z.land v 63)) alphabet).

Definition dec_char (c : ascii) : option Z :=
  let n := Z.of_N (N_of_ascii c) in
  if decide (65 ≤ n ≤ 90) then Some (n - 65)
  else if decide (97 ≤ n ≤ 122) then Some (n - 71)
  else if decide (48 ≤ n ≤ 57) then Some (n + 4)
  else if decide (n = 45) then Some 62
  else if decide (n = 95) then Some 63
  else None.

(** [RawURLEncoding.EncodeToString]. *)
Fixpoint EncodeToString (bs : bytes) : string :=
  match bs with
  | [] => ""
  | [a] =>
      let v := Z.shiftl (byte_Z a) 16 in
      String (enc_char (Z.shiftr v 18)) (String (enc_char (Z.shiftr v 12)) "")
  | [a; b] =>
      let v := Z.shiftl (byte_Z a) 16 + Z.shiftl (byte_Z b) 8 in
      String (enc_char (Z.shiftr v 18)) (String (enc_char (Z.shiftr v 12))
        (String (enc_char (Z.shiftr v 6)) ""))
  | a :: b :: c :: rest =>
      let v := Z.shiftl (byte_Z a) 16 + Z.shiftl (byte_Z b) 8 + byte_Z c in
      String (enc_char (Z.shiftr v 18)) (String (enc_char (Z.shiftr v 12))
        (String (enc_char (Z.shiftr v 6)) (String (enc_char v) (EncodeToString rest))))
  end.

(** The decoder proper, on text without line breaks.  A single trailing character is an error, and
    so are trailing bits that are not zero ([Strict]). *)
Fixpoint decode_quads (s : string) : option bytes :=
  match s with
  | "" => Some []
  | String c0 "" => None
  | String c0 (String c1 "") =>
      v0 ← dec_char c0; v1 ← dec_char c1;
      let v := Z.shiftl v0 18 + Z.shiftl v1 12 in
      if decide (Z.land v 65535 = 0) then Some [byte_of_Z (Z.shiftr v 16)] else None
  | String c0 (String c1 (String c2 "")) =>
      v0 ← dec_char c0; v1 ← dec_char c1; v2 ← dec_char c2;
      let v := Z.shiftl v0 18 + Z.shiftl v1 12 + Z.shiftl v2 6 in
      if decide (Z.land v 255 = 0)
      then Some [byte_of_Z (Z.shiftr v 16); byte_of_Z (Z.shiftr v 8)] else None
  | String c0 (String c1 (String c2 (String c3 rest))) =>
      v0 ← dec_char c0; v1 ← dec_char c1; v2 ← dec_char c2; v3 ← dec_char c3;
      let v := Z.shiftl v0 18 + Z.shiftl v1 12 + Z.shiftl v2 6 + v3 in
      tail ← decode_quads rest;
      Some (byte_of_Z (Z.shiftr v 16) :: byte_of_Z (Z.shiftr v 8) :: byte_of_Z v :: tail)
  end.

Definition is_newline (c : ascii) : bool :=
  bool_decide (N_of_ascii c = 13%N ∨ N_of_ascii c = 10%N).

Fixpoint drop_newlines (s : string) : string :=
  match s with
  | "" => ""
  | String c s => if is_newline c then drop_newlines s else String c (drop_newlines s)
  end.

(** [base64.RawURLEncoding.Strict().DecodeString]: line breaks are skipped, anywhere. *)
Definition DecodeString (s : string) : option bytes := decode_quads (drop_newlines s).

(** [strings.ContainsAny(value, "\r\n")]. *)
Fixpoint contains_newline (s : string) : bool :=
  match s with "" => false | String c s => is_newline c || contains_newline s end.

(** ** Decimal conversions of [strconv] *)
Definition FormatUint (v : Z) : string := pretty (Z.to_N v).

Definition digit_value (c : ascii) : option Z :=
  let n := Z.of_N (N_of_ascii c) in
  if decide (48 ≤ n ≤ 57) then Some (n - 48) else None.

Fixpoint parse_digits (s : string) (acc : Z) : option Z :=
  match s with
  | "" => Some acc
  | String c s => d ← digit_value c; parse_digits s (acc * 10 + d)
  end.

(** [strconv.ParseUint(s, 10, bitSize)]. *)
Definition ParseUint (s : string) (bitSize : Z) : option Z :=
  if decide (s = "") then None
  else v ← parse_digits s 0; if decide (v < 2 ^ bitSize) then Some v else None.

(** ** Strings *)
Fixpoint str_forall (p : ascii → bool) (s : string) : bool :=
  match s with "" => true | String c s => p c && str_forall p s end.

Fixpoint str_count (p : ascii → bool) (s : string) : nat :=
  match s with "" => 0%nat | String c s => ((if p c then 1 else 0) + str_count p s)%nat end.

(** [strings.Split(s, sep)] for a one-byte separator. *)
Fixpoint Split (sep : ascii) (s : string) : list string :=
  match s with
  | "" => [""]
  | String c s =>
      if decide (c = sep) then "" :: Split sep s
      else match Split sep s with
           | [] => [String c ""]
           | w :: ws => String c w :: ws
           end
  end.

(** ** Maps

    [range] visits the entries of a map in an order the language leaves open.  The order is a
    parameter: [range_map] lists the entries in some order, and every definition that ranges over a
    map goes through it. *)
Class MapRange := {
  range_map {K A} `{Countable K} : gmap K A → list (K * A);
  range_map_perm {K A} `{Countable K} (m : gmap K A) : range_map m ≡ₚ map_to_list m;
}.

(** The order stdpp's maps list their entries in, for evaluation. *)
#[export] Instance default_range : MapRange :=
  {| range_map := λ K A _ _ m, map_to_list m; range_map_perm := λ K A _ _ m, Permutation_refl _ |}.

(** ** Time *)
Notation time := Z (only parsing).
Definition second : Z := 1000000000.
Definition minute : Z := 60 * second.
(** The zero value of [time.Time]: 1 January of year 1. *)
Definition zero_time : time := -62135596800 * second.

(** [Time.Unix]. *)
Definition unix_seconds (t : time) : Z := t / second.

(** The civil date of a number of days since 1 January 1970, in the proleptic Gregorian calendar, counted
    in 400-year eras of years that begin in March. *)
Definition civil (days : Z) : Z * Z * Z :=
  let z := days + 719468 in
  let era := z / 146097 in
  let doe := z mod 146097 in
  let yoe := (doe - doe / 1460 + doe / 36524 - doe / 146096) / 365 in
  let doy := doe - (365 * yoe + yoe / 4 - yoe / 100) in
  let mp := (5 * doy + 2) / 153 in
  let month := if decide (mp < 10) then mp + 3 else mp - 9 in
  (yoe + era * 400 + (if decide (month ≤ 2) then 1 else 0), month, doy - (153 * mp + 2) / 5 + 1).

(** A number with at least [width] decimal digits. *)
Fixpoint zeros (n : nat) : string := match n with O => "" | S n => "0" +:+ zeros n end.
Definition padded (width : nat) (v : Z) : string :=
  let digits := FormatUint (Z.abs v) in
  (if decide (v < 0) then "-" else "") +:+ zeros (width - String.length digits) +:+ digits.

(** [t.UTC().Format(time.RFC3339)]. *)
Definition Format_RFC3339 (t : time) : string :=
  let seconds := unix_seconds t in
  let '(year, month, day) := civil (seconds / 86400) in
  let clock := seconds mod 86400 in
  padded 4 year +:+ "-" +:+ padded 2 month +:+ "-" +:+ padded 2 day +:+ "T" +:+
  padded 2 (clock / 3600) +:+ ":" +:+ padded 2 (clock mod 3600 / 60) +:+ ":" +:+
  padded 2 (clock mod 60) +:+ "Z".

(** ** Runes

    [for _, r := range s]: the UTF-8 decoding of a string, with U+FFFD for every byte that does not
    begin a valid encoding. *)
Definition RuneError : Z := 65533.
Definition ascii_Z (c : ascii) : Z := Z.of_N (N_of_ascii c).
Definition continues (lo hi : Z) (c : ascii) : bool := bool_decide (lo ≤ ascii_Z c ≤ hi).

(** The width of the encoding that [c0] begins, and the range its second byte has to be in. *)
Definition rune_class (c0 : Z) : option (nat * Z * Z) :=
  if decide (194 ≤ c0 ≤ 223) then Some (2%nat, 128, 191)
  else if decide (c0 = 224) then Some (3%nat, 160, 191)
  else if decide (c0 = 237) then Some (3%nat, 128, 159)
  else if decide (225 ≤ c0 ≤ 239) then Some (3%nat, 128, 191)
  else if decide (c0 = 240) then Some (4%nat, 144, 191)
  else if decide (241 ≤ c0 ≤ 243) then Some (4%nat, 128, 191)
  else if decide (c0 = 244) then Some (4%nat, 128, 143)
  else None.

Fixpoint runes (s : string) : list Z :=
  match s with
  | "" => []
  | String c0 s1 =>
      let b0 := ascii_Z c0 in
      if decide (b0 < 128) then b0 :: runes s1
      else
        match rune_class b0, s1 with
        | Some (2%nat, lo, hi), String c1 s2 =>
            if continues lo hi c1 then (Z.land b0 31 * 64 + Z.land (ascii_Z c1) 63) :: runes s2
            else RuneError :: runes s1
        | Some (3%nat, lo, hi), String c1 (String c2 s3) =>
            if continues lo hi c1 && continues 128 191 c2
            then (Z.land b0 15 * 4096 + Z.land (ascii_Z c1) 63 * 64 + Z.land (ascii_Z c2) 63) :: runes s3
            else RuneError :: runes s1
        | Some (4%nat, lo, hi), String c1 (String c2 (String c3 s4)) =>
            if continues lo hi c1 && continues 128 191 c2 && continues 128 191 c3
            then (Z.land b0 7 * 262144 + Z.land (ascii_Z c1) 63 * 4096
                  + Z.land (ascii_Z c2) 63 * 64 + Z.land (ascii_Z c3) 63) :: runes s4
            else RuneError :: runes s1
        | _, _ => RuneError :: runes s1
        end
  end.

(** * Facts *)

Lemma byte_Z_range b : 0 ≤ byte_Z b < 256.
Proof. unfold byte_Z. pose proof (Byte.to_N_bounded b). lia. Qed.

Lemma byte_Z_of_Z z : byte_Z (byte_of_Z z) = z mod 256.
Proof.
  unfold byte_of_Z, byte_Z. pose proof (Z.mod_pos_bound z 256 ltac:(lia)).
  destruct (Byte.of_N (Z.to_N (z mod 256))) as [b|] eqn:E.
  - apply Byte.to_of_N in E. lia.
  - apply Byte.of_N_None_iff in E. lia.
Qed.

Lemma byte_of_byte_Z b : byte_of_Z (byte_Z b) = b.
Proof.
  unfold byte_of_Z. rewrite Z.mod_small by apply byte_Z_range.
  unfold byte_Z. by rewrite N2Z.id, Byte.of_to_N.
Qed.

Lemma byte_Z_inj a b : byte_Z a = byte_Z b → a = b.
Proof. intros H. by rewrite <- (byte_of_byte_Z a), H, byte_of_byte_Z. Qed.

Lemma bytes_of_inj s t : bytes_of s = bytes_of t → s = t.
Proof.
  intros H. rewrite <- (String.string_of_list_byte_of_string s), H.
  apply String.string_of_list_byte_of_string.
Qed.

Lemma dec_enc_char v : 0 ≤ v → dec_char (enc_char v) = Some (v mod 64).
Proof.
  intros Hv. unfold enc_char. change 63 with (Z.ones 6). rewrite Z.land_ones by lia.
  change (2 ^ 6) with 64. pose proof (Z.mod_pos_bound v 64 ltac:(lia)) as Hb.
  set (w := v mod 64) in *. clearbody w. clear v Hv.
  assert (∃ n : nat, w = Z.of_nat n ∧ (n < 64)%nat) as (n & -> & Hn)
    by (exists (Z.to_nat w); lia).
  rewrite Nat2Z.id. clear Hb.
  do 64 (destruct n as [|n]; [reflexivity|]). lia.
Qed.

Lemma enc_char_not_newline v : is_newline (enc_char v) = false.
Proof.
  unfold enc_char. change 63 with (Z.ones 6). rewrite Z.land_ones by lia.
  pose proof (Z.mod_pos_bound v 64 ltac:(lia)) as Hb. change (2 ^ 6) with 64.
  set (w := v mod 64) in *. clearbody w.
  assert (∃ n : nat, w = Z.of_nat n ∧ (n < 64)%nat) as (n & -> & Hn)
    by (exists (Z.to_nat w); lia).
  rewrite Nat2Z.id. clear Hb.
  do 64 (destruct n as [|n]; [reflexivity|]). lia.
Qed.

Lemma list_ind3 {A} (P : list A → Prop) :
  P [] → (∀ a, P [a]) → (∀ a b, P [a; b]) →
  (∀ a b c l, P l → P (a :: b :: c :: l)) → ∀ l, P l.
Proof.
  intros H0 H1 H2 H3. fix IH 1. intros [|a [|b [|c l]]]; [done|done|done|]. apply H3, IH.
Qed.

Local Ltac dlia := Z.to_euclidean_division_equations; lia.

Local Ltac to_div :=
  repeat rewrite ?Z.shiftl_mul_pow2, ?Z.shiftr_div_pow2 by lia;
  change (2 ^ 6) with 64 in *; change (2 ^ 8) with 256 in *; change (2 ^ 12) with 4096 in *;
  change (2 ^ 16) with 65536 in *; change (2 ^ 18) with 262144 in *.

Local Ltac byte_eq := apply byte_Z_inj; rewrite byte_Z_of_Z; to_div.

Lemma decode_quads_encode bs : decode_quads (EncodeToString bs) = Some bs.
Proof.
  induction bs as [|a|a b|a b c rest IH] using list_ind3; cbn [EncodeToString decode_quads].
  - done.
  - pose proof (byte_Z_range a). to_div. rewrite !dec_enc_char by dlia. cbn [mbind option_bind].
    to_div. change 65535 with (Z.ones 16). rewrite Z.land_ones by lia. change (2 ^ 16) with 65536.
    rewrite decide_True by dlia. do 2 f_equal. byte_eq. dlia.
  - pose proof (byte_Z_range a). pose proof (byte_Z_range b).
    to_div. rewrite !dec_enc_char by dlia. cbn [mbind option_bind].
    to_div. change 255 with (Z.ones 8). rewrite Z.land_ones by lia. change (2 ^ 8) with 256.
    rewrite decide_True by dlia. do 3 f_equal; [|f_equal]; byte_eq; dlia.
  - pose proof (byte_Z_range a). pose proof (byte_Z_range b). pose proof (byte_Z_range c).
    rewrite IH. to_div. rewrite !dec_enc_char by dlia. cbn [mbind option_bind].
    to_div. do 2 f_equal; [byte_eq; dlia|]. f_equal; [byte_eq; dlia|]. f_equal. byte_eq; dlia.
Qed.

Lemma contains_newline_encode bs : contains_newline (EncodeToString bs) = false.
Proof.
  induction bs as [|a|a b|a b c rest IH] using list_ind3;
    cbn [EncodeToString contains_newline]; rewrite ?enc_char_not_newline; done.
Qed.

Lemma drop_newlines_none s : contains_newline s = false → drop_newlines s = s.
Proof.
  induction s as [|c s IH]; [done|]. cbn. intros [H1 H2]%orb_false_iff.
  rewrite H1, IH; done.
Qed.

Lemma DecodeString_encode bs : DecodeString (EncodeToString bs) = Some bs.
Proof.
  unfold DecodeString. rewrite drop_newlines_none by apply contains_newline_encode.
  apply decode_quads_encode.
Qed.

#[export] Instance EncodeToString_inj : Inj (=) (=) EncodeToString.
Proof. intros a b H. apply (f_equal DecodeString) in H. rewrite !DecodeString_encode in H. by simplify_eq. Qed.

Lemma FormatUint_inj a b : 0 ≤ a → 0 ≤ b → FormatUint a = FormatUint b → a = b.
Proof. unfold FormatUint. intros ?? ?%(inj pretty). lia. Qed.

Lemma digit_value_pretty (d : N) : (d < 10)%N → digit_value (pretty_N_char d) = Some (Z.of_N d).
Proof.
  intros Hd. assert (∃ n : nat, d = N.of_nat n ∧ (n < 10)%nat) as (n & -> & Hn)
    by (exists (N.to_nat d); lia).
  do 10 (destruct n as [|n]; [reflexivity|]). lia.
Qed.

Lemma parse_digits_go (x : N) s acc :
  0 ≤ acc →
  ∃ k : Z, 0 < k ∧ parse_digits (pretty_N_go x s) acc = parse_digits s (acc * k + Z.of_N x).
Proof.
  revert s acc. induction (N.lt_wf_0 x) as [x _ IH]; intros s acc Hacc.
  destruct (decide (x = 0)%N) as [->|Hx].
  - exists 1. rewrite pretty_N_go_0. split; [lia|f_equal; lia].
  - rewrite pretty_N_go_step by lia.
    destruct (IH (x `div` 10)%N ltac:(apply N.div_lt; lia) (String (pretty_N_char (x `mod` 10)) s) acc Hacc)
      as (k & Hk & ->).
    exists (k * 10). split; [lia|]. cbn [parse_digits].
    rewrite digit_value_pretty by (apply N.mod_lt; lia). cbn [mbind option_bind].
    f_equal. pose proof (N.div_mod' x 10). dlia.
Qed.

Lemma pretty_N_go_nonempty x s : s ≠ "" → pretty_N_go x s ≠ "".
Proof.
  revert s. induction (N.lt_wf_0 x) as [x _ IH]; intros s Hs.
  destruct (decide (x = 0)%N) as [->|Hx]; [by rewrite pretty_N_go_0|].
  rewrite pretty_N_go_step by lia. apply IH; [apply N.div_lt; lia|done].
Qed.

(** [ParseUint] reads back what [FormatUint] wrote. *)
Lemma ParseUint_FormatUint v bits : 0 ≤ v < 2 ^ bits → ParseUint (FormatUint v) bits = Some v.
Proof.
  intros [H0 H1]. unfold ParseUint, FormatUint, pretty, pretty_N.
  destruct (decide (Z.to_N v = 0%N)) as [Hz|Hz].
  - change (parse_digits "0" 0) with (Some 0). cbn [mbind option_bind].
    rewrite decide_False by done. rewrite decide_True; [f_equal|]; lia.
  - rewrite decide_False by (rewrite pretty_N_go_step by lia; by apply pretty_N_go_nonempty).
    destruct (parse_digits_go (Z.to_N v) "" 0 ltac:(lia)) as (k & Hk & ->).
    cbn [parse_digits mbind option_bind]. rewrite decide_True; [f_equal|]; lia.
Qed.

Lemma parse_digits_nonneg s acc v : 0 ≤ acc → parse_digits s acc = Some v → 0 ≤ v.
Proof.
  revert acc. induction s as [|c s IH]; cbn; intros acc Hacc H; [by simplify_eq|].
  unfold digit_value in H. case_decide; [|done]. cbn in H. eapply IH; [|done]. lia.
Qed.

Lemma ParseUint_range s bits v : ParseUint s bits = Some v → 0 ≤ v < 2 ^ bits.
Proof.
  unfold ParseUint. case_decide; [done|].
  destruct (parse_digits s 0) as [w|] eqn:E; cbn; [|done]. case_decide; [|done].
  intros; simplify_eq. split; [|done]. eapply parse_digits_nonneg; [|done]. lia.
Qed.

Lemma length_bytes_of s : length (bytes_of s) = String.length s.
Proof. induction s as [|c s IH]; simpl; [done|]. f_equal. exact IH. Qed.

Section Ranges.
Context `{MapRange} {K A : Type} `{Countable K}.
Implicit Types m : gmap K A.

Lemma elem_of_range_map m k v : (k, v) ∈ range_map m ↔ m !! k = Some v.
Proof. by rewrite range_map_perm, elem_of_map_to_list. Qed.

Lemma NoDup_range_map m : NoDup (range_map m).*1.
Proof. rewrite range_map_perm. apply NoDup_fst_map_to_list. Qed.

Lemma length_range_map m : length (range_map m) = size m.
Proof. by rewrite range_map_perm, length_map_to_list. Qed.
End Ranges.
