(* ===== verification/Canonical.v ===== *)
(** * Canonical encoding: internal/syncproto/canonical.go and constants.go

    Length-prefixed byte strings that are hashed and signed, the strict base64url fields, and the
    identifier pattern.  SHA-256 and Ed25519 are a parameter of the whole development: the class
    [Crypto] holds the functions and the documented facts about them that the code relies on. *)

From stdpp Require Import base list gmap strings pretty.
From Stdlib Require Import ZArith Lia Ascii Strings.Byte.
From Stdlib Require String.
From S2P Require Import Prelude GoStd.
Local Open Scope Z_scope.
Local Open Scope go_scope.

(** ** Cryptography used by the code (crypto/sha256 and crypto/ed25519) *)
Class Crypto := {
  sha256 : bytes → bytes;
  ed25519_Verify : bytes → bytes → bytes → bool;
  ed25519_Sign : bytes → bytes → bytes;
  ed25519_Public : bytes → bytes;
  sha256_length m : length (sha256 m) = 32%nat;
  ed25519_Sign_length key m : length (ed25519_Sign key m) = 64%nat;
  ed25519_Public_length key : length key = 64%nat → length (ed25519_Public key) = 32%nat;
  ed25519_Verify_Sign key m :
    length key = 64%nat → ed25519_Verify (ed25519_Public key) m (ed25519_Sign key m) = true;
}.

(** Two different messages with the same digest. *)
Definition collision `{Crypto} : Prop := ∃ x y, x ≠ y ∧ sha256 x = sha256 y.

(** ** Constants *)
Definition MaxCiphertextBytes : Z := 10 * 1024 * 1024.
Definition XChaChaNonceBytes : Z := 24.
Definition Ed25519SignatureBytes : Z := 64.
Definition Ed25519PublicKeyBytes : Z := 32.
Definition X25519PublicKeyBytes : Z := 32.
Definition XWingPublicKeyBytes : Z := 1216.
Definition MaxEncryptedKeyPackageBytes : Z := 64 * 1024.
Definition MaxDevicesPerVault : Z := 10.
Definition VersionV3 : Z := 3.
Definition LabelDeviceList : string := "sesame-sync-v3-devicelist".
Definition LabelDeviceListDigest : string := "sesame-sync-v3-devicelist-digest".
Definition LabelHeader : string := "sesame-sync-v3-header".
Definition LabelHeaderDigest : string := "sesame-sync-v3-header-digest".
Definition LabelRequest : string := "sesame-sync-v3-request".
Definition LabelReceipt : string := "sesame-sync-v3-receipt".
Definition LabelAAD : string := "sesame-sync-v3-aad".
Definition DigestBytes : Z := 32.
Definition MaxSealedLabelBytes : Z := 256.
Definition MinSealedLabelBytes : Z := 40.
Definition RequestNonceBytes : Z := 16.
Definition MaxHeaderRetention : Z := 10000.
Definition RequestTimestampSkew : Z := 5 * 60.
Definition RequestNonceRetention : Z := 2 * RequestTimestampSkew + 60.

(** ** Identifiers: [^[A-Za-z0-9_-]{16,128}$] *)
Definition id_char (c : ascii) : bool :=
  let n := Z.of_N (N_of_ascii c) in
  bool_decide (65 ≤ n ≤ 90 ∨ 97 ≤ n ≤ 122 ∨ 48 ≤ n ≤ 57 ∨ n = 95 ∨ n = 45).
Definition opaqueID (s : string) : bool :=
  bool_decide (16 ≤ Z.of_nat (String.length s) ≤ 128) && str_forall id_char s.

(** ** The writer *)
(** The loop of [writeUint64] fills the array from its last byte. *)
Fixpoint be_bytes (n : nat) (value : Z) (out : bytes) : bytes :=
  match n with
  | O => out
  | S n => be_bytes n (Z.shiftr value 8) (byte_of_Z value :: out)
  end.
Definition writeUint64 (value : Z) : bytes := be_bytes 8 value [].

Notation canonical := bytes (only parsing).

Definition add (part : bytes) (c : canonical) : canonical :=
  c ++ writeUint64 (u64 (Z.of_nat (length part))) ++ part.
Definition text (value : string) (c : canonical) : canonical := add (bytes_of value) c.
Definition number (value : Z) (c : canonical) : canonical := text (FormatUint value) c.
Definition newCanonical (label : string) : canonical := text label [].
Notation "c '.>' f" := (f c) (at level 50, left associativity, only parsing) : go_scope.

Section Canonical.
Context `{Crypto}.

Definition digest (c : canonical) : string := EncodeToString (sha256 c).

(** ** Strict base64url fields *)
Definition decodeCanonical (value : string) (len : Z) : result bytes :=
  check rfail_if (contains_newline value = true) [];
  match DecodeString value with
  | None => Err []
  | Some decoded =>
      check rfail_if (Z.of_nat (length decoded) ≠ len) [];
      check rfail_if (EncodeToString decoded ≠ value) [];
      Ok decoded
  end.

Fixpoint decodeCanonicalOneOf (value : string) (lengths : list Z) : result bytes :=
  match lengths with
  | [] => Err []
  | len :: lengths =>
      match decodeCanonical value len with
      | Ok decoded => Ok decoded
      | Err _ => decodeCanonicalOneOf value lengths
      end
  end.

Definition decodeCanonicalRange (value : string) (minimum maximum : Z) : result bytes :=
  check rfail_if (contains_newline value = true) [];
  match DecodeString value with
  | None => Err []
  | Some decoded =>
      check rfail_if (Z.of_nat (length decoded) < minimum ∨ Z.of_nat (length decoded) > maximum) [];
      check rfail_if (EncodeToString decoded ≠ value) [];
      Ok decoded
  end.

Definition validDigest (value : string) : bool := is_ok (decodeCanonical value DigestBytes).

Definition checkedNext (value : Z) : option Z :=
  if decide (value = max_uint64) then None else Some (u64 (value + 1)).
End Canonical.

(** * Facts *)

Lemma be_bytes_app n v out : be_bytes n v out = be_bytes n v [] ++ out.
Proof.
  revert v out. induction n as [|n IH]; intros v out; cbn; [done|].
  rewrite IH, (IH _ [byte_of_Z v]), <- app_assoc. done.
Qed.

Lemma length_be_bytes n v : length (be_bytes n v []) = n.
Proof.
  revert v. induction n as [|n IH]; intros v; cbn; [done|].
  rewrite be_bytes_app, length_app, IH. cbn. lia.
Qed.

Lemma be_bytes_inj n v w :
  0 ≤ v < 2 ^ (8 * Z.of_nat n) → 0 ≤ w < 2 ^ (8 * Z.of_nat n) →
  be_bytes n v [] = be_bytes n w [] → v = w.
Proof.
  revert v w. induction n as [|n IH]; intros v w Hv Hw E; [cbn in *; lia|].
  cbn [be_bytes] in E. rewrite be_bytes_app, (be_bytes_app n (Z.shiftr w 8)) in E.
  apply app_inj_tail_iff in E as [E1 E2].
  apply (f_equal byte_Z) in E2. rewrite !byte_Z_of_Z in E2.
  rewrite !Z.shiftr_div_pow2 in E1 by lia. change (2 ^ 8) with 256 in *.
  assert (2 ^ (8 * Z.of_nat (S n)) = 256 * 2 ^ (8 * Z.of_nat n)) as Hp.
  { replace (8 * Z.of_nat (S n)) with (8 + 8 * Z.of_nat n) by lia.
    rewrite Z.pow_add_r by lia. done. }
  rewrite Hp in *.
  apply IH in E1; [|split; [apply Z.div_pos; lia|apply Z.div_lt_upper_bound; lia]..].
  rewrite (Z.div_mod v 256), (Z.div_mod w 256) by lia. congruence.
Qed.

(** The parts a writer can hold: Go slices are far shorter than 2^64 bytes. *)
Definition sized (p : bytes) : Prop := Z.of_nat (length p) < 2 ^ 64.
Definition ssized (s : string) : Prop := sized (bytes_of s).

Definition frame (part : bytes) : bytes := writeUint64 (u64 (Z.of_nat (length part))) ++ part.
Definition frames (parts : list bytes) : bytes := concat (map frame parts).

Lemma frames_nil : frames [] = [].
Proof. done. Qed.

Lemma add_frames part parts : add part (frames parts) = frames (parts ++ [part]).
Proof. unfold add, frames. rewrite map_app, concat_app. cbn. by rewrite app_nil_r. Qed.

Lemma frame_app_inj p q x y :
  sized p → sized q → frame p ++ x = frame q ++ y → p = q ∧ x = y.
Proof.
  unfold frame, writeUint64, sized. intros Hp Hq E. rewrite <- !app_assoc in E.
  apply app_inj_1 in E as [E1 E2]; [|by rewrite !length_be_bytes].
  rewrite !u64_small in E1 by (split; lia).
  apply be_bytes_inj in E1; [|lia|lia].
  apply app_inj_1 in E2; [done|lia].
Qed.

Lemma frame_nonempty p x : frame p ++ x ≠ [].
Proof.
  intros E%(f_equal length). revert E. unfold frame, writeUint64.
  rewrite !length_app, length_be_bytes. cbn. lia.
Qed.

(** The length prefixes make the encoding of a sequence of parts unambiguous. *)
Lemma frames_inj ps qs :
  Forall sized ps → Forall sized qs → frames ps = frames qs → ps = qs.
Proof.
  intros Hp. revert qs. induction Hp as [|p ps Hp _ IH]; intros qs Hq E.
  - destruct Hq as [|q qs ? ?]; [done|]. symmetry in E. by apply frame_nonempty in E.
  - destruct Hq as [|q qs Hq Hqs]; [by apply frame_nonempty in E|].
    unfold frames in E. cbn in E. apply frame_app_inj in E as [-> E]; [|done|done].
    f_equal. by apply IH.
Qed.

Lemma digest_inj `{Crypto} c1 c2 : digest c1 = digest c2 → c1 = c2 ∨ collision.
Proof.
  unfold digest. intros E%(inj EncodeToString).
  destruct (decide (c1 = c2)); [by left|right]. by exists c1, c2.
Qed.

(** [decodeCanonical] accepts exactly the one encoding of a byte string of the wanted length. *)
Lemma decodeCanonical_ok value len d :
  decodeCanonical value len = Ok d ↔ value = EncodeToString d ∧ Z.of_nat (length d) = len.
Proof.
  unfold decodeCanonical. split.
  - intros H. go_inv H. split; [|lia]. symmetry. by apply dec_stable.
  - intros [-> Hl]. unfold rfail_if at 1. rewrite contains_newline_encode. cbn [rbind decide].
    destruct (decide (false = true)); [done|]. cbn [rbind].
    rewrite DecodeString_encode. unfold rfail_if.
    rewrite decide_False by lia. cbn [rbind]. by rewrite decide_False by (intros []; done).
Qed.

Lemma decodeCanonicalRange_ok value lo hi d :
  decodeCanonicalRange value lo hi = Ok d ↔
  value = EncodeToString d ∧ lo ≤ Z.of_nat (length d) ≤ hi.
Proof.
  unfold decodeCanonicalRange. split.
  - intros H. go_inv H. split; [|lia]. symmetry. by apply dec_stable.
  - intros [-> Hl]. unfold rfail_if at 1. rewrite contains_newline_encode.
    destruct (decide (false = true)); [done|]. cbn [rbind].
    rewrite DecodeString_encode. unfold rfail_if.
    rewrite decide_False by lia. cbn [rbind]. by rewrite decide_False by (intros []; done).
Qed.

Lemma decodeCanonicalOneOf_ok value lens d :
  decodeCanonicalOneOf value lens = Ok d ↔
  value = EncodeToString d ∧ Z.of_nat (length d) ∈ lens.
Proof.
  induction lens as [|len lens IH]; cbn.
  - split; [done|]. by intros [_ ?%not_elem_of_nil].
  - destruct (decodeCanonical value len) as [d'|e] eqn:E.
    + apply decodeCanonical_ok in E as [-> E]. split.
      * intros Hd. injection Hd as <-. split; [done|]. rewrite E. apply list_elem_of_here.
      * intros [?%(inj EncodeToString) _]. by subst.
    + rewrite IH. split; intros [-> Hin]; (split; [done|]).
      * by apply list_elem_of_further.
      * apply elem_of_cons in Hin as [Hin|Hin]; [|done].
        exfalso. assert (decodeCanonical (EncodeToString d) len = Ok d) as E'
          by (by apply decodeCanonical_ok). congruence.
Qed.

Lemma validDigest_digest `{Crypto} c : validDigest (digest c) = true.
Proof.
  unfold validDigest, digest.
  assert (decodeCanonical (EncodeToString (sha256 c)) DigestBytes = Ok (sha256 c)) as ->; [|done].
  apply decodeCanonical_ok. split; [done|]. by rewrite sha256_length.
Qed.

Lemma validDigest_true value :
  validDigest value = true → ∃ d, value = EncodeToString d ∧ length d = 32%nat.
Proof.
  unfold validDigest. destruct (decodeCanonical value DigestBytes) as [d|] eqn:E; [|done].
  apply decodeCanonical_ok in E as [-> E]. intros _. exists d. unfold DigestBytes in E. split; [done|lia].
Qed.

Lemma checkedNext_Some v n : is_u64 v → checkedNext v = Some n ↔ n = v + 1 ∧ v < max_uint64.
Proof.
  unfold checkedNext, max_uint64, is_u64. intros Hv. case_decide.
  - split; [done|lia].
  - rewrite u64_small by (unfold is_u64; lia). split; [|intros [-> _]; done].
    intros; simplify_eq. lia.
Qed.

(** ** Field lengths *)
Lemma length_EncodeToString bs : (String.length (EncodeToString bs) ≤ 2 * length bs)%nat.
Proof. induction bs as [|a|a b|a b c rest IH] using list_ind3; cbn in *; lia. Qed.

Lemma length_pretty_go (x : N) s :
  (String.length (pretty_N_go x s) ≤ N.to_nat x + String.length s)%nat.
Proof.
  revert s. induction (N.lt_wf_0 x) as [x _ IH]; intros s.
  destruct (decide (x = 0)%N) as [->|Hx]; [by rewrite pretty_N_go_0|].
  rewrite pretty_N_go_step by lia.
  etrans; [apply IH; apply N.div_lt; lia|]. cbn [String.length].
  pose proof (N.div_lt x 10 ltac:(lia) ltac:(lia)). lia.
Qed.

Lemma ssized_FormatUint v : is_u64 v → ssized (FormatUint v).
Proof.
  intros [??]. unfold ssized, sized, FormatUint, pretty, pretty_N. rewrite length_bytes_of.
  case_decide; [cbn; lia|]. pose proof (length_pretty_go (Z.to_N v) "") as Hl. cbn [String.length] in Hl. lia.
Qed.

Lemma ssized_encode bs : Z.of_nat (length bs) < 2 ^ 32 → ssized (EncodeToString bs).
Proof.
  intros. unfold ssized, sized. rewrite length_bytes_of.
  pose proof (length_EncodeToString bs). lia.
Qed.

Lemma ssized_short s : Z.of_nat (String.length s) < 2 ^ 32 → ssized s.
Proof. intros. unfold ssized, sized. rewrite length_bytes_of. lia. Qed.

Lemma opaqueID_length s : opaqueID s = true → 16 ≤ Z.of_nat (String.length s) ≤ 128.
Proof. unfold opaqueID. by intros [H%bool_decide_eq_true _]%andb_true_iff. Qed.

Lemma ssized_opaqueID s : opaqueID s = true → ssized s.
Proof. intros ?%opaqueID_length. apply ssized_short. lia. Qed.
