(* ===== verification/DeviceList.v ===== *)
(** * The signed device list: internal/syncproto/devicelist.go *)

From stdpp Require Import base list gmap strings.
From Stdlib Require Import ZArith Lia Strings.Byte.
From S2P Require Import Prelude GoStd Canonical.
Local Open Scope Z_scope.
Local Open Scope go_scope.

Definition EntryCreate : string := "create".
Definition EntryAdd : string := "add".
Definition EntryRemove : string := "remove".
Definition EntryKey : string := "key".
Definition EntryRotate : string := "rotate".

Record DeviceListEntry := {
  e_VaultID : string;
  e_Index : Z;
  e_PreviousDigest : string;
  e_Kind : string;
  e_SignerDeviceID : string;
  e_SubjectDeviceID : string;
  e_SubjectSigningKey : string;
  e_SubjectPackageKey : string;
  e_SealedLabel : string;
  e_EpochAfter : Z;
  e_SnapshotFloor : Z;
  e_Signature : string;
}.

#[export] Instance DeviceListEntry_eq_dec : EqDecision DeviceListEntry.
Proof. solve_decision. Defined.

Definition entry_fields (entry : DeviceListEntry) (label : string) : canonical :=
  newCanonical label
    .> text (e_VaultID entry)
    .> number (e_Index entry)
    .> text (e_PreviousDigest entry)
    .> text (e_Kind entry)
    .> text (e_SignerDeviceID entry)
    .> text (e_SubjectDeviceID entry)
    .> text (e_SubjectSigningKey entry)
    .> text (e_SubjectPackageKey entry)
    .> text (e_SealedLabel entry)
    .> number (e_EpochAfter entry)
    .> number (e_SnapshotFloor entry).

Definition entry_SigningPayload (entry : DeviceListEntry) : bytes :=
  entry_fields entry LabelDeviceList.

(** [DeviceListEntry.Validate]. *)
Definition entry_Validate (entry : DeviceListEntry) : result unit :=
  let invalid := [ErrDeviceListInvalid] in
  check rfail_if (opaqueID (e_VaultID entry) = false ∨ opaqueID (e_SignerDeviceID entry) = false
                  ∨ opaqueID (e_SubjectDeviceID entry) = false) invalid;
  check rfail_if (e_Index entry = 0 ∨ e_EpochAfter entry = 0) invalid;
  check rfail_if (bool_decide (e_Index entry = 1) ≠ bool_decide (e_PreviousDigest entry = "")) invalid;
  check rfail_if (e_PreviousDigest entry ≠ "" ∧ validDigest (e_PreviousDigest entry) = false) invalid;
  check
    (if decide (e_Kind entry = EntryCreate ∨ e_Kind entry = EntryAdd) then
       let? _ := orelse invalid (decodeCanonical (e_SubjectSigningKey entry) Ed25519PublicKeyBytes) in
       let? _ := orelse invalid
                   (decodeCanonicalOneOf (e_SubjectPackageKey entry)
                      [X25519PublicKeyBytes; XWingPublicKeyBytes]) in
       let? _ := orelse invalid
                   (decodeCanonicalRange (e_SealedLabel entry) MinSealedLabelBytes MaxSealedLabelBytes) in
       Ok tt
     else if decide (e_Kind entry = EntryRemove) then
       rfail_if (e_SubjectSigningKey entry ≠ "" ∨ e_SubjectPackageKey entry ≠ ""
                 ∨ e_SealedLabel entry ≠ "") invalid
     else if decide (e_Kind entry = EntryKey) then
       check rfail_if (e_SignerDeviceID entry ≠ e_SubjectDeviceID entry
                       ∨ e_SubjectSigningKey entry ≠ "" ∨ e_SealedLabel entry ≠ "") invalid;
       let? _ := orelse invalid (decodeCanonical (e_SubjectPackageKey entry) XWingPublicKeyBytes) in
       Ok tt
     else if decide (e_Kind entry = EntryRotate) then
       rfail_if (e_SignerDeviceID entry ≠ e_SubjectDeviceID entry ∨ e_SubjectSigningKey entry ≠ ""
                 ∨ e_SubjectPackageKey entry ≠ "" ∨ e_SealedLabel entry ≠ "") invalid
     else Err invalid);
  check rfail_if (e_Kind entry ≠ EntryAdd ∧ e_SnapshotFloor entry ≠ 0) invalid;
  let? _ := orelse invalid (decodeCanonical (e_Signature entry) Ed25519SignatureBytes) in
  Ok tt.

Record packageKeyChange := { pc_index : Z; pc_previous : string }.

Record DeviceListMember := {
  m_DeviceID : string;
  m_SigningKey : string;
  m_PackageKey : string;
  m_SealedLabel : string;
  m_AddedIndex : Z;
  m_RemovedIndex : Z;
  m_replaced : list packageKeyChange;
}.

Definition set_m_RemovedIndex (index : Z) (m : DeviceListMember) : DeviceListMember :=
  {| m_DeviceID := m_DeviceID m; m_SigningKey := m_SigningKey m; m_PackageKey := m_PackageKey m;
     m_SealedLabel := m_SealedLabel m; m_AddedIndex := m_AddedIndex m;
     m_RemovedIndex := index; m_replaced := m_replaced m |}.
Definition set_m_PackageKey (key : string) (m : DeviceListMember) : DeviceListMember :=
  {| m_DeviceID := m_DeviceID m; m_SigningKey := m_SigningKey m; m_PackageKey := key;
     m_SealedLabel := m_SealedLabel m; m_AddedIndex := m_AddedIndex m;
     m_RemovedIndex := m_RemovedIndex m; m_replaced := m_replaced m |}.
Definition set_m_replaced (changes : list packageKeyChange) (m : DeviceListMember) : DeviceListMember :=
  {| m_DeviceID := m_DeviceID m; m_SigningKey := m_SigningKey m; m_PackageKey := m_PackageKey m;
     m_SealedLabel := m_SealedLabel m; m_AddedIndex := m_AddedIndex m;
     m_RemovedIndex := m_RemovedIndex m; m_replaced := changes |}.

(** [DeviceListMember.memberAt]. *)
Definition memberAt (m : DeviceListMember) (index : Z) : bool :=
  bool_decide (m_AddedIndex m ≤ index ∧ (m_RemovedIndex m = 0 ∨ index < m_RemovedIndex m)).

Record DeviceList := {
  l_vaultID : string;
  l_members : gmap string DeviceListMember;
  l_digests : list string;
  l_epochs : list Z;
}.

Definition VaultID (l : DeviceList) : string := l_vaultID l.
Definition Head (l : DeviceList) : Z := u64 (Z.of_nat (length (l_digests l))).
Definition HeadDigest (l : DeviceList) : string := default "" (last (l_digests l)).
Definition Epoch (l : DeviceList) : Z := default 0 (last (l_epochs l)).

(** [list.digests[index-1]] with the zero value outside the list. *)
Definition DigestAt (l : DeviceList) (index : Z) : string * bool :=
  if decide (index = 0 ∨ index > u64 (Z.of_nat (length (l_digests l)))) then ("", false)
  else (default "" (l_digests l !! Z.to_nat (index - 1)), true).

Definition EpochAt (l : DeviceList) (index : Z) : Z * bool :=
  if decide (index = 0 ∨ index > u64 (Z.of_nat (length (l_epochs l)))) then (0, false)
  else (default 0 (l_epochs l !! Z.to_nat (index - 1)), true).

Definition Member (l : DeviceList) (deviceID : string) : option DeviceListMember :=
  l_members l !! deviceID.

(** The loop of [MemberAt]: the first replacement after [index] gives the key in use then. *)
Fixpoint package_key_at (changes : list packageKeyChange) (current : string) (index : Z) : string :=
  match changes with
  | [] => current
  | change :: changes =>
      if decide (index < pc_index change) then pc_previous change
      else package_key_at changes current index
  end.

Definition MemberAt (l : DeviceList) (deviceID : string) (index : Z) : option DeviceListMember :=
  match l_members l !! deviceID with
  | Some m =>
      if memberAt m index
      then Some (set_m_PackageKey (package_key_at (m_replaced m) (m_PackageKey m) index) m)
      else None
  | None => None
  end.

Definition Current `{MapRange} (l : DeviceList) : list DeviceListMember :=
  filter (λ m, m_RemovedIndex m = 0) (range_map (l_members l)).*2.

Definition Clone (l : DeviceList) : DeviceList :=
  {| l_vaultID := l_vaultID l; l_members := l_members l; l_digests := l_digests l;
     l_epochs := l_epochs l |}.

Definition NewDeviceList : DeviceList :=
  {| l_vaultID := ""; l_members := ∅; l_digests := []; l_epochs := [] |}.

Definition memberFromEntry (entry : DeviceListEntry) : DeviceListMember :=
  {| m_DeviceID := e_SubjectDeviceID entry; m_SigningKey := e_SubjectSigningKey entry;
     m_PackageKey := e_SubjectPackageKey entry; m_SealedLabel := e_SealedLabel entry;
     m_AddedIndex := e_Index entry; m_RemovedIndex := 0; m_replaced := [] |}.

Section DeviceList.
Context `{Crypto} `{MapRange}.

Definition entry_Digest (entry : DeviceListEntry) : string :=
  digest (entry_fields entry LabelDeviceListDigest .> text (e_Signature entry)).

Definition verifyEntrySignature (entry : DeviceListEntry) (encodedKey : string) : result unit :=
  let? key := orelse [ErrDeviceListBroken] (decodeCanonical encodedKey Ed25519PublicKeyBytes) in
  let? signature := orelse [ErrDeviceListBroken]
                      (decodeCanonical (e_Signature entry) Ed25519SignatureBytes) in
  rfail_if (ed25519_Verify key (entry_SigningPayload entry) signature = false) [ErrDeviceListBroken].

(** [DeviceList.append]. *)
Definition list_append (l : DeviceList) (entry : DeviceListEntry) (epoch : Z) : DeviceList :=
  {| l_vaultID := l_vaultID l; l_members := l_members l;
     l_digests := l_digests l ++ [entry_Digest entry]; l_epochs := l_epochs l ++ [epoch] |}.

Definition set_member (id : string) (m : DeviceListMember) (l : DeviceList) : DeviceList :=
  {| l_vaultID := l_vaultID l; l_members := <[id := m]> (l_members l);
     l_digests := l_digests l; l_epochs := l_epochs l |}.

Definition extendCreate (l : DeviceList) (entry : DeviceListEntry) : result DeviceList :=
  check rfail_if (e_Kind entry ≠ EntryCreate ∨ e_SignerDeviceID entry ≠ e_SubjectDeviceID entry
                  ∨ e_EpochAfter entry ≠ 1 ∨ e_SnapshotFloor entry ≠ 0) [ErrDeviceListBroken];
  check verifyEntrySignature entry (e_SubjectSigningKey entry);
  let l := {| l_vaultID := e_VaultID entry; l_members := l_members l;
              l_digests := l_digests l; l_epochs := l_epochs l |} in
  Ok (list_append (set_member (e_SubjectDeviceID entry) (memberFromEntry entry) l) entry 1).

Definition extendAdd (l : DeviceList) (entry : DeviceListEntry) : result DeviceList :=
  check rfail_if (is_Some (l_members l !! e_SubjectDeviceID entry)) [ErrDeviceListBroken];
  check rfail_if (e_EpochAfter entry ≠ Epoch l) [ErrDeviceListBroken];
  check rfail_if (Z.of_nat (length (Current l)) >= MaxDevicesPerVault) [ErrDeviceListBroken];
  Ok (list_append (set_member (e_SubjectDeviceID entry) (memberFromEntry entry) l) entry
        (e_EpochAfter entry)).

Definition extendRemove (l : DeviceList) (entry : DeviceListEntry) : result DeviceList :=
  match l_members l !! e_SubjectDeviceID entry with
  | None => Err [ErrDeviceListBroken]
  | Some subject =>
      check rfail_if (m_RemovedIndex subject ≠ 0) [ErrDeviceListBroken];
      check rfail_if (checkedNext (Epoch l) ≠ Some (e_EpochAfter entry)) [ErrDeviceListBroken];
      Ok (list_append
            (set_member (e_SubjectDeviceID entry) (set_m_RemovedIndex (e_Index entry) subject) l)
            entry (e_EpochAfter entry))
  end.

Definition extendKey (l : DeviceList) (entry : DeviceListEntry) (signer : DeviceListMember)
  : result DeviceList :=
  check rfail_if (e_EpochAfter entry ≠ Epoch l) [ErrDeviceListBroken];
  let? _ := orelse [ErrDeviceListBroken]
              (decodeCanonical (m_PackageKey signer) X25519PublicKeyBytes) in
  let change := {| pc_index := e_Index entry; pc_previous := m_PackageKey signer |} in
  let signer := set_m_replaced (m_replaced signer ++ [change]) signer in
  let signer := set_m_PackageKey (e_SubjectPackageKey entry) signer in
  Ok (list_append (set_member (m_DeviceID signer) signer l) entry (e_EpochAfter entry)).

Definition extendRotate (l : DeviceList) (entry : DeviceListEntry) : result DeviceList :=
  check rfail_if (checkedNext (Epoch l) ≠ Some (e_EpochAfter entry)) [ErrDeviceListBroken];
  Ok (list_append l entry (e_EpochAfter entry)).

Definition Extend (l : DeviceList) (entry : DeviceListEntry) : result DeviceList :=
  check entry_Validate entry;
  check rfail_if (checkedNext (Head l) ≠ Some (e_Index entry)) [ErrDeviceListBroken];
  if decide (e_Index entry = 1) then extendCreate l entry
  else
    check rfail_if (e_VaultID entry ≠ l_vaultID l) [ErrDeviceListBroken];
    check rfail_if (e_PreviousDigest entry ≠ HeadDigest l) [ErrDeviceListBroken];
    match l_members l !! e_SignerDeviceID entry with
    | None => Err [ErrDeviceListBroken]
    | Some signer =>
        check rfail_if (m_RemovedIndex signer ≠ 0) [ErrDeviceListBroken];
        check verifyEntrySignature entry (m_SigningKey signer);
        if decide (e_Kind entry = EntryCreate) then Err [ErrDeviceListBroken]
        else if decide (e_Kind entry = EntryAdd) then extendAdd l entry
        else if decide (e_Kind entry = EntryRemove) then extendRemove l entry
        else if decide (e_Kind entry = EntryKey) then extendKey l entry signer
        else if decide (e_Kind entry = EntryRotate) then extendRotate l entry
        else Err [ErrDeviceListBroken]
    end.

(** The loop of [VerifyDeviceList], from any list. *)
Fixpoint ExtendAll (l : DeviceList) (entries : list DeviceListEntry) : result DeviceList :=
  match entries with
  | [] => Ok l
  | entry :: entries => let? l := Extend l entry in ExtendAll l entries
  end.

Definition VerifyDeviceList (entries : list DeviceListEntry) : result DeviceList :=
  ExtendAll NewDeviceList entries.

Definition SignDeviceListEntry (key : bytes) (entry : DeviceListEntry) : DeviceListEntry :=
  {| e_VaultID := e_VaultID entry; e_Index := e_Index entry;
     e_PreviousDigest := e_PreviousDigest entry; e_Kind := e_Kind entry;
     e_SignerDeviceID := e_SignerDeviceID entry; e_SubjectDeviceID := e_SubjectDeviceID entry;
     e_SubjectSigningKey := e_SubjectSigningKey entry;
     e_SubjectPackageKey := e_SubjectPackageKey entry; e_SealedLabel := e_SealedLabel entry;
     e_EpochAfter := e_EpochAfter entry; e_SnapshotFloor := e_SnapshotFloor entry;
     e_Signature := EncodeToString (ed25519_Sign key (entry_SigningPayload entry)) |}.
End DeviceList.
