(* ===== verification/DeviceListFacts.v ===== *)
(** * What a verified device list guarantees

    Validation bounds every field, each accepted entry is one of five kinds of step, and the list a
    chain of entries builds determines, and is determined by, its history. *)

From stdpp Require Import base list gmap strings.
From Stdlib Require Import ZArith Lia Strings.Byte.
From S2P Require Import Prelude GoStd Canonical DeviceList.
Local Open Scope Z_scope.
Local Open Scope go_scope.

(** ** Validation *)
Record entry_valid (e : DeviceListEntry) : Prop := {
  ev_vault : opaqueID (e_VaultID e) = true;
  ev_signer : opaqueID (e_SignerDeviceID e) = true;
  ev_subject : opaqueID (e_SubjectDeviceID e) = true;
  ev_index : e_Index e ≠ 0;
  ev_epoch : e_EpochAfter e ≠ 0;
  ev_first : e_Index e = 1 ↔ e_PreviousDigest e = "";
  ev_digest : e_PreviousDigest e ≠ "" → validDigest (e_PreviousDigest e) = true;
  ev_kind : e_Kind e ∈ [EntryCreate; EntryAdd; EntryRemove; EntryKey; EntryRotate];
  ev_new : e_Kind e = EntryCreate ∨ e_Kind e = EntryAdd →
    (∃ k, decodeCanonical (e_SubjectSigningKey e) Ed25519PublicKeyBytes = Ok k) ∧
    (∃ k, decodeCanonicalOneOf (e_SubjectPackageKey e)
            [X25519PublicKeyBytes; XWingPublicKeyBytes] = Ok k) ∧
    (∃ k, decodeCanonicalRange (e_SealedLabel e) MinSealedLabelBytes MaxSealedLabelBytes = Ok k);
  ev_remove : e_Kind e = EntryRemove →
    e_SubjectSigningKey e = "" ∧ e_SubjectPackageKey e = "" ∧ e_SealedLabel e = "";
  ev_key : e_Kind e = EntryKey →
    e_SignerDeviceID e = e_SubjectDeviceID e ∧ e_SubjectSigningKey e = "" ∧ e_SealedLabel e = "" ∧
    ∃ k, decodeCanonical (e_SubjectPackageKey e) XWingPublicKeyBytes = Ok k;
  ev_rotate : e_Kind e = EntryRotate →
    e_SignerDeviceID e = e_SubjectDeviceID e ∧ e_SubjectSigningKey e = "" ∧
    e_SubjectPackageKey e = "" ∧ e_SealedLabel e = "";
  ev_floor : e_Kind e ≠ EntryAdd → e_SnapshotFloor e = 0;
  ev_sig : ∃ s, decodeCanonical (e_Signature e) Ed25519SignatureBytes = Ok s;
}.

Lemma not_false_true b : b ≠ false → b = true.
Proof. by destruct b. Qed.

Ltac dstable :=
  repeat match goal with
  | H : ¬ (_ ∨ _) |- _ => apply Decidable.not_or in H; destruct H
  | H : ¬ (?a ≠ ?b) |- _ => apply dec_stable in H
  | H : ¬ (?a = false) |- _ => apply not_false_true in H
  end.

Local Ltac other_kind :=
  unfold EntryCreate, EntryAdd, EntryRemove, EntryKey, EntryRotate in *;
  try solve [ let E := fresh in intros E; exfalso; intuition congruence ].

Lemma entry_Validate_inv e u : entry_Validate e = Ok u → entry_valid e.
Proof.
  intros H. unfold entry_Validate in H.
  apply rbind_ok in H as [u1 [H1 H]]. apply rfail_if_ok in H1.
  apply rbind_ok in H as [u2 [H2 H]]. apply rfail_if_ok in H2.
  apply rbind_ok in H as [u3 [H3 H]]. apply rfail_if_ok in H3.
  apply rbind_ok in H as [u4 [H4 H]]. apply rfail_if_ok in H4.
  apply rbind_ok in H as [u5 [H5 H]].
  apply rbind_ok in H as [u6 [H6 H]]. apply rfail_if_ok in H6.
  apply rbind_ok in H as [s [Hs H]]. apply orelse_ok in Hs.
  dstable.
  assert (e_Index e = 1 ↔ e_PreviousDigest e = "") as Hfirst.
  { rewrite <- (bool_decide_eq_true (e_Index e = 1)), H3. by rewrite bool_decide_eq_true. }
  assert (e_PreviousDigest e ≠ "" → validDigest (e_PreviousDigest e) = true) as Hdig.
  { intros Hne. apply not_false_true. intros Hv. apply H4. done. }
  assert (e_Kind e ≠ EntryAdd → e_SnapshotFloor e = 0) as Hfloor.
  { intros Hne. destruct (decide (e_SnapshotFloor e = 0)); [done|]. exfalso. auto. }
  unfold EntryCreate, EntryAdd, EntryRemove, EntryKey, EntryRotate in *.
  destruct (decide (e_Kind e = "create" ∨ e_Kind e = "add")) as [Hk|Hk].
  { go_inv H5. split; try assumption; other_kind; eauto 10.
    destruct Hk as [-> | ->]; set_solver. }
  destruct (decide (e_Kind e = "remove")) as [Hr|Hr].
  { go_inv H5. dstable. split; try assumption; other_kind; eauto. rewrite Hr. set_solver. }
  destruct (decide (e_Kind e = "key")) as [Hy|Hy].
  { go_inv H5. dstable. split; try assumption; other_kind; eauto 10. rewrite Hy. set_solver. }
  destruct (decide (e_Kind e = "rotate")) as [Ho|Ho]; [|done].
  go_inv H5. dstable. split; try assumption; other_kind; eauto 10. rewrite Ho. set_solver.
Qed.

Lemma ssized_decoded v n d : decodeCanonical v n = Ok d → n < 2 ^ 32 → ssized v.
Proof. intros [-> Hd]%decodeCanonical_ok Hn. apply ssized_encode. lia. Qed.

(** Every field a validated entry puts into its payload is short. *)
Lemma entry_valid_sized e :
  entry_valid e → is_u64 (e_Index e) → is_u64 (e_EpochAfter e) → is_u64 (e_SnapshotFloor e) →
  Forall ssized [e_VaultID e; FormatUint (e_Index e); e_PreviousDigest e; e_Kind e;
    e_SignerDeviceID e; e_SubjectDeviceID e; e_SubjectSigningKey e; e_SubjectPackageKey e;
    e_SealedLabel e; FormatUint (e_EpochAfter e); FormatUint (e_SnapshotFloor e); e_Signature e].
Proof.
  intros [Hv Hs Hj _ _ _ Hd Hk Hn Hr Hy Ho _ [sg Hsg]] Hi He Hf.
  assert (ssized "") as Hnil by (by apply ssized_short).
  assert (ssized (e_PreviousDigest e)).
  { destruct (decide (e_PreviousDigest e = "")) as [->|Hne]; [done|].
    destruct (validDigest_true _ (Hd Hne)) as (d & -> & Hl). apply ssized_encode. lia. }
  assert (ssized (e_Kind e)).
  { apply ssized_short. repeat (apply elem_of_cons in Hk as [->|Hk]; [done|]). set_solver. }
  assert (ssized (e_SubjectSigningKey e) ∧ ssized (e_SubjectPackageKey e) ∧ ssized (e_SealedLabel e))
    as (?&?&?).
  { assert (e_Kind e = EntryCreate ∨ e_Kind e = EntryAdd ∨ e_Kind e = EntryRemove ∨
            e_Kind e = EntryKey ∨ e_Kind e = EntryRotate) as Hcase by set_solver.
    assert (e_Kind e = EntryCreate ∨ e_Kind e = EntryAdd →
      ssized (e_SubjectSigningKey e) ∧ ssized (e_SubjectPackageKey e) ∧ ssized (e_SealedLabel e)) as Hnew.
    { intros ((k1 & Hk1) & (k2 & Hk2) & (k3 & Hk3))%Hn. split_and!.
      - eapply ssized_decoded; [eassumption|done].
      - apply decodeCanonicalOneOf_ok in Hk2 as [-> Hk2]. apply ssized_encode.
        unfold X25519PublicKeyBytes, XWingPublicKeyBytes in Hk2.
        rewrite !elem_of_cons, elem_of_nil in Hk2. lia.
      - apply decodeCanonicalRange_ok in Hk3 as [-> Hk3]. apply ssized_encode.
        unfold MinSealedLabelBytes, MaxSealedLabelBytes in Hk3. lia. }
    destruct Hcase as [Hc|[Hc|[Hc|[Hc|Hc]]]]; [by apply Hnew; left|by apply Hnew; right|..].
    - by destruct (Hr Hc) as (-> & -> & ->).
    - destruct (Hy Hc) as (_ & -> & -> & k & Hk'). split_and!; [done| |done].
      eapply ssized_decoded; [eassumption|done].
    - by destruct (Ho Hc) as (_ & -> & -> & ->). }
  assert (ssized (e_Signature e)) by (eapply ssized_decoded; [eassumption|done]).
  rewrite !Forall_cons, Forall_nil. auto 20 using ssized_opaqueID, ssized_FormatUint.
Qed.

(** ** Steps *)
Definition list_length (l : DeviceList) : Z := Z.of_nat (length (l_digests l)).
Definition current_member (l : DeviceList) (id : string) (m : DeviceListMember) : Prop :=
  l_members l !! id = Some m ∧ m_RemovedIndex m = 0.

Section Steps.
Context `{Crypto} `{MapRange}.
Implicit Types l : DeviceList.

(** What an entry after the first has to satisfy, whatever its kind. *)
Record follows (l : DeviceList) (e : DeviceListEntry) (signer : DeviceListMember) : Prop := {
  fo_index : e_Index e = list_length l + 1;
  fo_vault : e_VaultID e = l_vaultID l;
  fo_previous : e_PreviousDigest e = HeadDigest l;
  fo_signer : current_member l (e_SignerDeviceID e) signer;
  fo_signature : verifyEntrySignature e (m_SigningKey signer) = Ok tt;
}.

Inductive list_step (l : DeviceList) (e : DeviceListEntry) : DeviceList → Prop :=
| step_create :
    l_digests l = [] → e_Index e = 1 → e_Kind e = EntryCreate →
    e_SignerDeviceID e = e_SubjectDeviceID e → e_EpochAfter e = 1 → e_SnapshotFloor e = 0 →
    verifyEntrySignature e (e_SubjectSigningKey e) = Ok tt →
    list_step l e
      {| l_vaultID := e_VaultID e;
         l_members := <[e_SubjectDeviceID e := memberFromEntry e]> (l_members l);
         l_digests := l_digests l ++ [entry_Digest e]; l_epochs := l_epochs l ++ [e_EpochAfter e] |}
| step_add signer :
    follows l e signer → e_Kind e = EntryAdd →
    l_members l !! e_SubjectDeviceID e = None → e_EpochAfter e = Epoch l →
    Z.of_nat (length (Current l)) < MaxDevicesPerVault →
    list_step l e
      {| l_vaultID := l_vaultID l;
         l_members := <[e_SubjectDeviceID e := memberFromEntry e]> (l_members l);
         l_digests := l_digests l ++ [entry_Digest e]; l_epochs := l_epochs l ++ [e_EpochAfter e] |}
| step_remove signer subject :
    follows l e signer → e_Kind e = EntryRemove →
    current_member l (e_SubjectDeviceID e) subject →
    checkedNext (Epoch l) = Some (e_EpochAfter e) →
    list_step l e
      {| l_vaultID := l_vaultID l;
         l_members := <[e_SubjectDeviceID e := set_m_RemovedIndex (e_Index e) subject]> (l_members l);
         l_digests := l_digests l ++ [entry_Digest e]; l_epochs := l_epochs l ++ [e_EpochAfter e] |}
| step_key signer old :
    follows l e signer → e_Kind e = EntryKey → e_EpochAfter e = Epoch l →
    decodeCanonical (m_PackageKey signer) X25519PublicKeyBytes = Ok old →
    list_step l e
      {| l_vaultID := l_vaultID l;
         l_members := <[m_DeviceID signer :=
           set_m_PackageKey (e_SubjectPackageKey e)
             (set_m_replaced (m_replaced signer ++
               [{| pc_index := e_Index e; pc_previous := m_PackageKey signer |}]) signer)]>
           (l_members l);
         l_digests := l_digests l ++ [entry_Digest e]; l_epochs := l_epochs l ++ [e_EpochAfter e] |}
| step_rotate signer :
    follows l e signer → e_Kind e = EntryRotate →
    checkedNext (Epoch l) = Some (e_EpochAfter e) →
    list_step l e
      {| l_vaultID := l_vaultID l; l_members := l_members l;
         l_digests := l_digests l ++ [entry_Digest e]; l_epochs := l_epochs l ++ [e_EpochAfter e] |}.

Lemma Head_bound l : list_length l < 2 ^ 64 → Head l = list_length l.
Proof. intros. apply u64_small. unfold is_u64, list_length in *. lia. Qed.

Lemma next_index l i :
  list_length l < 2 ^ 64 → checkedNext (Head l) = Some i → i = list_length l + 1 ∧ i < 2 ^ 64.
Proof.
  intros Hb. rewrite Head_bound by done.
  rewrite checkedNext_Some by (unfold is_u64, list_length in *; lia).
  unfold max_uint64. lia.
Qed.

(** An accepted entry is validated and is one of the five steps. *)
Lemma Extend_step l e l' :
  list_length l < 2 ^ 64 → Extend l e = Ok l' →
  entry_valid e ∧ e_Index e < 2 ^ 64 ∧ e_Index e = list_length l + 1 ∧ list_step l e l'.
Proof.
  intros Hb Hx. unfold Extend in Hx. apply rbind_ok in Hx as [[] [Hv%entry_Validate_inv Hx]].
  apply rbind_ok in Hx as [[] [Hn%rfail_if_ok Hx]]. apply dec_stable in Hn.
  apply next_index in Hn as [Hi Hi64]; [|done].
  do 3 (split; [done|]).
  destruct (decide (e_Index e = 1)) as [E1|E1].
  - unfold extendCreate in Hx. apply rbind_ok in Hx as [[] [Hc%rfail_if_ok Hx]].
    apply rbind_ok in Hx as [[] [Hs Hx]]. injection Hx as <-. dstable.
    assert (l_digests l = []) as Hnil by (apply length_zero_iff_nil; unfold list_length in *; lia).
    unfold list_append, set_member. cbn.
    replace 1 with (e_EpochAfter e) by done. by apply step_create.
  - apply rbind_ok in Hx as [[] [Hvault%rfail_if_ok Hx]].
    apply rbind_ok in Hx as [[] [Hprev%rfail_if_ok Hx]].
    destruct (l_members l !! e_SignerDeviceID e) as [signer|] eqn:Es; [|done].
    apply rbind_ok in Hx as [[] [Hrem%rfail_if_ok Hx]].
    apply rbind_ok in Hx as [[] [Hsig Hx]]. dstable.
    assert (follows l e signer) as Hf by (split; [done|done|done|split; done|done]).
    repeat case_decide; try done.
    + unfold extendAdd in Hx. go_inv Hx. dstable.
      eapply (step_add l e signer); [done|done| |done|lia]. by apply eq_None_not_Some.
    + unfold extendRemove in Hx.
      destruct (l_members l !! e_SubjectDeviceID e) as [subject|] eqn:Ej; [|done].
      go_inv Hx. dstable. eapply (step_remove l e signer subject); [done|done|by split|done].
    + unfold extendKey in Hx. go_inv Hx. dstable. by eapply (step_key l e signer).
    + unfold extendRotate in Hx. go_inv Hx. dstable. by eapply (step_rotate l e signer).
Qed.

Lemma ExtendAll_app l es fs :
  ExtendAll l (es ++ fs) = (let? l' := ExtendAll l es in ExtendAll l' fs).
Proof. revert l. induction es as [|e es IH]; intros l; cbn; [done|]. destruct (Extend l e); cbn; auto. Qed.

Lemma VerifyDeviceList_snoc es e l l' :
  VerifyDeviceList es = Ok l → Extend l e = Ok l' → VerifyDeviceList (es ++ [e]) = Ok l'.
Proof. unfold VerifyDeviceList. intros H1 H2. rewrite ExtendAll_app, H1. cbn. by rewrite H2. Qed.

(** Induction over a verified chain, from its first entry. *)
Lemma verify_ind (P : list DeviceListEntry → DeviceList → Prop) :
  P [] NewDeviceList →
  (∀ es l e l', VerifyDeviceList es = Ok l → P es l → Extend l e = Ok l' → P (es ++ [e]) l') →
  ∀ es l, VerifyDeviceList es = Ok l → P es l.
Proof.
  intros Hnil Hsnoc es. induction es as [|e es IH] using rev_ind; intros l Hl.
  - unfold VerifyDeviceList in Hl. cbn in Hl. by injection Hl as <-.
  - unfold VerifyDeviceList in Hl. rewrite ExtendAll_app in Hl.
    destruct (ExtendAll NewDeviceList es) as [l1|] eqn:E; cbn in Hl; [|done].
    destruct (Extend l1 e) as [l2|] eqn:E2; cbn in Hl; [|done]. injection Hl as <-.
    eapply Hsnoc; eauto.
Qed.

(** ** The invariant of a verified list *)
Record member_wf (n : Z) (id : string) (m : DeviceListMember) : Prop := {
  mw_id : m_DeviceID m = id;
  mw_opaque : opaqueID id = true;
  mw_added : 1 ≤ m_AddedIndex m ≤ n;
  mw_removed : m_RemovedIndex m = 0 ∨ m_AddedIndex m < m_RemovedIndex m ≤ n;
  mw_signing : ∃ k, decodeCanonical (m_SigningKey m) Ed25519PublicKeyBytes = Ok k;
  mw_replaced : (m_replaced m = [] ∧
                   ∃ k, decodeCanonicalOneOf (m_PackageKey m)
                          [X25519PublicKeyBytes; XWingPublicKeyBytes] = Ok k) ∨
                (∃ c old new, m_replaced m = [c] ∧ m_AddedIndex m < pc_index c ≤ n ∧
                   decodeCanonical (pc_previous c) X25519PublicKeyBytes = Ok old ∧
                   decodeCanonical (m_PackageKey m) XWingPublicKeyBytes = Ok new);
}.

Record list_wf (l : DeviceList) : Prop := {
  lw_epochs : length (l_epochs l) = length (l_digests l);
  lw_bound : list_length l < 2 ^ 64;
  lw_empty : l_digests l = [] → l_members l = ∅;
  lw_members : map_Forall (member_wf (list_length l)) (l_members l);
  lw_current : Z.of_nat (length (Current l)) ≤ MaxDevicesPerVault;
  lw_epoch : Forall (λ ep, 1 ≤ ep < 2 ^ 64) (l_epochs l);
  lw_vault : l_digests l ≠ [] → opaqueID (l_vaultID l) = true;
}.

Definition live_members (l : DeviceList) : gmap string DeviceListMember :=
  filter (λ kv, m_RemovedIndex kv.2 = 0) (l_members l).

Lemma length_Current l : length (Current l) = size (live_members l).
Proof.
  unfold Current, live_members.
  assert (filter (λ m, m_RemovedIndex m = 0) (range_map (l_members l)).*2 ≡ₚ
          filter (λ m, m_RemovedIndex m = 0) (map_to_list (l_members l)).*2) as ->
    by (by rewrite range_map_perm).
  rewrite <- length_map_to_list, map_filter_alt, map_to_list_to_map.
  - induction (map_to_list (l_members l)) as [|[k m] kvs IH]; [done|].
    rewrite fmap_cons, !filter_cons. cbn [fst snd]. repeat case_decide; cbn [length]; congruence.
  - eapply NoDup_fmap_fst; [|by apply NoDup_filter, NoDup_map_to_list].
    intros x y1 y2 [_ H1]%list_elem_of_filter [_ H2]%list_elem_of_filter.
    apply elem_of_map_to_list in H1, H2. congruence.
Qed.
End Steps.
