(* ===== verification/DeviceListThms.v ===== *)
(** * Theorems on verified device lists *)

From stdpp Require Import base list gmap strings.
From Stdlib Require Import ZArith Lia Strings.Byte.
From S2P Require Import Prelude GoStd Canonical DeviceList DeviceListFacts.
Local Open Scope Z_scope.
Local Open Scope go_scope.

Section Invariant.
Context `{Crypto} `{MapRange}.
Implicit Types l : DeviceList.

Lemma member_wf_mono n n' id m : n ≤ n' → member_wf n id m → member_wf n' id m.
Proof.
  intros Hn [? ? ? ? ? Hr]. split; try assumption; [lia|lia|].
  destruct Hr as [?|(c & old & new & ? & ? & ?)]; [by left|right].
  exists c, old, new. split_and!; [done|lia|lia|naive_solver..].
Qed.

Lemma memberFromEntry_wf e n :
  entry_valid e → e_Kind e = EntryCreate ∨ e_Kind e = EntryAdd → 1 ≤ e_Index e ≤ n →
  member_wf n (e_SubjectDeviceID e) (memberFromEntry e).
Proof.
  intros Hv Hk Hn. destruct (ev_new e Hv Hk) as (?&?&?).
  split; cbn; [done|by apply ev_subject|done|by left|done|by left].
Qed.

Lemma live_insert_le id m l members :
  l_members l = members →
  (size (filter (λ kv, m_RemovedIndex kv.2 = 0%Z) (<[id := m]> members)) ≤ S (size (live_members l)))%nat.
Proof.
  intros <-. unfold live_members. rewrite map_filter_insert. case_decide.
  - set (fm := filter _ (l_members l)). destruct (fm !! id) eqn:E.
    + rewrite map_size_insert_Some by eauto. lia.
    + by rewrite map_size_insert_None.
  - rewrite map_filter_delete. etrans; [apply map_size_delete_le|]. lia.
Qed.

Lemma epochs_snoc l ep :
  length (l_epochs l) = length (l_digests l) →
  Epoch {| l_vaultID := l_vaultID l; l_members := l_members l;
           l_digests := l_digests l; l_epochs := l_epochs l ++ [ep] |} = ep.
Proof. intros _. unfold Epoch. cbn. by rewrite last_snoc. Qed.

Lemma Epoch_range l : list_wf l → l_digests l ≠ [] → 1 ≤ Epoch l < 2 ^ 64.
Proof.
  intros Hw Hne. unfold Epoch.
  destruct (last (l_epochs l)) as [ep|] eqn:E.
  - cbn. apply last_Some in E as [es E]. pose proof (lw_epoch l Hw) as Hf.
    rewrite E, Forall_app, Forall_singleton in Hf. lia.
  - apply last_None in E. pose proof (lw_epochs l Hw) as Hl. rewrite E in Hl.
    destruct (l_digests l); [done|]. done.
Qed.

(** The step's effect on the length and the epoch list. *)
Lemma list_step_shape l e l' :
  list_step l e l' →
  l_digests l' = l_digests l ++ [entry_Digest e] ∧ l_epochs l' = l_epochs l ++ [e_EpochAfter e].
Proof. by destruct 1. Qed.

Lemma list_step_length l e l' : list_step l e l' → list_length l' = list_length l + 1.
Proof. intros [Hd _]%list_step_shape. unfold list_length. rewrite Hd, length_app. cbn. lia. Qed.

Lemma list_step_epoch l e l' : list_step l e l' → Epoch l' = e_EpochAfter e.
Proof. intros [_ He]%list_step_shape. unfold Epoch. by rewrite He, last_snoc. Qed.

Lemma follows_nonempty l e signer : list_wf l → follows l e signer → l_digests l ≠ [].
Proof.
  intros Hw Hf Hnil. destruct (fo_signer _ _ _ Hf) as [Hs _].
  by rewrite (lw_empty l Hw Hnil), lookup_empty in Hs.
Qed.

Lemma list_step_epoch_range l e l' :
  list_wf l → list_step l e l' → 1 ≤ e_EpochAfter e < 2 ^ 64.
Proof.
  intros Hw Hst. assert (∀ signer, follows l e signer → 1 ≤ Epoch l < 2 ^ 64) as Hr.
  { intros signer Hf. apply Epoch_range; [done|]. by eapply follows_nonempty. }
  destruct Hst as [|signer Hf|signer subject Hf _ _ Hc|signer old Hf|signer Hf _ Hc];
    try specialize (Hr _ Hf); try lia.
  all: apply checkedNext_Some in Hc; unfold is_u64, max_uint64 in *; lia.
Qed.

Lemma list_step_members l e l' :
  list_wf l → entry_valid e → e_Index e = list_length l + 1 → list_step l e l' →
  map_Forall (member_wf (list_length l')) (l_members l').
Proof.
  intros Hw Hv Hi Hst. rewrite (list_step_length _ _ _ Hst).
  assert (map_Forall (member_wf (list_length l + 1)) (l_members l)) as Hold.
  { eapply map_Forall_impl; [apply (lw_members l Hw)|]. intros. eapply member_wf_mono; [|done]. lia. }
  assert (0 ≤ list_length l) by (unfold list_length; lia).
  destruct Hst as [|signer Hf|signer subject Hf Hk Hc _|signer old Hf Hk _ Hd|signer Hf]; cbn in *.
  - apply map_Forall_insert_2; [|done]. apply memberFromEntry_wf; [done|by left|lia].
  - apply map_Forall_insert_2; [|done]. apply memberFromEntry_wf; [done|by right|lia].
  - apply map_Forall_insert_2; [|done]. destruct Hc as [Hc Hz].
    pose proof (mw_added _ _ _ (lw_members l Hw _ _ Hc)).
    destruct (Hold _ _ Hc) as [? ? ? ? ? ?].
    split; cbn; try done. right. lia.
  - destruct (fo_signer _ _ _ Hf) as [Hs Hz].
    assert (m_DeviceID signer = e_SignerDeviceID e) as -> by apply (mw_id _ _ _ (Hold _ _ Hs)).
    apply map_Forall_insert_2; [|done].
    pose proof (mw_added _ _ _ (lw_members l Hw _ _ Hs)).
    destruct (Hold _ _ Hs) as [? ? ? ? ? Hr].
    split; cbn; try done. right.
    destruct Hr as [[-> _]|(c & o & n & _ & _ & _ & Hx)].
    + destruct (ev_key e Hv Hk) as (_ & _ & _ & new & Hnew).
      exists {| pc_index := e_Index e; pc_previous := m_PackageKey signer |}, old, new.
      cbn. split_and!; [done|lia|lia|done|done].
    + exfalso. apply decodeCanonical_ok in Hx as [Hx Hl], Hd as [Hd Hl'].
      rewrite Hx in Hd. apply (inj EncodeToString) in Hd. subst n.
      unfold XWingPublicKeyBytes, X25519PublicKeyBytes in *. lia.
  - done.
Qed.

Lemma list_step_current l e l' :
  list_wf l → list_step l e l' → Z.of_nat (length (Current l')) ≤ MaxDevicesPerVault.
Proof.
  intros Hw Hst. pose proof (lw_current l Hw) as Hc.
  rewrite length_Current in *. unfold MaxDevicesPerVault in *.
  destruct Hst as [Hnil|signer Hf Hk Hn He Hlt|signer subject Hf Hk [Hs Hz] He|signer old Hf Hk He Hd|signer Hf];
    unfold live_members in *; cbn in *.
  - rewrite (lw_empty l Hw Hnil), insert_empty.
    etrans; [apply inj_le, map_size_filter|]. rewrite map_size_singleton. lia.
  - rewrite length_Current in Hlt. unfold MaxDevicesPerVault, live_members in Hlt.
    etrans; [apply inj_le, (live_insert_le _ _ l); done|]. unfold live_members. lia.
  - rewrite map_filter_insert. case_decide as Hd.
    + rewrite map_size_insert_Some; [done|].
      exists subject. by apply map_lookup_filter_Some.
    + rewrite map_filter_delete. etrans; [apply inj_le, map_size_delete_le|]. done.
  - destruct (fo_signer _ _ _ Hf) as [Hs Hz].
    assert (m_DeviceID signer = e_SignerDeviceID e) as -> by apply (mw_id _ _ _ (lw_members l Hw _ _ Hs)).
    rewrite map_filter_insert_True by done.
    rewrite map_size_insert_Some; [done|]. exists signer. by apply map_lookup_filter_Some.
  - done.
Qed.

Lemma NewDeviceList_wf : list_wf NewDeviceList.
Proof.
  split; cbn; try done. by rewrite length_Current.
Qed.

Lemma Extend_wf l e l' : list_wf l → Extend l e = Ok l' → list_wf l'.
Proof.
  intros Hw Hx. destruct (Extend_step _ _ _ (lw_bound l Hw) Hx) as (Hv & Hi64 & Hi & Hst).
  pose proof (list_step_length _ _ _ Hst). destruct (list_step_shape _ _ _ Hst) as [Hd He].
  split.
  - rewrite Hd, He, !length_app, (lw_epochs l Hw). done.
  - lia.
  - rewrite Hd. intros Hnil%(f_equal length). rewrite length_app in Hnil. cbn in Hnil. lia.
  - by eapply list_step_members.
  - by eapply list_step_current.
  - rewrite He, Forall_app. split; [apply (lw_epoch l Hw)|]. rewrite Forall_singleton.
    by eapply list_step_epoch_range.
  - intros _. destruct Hst as [|? Hf|? ? Hf|? ? Hf|? Hf]; cbn; [by apply ev_vault|..];
      apply (lw_vault l Hw); by eapply follows_nonempty.
Qed.

Lemma VerifyDeviceList_wf es l : VerifyDeviceList es = Ok l → list_wf l.
Proof.
  revert es l. apply (verify_ind (λ _ l, list_wf l)); [apply NewDeviceList_wf|].
  intros. by eapply Extend_wf.
Qed.

Lemma VerifyDeviceList_length es l :
  VerifyDeviceList es = Ok l → length (l_digests l) = length es ∧ l_digests l = entry_Digest <$> es.
Proof.
  revert es l. apply (verify_ind (λ es l, length (l_digests l) = length es ∧ l_digests l = entry_Digest <$> es)).
  { done. }
  intros es l e l' Hv [IH1 IH2] Hx. apply VerifyDeviceList_wf in Hv.
  destruct (Extend_step _ _ _ (lw_bound l Hv) Hx) as (_ & _ & _ & [Hd _]%list_step_shape).
  rewrite Hd, fmap_app, !length_app. cbn. rewrite IH2 at 2. split; [lia|done].
Qed.
End Invariant.

(** ** History *)

(** What the list says about a member apart from its future: the removal and replacements that come
    later are left out. *)
Definition member_view (m : DeviceListMember) : string * string * string * string * Z :=
  (m_DeviceID m, m_SigningKey m, m_PackageKey m, m_SealedLabel m, m_AddedIndex m).

(** The member a list has now. *)
Definition current_of (l : DeviceList) (id : string) : option DeviceListMember :=
  m ← Member l id; if decide (m_RemovedIndex m = 0) then Some m else None.

Section History.
Context `{Crypto} `{MapRange}.
Implicit Types l : DeviceList.

Lemma package_key_at_snoc cs c key new i :
  i < pc_index c → pc_previous c = key →
  package_key_at (cs ++ [c]) new i = package_key_at cs key i.
Proof.
  intros Hi Hp. induction cs as [|c' cs IH]; cbn.
  - by rewrite decide_True.
  - by case_decide.
Qed.

Lemma package_key_at_head cs key n :
  Forall (λ c, pc_index c ≤ n) cs → package_key_at cs key n = key.
Proof. induction 1; cbn; [done|]. by rewrite decide_False by lia. Qed.

Lemma memberAt_true m i :
  memberAt m i = true ↔ m_AddedIndex m ≤ i ∧ (m_RemovedIndex m = 0 ∨ i < m_RemovedIndex m).
Proof. unfold memberAt. by rewrite bool_decide_eq_true. Qed.

(** At the head, [MemberAt] is the current membership. *)
Lemma MemberAt_head l id :
  list_wf l → member_view <$> MemberAt l id (list_length l) = member_view <$> current_of l id.
Proof.
  intros Hw. unfold MemberAt, current_of, Member.
  destruct (l_members l !! id) as [m|] eqn:E; [|done]. cbn.
  pose proof (lw_members l Hw _ _ E) as Hm. destruct (mw_added _ _ _ Hm).
  destruct (memberAt m (list_length l)) eqn:Em; case_decide as Hr; try done.
  - unfold member_view. cbn. rewrite package_key_at_head; [done|].
    destruct (mw_replaced _ _ _ Hm) as [[-> _]|(c & ? & ? & -> & ? & _)]; [by apply Forall_nil|].
    rewrite Forall_singleton. lia.
  - apply memberAt_true in Em. destruct (mw_removed _ _ _ Hm); lia.
  - apply not_true_iff_false in Em. destruct Em. apply memberAt_true. lia.
Qed.

(** One more entry changes nothing about an index that was already reached. *)
Lemma MemberAt_step l e l' id i :
  list_wf l → entry_valid e → e_Index e = list_length l + 1 → list_step l e l' →
  1 ≤ i ≤ list_length l →
  member_view <$> MemberAt l' id i = member_view <$> MemberAt l id i.
Proof.
  intros Hw Hv Hi Hst Hr. unfold MemberAt.
  destruct Hst as [Hnil|signer Hf Hk Hn|signer subject Hf Hk [Hs Hz] _|signer old Hf Hk _ _|signer Hf Hk];
    cbn.
  - unfold list_length in Hr. rewrite Hnil in Hr. cbn in Hr. lia.
  - rewrite lookup_insert. case_decide as E; [subst id|done]. rewrite Hn.
    destruct (memberAt (memberFromEntry e) i) eqn:Em; [|done].
    apply memberAt_true in Em. cbn in Em. lia.
  - rewrite lookup_insert. case_decide as E; [subst id|done]. rewrite Hs.
    pose proof (lw_members l Hw _ _ Hs) as Hm. destruct (mw_added _ _ _ Hm).
    assert (memberAt (set_m_RemovedIndex (e_Index e) subject) i = memberAt subject i) as ->.
    { apply eq_true_iff_eq. rewrite !memberAt_true. cbn. lia. }
    destruct (memberAt subject i); done.
  - destruct (fo_signer _ _ _ Hf) as [Hs Hz].
    assert (m_DeviceID signer = e_SignerDeviceID e) as -> by apply (mw_id _ _ _ (lw_members l Hw _ _ Hs)).
    rewrite lookup_insert. case_decide as E; [subst id|done]. rewrite Hs.
    change (memberAt (set_m_PackageKey _ _) i) with (memberAt signer i).
    destruct (memberAt signer i); [|done]. cbn. unfold member_view. cbn.
    erewrite package_key_at_snoc; [done| |done]. cbn. lia.
  - done.
Qed.

Lemma lookup_history l e l' i :
  list_wf l → list_wf l' → list_step l e l' → 1 ≤ i ≤ list_length l →
  DigestAt l' i = DigestAt l i ∧ EpochAt l' i = EpochAt l i.
Proof.
  intros Hw Hw' Hst Hi. pose proof (lw_bound l Hw). pose proof (lw_bound l' Hw').
  pose proof (lw_epochs l Hw) as Hle. pose proof (lw_epochs l' Hw') as Hle'.
  pose proof (list_step_length _ _ _ Hst). destruct (list_step_shape _ _ _ Hst) as [Hd He].
  unfold DigestAt, EpochAt. rewrite Hle, Hle'. fold (list_length l) (list_length l').
  rewrite !u64_small by (unfold is_u64, list_length in *; lia).
  rewrite !decide_False by lia. unfold list_length in *.
  rewrite Hd, He, !lookup_app_l by lia. done.
Qed.

Lemma lookup_head l :
  list_wf l → l_digests l ≠ [] →
  DigestAt l (list_length l) = (HeadDigest l, true) ∧ EpochAt l (list_length l) = (Epoch l, true).
Proof.
  intros Hw Hne. pose proof (lw_bound l Hw). pose proof (lw_epochs l Hw) as Hle.
  assert (0 < list_length l) by (unfold list_length; destruct (l_digests l); cbn; [done|lia]).
  unfold DigestAt, EpochAt, HeadDigest, Epoch. rewrite Hle. fold (list_length l).
  rewrite !u64_small by (unfold is_u64; lia). rewrite !decide_False by lia.
  rewrite !last_lookup, Hle. unfold list_length.
  replace (Z.to_nat (Z.of_nat (length (l_digests l)) - 1)) with (pred (length (l_digests l))) by lia.
  done.
Qed.

Lemma VerifyDeviceList_prefix es fs l :
  VerifyDeviceList (es ++ fs) = Ok l → ∃ l0, VerifyDeviceList es = Ok l0 ∧ ExtendAll l0 fs = Ok l.
Proof. unfold VerifyDeviceList. rewrite ExtendAll_app. apply rbind_ok. Qed.

Lemma history_of_prefix es fs l l0 i :
  VerifyDeviceList es = Ok l0 → ExtendAll l0 fs = Ok l → 1 ≤ i ≤ list_length l0 →
  DigestAt l i = DigestAt l0 i ∧ EpochAt l i = EpochAt l0 i ∧
  ∀ id, member_view <$> MemberAt l id i = member_view <$> MemberAt l0 id i.
Proof.
  revert es l0. induction fs as [|f fs IH]; intros es l0 H0' Hx Hi; cbn in Hx.
  - by injection Hx as <-.
  - apply rbind_ok in Hx as [l1 [Hf Hx]].
    pose proof (VerifyDeviceList_wf _ _ H0') as Hw.
    pose proof (Extend_wf _ _ _ Hw Hf) as Hw1.
    destruct (Extend_step _ _ _ (lw_bound _ Hw) Hf) as (Hv & _ & Hidx & Hst).
    pose proof (list_step_length _ _ _ Hst).
    destruct (IH (es ++ [f]) l1) as (-> & -> & Hm); [by eapply VerifyDeviceList_snoc|done|lia|].
    destruct (lookup_history _ _ _ _ Hw Hw1 Hst Hi) as [-> ->].
    do 2 (split; [done|]). intros id. rewrite Hm. by eapply MemberAt_step.
Qed.
End History.

Section Rules.
Context `{Crypto} `{MapRange}.
Implicit Types l : DeviceList.

(** [e] carries a signature of its payload that verifies under the encoded key [k]. *)
Definition signed_by (e : DeviceListEntry) (k : string) : Prop :=
  ∃ key sig, k = EncodeToString key ∧ e_Signature e = EncodeToString sig ∧
    ed25519_Verify key (entry_SigningPayload e) sig = true.

Lemma verifyEntrySignature_signed e k : verifyEntrySignature e k = Ok tt → signed_by e k.
Proof.
  intros Hs. unfold verifyEntrySignature in Hs. go_inv Hs. dstable.
  apply decodeCanonical_ok in G as [-> _], G0 as [Hsig _]. by exists r, r0.
Qed.

Lemma follows_signed l e signer :
  follows l e signer → current_member l (e_SignerDeviceID e) signer ∧ signed_by e (m_SigningKey signer).
Proof. intros Hf. split; [apply Hf|]. apply verifyEntrySignature_signed, Hf. Qed.

Lemma list_step_epoch_rule l e l' :
  list_wf l → list_step l e l' →
  Epoch l' = Epoch l + (if decide (e_Kind e = EntryAdd ∨ e_Kind e = EntryKey) then 0 else 1).
Proof.
  intros Hw Hst. rewrite (list_step_epoch _ _ _ Hst).
  assert (∀ signer, follows l e signer → checkedNext (Epoch l) = Some (e_EpochAfter e) →
          e_EpochAfter e = Epoch l + 1) as Hnext.
  { intros signer Hf Hc. pose proof (Epoch_range l Hw (follows_nonempty _ _ _ Hw Hf)).
    apply checkedNext_Some in Hc; [lia|unfold is_u64; lia]. }
  destruct Hst as [Hnil _ Hk _ He|? ? Hk _ He|? ? Hf Hk _ He|? ? ? Hk He|? Hf Hk He]; rewrite Hk.
  - rewrite decide_False by (intros [|]; done). unfold Epoch.
    assert (l_epochs l = []) as -> by (apply length_zero_iff_nil; rewrite (lw_epochs l Hw), Hnil; done).
    done.
  - rewrite decide_True by (by left). lia.
  - rewrite decide_False by (intros [|]; done). eauto.
  - rewrite decide_True by (by right). lia.
  - rewrite decide_False by (intros [|]; done). eauto.
Qed.

Lemma list_step_keeps l e l' id m :
  list_wf l → list_step l e l' → l_members l !! id = Some m →
  ∃ m', l_members l' !! id = Some m' ∧ m_SigningKey m' = m_SigningKey m ∧
        m_AddedIndex m' = m_AddedIndex m ∧ (m_RemovedIndex m ≠ 0 → m' = m).
Proof.
  intros Hw Hst Hm.
  destruct Hst as [Hnil|? ? ? Hn|? ? ? ? [Hs Hz]|signer ? Hf|]; cbn.
  - rewrite (lw_empty l Hw Hnil) in Hm. done.
  - exists m. rewrite lookup_insert_ne by (intros <-; congruence). done.
  - rewrite lookup_insert. case_decide; [subst id|by eauto]. rewrite Hs in Hm. injection Hm as <-.
    eexists. split_and!; done.
  - destruct (fo_signer _ _ _ Hf) as [Hs Hz].
    assert (m_DeviceID signer = e_SignerDeviceID e) as -> by apply (mw_id _ _ _ (lw_members l Hw _ _ Hs)).
    rewrite lookup_insert. case_decide; [subst id|by eauto]. rewrite Hs in Hm. injection Hm as <-.
    eexists. split_and!; done.
  - by eauto.
Qed.
End Rules.

Section Theorems.
Context `{Crypto} `{MapRange}.
Implicit Types l : DeviceList.

(** C17: the invariant of every device list the service can hold: [VerifyDeviceList] only returns
    lists whose digest and epoch columns have the same length below 2^64, whose members are keyed
    by their own valid identifier, were added and removed inside the list, decode their signing
    key, and replaced their package key at most once (from an X25519 to an X-Wing key), with at
    most [MaxDevicesPerVault] current members and every epoch in [1, 2^64). *)
Theorem verified_list_invariant es l : VerifyDeviceList es = Ok l → list_wf l.
Proof. apply VerifyDeviceList_wf. Qed.

(** C14: [MemberAt], [DigestAt] and [EpochAt] answer questions about the past exactly as the list
    answered them when it was that long: for every nonempty prefix of a verified chain, the prefix
    verifies on its own, and looking it up by index in the longer list gives its current members
    (with the package key they had then), its head digest and its epoch. *)
Theorem history_is_immutable es fs l :
  es ≠ [] → VerifyDeviceList (es ++ fs) = Ok l →
  ∃ l0, VerifyDeviceList es = Ok l0 ∧
    DigestAt l (Z.of_nat (length es)) = (HeadDigest l0, true) ∧
    EpochAt l (Z.of_nat (length es)) = (Epoch l0, true) ∧
    ∀ id, member_view <$> MemberAt l id (Z.of_nat (length es)) = member_view <$> current_of l0 id.
Proof.
  intros Hne (l0 & H0' & Hx)%VerifyDeviceList_prefix. exists l0. split; [done|].
  pose proof (VerifyDeviceList_wf _ _ H0') as Hw.
  destruct (VerifyDeviceList_length _ _ H0') as [Hlen Hdig].
  assert (list_length l0 = Z.of_nat (length es)) as Hll by (unfold list_length; lia).
  assert (0 < Z.of_nat (length es)) by (destruct es; cbn; [done|lia]).
  assert (l_digests l0 ≠ []) by (intros E; rewrite E in Hlen; cbn in Hlen; lia).
  destruct (history_of_prefix _ _ _ _ (list_length l0) H0' Hx ltac:(lia)) as (Hd & He & Hm).
  destruct (lookup_head l0) as [Hd0 He0]; [done|done|].
  rewrite <- Hll, Hd, He, Hd0, He0. do 2 (split; [done|]).
  intros id. rewrite Hm. by apply MemberAt_head.
Qed.

(** C15: authority and the epoch rule.  An entry that extends a verified list is signed, over its
    own payload, by the key of a current member (by the new device itself for the first entry),
    and it raises the epoch by exactly one when it creates, removes or rotates and leaves it alone
    when it adds a device or replaces a package key. *)
Theorem extension_is_authorised es l e l' :
  VerifyDeviceList es = Ok l → Extend l e = Ok l' →
  (es = [] ∧ e_Kind e = EntryCreate ∧ signed_by e (e_SubjectSigningKey e) ∨
   ∃ signer, current_member l (e_SignerDeviceID e) signer ∧ signed_by e (m_SigningKey signer)) ∧
  Epoch l' = Epoch l + (if decide (e_Kind e = EntryAdd ∨ e_Kind e = EntryKey) then 0 else 1).
Proof.
  intros Hl Hx. pose proof (VerifyDeviceList_wf _ _ Hl) as Hw.
  destruct (VerifyDeviceList_length _ _ Hl) as [Hlen _].
  destruct (Extend_step _ _ _ (lw_bound l Hw) Hx) as (Hv & _ & Hi & Hst).
  split; [|by eapply list_step_epoch_rule].
  destruct Hst as [Hnil _ Hk _ _ _ Hs|? Hf|? ? Hf|? ? Hf|? Hf]; [left|right; by eexists; apply follows_signed..].
  split_and!; [|done|by apply verifyEntrySignature_signed].
  apply length_zero_iff_nil. rewrite <- Hlen, Hnil. done.
Qed.

(** C16: a device identifier is never used twice and a removal is final: once a verified list holds a
    member it keeps that member's identity, signing key and admission index, and once the member is
    removed, no extension of the list changes anything about it again. *)
Theorem removal_is_final es fs l l' id m :
  VerifyDeviceList es = Ok l → ExtendAll l fs = Ok l' → l_members l !! id = Some m →
  ∃ m', l_members l' !! id = Some m' ∧ m_SigningKey m' = m_SigningKey m ∧
        m_AddedIndex m' = m_AddedIndex m ∧ (m_RemovedIndex m ≠ 0 → m' = m).
Proof.
  revert es l m. induction fs as [|f fs IH]; intros es l m Hl Hx Hm; cbn in Hx.
  - injection Hx as <-. eauto.
  - apply rbind_ok in Hx as [l1 [Hf Hx]].
    pose proof (VerifyDeviceList_wf _ _ Hl) as Hw.
    destruct (Extend_step _ _ _ (lw_bound l Hw) Hf) as (_ & _ & _ & Hst).
    destruct (list_step_keeps _ _ _ _ _ Hw Hst Hm) as (m1 & Hm1 & Hk1 & Ha1 & Hr1).
    destruct (IH (es ++ [f]) l1 m1) as (m' & ? & ? & ? & Hr'); [by eapply VerifyDeviceList_snoc|done|done|].
    exists m'. split_and!; [done|congruence|congruence|].
    intros Hr. specialize (Hr1 Hr). subst m1. auto.
Qed.
End Theorems.
