(* ===== verification/Agreement.v ===== *)
(** * The head digest commits to the whole device list *)

From stdpp Require Import base list gmap strings.
From Stdlib Require Import ZArith Lia Strings.Byte.
From S2P Require Import Prelude GoStd Canonical DeviceList DeviceListFacts DeviceListThms.
Local Open Scope Z_scope.
Local Open Scope go_scope.

(** The parts an entry writes after the label. *)
Definition entry_parts (e : DeviceListEntry) : list string :=
  [e_VaultID e; FormatUint (e_Index e); e_PreviousDigest e; e_Kind e;
   e_SignerDeviceID e; e_SubjectDeviceID e; e_SubjectSigningKey e; e_SubjectPackageKey e;
   e_SealedLabel e; FormatUint (e_EpochAfter e); FormatUint (e_SnapshotFloor e)].

Lemma text_frames s parts : text s (frames parts) = frames (parts ++ [bytes_of s]).
Proof. apply add_frames. Qed.

Lemma newCanonical_frames label : newCanonical label = frames [bytes_of label].
Proof. unfold newCanonical. rewrite <- frames_nil. apply (text_frames label []). Qed.

Lemma entry_fields_frames e label :
  entry_fields e label = frames (bytes_of <$> (label :: entry_parts e)).
Proof. unfold entry_fields, number. rewrite newCanonical_frames, !text_frames. done. Qed.

Definition entry_u64 (e : DeviceListEntry) : Prop :=
  is_u64 (e_Index e) ∧ is_u64 (e_EpochAfter e) ∧ is_u64 (e_SnapshotFloor e).

Lemma bytes_of_list_inj (xs ys : list string) : bytes_of <$> xs = bytes_of <$> ys → xs = ys.
Proof. apply list_fmap_eq_inj. intros ???. by apply bytes_of_inj. Qed.

Lemma Forall_ssized (xs : list string) : Forall ssized xs ↔ Forall sized (bytes_of <$> xs).
Proof. by rewrite Forall_fmap. Qed.

Lemma strings_frames_inj xs ys :
  Forall ssized xs → Forall ssized ys →
  frames (bytes_of <$> xs) = frames (bytes_of <$> ys) → xs = ys.
Proof. rewrite !Forall_ssized. intros ?? E%frames_inj; [|done..]. by apply bytes_of_list_inj. Qed.

Section Agreement.
Context `{Crypto} `{MapRange}.

Lemma entry_Digest_frames e :
  entry_Digest e =
  digest (frames (bytes_of <$> (LabelDeviceListDigest :: entry_parts e ++ [e_Signature e]))).
Proof. unfold entry_Digest. rewrite entry_fields_frames, text_frames. done. Qed.

(** Validated entries with the same digest are the same entry. *)
Lemma entry_Digest_inj a b :
  entry_valid a → entry_valid b → entry_u64 a → entry_u64 b →
  entry_Digest a = entry_Digest b → a = b ∨ collision.
Proof.
  intros Ha Hb (Hia & Hea & Hfa) (Hib & Heb & Hfb) Hd.
  rewrite !entry_Digest_frames in Hd. apply digest_inj in Hd as [Hd|]; [left|by right].
  assert (ssized LabelDeviceListDigest) as Hl by (by apply ssized_short).
  apply strings_frames_inj in Hd.
  - unfold entry_parts in Hd. cbn in Hd.
    injection Hd as E1 E2 E3 E4 E5 E6 E7 E8 E9 E10 E11 E12.
    unfold is_u64 in *. apply FormatUint_inj in E2, E10, E11; [|lia..].
    destruct a, b; cbn in *; congruence.
  - constructor; [done|]. apply (entry_valid_sized a Ha Hia Hea Hfa).
  - constructor; [done|]. apply (entry_valid_sized b Hb Hib Heb Hfb).
Qed.

(** The entries of a verified chain, with the facts the chain gives about each. *)
Lemma verified_last es e l :
  VerifyDeviceList (es ++ [e]) = Ok l → is_u64 (e_SnapshotFloor e) →
  ∃ l0, VerifyDeviceList es = Ok l0 ∧ entry_valid e ∧ entry_u64 e ∧
    e_Index e = Z.of_nat (length es) + 1 ∧ HeadDigest l = entry_Digest e ∧
    (es ≠ [] → e_PreviousDigest e = HeadDigest l0).
Proof.
  intros (l0 & Hl & Hx)%VerifyDeviceList_prefix Hf. cbn in Hx.
  apply rbind_ok in Hx as [l1 [Hx E]]. injection E as ->.
  pose proof (VerifyDeviceList_wf _ _ Hl) as Hw.
  destruct (VerifyDeviceList_length _ _ Hl) as [Hlen _].
  destruct (Extend_step _ _ _ (lw_bound _ Hw) Hx) as (Hv & H64 & Hi & Hst).
  pose proof (list_step_epoch_range _ _ _ Hw Hst).
  assert (e_Index e = Z.of_nat (length es) + 1) as Hidx by (unfold list_length in Hi; lia).
  exists l0. split_and!; [done|done|..].
  - unfold entry_u64, is_u64 in *. lia.
  - done.
  - destruct (list_step_shape _ _ _ Hst) as [Hd _]. unfold HeadDigest. by rewrite Hd, last_snoc.
  - intros Hne. destruct Hst as [Hnil|? Hf'|? ? Hf'|? ? Hf'|? Hf']; [|apply Hf'..].
    exfalso. apply Hne, length_zero_iff_nil. rewrite <- Hlen, Hnil. done.
Qed.

Lemma HeadDigest_inj es fs l1 l2 :
  Forall (λ e, is_u64 (e_SnapshotFloor e)) es → Forall (λ e, is_u64 (e_SnapshotFloor e)) fs →
  es ≠ [] → fs ≠ [] →
  VerifyDeviceList es = Ok l1 → VerifyDeviceList fs = Ok l2 → HeadDigest l1 = HeadDigest l2 →
  es = fs ∨ collision.
Proof.
  revert fs l1 l2. induction es as [|e es IH] using rev_ind; intros fs l1 l2 Hes Hfs Hne1 Hne2 H1 H2 Hd.
  { done. }
  destruct fs as [|f fs _] using rev_ind; [done|].
  apply Forall_app in Hes as [Hes He], Hfs as [Hfs Hf]. rewrite Forall_singleton in He, Hf.
  destruct (verified_last _ _ _ H1 He) as (k1 & Hk1 & Hv1 & Hu1 & Hi1 & Hd1 & Hp1).
  destruct (verified_last _ _ _ H2 Hf) as (k2 & Hk2 & Hv2 & Hu2 & Hi2 & Hd2 & Hp2).
  destruct (entry_Digest_inj e f Hv1 Hv2 Hu1 Hu2) as [<-|]; [congruence| |by right].
  assert (length es = length fs) as Hlen by lia.
  destruct (decide (es = [])) as [->|Hn].
  { left. symmetry in Hlen. apply length_zero_iff_nil in Hlen as ->. done. }
  assert (fs ≠ []) as Hn' by (intros ->; apply length_zero_iff_nil in Hlen; done).
  destruct (IH fs k1 k2) as [->|]; [done..| |by left|by right].
  rewrite <- Hp1, <- Hp2 by done. done.
Qed.

(** C13: the head digest commits to the whole list.  Two verified device lists with the same head
    digest have the same entries and the same state, or a SHA-256 collision has been found: nobody,
    the server included, can show two devices different histories under one digest. *)
Theorem head_digest_commits es fs l1 l2 :
  Forall (λ e, is_u64 (e_SnapshotFloor e)) es → Forall (λ e, is_u64 (e_SnapshotFloor e)) fs →
  es ≠ [] → fs ≠ [] →
  VerifyDeviceList es = Ok l1 → VerifyDeviceList fs = Ok l2 → HeadDigest l1 = HeadDigest l2 →
  (es = fs ∧ l1 = l2) ∨ collision.
Proof.
  intros ? ? ? ? H1 H2 Hd.
  destruct (HeadDigest_inj es fs l1 l2) as [->|]; [done..| |by right].
  left. split; [done|]. rewrite H1 in H2. by injection H2.
Qed.
End Agreement.
