(* ===== verification/Header.v ===== *)
(** * Snapshot headers: internal/syncproto/header.go *)

From stdpp Require Import base list gmap strings.
From Stdlib Require Import ZArith Lia Strings.Byte.
From S2P Require Import Prelude GoStd Canonical DeviceList.
Local Open Scope Z_scope.
Local Open Scope go_scope.

Record Header := {
  h_Version : Z;
  h_VaultID : string;
  h_DeviceID : string;
  h_Revision : Z;
  h_VaultEpoch : Z;
  h_DeviceListIndex : Z;
  h_DeviceListDigest : string;
  h_PreviousDigest : string;
  h_CiphertextDigest : string;
  h_CiphertextLength : Z;
  h_Nonce : string;
  h_Signature : string;
}.

#[export] Instance Header_eq_dec : EqDecision Header.
Proof. solve_decision. Defined.

Definition header_fields (header : Header) (label : string) : canonical :=
  newCanonical label
    .> number (u64 (h_Version header))
    .> text (h_VaultID header)
    .> text (h_DeviceID header)
    .> number (h_Revision header)
    .> number (h_VaultEpoch header)
    .> number (h_DeviceListIndex header)
    .> text (h_DeviceListDigest header)
    .> text (h_PreviousDigest header)
    .> text (h_CiphertextDigest header)
    .> number (h_CiphertextLength header)
    .> text (h_Nonce header).

Definition header_SigningPayload (header : Header) : bytes := header_fields header LabelHeader.

(** [Header.Validate]. *)
Definition header_Validate (header : Header) : result unit :=
  let invalid := [ErrHeaderInvalid] in
  check rfail_if (h_Version header ≠ VersionV3) invalid;
  check rfail_if (opaqueID (h_VaultID header) = false ∨ opaqueID (h_DeviceID header) = false) invalid;
  check rfail_if (h_Revision header = 0 ∨ h_VaultEpoch header = 0 ∨ h_DeviceListIndex header = 0) invalid;
  check rfail_if (bool_decide (h_Revision header = 1) ≠ bool_decide (h_PreviousDigest header = "")) invalid;
  check rfail_if (h_PreviousDigest header ≠ "" ∧ validDigest (h_PreviousDigest header) = false) invalid;
  check rfail_if (validDigest (h_DeviceListDigest header) = false
                  ∨ validDigest (h_CiphertextDigest header) = false) invalid;
  check rfail_if (h_CiphertextLength header < 16 ∨ h_CiphertextLength header > MaxCiphertextBytes) invalid;
  let? _ := orelse invalid (decodeCanonical (h_Nonce header) XChaChaNonceBytes) in
  let? _ := orelse invalid (decodeCanonical (h_Signature header) Ed25519SignatureBytes) in
  Ok tt.

(** [SnapshotAADV3]. *)
Definition SnapshotAADV3 (header : Header) : bytes :=
  newCanonical LabelAAD
    .> number (u64 (h_Version header))
    .> text (h_VaultID header)
    .> text (h_DeviceID header)
    .> number (h_Revision header)
    .> number (h_VaultEpoch header)
    .> number (h_DeviceListIndex header)
    .> text (h_DeviceListDigest header)
    .> text (h_PreviousDigest header).

Section Header.
Context `{Crypto} `{MapRange}.

Definition header_Digest (header : Header) : string :=
  digest (header_fields header LabelHeaderDigest .> text (h_Signature header)).

Definition VerifyCiphertext (header : Header) (ciphertext : bytes) : result unit :=
  check rfail_if (u64 (Z.of_nat (length ciphertext)) ≠ h_CiphertextLength header) [ErrHistoryBroken];
  let? expected := orelse [ErrHistoryBroken]
                     (decodeCanonical (h_CiphertextDigest header) DigestBytes) in
  rfail_if (sha256 ciphertext ≠ expected) [ErrHistoryBroken].

Definition verifyLink (previous header : Header) : result unit :=
  check rfail_if (checkedNext (h_Revision previous) ≠ Some (h_Revision header)) [ErrHistoryBroken];
  check rfail_if (h_PreviousDigest header ≠ header_Digest previous) [ErrHistoryBroken];
  rfail_if (h_DeviceListIndex header < h_DeviceListIndex previous
            ∨ h_VaultEpoch header < h_VaultEpoch previous) [ErrHistoryBroken].

Definition VerifyHeader (list : DeviceList) (previous : option Header) (header : Header)
  : result unit :=
  check header_Validate header;
  check rfail_if (h_VaultID header ≠ VaultID list) [ErrHistoryBroken];
  check rfail_if (h_DeviceListIndex header > Head list) [ErrHistoryBroken];
  check rfail_if ((DigestAt list (h_DeviceListIndex header)).1 ≠ h_DeviceListDigest header)
          [ErrHistoryBroken];
  check rfail_if ((EpochAt list (h_DeviceListIndex header)).1 ≠ h_VaultEpoch header)
          [ErrHistoryBroken];
  check match previous with
        | Some previous => verifyLink previous header
        | None => Ok tt
        end;
  match MemberAt list (h_DeviceID header) (h_DeviceListIndex header) with
  | None => Err [ErrHistoryBroken]
  | Some signer =>
      let? key := orelse [ErrHistoryBroken]
                    (decodeCanonical (m_SigningKey signer) Ed25519PublicKeyBytes) in
      let? signature := orelse [ErrHistoryBroken]
                          (decodeCanonical (h_Signature header) Ed25519SignatureBytes) in
      rfail_if (ed25519_Verify key (header_SigningPayload header) signature = false)
        [ErrHistoryBroken]
  end.

Fixpoint VerifyHeaderChain (lst : DeviceList) (previous : option Header) (headers : list Header)
  : result unit :=
  match headers with
  | [] => Ok tt
  | header :: headers =>
      check VerifyHeader lst previous header;
      VerifyHeaderChain lst (Some header) headers
  end.

Definition SignHeader (key : bytes) (header : Header) : Header :=
  {| h_Version := h_Version header; h_VaultID := h_VaultID header;
     h_DeviceID := h_DeviceID header; h_Revision := h_Revision header;
     h_VaultEpoch := h_VaultEpoch header; h_DeviceListIndex := h_DeviceListIndex header;
     h_DeviceListDigest := h_DeviceListDigest header;
     h_PreviousDigest := h_PreviousDigest header;
     h_CiphertextDigest := h_CiphertextDigest header;
     h_CiphertextLength := h_CiphertextLength header; h_Nonce := h_Nonce header;
     h_Signature := EncodeToString (ed25519_Sign key (header_SigningPayload header)) |}.
End Header.
