(* ===== verification/Request.v ===== *)
(** * Signed requests, receipts, key packages and checkpoints:
      internal/syncproto/request.go and checkpoint.go *)

From stdpp Require Import base list gmap strings.
From Stdlib Require Import ZArith Lia Strings.Byte.
From S2P Require Import Prelude GoStd Canonical DeviceList.
Local Open Scope Z_scope.
Local Open Scope go_scope.

(** ** Requests *)
Record RequestSignature := {
  r_Method : string;
  r_Target : string;
  r_Body : bytes;
  r_Token : string;
  r_Timestamp : Z;
  r_Nonce : string;
}.

(** The subtractions are guarded, so the unsigned differences do not wrap. *)
Definition withinSkew (timestamp now : Z) : bool :=
  if decide (timestamp > now) then bool_decide (u64 (timestamp - now) ≤ RequestTimestampSkew)
  else bool_decide (u64 (now - timestamp) ≤ RequestTimestampSkew).

Definition WithinRequestSkew (timestamp now : Z) : bool := withinSkew timestamp now.

(** ** Receipts *)
Record ReceiptV3 := {
  rc_VaultID : string;
  rc_Revision : Z;
  rc_HeaderDigest : string;
  rc_VaultEpoch : Z;
  rc_AcceptedAt : Z;
}.

Definition receipt_SigningPayload (receipt : ReceiptV3) : bytes :=
  newCanonical LabelReceipt
    .> text (rc_VaultID receipt)
    .> number (rc_Revision receipt)
    .> text (rc_HeaderDigest receipt)
    .> number (rc_VaultEpoch receipt)
    .> number (rc_AcceptedAt receipt).

(** ** Key packages *)
Definition LabelKeyPackage : string := "sesame-sync-v3-keypackage".

Record KeyPackageV3 := {
  k_VaultID : string;
  k_SenderDeviceID : string;
  k_RecipientDeviceID : string;
  k_VaultEpoch : Z;
  k_EntryDigest : string;
  k_Ciphertext : string;
  k_Signature : string;
}.

Definition package_SigningPayload (pkg : KeyPackageV3) : bytes :=
  newCanonical LabelKeyPackage
    .> text (k_VaultID pkg)
    .> text (k_SenderDeviceID pkg)
    .> text (k_RecipientDeviceID pkg)
    .> number (k_VaultEpoch pkg)
    .> text (k_EntryDigest pkg)
    .> text (k_Ciphertext pkg).

Definition package_Validate (pkg : KeyPackageV3) : result unit :=
  check rfail_if (opaqueID (k_VaultID pkg) = false ∨ opaqueID (k_SenderDeviceID pkg) = false
                  ∨ opaqueID (k_RecipientDeviceID pkg) = false) [];
  check rfail_if (k_VaultEpoch pkg = 0 ∨ validDigest (k_EntryDigest pkg) = false) [];
  let? _ := orelse [] (decodeCanonicalRange (k_Ciphertext pkg) 16 MaxEncryptedKeyPackageBytes) in
  let? _ := orelse [] (decodeCanonical (k_Signature pkg) Ed25519SignatureBytes) in
  Ok tt.

(** ** Checkpoints *)
Definition LabelCheckpoint : string := "sesame-sync-v3-checkpoint".

Record Checkpoint := {
  c_Version : Z;
  c_VaultID : string;
  c_DeviceID : string;
  c_DeviceListIndex : Z;
  c_DeviceListDigest : string;
  c_HeaderRevision : Z;
  c_HeaderDigest : string;
  c_ObservedAt : Z;
  c_Signature : string;
}.

Definition checkpoint_SigningPayload (checkpoint : Checkpoint) : bytes :=
  newCanonical LabelCheckpoint
    .> number (u64 (c_Version checkpoint))
    .> text (c_VaultID checkpoint)
    .> text (c_DeviceID checkpoint)
    .> number (c_DeviceListIndex checkpoint)
    .> text (c_DeviceListDigest checkpoint)
    .> number (c_HeaderRevision checkpoint)
    .> text (c_HeaderDigest checkpoint)
    .> number (c_ObservedAt checkpoint).

Definition checkpoint_Validate (checkpoint : Checkpoint) : result unit :=
  let invalid := [ErrCheckpointInvalid] in
  check rfail_if (c_Version checkpoint ≠ VersionV3) invalid;
  check rfail_if (opaqueID (c_VaultID checkpoint) = false ∨ opaqueID (c_DeviceID checkpoint) = false)
          invalid;
  check rfail_if (c_DeviceListIndex checkpoint = 0
                  ∨ validDigest (c_DeviceListDigest checkpoint) = false) invalid;
  check rfail_if (bool_decide (c_HeaderRevision checkpoint = 0)
                  ≠ bool_decide (c_HeaderDigest checkpoint = "")) invalid;
  check rfail_if (c_HeaderDigest checkpoint ≠ "" ∧ validDigest (c_HeaderDigest checkpoint) = false)
          invalid;
  check rfail_if (c_ObservedAt checkpoint = 0) invalid;
  let? _ := orelse invalid (decodeCanonical (c_Signature checkpoint) Ed25519SignatureBytes) in
  Ok tt.

Section Request.
Context `{Crypto} `{MapRange}.

Definition request_SigningPayload (request : RequestSignature) : bytes :=
  let body := sha256 (r_Body request) in
  let token := sha256 (bytes_of (r_Token request)) in
  newCanonical LabelRequest
    .> text (r_Method request)
    .> text (r_Target request)
    .> add body
    .> add token
    .> number (r_Timestamp request)
    .> text (r_Nonce request).

(** [RequestSignature.Verify]. *)
Definition request_Verify (request : RequestSignature) (encodedKey encodedSignature : string)
    (now : Z) : result unit :=
  let bad := [ErrRequestSignature] in
  let? _ := orelse bad (decodeCanonical (r_Nonce request) RequestNonceBytes) in
  check rfail_if (withinSkew (r_Timestamp request) now = false) bad;
  let? key := orelse bad (decodeCanonical encodedKey Ed25519PublicKeyBytes) in
  let? signature := orelse bad (decodeCanonical encodedSignature Ed25519SignatureBytes) in
  rfail_if (ed25519_Verify key (request_SigningPayload request) signature = false) bad.

Definition receipt_Sign (receipt : ReceiptV3) (key : bytes) : bytes :=
  ed25519_Sign key (receipt_SigningPayload receipt).
Definition receipt_Verify (receipt : ReceiptV3) (key signature : bytes) : bool :=
  bool_decide (Z.of_nat (length signature) = Ed25519SignatureBytes)
  && ed25519_Verify key (receipt_SigningPayload receipt) signature.

Definition package_Verify (pkg : KeyPackageV3) (encodedKey : string) : result unit :=
  check package_Validate pkg;
  let? key := orelse [] (decodeCanonical encodedKey Ed25519PublicKeyBytes) in
  let? signature := orelse [] (decodeCanonical (k_Signature pkg) Ed25519SignatureBytes) in
  rfail_if (ed25519_Verify key (package_SigningPayload pkg) signature = false) [].

Definition package_Digest (pkg : KeyPackageV3) : string :=
  digest
    (newCanonical (LabelKeyPackage +:+ "-digest")
       .> text (k_VaultID pkg)
       .> text (k_SenderDeviceID pkg)
       .> text (k_RecipientDeviceID pkg)
       .> number (k_VaultEpoch pkg)
       .> text (k_EntryDigest pkg)
       .> text (k_Ciphertext pkg)
       .> text (k_Signature pkg)).

Definition checkpoint_Verify (checkpoint : Checkpoint) (encodedKey : string) : result unit :=
  check checkpoint_Validate checkpoint;
  let? key := orelse [ErrCheckpointInvalid] (decodeCanonical encodedKey Ed25519PublicKeyBytes) in
  let? signature := orelse [ErrCheckpointInvalid]
                      (decodeCanonical (c_Signature checkpoint) Ed25519SignatureBytes) in
  rfail_if (ed25519_Verify key (checkpoint_SigningPayload checkpoint) signature = false)
    [ErrCheckpointInvalid].

Definition VerifyAgainst (checkpoint : Checkpoint) (list : DeviceList) : result unit :=
  check checkpoint_Validate checkpoint;
  check rfail_if (c_VaultID checkpoint ≠ VaultID list) [ErrCheckpointInvalid];
  check rfail_if (c_DeviceListIndex checkpoint > Head list) [ErrHistoryBroken];
  check rfail_if ((DigestAt list (c_DeviceListIndex checkpoint)).1 ≠ c_DeviceListDigest checkpoint)
          [ErrHistoryBroken];
  match MemberAt list (c_DeviceID checkpoint) (c_DeviceListIndex checkpoint) with
  | None => Err [ErrCheckpointInvalid]
  | Some signer => checkpoint_Verify checkpoint (m_SigningKey signer)
  end.

Definition SignCheckpoint (key : bytes) (checkpoint : Checkpoint) : Checkpoint :=
  {| c_Version := c_Version checkpoint; c_VaultID := c_VaultID checkpoint;
     c_DeviceID := c_DeviceID checkpoint; c_DeviceListIndex := c_DeviceListIndex checkpoint;
     c_DeviceListDigest := c_DeviceListDigest checkpoint;
     c_HeaderRevision := c_HeaderRevision checkpoint;
     c_HeaderDigest := c_HeaderDigest checkpoint; c_ObservedAt := c_ObservedAt checkpoint;
     c_Signature := EncodeToString (ed25519_Sign key (checkpoint_SigningPayload checkpoint)) |}.
End Request.

(** * Facts *)
Lemma withinSkew_true timestamp now :
  is_u64 timestamp → is_u64 now →
  withinSkew timestamp now = true ↔ Z.abs (timestamp - now) ≤ RequestTimestampSkew.
Proof.
  unfold withinSkew, is_u64. intros ??.
  case_decide; rewrite u64_small by (unfold is_u64; lia); rewrite bool_decide_eq_true; lia.
Qed.
