(* ===== verification/SyncTypes.v ===== *)
(** * Data and interfaces of the sync service: internal/syncsvc/types.go

    [Tx] is the interface a transaction offers to the service and [Storage] the interface of a store
    that runs transactions.  The service is written against both; [MemStore] implements them, and
    [NonceKeeper] decorates any implementation. *)

From stdpp Require Import base list gmap strings.
From Stdlib Require Import ZArith Lia Strings.Byte.
From S2P Require Import Prelude GoStd Canonical DeviceList Header Request.
Local Open Scope Z_scope.

Definition DevicePending : string := "pending".
Definition DeviceApproved : string := "approved".
Definition DeviceRevoked : string := "revoked".
Definition PairingOffered : string := "offered".
Definition PairingAnswered : string := "answered".
Definition PairingConfirmed : string := "confirmed".
Definition MaxPairingMessageBytes : Z := 512.
Definition PairingLifetime : Z := 10 * minute.
Definition MaxPendingPairings : Z := 3.
Definition MaxHeadersPerPage : Z := 500.
Definition MaxEntriesPerPage : Z := 500.

Record Caller := {
  cl_OwnerKey : string;
  cl_TokenDeviceID : string;
  cl_Token : string;
}.

Record Vault := {
  v_ID : string;
  v_OwnerKey : string;
  v_CurrentRevision : Z;
  v_HeadIndex : Z;
  v_Epoch : Z;
  v_CreatedAt : time;
  v_UpdatedAt : time;
}.

Record Device := {
  d_VaultID : string;
  d_DeviceID : string;
  d_TokenDeviceID : string;
  d_SigningKey : string;
  d_PackageKey : string;
  d_State : string;
  d_AddedIndex : Z;
  d_ActivatedEpoch : Z;
  d_CreatedAt : time;
}.

Record Pairing := {
  p_VaultID : string;
  p_DeviceID : string;
  p_TokenDeviceID : string;
  p_SigningKey : string;
  p_PackageKey : string;
  p_Offer : bytes;
  p_Answer : bytes;
  p_Confirm : bytes;
  p_State : string;
  p_ExpiresAt : time;
  p_CreatedAt : time;
}.

Record KeyPackage := { kp_Package : KeyPackageV3; kp_CreatedAt : time }.

Record StoredHeader := {
  sh_Header : Header;
  sh_Digest : string;
  sh_Receipt : string;
  sh_AcceptedAt : time;
}.

Record StoredCheckpoint := { sc_Checkpoint : Checkpoint; sc_AcceptedAt : time }.

Record Actor := {
  a_Vault : Vault;
  a_Device : Device;
  a_Pairing : option Pairing;
}.

Record SignedRequest := {
  q_Method : string;
  q_Target : string;
  q_Body : bytes;
  q_Timestamp : Z;
  q_Nonce : string;
  q_Signature : string;
}.

(** The zero value of [Device]. *)
Definition zero_Device : Device :=
  {| d_VaultID := ""; d_DeviceID := ""; d_TokenDeviceID := ""; d_SigningKey := "";
     d_PackageKey := ""; d_State := ""; d_AddedIndex := 0; d_ActivatedEpoch := 0;
     d_CreatedAt := zero_time |}.

(** ** Field updates used by the service *)
Definition set_v_list (head epoch : Z) (now : time) (v : Vault) : Vault :=
  {| v_ID := v_ID v; v_OwnerKey := v_OwnerKey v; v_CurrentRevision := v_CurrentRevision v;
     v_HeadIndex := head; v_Epoch := epoch; v_CreatedAt := v_CreatedAt v; v_UpdatedAt := now |}.
Definition set_v_revision (revision : Z) (now : time) (v : Vault) : Vault :=
  {| v_ID := v_ID v; v_OwnerKey := v_OwnerKey v; v_CurrentRevision := revision;
     v_HeadIndex := v_HeadIndex v; v_Epoch := v_Epoch v; v_CreatedAt := v_CreatedAt v;
     v_UpdatedAt := now |}.
Definition set_d_State (state : string) (d : Device) : Device :=
  {| d_VaultID := d_VaultID d; d_DeviceID := d_DeviceID d; d_TokenDeviceID := d_TokenDeviceID d;
     d_SigningKey := d_SigningKey d; d_PackageKey := d_PackageKey d; d_State := state;
     d_AddedIndex := d_AddedIndex d; d_ActivatedEpoch := d_ActivatedEpoch d;
     d_CreatedAt := d_CreatedAt d |}.
Definition set_d_ActivatedEpoch (epoch : Z) (d : Device) : Device :=
  {| d_VaultID := d_VaultID d; d_DeviceID := d_DeviceID d; d_TokenDeviceID := d_TokenDeviceID d;
     d_SigningKey := d_SigningKey d; d_PackageKey := d_PackageKey d; d_State := d_State d;
     d_AddedIndex := d_AddedIndex d; d_ActivatedEpoch := epoch; d_CreatedAt := d_CreatedAt d |}.
Definition set_d_PackageKey (key : string) (d : Device) : Device :=
  {| d_VaultID := d_VaultID d; d_DeviceID := d_DeviceID d; d_TokenDeviceID := d_TokenDeviceID d;
     d_SigningKey := d_SigningKey d; d_PackageKey := key; d_State := d_State d;
     d_AddedIndex := d_AddedIndex d; d_ActivatedEpoch := d_ActivatedEpoch d;
     d_CreatedAt := d_CreatedAt d |}.
Definition set_p_Answer (message : bytes) (p : Pairing) : Pairing :=
  {| p_VaultID := p_VaultID p; p_DeviceID := p_DeviceID p; p_TokenDeviceID := p_TokenDeviceID p;
     p_SigningKey := p_SigningKey p; p_PackageKey := p_PackageKey p; p_Offer := p_Offer p;
     p_Answer := message; p_Confirm := p_Confirm p; p_State := PairingAnswered;
     p_ExpiresAt := p_ExpiresAt p; p_CreatedAt := p_CreatedAt p |}.
Definition set_p_Confirm (message : bytes) (p : Pairing) : Pairing :=
  {| p_VaultID := p_VaultID p; p_DeviceID := p_DeviceID p; p_TokenDeviceID := p_TokenDeviceID p;
     p_SigningKey := p_SigningKey p; p_PackageKey := p_PackageKey p; p_Offer := p_Offer p;
     p_Answer := p_Answer p; p_Confirm := message; p_State := PairingConfirmed;
     p_ExpiresAt := p_ExpiresAt p; p_CreatedAt := p_CreatedAt p |}.

(** ** The transaction interface *)
Class Tx (S : Type) := {
  tx_VaultByOwner : string → M S Vault;
  tx_VaultByID : string → M S Vault;
  tx_InsertVault : Vault → M S unit;
  tx_UpdateVault : Vault → M S unit;
  tx_DeleteVault : string → M S unit;

  tx_Devices : string → M S (list Device);
  tx_Device : string → string → M S Device;
  tx_DeviceByToken : string → string → M S Device;
  tx_PutDevice : Device → M S unit;

  tx_DeviceListEntries : string → Z → Z → M S (list DeviceListEntry);
  tx_AppendDeviceListEntry : DeviceListEntry → M S unit;

  tx_PutKeyPackage : KeyPackage → M S unit;
  tx_KeyPackage : string → string → M S KeyPackage;
  tx_DeleteKeyPackages : string → M S unit;

  tx_InsertHeader : StoredHeader → M S unit;
  tx_Headers : string → Z → Z → M S (list StoredHeader);
  tx_Header : string → Z → M S StoredHeader;
  tx_LatestHeader : string → M S StoredHeader;
  tx_PruneHeaders : string → Z → M S unit;

  tx_PutCiphertext : string → Z → bytes → M S unit;
  tx_Ciphertext : string → Z → M S bytes;
  tx_CiphertextBytes : string → M S Z;
  tx_OldestCiphertext : string → M S (Z * Z);
  tx_DeleteCiphertext : string → Z → M S unit;
  tx_DeleteCiphertextsBefore : string → Z → M S unit;

  tx_PutCheckpoint : StoredCheckpoint → M S unit;
  tx_Checkpoint : string → string → M S StoredCheckpoint;
  tx_Checkpoints : string → M S (list StoredCheckpoint);
  tx_DeleteCheckpoint : string → string → M S unit;

  tx_PutPairing : Pairing → M S unit;
  tx_Pairing : string → string → M S Pairing;
  tx_PairingByToken : string → string → M S Pairing;
  tx_Pairings : string → M S (list Pairing);
  tx_DeletePairing : string → string → M S unit;

  tx_RecordNonce : string → string → time → time → M S bool;
  tx_PurgeExpired : time → M S unit;
}.

(** ** The storage interface

    [storage_Update fn w] runs [fn] in a transaction on the store [w]; [fn] may also leave a value
    [X] in a variable its caller holds, which survives a rollback and is [None] when the store never
    called [fn]. *)
Class Storage (W S : Type) := {
  storage_Update {A X} : (S → result A * X * S) → W → result A * option X * W;
  storage_View {A} : M S A → W → result A * W;
}.

(** The store determines its transactions; a transaction is never guessed. *)
#[export] Hint Mode Tx ! : typeclass_instances.
#[export] Hint Mode Storage ! - : typeclass_instances.
