(* ===== verification/MemStore.v ===== *)
(** * The in-memory store: internal/syncsvc/memstore/memstore.go *)

From stdpp Require Import base list gmap strings sorting.
From Stdlib Require Import ZArith Lia Strings.Byte Ascii.
From S2P Require Import Prelude GoStd Canonical DeviceList Header Request SyncTypes.
Local Open Scope Z_scope.
Local Open Scope go_scope.

Record state := {
  st_vaults : gmap string Vault;
  st_devices : gmap string Device;
  st_entries : gmap string (list DeviceListEntry);
  st_packages : gmap string KeyPackage;
  st_headers : gmap string (gmap Z StoredHeader);
  st_ciphertexts : gmap string (gmap Z bytes);
  st_pairings : gmap string Pairing;
  st_checkpoints : gmap string StoredCheckpoint;
  st_nonces : gmap string time;
}.

Definition newState : state :=
  {| st_vaults := ∅; st_devices := ∅; st_entries := ∅; st_packages := ∅; st_headers := ∅;
     st_ciphertexts := ∅; st_pairings := ∅; st_checkpoints := ∅; st_nonces := ∅ |}.

(** [state.clone]: every map is copied entry by entry, so the copy is equal and shares nothing. *)
Definition clone (s : state) : state :=
  {| st_vaults := st_vaults s; st_devices := st_devices s; st_entries := st_entries s;
     st_packages := st_packages s; st_headers := st_headers s;
     st_ciphertexts := st_ciphertexts s; st_pairings := st_pairings s;
     st_checkpoints := st_checkpoints s; st_nonces := st_nonces s |}.

Definition set_vaults (m : gmap string Vault) (s : state) : state :=
  {| st_vaults := m; st_devices := st_devices s; st_entries := st_entries s;
     st_packages := st_packages s; st_headers := st_headers s;
     st_ciphertexts := st_ciphertexts s; st_pairings := st_pairings s;
     st_checkpoints := st_checkpoints s; st_nonces := st_nonces s |}.
Definition set_devices (m : gmap string Device) (s : state) : state :=
  {| st_vaults := st_vaults s; st_devices := m; st_entries := st_entries s;
     st_packages := st_packages s; st_headers := st_headers s;
     st_ciphertexts := st_ciphertexts s; st_pairings := st_pairings s;
     st_checkpoints := st_checkpoints s; st_nonces := st_nonces s |}.
Definition set_entries (m : gmap string (list DeviceListEntry)) (s : state) : state :=
  {| st_vaults := st_vaults s; st_devices := st_devices s; st_entries := m;
     st_packages := st_packages s; st_headers := st_headers s;
     st_ciphertexts := st_ciphertexts s; st_pairings := st_pairings s;
     st_checkpoints := st_checkpoints s; st_nonces := st_nonces s |}.
Definition set_packages (m : gmap string KeyPackage) (s : state) : state :=
  {| st_vaults := st_vaults s; st_devices := st_devices s; st_entries := st_entries s;
     st_packages := m; st_headers := st_headers s;
     st_ciphertexts := st_ciphertexts s; st_pairings := st_pairings s;
     st_checkpoints := st_checkpoints s; st_nonces := st_nonces s |}.
Definition set_headers (m : gmap string (gmap Z StoredHeader)) (s : state) : state :=
  {| st_vaults := st_vaults s; st_devices := st_devices s; st_entries := st_entries s;
     st_packages := st_packages s; st_headers := m;
     st_ciphertexts := st_ciphertexts s; st_pairings := st_pairings s;
     st_checkpoints := st_checkpoints s; st_nonces := st_nonces s |}.
Definition set_ciphertexts (m : gmap string (gmap Z bytes)) (s : state) : state :=
  {| st_vaults := st_vaults s; st_devices := st_devices s; st_entries := st_entries s;
     st_packages := st_packages s; st_headers := st_headers s;
     st_ciphertexts := m; st_pairings := st_pairings s;
     st_checkpoints := st_checkpoints s; st_nonces := st_nonces s |}.
Definition set_pairings (m : gmap string Pairing) (s : state) : state :=
  {| st_vaults := st_vaults s; st_devices := st_devices s; st_entries := st_entries s;
     st_packages := st_packages s; st_headers := st_headers s;
     st_ciphertexts := st_ciphertexts s; st_pairings := m;
     st_checkpoints := st_checkpoints s; st_nonces := st_nonces s |}.
Definition set_checkpoints (m : gmap string StoredCheckpoint) (s : state) : state :=
  {| st_vaults := st_vaults s; st_devices := st_devices s; st_entries := st_entries s;
     st_packages := st_packages s; st_headers := st_headers s;
     st_ciphertexts := st_ciphertexts s; st_pairings := st_pairings s;
     st_checkpoints := m; st_nonces := st_nonces s |}.
Definition set_nonces (m : gmap string time) (s : state) : state :=
  {| st_vaults := st_vaults s; st_devices := st_devices s; st_entries := st_entries s;
     st_packages := st_packages s; st_headers := st_headers s;
     st_ciphertexts := st_ciphertexts s; st_pairings := st_pairings s;
     st_checkpoints := st_checkpoints s; st_nonces := m |}.

(** [key]: every part is followed by a NUL byte. *)
Fixpoint key (parts : list string) : string :=
  match parts with
  | [] => ""
  | part :: parts => part +:+ String Ascii.zero (key parts)
  end.

Definition entries_of (s : state) (vaultID : string) : list DeviceListEntry :=
  default [] (st_entries s !! vaultID).
Definition headers_of (s : state) (vaultID : string) : gmap Z StoredHeader :=
  default ∅ (st_headers s !! vaultID).
Definition ciphertexts_of (s : state) (vaultID : string) : gmap Z bytes :=
  default ∅ (st_ciphertexts s !! vaultID).

(** A lookup that answers [ErrNotFound]. *)
Definition found {A} (o : option A) : M state A :=
  match o with Some a => mreturn a | None => mfail [ErrNotFound] end.
Definition reading {A} (f : state → M state A) : M state A := λ s, f s s.
Definition updating (f : state → state) : M state unit := λ s, (Ok tt, f s).

(** The orders of the [sort.Slice] calls. *)
Definition by_added (a b : Device) : Prop := d_AddedIndex a ≤ d_AddedIndex b.
Definition by_created (a b : Pairing) : Prop := p_CreatedAt a ≤ p_CreatedAt b.
Definition by_device (a b : StoredCheckpoint) : Prop :=
  String.le (c_DeviceID (sc_Checkpoint a)) (c_DeviceID (sc_Checkpoint b)).
#[export] Instance by_added_dec : RelDecision by_added.
Proof. intros a b. unfold by_added. apply _. Defined.
#[export] Instance by_created_dec : RelDecision by_created.
Proof. intros a b. unfold by_created. apply _. Defined.
#[export] Instance by_device_dec : RelDecision by_device.
Proof. intros a b. unfold by_device. apply _. Defined.

Section MemStore.
Context `{MapRange}.

Definition values {A} (m : gmap string A) : list A := (range_map m).*2.

Definition VaultByOwner (ownerKey : string) : M state Vault :=
  reading (λ s, found (list_find (λ v, v_OwnerKey v = ownerKey) (values (st_vaults s)) ≫= λ iv, Some iv.2)).

Definition VaultByID (vaultID : string) : M state Vault :=
  reading (λ s, found (st_vaults s !! vaultID)).

Definition InsertVault (vault : Vault) : M state unit :=
  let! exists_ := reading (λ s, mreturn (st_vaults s !! v_ID vault)) in
  run mfail_if (is_Some exists_) [ErrConflict];
  let! owned := mtry (VaultByOwner (v_OwnerKey vault)) in
  run mfail_if (is_ok owned = true) [ErrConflict];
  updating (λ s, set_vaults (<[v_ID vault := vault]> (st_vaults s)) s).

Definition UpdateVault (vault : Vault) : M state unit :=
  let! exists_ := reading (λ s, mreturn (st_vaults s !! v_ID vault)) in
  run mfail_if (exists_ = None) [ErrNotFound];
  updating (λ s, set_vaults (<[v_ID vault := vault]> (st_vaults s)) s).

(** The deletes in the [range] loops drop exactly the entries of the vault. *)
Definition DeleteVault (vaultID : string) : M state unit :=
  updating (λ s,
    {| st_vaults := delete vaultID (st_vaults s);
       st_devices := filter (λ kv, d_VaultID kv.2 ≠ vaultID) (st_devices s);
       st_entries := delete vaultID (st_entries s);
       st_packages := filter (λ kv, k_VaultID (kp_Package kv.2) ≠ vaultID) (st_packages s);
       st_headers := delete vaultID (st_headers s);
       st_ciphertexts := delete vaultID (st_ciphertexts s);
       st_pairings := filter (λ kv, p_VaultID kv.2 ≠ vaultID) (st_pairings s);
       st_checkpoints := filter (λ kv, c_VaultID (sc_Checkpoint kv.2) ≠ vaultID) (st_checkpoints s);
       st_nonces := st_nonces s |}).

Definition Devices (vaultID : string) : M state (list Device) :=
  reading (λ s, mreturn
    (merge_sort by_added
       (filter (λ d, d_VaultID d = vaultID) (values (st_devices s))))).

Definition GetDevice (vaultID deviceID : string) : M state Device :=
  reading (λ s, found (st_devices s !! key [vaultID; deviceID])).

(** One iteration of the loop of [DeviceByToken]. *)
Definition better_device (vaultID tokenDeviceID : string) (best device : Device) : Device :=
  if decide (d_VaultID device ≠ vaultID ∨ d_TokenDeviceID device ≠ tokenDeviceID) then best
  else if decide (d_DeviceID best = ""
                  ∨ (d_State best = DeviceRevoked ∧ d_State device ≠ DeviceRevoked)
                  ∨ (d_State best = d_State device ∧ d_AddedIndex device > d_AddedIndex best))
  then device else best.

Definition DeviceByToken (vaultID tokenDeviceID : string) : M state Device :=
  reading (λ s,
    let best := foldl (better_device vaultID tokenDeviceID) zero_Device (values (st_devices s)) in
    if decide (d_DeviceID best = "") then mfail [ErrNotFound] else mreturn best).

(** Another live device of the vault has the same token. *)
Definition token_conflict (device existing : Device) : Prop :=
  d_VaultID existing = d_VaultID device ∧ d_TokenDeviceID existing = d_TokenDeviceID device ∧
  d_DeviceID existing ≠ d_DeviceID device ∧ d_State existing ≠ DeviceRevoked.
#[export] Instance token_conflict_dec device existing : Decision (token_conflict device existing).
Proof. unfold token_conflict. apply _. Defined.

Definition PutDevice (device : Device) : M state unit :=
  let! conflict := reading (λ s, mreturn (bool_decide (Exists (token_conflict device) (values (st_devices s))))) in
  run mfail_if (d_State device ≠ DeviceRevoked ∧ conflict = true) [ErrConflict];
  updating (λ s, set_devices (<[key [d_VaultID device; d_DeviceID device] := device]> (st_devices s)) s).

(** The loop of [DeviceListEntries]: at most [limit] entries after the index [after]. *)
Fixpoint page (after limit : Z) (out : list DeviceListEntry) (entries : list DeviceListEntry)
  : list DeviceListEntry :=
  match entries with
  | [] => out
  | entry :: entries =>
      page after limit
        (if decide (e_Index entry > after ∧ Z.of_nat (length out) < limit) then out ++ [entry] else out)
        entries
  end.

Definition DeviceListEntries (vaultID : string) (after limit : Z) : M state (list DeviceListEntry) :=
  reading (λ s, mreturn (page after limit [] (entries_of s vaultID))).

Definition AppendDeviceListEntry (entry : DeviceListEntry) : M state unit :=
  let! existing := reading (λ s, mreturn (entries_of s (e_VaultID entry))) in
  run mfail_if (u64 (u64 (Z.of_nat (length existing)) + 1) ≠ e_Index entry) [ErrConflict];
  updating (λ s, set_entries (<[e_VaultID entry := existing ++ [entry]]> (st_entries s)) s).

Definition PutKeyPackage (pkg : KeyPackage) : M state unit :=
  updating (λ s,
    set_packages
      (<[key [k_VaultID (kp_Package pkg); k_RecipientDeviceID (kp_Package pkg)] := pkg]>
         (st_packages s)) s).

Definition GetKeyPackage (vaultID recipientDeviceID : string) : M state KeyPackage :=
  reading (λ s, found (st_packages s !! key [vaultID; recipientDeviceID])).

Definition DeleteKeyPackages (vaultID : string) : M state unit :=
  updating (λ s,
    set_packages (filter (λ kv, k_VaultID (kp_Package kv.2) ≠ vaultID) (st_packages s)) s).

Definition InsertHeader (header : StoredHeader) : M state unit :=
  let vaultID := h_VaultID (sh_Header header) in
  let revision := h_Revision (sh_Header header) in
  run updating (λ s, set_headers (<[vaultID := headers_of s vaultID]> (st_headers s)) s);
  let! byRevision := reading (λ s, mreturn (headers_of s vaultID)) in
  run mfail_if (is_Some (byRevision !! revision)) [ErrConflict];
  updating (λ s, set_headers (<[vaultID := <[revision := header]> byRevision]> (st_headers s)) s).

Definition Headers (vaultID : string) (after limit : Z) : M state (list StoredHeader) :=
  reading (λ s, mreturn
    (let byRevision := headers_of s vaultID in
     let revisions := merge_sort Z.le (filter (λ r, r > after) (range_map byRevision).*1) in
     omap (λ r, byRevision !! r) (take (Z.to_nat limit) revisions))).

Definition GetHeader (vaultID : string) (revision : Z) : M state StoredHeader :=
  reading (λ s, found (headers_of s vaultID !! revision)).

Definition LatestHeader (vaultID : string) : M state StoredHeader :=
  reading (λ s, found
    (foldl (λ latest header,
              match latest with
              | Some best => if decide (h_Revision (sh_Header header) > h_Revision (sh_Header best))
                             then Some header else latest
              | None => Some header
              end) None (range_map (headers_of s vaultID)).*2)).

Definition PruneHeaders (vaultID : string) (keepFrom : Z) : M state unit :=
  updating (λ s,
    set_headers (alter (filter (λ kv, ¬ kv.1 < keepFrom)) vaultID (st_headers s)) s).

Definition PutCiphertext (vaultID : string) (revision : Z) (ciphertext : bytes) : M state unit :=
  updating (λ s,
    set_ciphertexts (<[vaultID := <[revision := ciphertext]> (ciphertexts_of s vaultID)]>
                       (st_ciphertexts s)) s).

Definition Ciphertext (vaultID : string) (revision : Z) : M state bytes :=
  reading (λ s, found (ciphertexts_of s vaultID !! revision)).

Definition CiphertextBytes (vaultID : string) : M state Z :=
  reading (λ s, mreturn
    (foldl (λ total c, i64 (total + Z.of_nat (length c))) 0 (range_map (ciphertexts_of s vaultID)).*2)).

Definition OldestCiphertext (vaultID : string) : M state (Z * Z) :=
  reading (λ s, found
    (foldl (λ oldest rc,
              match oldest with
              | Some (r, _) => if decide (rc.1 < r) then Some (rc.1, Z.of_nat (length rc.2)) else oldest
              | None => Some (rc.1, Z.of_nat (length rc.2))
              end) None (range_map (ciphertexts_of s vaultID)))).

Definition DeleteCiphertext (vaultID : string) (revision : Z) : M state unit :=
  updating (λ s, set_ciphertexts (alter (delete revision) vaultID (st_ciphertexts s)) s).

Definition DeleteCiphertextsBefore (vaultID : string) (revision : Z) : M state unit :=
  updating (λ s,
    set_ciphertexts (alter (filter (λ kv, ¬ kv.1 < revision)) vaultID (st_ciphertexts s)) s).

Definition PutCheckpoint (checkpoint : StoredCheckpoint) : M state unit :=
  let c := sc_Checkpoint checkpoint in
  updating (λ s, set_checkpoints (<[key [c_VaultID c; c_DeviceID c] := checkpoint]> (st_checkpoints s)) s).

Definition GetCheckpoint (vaultID deviceID : string) : M state StoredCheckpoint :=
  reading (λ s, found (st_checkpoints s !! key [vaultID; deviceID])).

Definition Checkpoints (vaultID : string) : M state (list StoredCheckpoint) :=
  reading (λ s, mreturn
    (merge_sort by_device
       (filter (λ c, c_VaultID (sc_Checkpoint c) = vaultID) (values (st_checkpoints s))))).

Definition DeleteCheckpoint (vaultID deviceID : string) : M state unit :=
  updating (λ s, set_checkpoints (delete (key [vaultID; deviceID]) (st_checkpoints s)) s).

Definition PutPairing (pairing : Pairing) : M state unit :=
  updating (λ s, set_pairings (<[key [p_VaultID pairing; p_DeviceID pairing] := pairing]> (st_pairings s)) s).

Definition GetPairing (vaultID deviceID : string) : M state Pairing :=
  reading (λ s, found (st_pairings s !! key [vaultID; deviceID])).

Definition PairingByToken (vaultID tokenDeviceID : string) : M state Pairing :=
  reading (λ s, found
    (list_find (λ p, p_VaultID p = vaultID ∧ p_TokenDeviceID p = tokenDeviceID)
       (values (st_pairings s)) ≫= λ ip, Some ip.2)).

Definition Pairings (vaultID : string) : M state (list Pairing) :=
  reading (λ s, mreturn
    (merge_sort by_created
       (filter (λ p, p_VaultID p = vaultID) (values (st_pairings s))))).

Definition DeletePairing (vaultID deviceID : string) : M state unit :=
  updating (λ s, set_pairings (delete (key [vaultID; deviceID]) (st_pairings s)) s).

Definition RecordNonce (scope nonce : string) (now expiresAt : time) : M state bool :=
  let id := key [scope; nonce] in
  let! seen := reading (λ s, mreturn (st_nonces s !! id)) in
  if match seen with Some until => bool_decide (now < until) | None => false end then mreturn false
  else
    run updating (λ s, set_nonces (<[id := expiresAt]> (st_nonces s)) s);
    mreturn true.

Definition PurgeExpired (now : time) : M state unit :=
  updating (λ s,
    set_pairings (filter (λ kv, now < p_ExpiresAt kv.2) (st_pairings s))
      (set_nonces (filter (λ kv, now < kv.2) (st_nonces s)) s)).
End MemStore.

(** The transaction and the store.  A store is its [data]; the mutex makes each [Update] and [View]
    atomic.  [Update] works on a clone and installs it on success only; [View] runs on the data. *)
#[export] Instance memTx `{MapRange} : Tx state := {|
  tx_VaultByOwner := VaultByOwner;
  tx_VaultByID := VaultByID;
  tx_InsertVault := InsertVault;
  tx_UpdateVault := UpdateVault;
  tx_DeleteVault := DeleteVault;
  tx_Devices := Devices;
  tx_Device := GetDevice;
  tx_DeviceByToken := DeviceByToken;
  tx_PutDevice := PutDevice;
  tx_DeviceListEntries := DeviceListEntries;
  tx_AppendDeviceListEntry := AppendDeviceListEntry;
  tx_PutKeyPackage := PutKeyPackage;
  tx_KeyPackage := GetKeyPackage;
  tx_DeleteKeyPackages := DeleteKeyPackages;
  tx_InsertHeader := InsertHeader;
  tx_Headers := Headers;
  tx_Header := GetHeader;
  tx_LatestHeader := LatestHeader;
  tx_PruneHeaders := PruneHeaders;
  tx_PutCiphertext := PutCiphertext;
  tx_Ciphertext := Ciphertext;
  tx_CiphertextBytes := CiphertextBytes;
  tx_OldestCiphertext := OldestCiphertext;
  tx_DeleteCiphertext := DeleteCiphertext;
  tx_DeleteCiphertextsBefore := DeleteCiphertextsBefore;
  tx_PutCheckpoint := PutCheckpoint;
  tx_Checkpoint := GetCheckpoint;
  tx_Checkpoints := Checkpoints;
  tx_DeleteCheckpoint := DeleteCheckpoint;
  tx_PutPairing := PutPairing;
  tx_Pairing := GetPairing;
  tx_PairingByToken := PairingByToken;
  tx_Pairings := Pairings;
  tx_DeletePairing := DeletePairing;
  tx_RecordNonce := RecordNonce;
  tx_PurgeExpired := PurgeExpired;
|}.

Definition mem_Update {A X} (fn : state → result A * X * state) (data : state)
  : result A * option X * state :=
  let working := clone data in
  match fn working with
  | (Err e, x, _) => (Err e, Some x, data)
  | (Ok a, x, working) => (Ok a, Some x, working)
  end.

Definition mem_View {A} (fn : M state A) (data : state) : result A * state := fn data.

#[export] Instance memStorage : Storage state state :=
  {| storage_Update := @mem_Update; storage_View := @mem_View |}.
