(* ===== verification/MemStoreFacts.v ===== *)
(** * The in-memory store: what each operation does

    Injectivity of the composite keys, and one inversion lemma per transaction operation.  Lookups
    answer [ErrNotFound] exactly when nothing matches, whatever order the maps are ranged over in. *)

From stdpp Require Import base list gmap strings sorting.
From Stdlib Require Import ZArith Lia Strings.Byte Ascii.
From S2P Require Import Prelude GoStd Canonical DeviceList Header Request SyncTypes MemStore.
Local Open Scope Z_scope.
Local Open Scope go_scope.

(** ** Keys *)
Definition nul_free (s : string) : bool := str_forall (λ c, bool_decide (c ≠ Ascii.zero)) s.

Lemma nul_free_app_inj a c x y :
  nul_free a = true → nul_free c = true →
  a +:+ String Ascii.zero x = c +:+ String Ascii.zero y → a = c ∧ x = y.
Proof.
  revert c. induction a as [|h a IH]; intros [|k c] Ha Hc E; cbn in *.
  - by injection E.
  - injection E as <- _. done.
  - injection E as -> _. done.
  - apply andb_true_iff in Ha as [_ Ha], Hc as [_ Hc]. injection E as -> E.
    destruct (IH c Ha Hc E) as [-> ->]. done.
Qed.

Lemma string_app_nul_inj x y : x +:+ String Ascii.zero "" = y +:+ String Ascii.zero "" → x = y.
Proof.
  revert y. induction x as [|h x IH]; intros [|k y] E; cbn in *; [done|..].
  - injection E as _ E. destruct y; done.
  - injection E as _ E. destruct x; done.
  - injection E as -> E. f_equal. auto.
Qed.

(** Two composite keys with NUL-free first parts are equal only when their parts are. *)
Lemma key_inj a b c d :
  nul_free a = true → nul_free c = true → key [a; b] = key [c; d] → a = c ∧ b = d.
Proof.
  intros Ha Hc E. cbn in E. apply nul_free_app_inj in E as [-> E]; [|done..].
  split; [done|]. by apply string_app_nul_inj.
Qed.

Lemma opaqueID_nul_free s : opaqueID s = true → nul_free s = true.
Proof.
  unfold opaqueID, nul_free. intros [_ Hs]%andb_true_iff. induction s as [|c s IH]; [done|].
  cbn in *. apply andb_true_iff in Hs as [Hc Hs]. rewrite IH by done.
  rewrite andb_true_r. apply bool_decide_eq_true. intros ->. done.
Qed.

Section Facts.
Context `{MapRange}.
Implicit Types s : state.

Lemma elem_of_values {A} (m : gmap string A) a : a ∈ values m ↔ ∃ k, m !! k = Some a.
Proof.
  unfold values. rewrite list_elem_of_fmap. split.
  - intros ([k a'] & -> & Hin). exists k. by apply elem_of_range_map.
  - intros [k Hk]. exists (k, a). split; [done|]. by apply elem_of_range_map.
Qed.

Lemma list_find_snd {A} (P : A → Prop) `{∀ x, Decision (P x)} l :
  match list_find P l ≫= λ ix, Some ix.2 with
  | Some x => x ∈ l ∧ P x
  | None => ∀ x, x ∈ l → ¬ P x
  end.
Proof.
  destruct (list_find P l) as [[i x]|] eqn:E; cbn.
  - apply list_find_Some in E as (Hx & HP & _). split; [|done]. by eapply list_elem_of_lookup_2.
  - apply list_find_None in E. rewrite Forall_forall in E. done.
Qed.

Lemma updating_inv f s u s' : updating f s = (Ok u, s') → s' = f s.
Proof. by intros [= _ <-]. Qed.

Lemma found_inv {A} (o : option A) s r s' :
  found o s = (r, s') → s' = s ∧ r = match o with Some a => Ok a | None => Err [ErrNotFound] end.
Proof. destruct o; cbn; unfold mreturn, mfail; naive_solver. Qed.

Lemma reading_found_inv {A} (f : state → option A) s r s' :
  reading (λ s, found (f s)) s = (r, s') →
  s' = s ∧ r = match f s with Some a => Ok a | None => Err [ErrNotFound] end.
Proof. apply found_inv. Qed.

Lemma VaultByOwner_inv o s r s' :
  tx_VaultByOwner o s = (r, s') →
  s' = s ∧ match r with
           | Ok v => v_OwnerKey v = o ∧ ∃ id, st_vaults s !! id = Some v
           | Err e => e = [ErrNotFound] ∧ ∀ id v, st_vaults s !! id = Some v → v_OwnerKey v ≠ o
           end.
Proof.
  cbn [tx_VaultByOwner memTx]. unfold VaultByOwner.
  intros [-> ->]%reading_found_inv. split; [done|].
  pose proof (list_find_snd (λ v, v_OwnerKey v = o) (values (st_vaults s))) as Hf.
  destruct (list_find _ _ ≫= _) as [v|].
  - destruct Hf as [Hin ?]. rewrite elem_of_values in Hin. done.
  - split; [done|]. intros id v Hv. apply Hf, elem_of_values. eauto.
Qed.

Lemma InsertVault_inv v s u s' :
  tx_InsertVault v s = (Ok u, s') →
  st_vaults s !! v_ID v = None ∧ (∀ id v', st_vaults s !! id = Some v' → v_OwnerKey v' ≠ v_OwnerKey v) ∧
  s' = set_vaults (<[v_ID v := v]> (st_vaults s)) s.
Proof.
  intros Hx. cbn in Hx. unfold InsertVault in Hx. go_inv Hx.
  apply (VaultByOwner_inv (v_OwnerKey v)) in G as [-> Hr]. destruct r0 as [|e]; [done|].
  destruct Hr as [_ Hr]. injection Hx as _ <-.
  split_and!; [by apply eq_None_not_Some|done|done].
Qed.

Lemma UpdateVault_inv v s u s' :
  tx_UpdateVault v s = (Ok u, s') →
  is_Some (st_vaults s !! v_ID v) ∧ s' = set_vaults (<[v_ID v := v]> (st_vaults s)) s.
Proof.
  intros Hx. cbn in Hx. unfold UpdateVault in Hx. go_inv Hx.
  injection Hx as _ <-. split; [|done]. by apply not_eq_None_Some.
Qed.

Lemma Device_inv v d s r s' :
  tx_Device v d s = (r, s') →
  s' = s ∧ r = match st_devices s !! key [v; d] with Some x => Ok x | None => Err [ErrNotFound] end.
Proof. apply (reading_found_inv (λ s, _)). Qed.
Lemma KeyPackage_inv v d s r s' :
  tx_KeyPackage v d s = (r, s') →
  s' = s ∧ r = match st_packages s !! key [v; d] with Some x => Ok x | None => Err [ErrNotFound] end.
Proof. apply (reading_found_inv (λ s, _)). Qed.
Lemma Pairing_inv v d s r s' :
  tx_Pairing v d s = (r, s') →
  s' = s ∧ r = match st_pairings s !! key [v; d] with Some x => Ok x | None => Err [ErrNotFound] end.
Proof. apply (reading_found_inv (λ s, _)). Qed.
Lemma Checkpoint_inv v d s r s' :
  tx_Checkpoint v d s = (r, s') →
  s' = s ∧ r = match st_checkpoints s !! key [v; d] with Some x => Ok x | None => Err [ErrNotFound] end.
Proof. apply (reading_found_inv (λ s, _)). Qed.
Lemma Header_inv v n s r s' :
  tx_Header v n s = (r, s') →
  s' = s ∧ r = match headers_of s v !! n with Some x => Ok x | None => Err [ErrNotFound] end.
Proof. apply (reading_found_inv (λ s, _)). Qed.
Lemma Ciphertext_inv v n s r s' :
  tx_Ciphertext v n s = (r, s') →
  s' = s ∧ r = match ciphertexts_of s v !! n with Some x => Ok x | None => Err [ErrNotFound] end.
Proof. apply (reading_found_inv (λ s, _)). Qed.

(** ** [DeviceByToken]: the fold over the devices *)
Lemma better_device_fold v t ds best :
  let out := foldl (better_device v t) best ds in
  (out = best ∨ out ∈ ds ∧ d_VaultID out = v ∧ d_TokenDeviceID out = t) ∧
  (d_DeviceID out = "" → Forall (λ d, d_DeviceID d ≠ "") ds →
     Forall (λ d, ¬ (d_VaultID d = v ∧ d_TokenDeviceID d = t)) ds).
Proof.
  revert best. induction ds as [|d ds IH]; intros best; cbn.
  - split; [by left|]. intros. by apply Forall_nil.
  - set (best' := better_device v t best d).
    destruct (IH best') as [IH1 IH2]. split.
    + destruct IH1 as [->|(?&?&?)]; [|right; split; [by apply list_elem_of_further|done]].
      unfold best', better_device. repeat case_decide; [by left| |by left].
      right. split; [apply list_elem_of_here|]. destruct (decide (d_VaultID d = v)), (decide (d_TokenDeviceID d = t)); naive_solver.
    + intros Hout [Hd Hds]%Forall_cons. apply Forall_cons. split; [|auto].
      intros [Hv Ht].
      assert (d_DeviceID best' ≠ "") as Hb'.
      { unfold best', better_device. rewrite decide_False by naive_solver.
        case_decide; [done|]. naive_solver. }
      destruct IH1 as [E|(Hin & _)]; [congruence|].
      rewrite Forall_forall in Hds. by apply (Hds _ Hin).
Qed.

Lemma DeviceByToken_inv v t s r s' :
  tx_DeviceByToken v t s = (r, s') →
  s' = s ∧ match r with
           | Ok d => d_VaultID d = v ∧ d_TokenDeviceID d = t ∧ d_DeviceID d ≠ "" ∧
                     ∃ k, st_devices s !! k = Some d
           | Err e => e = [ErrNotFound]
           end.
Proof.
  cbn. unfold DeviceByToken, reading.
  destruct (better_device_fold v t (values (st_devices s)) zero_Device) as [H1 _].
  case_decide as Hd; unfold mfail, mreturn; intros; simplify_eq; split; try done.
  destruct H1 as [H1|(Hin & ? & ?)]; [by rewrite H1 in Hd|].
  apply elem_of_values in Hin. done.
Qed.

(** A revoked answer means that no live device of the vault has the token. *)
Lemma better_device_revoked v t ds best :
  Forall (λ d, d_VaultID d = v → d_DeviceID d ≠ "") ds →
  let out := foldl (better_device v t) best ds in
  (d_DeviceID out = "" ∨ d_State out = DeviceRevoked) →
  (d_DeviceID best ≠ "" → d_DeviceID out ≠ "" ∧ d_State best = DeviceRevoked) ∧
  Forall (λ d, d_VaultID d = v → d_TokenDeviceID d = t → d_State d = DeviceRevoked) ds.
Proof.
  revert best. induction ds as [|d ds IH]; intros best Hids; cbn.
  { intros [Ho|Ho]; split; try done; by apply Forall_nil. }
  apply Forall_cons in Hids as [Hid Hids]. intros Ho.
  destruct (IH (better_device v t best d) Hids Ho) as [Hb Hall]. rewrite Forall_cons.
  set (out := foldl _ _ ds) in *. clearbody out. unfold better_device in Hb.
  case_decide as Hm; [naive_solver|].
  assert (d_VaultID d = v ∧ d_TokenDeviceID d = t) as [Hv Ht].
  { destruct (decide (d_VaultID d = v)), (decide (d_TokenDeviceID d = t)); naive_solver. }
  specialize (Hid Hv). case_decide as Hc.
  - destruct (Hb Hid) as [Hne Hr]. split; [|by split]. intros Hbest. split; [done|].
    by destruct Hc as [?|[[? ?]|[? _]]]; congruence.
  - apply Decidable.not_or in Hc as [Hbest [Hc _]%Decidable.not_or].
    destruct (Hb Hbest) as [Hne Hr]. split; [done|]. split; [|done].
    intros _ _. destruct (decide (d_State d = DeviceRevoked)); [done|]. destruct Hc. done.
Qed.

Lemma DeviceByToken_revoked v t s r s' :
  tx_DeviceByToken v t s = (r, s') →
  (∀ k d, st_devices s !! k = Some d → d_VaultID d = v → d_DeviceID d ≠ "") →
  (∀ d, r = Ok d → d_State d = DeviceRevoked) →
  ∀ k d, st_devices s !! k = Some d → d_VaultID d = v → d_TokenDeviceID d = t → d_State d = DeviceRevoked.
Proof.
  cbn. unfold DeviceByToken, reading. intros Hx Hids Hr k d Hd Hv Ht.
  assert (Forall (λ d, d_VaultID d = v → d_DeviceID d ≠ "") (values (st_devices s))) as Hf.
  { apply Forall_forall. intros d' [k' Hk']%elem_of_values. eauto. }
  destruct (better_device_revoked v t _ zero_Device Hf) as [_ Hall].
  { case_decide; [by left|right]. injection Hx as <- _. by apply Hr. }
  rewrite Forall_forall in Hall. apply Hall; [|done..]. apply elem_of_values. eauto.
Qed.

Lemma PutDevice_inv d s u s' :
  tx_PutDevice d s = (Ok u, s') →
  (d_State d ≠ DeviceRevoked → ∀ k d', st_devices s !! k = Some d' → ¬ token_conflict d d') ∧
  s' = set_devices (<[key [d_VaultID d; d_DeviceID d] := d]> (st_devices s)) s.
Proof.
  intros Hx. cbn in Hx. unfold PutDevice in Hx. go_inv Hx.
  injection Hx as _ <-. split; [|done]. intros Hs k d' Hd' Hc. apply G0. split; [done|].
  apply bool_decide_eq_true. apply Exists_exists. exists d'. split; [|done].
  apply elem_of_values. eauto.
Qed.

Lemma Devices_inv v s r s' :
  tx_Devices v s = (r, s') →
  s' = s ∧ ∃ ds, r = Ok ds ∧ ds ≡ₚ filter (λ d, d_VaultID d = v) (values (st_devices s)).
Proof.
  cbn. unfold Devices, reading, mreturn. intros; simplify_eq. split; [done|].
  eexists. split; [done|]. apply merge_sort_Permutation.
Qed.

Lemma Pairings_inv v s r s' :
  tx_Pairings v s = (r, s') →
  s' = s ∧ ∃ ps, r = Ok ps ∧ ps ≡ₚ filter (λ p, p_VaultID p = v) (values (st_pairings s)).
Proof.
  cbn. unfold Pairings, reading, mreturn. intros; simplify_eq. split; [done|].
  eexists. split; [done|]. apply merge_sort_Permutation.
Qed.

Lemma PairingByToken_inv v t s r s' :
  tx_PairingByToken v t s = (r, s') →
  s' = s ∧ match r with
           | Ok p => p_VaultID p = v ∧ p_TokenDeviceID p = t ∧ ∃ k, st_pairings s !! k = Some p
           | Err e => e = [ErrNotFound] ∧
               ∀ k p, st_pairings s !! k = Some p → ¬ (p_VaultID p = v ∧ p_TokenDeviceID p = t)
           end.
Proof.
  cbn [tx_PairingByToken memTx]. unfold PairingByToken.
  intros [-> ->]%reading_found_inv. split; [done|].
  pose proof (list_find_snd (λ p, p_VaultID p = v ∧ p_TokenDeviceID p = t) (values (st_pairings s))) as Hf.
  destruct (list_find _ _ ≫= _) as [p|].
  - destruct Hf as [Hin [? ?]]. apply elem_of_values in Hin. done.
  - split; [done|]. intros k p Hp. apply Hf, elem_of_values. eauto.
Qed.

Lemma DeviceListEntries_inv v after limit s r s' :
  tx_DeviceListEntries v after limit s = (r, s') → s' = s ∧ r = Ok (page after limit [] (entries_of s v)).
Proof. cbn. unfold DeviceListEntries, reading, mreturn. naive_solver. Qed.

Lemma AppendDeviceListEntry_inv e s u s' :
  tx_AppendDeviceListEntry e s = (Ok u, s') →
  s' = set_entries (<[e_VaultID e := entries_of s (e_VaultID e) ++ [e]]> (st_entries s)) s.
Proof.
  intros Hx. cbn in Hx. unfold AppendDeviceListEntry in Hx. go_inv Hx.
  by injection Hx as _ <-.
Qed.

Lemma InsertHeader_inv h s u s' :
  tx_InsertHeader h s = (Ok u, s') →
  let v := h_VaultID (sh_Header h) in
  headers_of s v !! h_Revision (sh_Header h) = None ∧
  s' = set_headers (<[v := <[h_Revision (sh_Header h) := h]> (headers_of s v)]> (st_headers s)) s.
Proof.
  intros Hx. cbn in Hx. unfold InsertHeader in Hx. go_inv Hx.
  injection Hx as _ <-.
  assert (headers_of (set_headers (<[h_VaultID (sh_Header h) := headers_of s (h_VaultID (sh_Header h))]> (st_headers s)) s)
            (h_VaultID (sh_Header h)) = headers_of s (h_VaultID (sh_Header h))) as Eh.
  { unfold headers_of at 1. cbn. by rewrite lookup_insert_eq. }
  rewrite Eh in *. cbn. split; [by apply eq_None_not_Some|].
  unfold set_headers. cbn. f_equal. apply insert_insert_eq.
Qed.

Lemma RecordNonce_inv scope nonce now expires s r s' :
  tx_RecordNonce scope nonce now expires s = (r, s') →
  (r = Ok false ∧ s' = s ∧ ∃ until, st_nonces s !! key [scope; nonce] = Some until ∧ now < until) ∨
  (r = Ok true ∧ s' = set_nonces (<[key [scope; nonce] := expires]> (st_nonces s)) s ∧
   ∀ until, st_nonces s !! key [scope; nonce] = Some until → until ≤ now).
Proof.
  intros Hx. cbn in Hx. unfold RecordNonce, mbindM, reading, mreturn in Hx. cbn in Hx.
  destruct (st_nonces s !! (scope +:+ String Ascii.zero (nonce +:+ String Ascii.zero ""))) as [until|] eqn:E.
  - destruct (bool_decide (now < until)) eqn:Eb.
    + left. apply bool_decide_eq_true in Eb. cbn in Hx. injection Hx as <- <-. eauto.
    + right. apply bool_decide_eq_false in Eb. cbn in Hx. injection Hx as <- <-.
      split_and!; [done|done|]. intros; simplify_eq. cbn in *. simplify_eq. lia.
  - right. cbn in Hx. injection Hx as <- <-. split_and!; [done|done|]. cbn. congruence.
Qed.
End Facts.
