(* ===== verification/Slices.v ===== *)
(** * Slices: the part of the in-memory store that belongs to one vault

    The store keeps every vault's rows in shared maps under composite keys.  [slice_of s id] is the
    part that belongs to the vault [id], [keyed s] says that every row is stored under its own key
    and belongs to a vault, and [effect id gv g s s'] says that a transaction changed the vault record
    of [id] by [gv], its slice by [g], and nothing of any other vault. *)

From stdpp Require Import base list gmap strings sorting.
From Stdlib Require Import ZArith Lia Strings.Byte Ascii.
From S2P Require Import Prelude GoStd Canonical DeviceList Header Request SyncTypes MemStore MemStoreFacts.
Local Open Scope Z_scope.
Local Open Scope go_scope.

Record slice := {
  sl_entries : list DeviceListEntry;
  sl_devices : gmap string Device;
  sl_packages : gmap string KeyPackage;
  sl_headers : gmap Z StoredHeader;
  sl_ciphertexts : gmap Z bytes;
  sl_pairings : gmap string Pairing;
  sl_checkpoints : gmap string StoredCheckpoint;
}.

Definition pkg_VaultID (p : KeyPackage) : string := k_VaultID (kp_Package p).
Definition pkg_DeviceID (p : KeyPackage) : string := k_RecipientDeviceID (kp_Package p).
Definition chk_VaultID (c : StoredCheckpoint) : string := c_VaultID (sc_Checkpoint c).
Definition chk_DeviceID (c : StoredCheckpoint) : string := c_DeviceID (sc_Checkpoint c).

(** The rows of one vault in a shared map. *)
Definition rows {A} (vid : A → string) (id : string) (m : gmap string A) : gmap string A :=
  filter (λ kv, vid kv.2 = id) m.

Definition slice_of (s : state) (id : string) : slice :=
  {| sl_entries := entries_of s id;
     sl_devices := rows d_VaultID id (st_devices s);
     sl_packages := rows pkg_VaultID id (st_packages s);
     sl_headers := headers_of s id;
     sl_ciphertexts := ciphertexts_of s id;
     sl_pairings := rows p_VaultID id (st_pairings s);
     sl_checkpoints := rows chk_VaultID id (st_checkpoints s) |}.

Definition on_entries f (sl : slice) : slice :=
  {| sl_entries := f (sl_entries sl); sl_devices := sl_devices sl; sl_packages := sl_packages sl;
     sl_headers := sl_headers sl; sl_ciphertexts := sl_ciphertexts sl;
     sl_pairings := sl_pairings sl; sl_checkpoints := sl_checkpoints sl |}.
Definition on_devices f (sl : slice) : slice :=
  {| sl_entries := sl_entries sl; sl_devices := f (sl_devices sl); sl_packages := sl_packages sl;
     sl_headers := sl_headers sl; sl_ciphertexts := sl_ciphertexts sl;
     sl_pairings := sl_pairings sl; sl_checkpoints := sl_checkpoints sl |}.
Definition on_packages f (sl : slice) : slice :=
  {| sl_entries := sl_entries sl; sl_devices := sl_devices sl; sl_packages := f (sl_packages sl);
     sl_headers := sl_headers sl; sl_ciphertexts := sl_ciphertexts sl;
     sl_pairings := sl_pairings sl; sl_checkpoints := sl_checkpoints sl |}.
Definition on_headers f (sl : slice) : slice :=
  {| sl_entries := sl_entries sl; sl_devices := sl_devices sl; sl_packages := sl_packages sl;
     sl_headers := f (sl_headers sl); sl_ciphertexts := sl_ciphertexts sl;
     sl_pairings := sl_pairings sl; sl_checkpoints := sl_checkpoints sl |}.
Definition on_ciphertexts f (sl : slice) : slice :=
  {| sl_entries := sl_entries sl; sl_devices := sl_devices sl; sl_packages := sl_packages sl;
     sl_headers := sl_headers sl; sl_ciphertexts := f (sl_ciphertexts sl);
     sl_pairings := sl_pairings sl; sl_checkpoints := sl_checkpoints sl |}.
Definition on_pairings f (sl : slice) : slice :=
  {| sl_entries := sl_entries sl; sl_devices := sl_devices sl; sl_packages := sl_packages sl;
     sl_headers := sl_headers sl; sl_ciphertexts := sl_ciphertexts sl;
     sl_pairings := f (sl_pairings sl); sl_checkpoints := sl_checkpoints sl |}.
Definition on_checkpoints f (sl : slice) : slice :=
  {| sl_entries := sl_entries sl; sl_devices := sl_devices sl; sl_packages := sl_packages sl;
     sl_headers := sl_headers sl; sl_ciphertexts := sl_ciphertexts sl;
     sl_pairings := sl_pairings sl; sl_checkpoints := f (sl_checkpoints sl) |}.

(** ** Maps whose rows are stored under their own key *)
Definition owned {A} (vid did : A → string) (vaults : gmap string Vault) (m : gmap string A) : Prop :=
  ∀ k a, m !! k = Some a → k = key [vid a; did a] ∧ is_Some (vaults !! vid a).

Record keyed (s : state) : Prop := {
  ky_vault : ∀ id v, st_vaults s !! id = Some v → v_ID v = id ∧ opaqueID id = true;
  ky_owner : ∀ a b v w, st_vaults s !! a = Some v → st_vaults s !! b = Some w →
    v_OwnerKey v = v_OwnerKey w → a = b;
  ky_devices : owned d_VaultID d_DeviceID (st_vaults s) (st_devices s);
  ky_packages : owned pkg_VaultID pkg_DeviceID (st_vaults s) (st_packages s);
  ky_pairings : owned p_VaultID p_DeviceID (st_vaults s) (st_pairings s);
  ky_checkpoints : owned chk_VaultID chk_DeviceID (st_vaults s) (st_checkpoints s);
  ky_entries : ∀ id x, st_entries s !! id = Some x → is_Some (st_vaults s !! id);
  ky_headers : ∀ id x, st_headers s !! id = Some x → is_Some (st_vaults s !! id);
  ky_ciphertexts : ∀ id x, st_ciphertexts s !! id = Some x → is_Some (st_vaults s !! id);
}.

Definition nul_free_vaults (vaults : gmap string Vault) : Prop :=
  ∀ id, is_Some (vaults !! id) → nul_free id = true.

Lemma keyed_nul_free s : keyed s → nul_free_vaults (st_vaults s).
Proof. intros Hk id [v Hv]. by apply opaqueID_nul_free, (ky_vault s Hk id v). Qed.

Lemma key_same id a b : key [id; a] = key [id; b] → a = b.
Proof.
  cbn. induction id as [|c id IH]; cbn; intros E; injection E as E.
  - by apply string_app_nul_inj.
  - auto.
Qed.
#[export] Instance key_inj2 id : Inj (=) (=) (λ d, key [id; d]).
Proof. intros a b. apply key_same. Qed.

Section Owned.
Context {A : Type} (vid did : A → string) (vaults : gmap string Vault).
Implicit Types m : gmap string A.

Lemma rows_Some id m k a : rows vid id m !! k = Some a ↔ m !! k = Some a ∧ vid a = id.
Proof. unfold rows. by rewrite map_lookup_filter_Some. Qed.

Lemma rows_owned id m k a :
  owned vid did vaults m → rows vid id m !! k = Some a → k = key [id; did a].
Proof. intros Ho [Hk <-]%rows_Some. by apply (Ho k a). Qed.

(** The row of a vault's device is the row under its composite key. *)
Lemma rows_lookup id d m :
  nul_free_vaults vaults → nul_free id = true → owned vid did vaults m →
  rows vid id m !! key [id; d] = m !! key [id; d].
Proof.
  intros Hn Hid Ho. apply option_eq. intros a. rewrite rows_Some. split; [naive_solver|].
  intros Ha. split; [done|]. destruct (Ho _ _ Ha) as [E Hv].
  apply key_inj in E as [E _]; [done|auto..].
Qed.

(** The row under the key of a vault's device is that device's. *)
Lemma owned_at v d m a :
  nul_free_vaults vaults → nul_free v = true → owned vid did vaults m → m !! key [v; d] = Some a →
  vid a = v ∧ did a = d.
Proof.
  intros Hn Hv Ho Ha. destruct (Ho _ _ Ha) as [E Hs].
  apply key_inj in E as [-> ->]; [done|auto..].
Qed.

Lemma owned_mono vaults' m :
  (∀ id, is_Some (vaults !! id) → is_Some (vaults' !! id)) → owned vid did vaults m → owned vid did vaults' m.
Proof. intros Hs Ho k a Ha. destruct (Ho k a Ha). auto. Qed.

Lemma owned_insert m a :
  is_Some (vaults !! vid a) → owned vid did vaults m →
  owned vid did vaults (<[key [vid a; did a] := a]> m).
Proof.
  intros Hv Ho k b [[<- <-]|[_ Hb]]%lookup_insert_Some; [done|]. by apply Ho.
Qed.

Lemma owned_subseteq m m' : m' ⊆ m → owned vid did vaults m → owned vid did vaults m'.
Proof. intros Hs Ho k a Ha. apply Ho. by eapply lookup_weaken. Qed.

Lemma rows_insert id m a :
  nul_free_vaults vaults → is_Some (vaults !! vid a) → owned vid did vaults m →
  rows vid id (<[key [vid a; did a] := a]> m) =
    if decide (id = vid a) then <[key [vid a; did a] := a]> (rows vid id m) else rows vid id m.
Proof.
  intros Hn Hv Ho. unfold rows. rewrite map_filter_insert. cbn.
  destruct (decide (vid a = id)), (decide (id = vid a)); try congruence.
  rewrite map_filter_delete, delete_id; [done|].
  apply map_lookup_filter_None. right. intros b Hb. cbn. destruct (Ho _ _ Hb) as [E Hvb].
  apply key_inj in E as [E _]; [congruence|auto..].
Qed.

Lemma rows_delete id v d m :
  nul_free_vaults vaults → nul_free v = true → owned vid did vaults m →
  rows vid id (delete (key [v; d]) m) =
    if decide (id = v) then delete (key [v; d]) (rows vid id m) else rows vid id m.
Proof.
  intros Hn Hv Ho. unfold rows. rewrite map_filter_delete. case_decide; [done|].
  rewrite delete_id; [done|]. apply map_lookup_filter_None. right. intros b Hb. cbn.
  destruct (Ho _ _ Hb) as [E Hvb]. apply key_inj in E as [E _]; [congruence|auto..].
Qed.

Lemma rows_empty id m : owned vid did vaults m → vaults !! id = None → rows vid id m = ∅.
Proof.
  intros Ho Hn. apply map_empty. intros k. apply map_lookup_filter_None. right.
  intros a Ha E. cbn in E. destruct (Ho _ _ Ha) as [_ [w Hw]]. congruence.
Qed.
End Owned.

Lemma rows_delete_vault {A} (vid : A → string) id v (m : gmap string A) :
  rows vid id (filter (λ kv, vid kv.2 ≠ v) m) = if decide (id = v) then ∅ else rows vid id m.
Proof.
  unfold rows. rewrite map_filter_filter. case_decide; [subst|].
  - apply map_empty. intros k. apply map_lookup_filter_None. right. naive_solver.
  - apply map_filter_ext. intros k a _. cbn. naive_solver.
Qed.

(** The rows of a slice are stored under their own keys. *)
Record slice_keyed (id : string) (sl : slice) : Prop := {
  sk_devices : ∀ k d, sl_devices sl !! k = Some d → k = key [id; d_DeviceID d] ∧ d_VaultID d = id;
  sk_packages : ∀ k p, sl_packages sl !! k = Some p → k = key [id; pkg_DeviceID p] ∧ pkg_VaultID p = id;
  sk_pairings : ∀ k p, sl_pairings sl !! k = Some p → k = key [id; p_DeviceID p] ∧ p_VaultID p = id;
  sk_checkpoints : ∀ k c, sl_checkpoints sl !! k = Some c → k = key [id; chk_DeviceID c] ∧ chk_VaultID c = id;
}.

Lemma keyed_slice s id : keyed s → slice_keyed id (slice_of s id).
Proof.
  intros [? ? Hd Hp Hpa Hc ? ? ?]. split; intros k a Ha; cbn in Ha;
    (split; [by eapply rows_owned|by apply rows_Some in Ha as [_ ?]]).
Qed.

(** What a [range] loop over the shared map with a test on the vault sees. *)
Lemma length_rows `{MapRange} {A} (vid : A → string) id (m : gmap string A) :
  length (filter (λ a, vid a = id) (values m)) = size (rows vid id m).
Proof.
  unfold values, rows.
  assert (filter (λ a, vid a = id) (range_map m).*2 ≡ₚ filter (λ a, vid a = id) (map_to_list m).*2) as ->
    by (by rewrite range_map_perm).
  rewrite <- length_map_to_list, map_filter_alt, map_to_list_to_map.
  - induction (map_to_list m) as [|[k a] kvs IH]; [done|].
    rewrite fmap_cons, !filter_cons. cbn [fst snd]. repeat case_decide; cbn [length]; congruence.
  - eapply NoDup_fmap_fst; [|by apply NoDup_filter, NoDup_map_to_list].
    intros x y1 y2 [_ H1]%list_elem_of_filter [_ H2]%list_elem_of_filter.
    apply elem_of_map_to_list in H1, H2. congruence.
Qed.

Lemma elem_of_rows `{MapRange} {A} (vid : A → string) id (m : gmap string A) a :
  a ∈ filter (λ a, vid a = id) (values m) ↔ ∃ k, rows vid id m !! k = Some a.
Proof.
  rewrite list_elem_of_filter, elem_of_values. setoid_rewrite rows_Some. naive_solver.
Qed.

Lemma NoDup_rows `{MapRange} {A} (vid did : A → string) vaults id (m : gmap string A) :
  owned vid did vaults m → NoDup (did <$> filter (λ a, vid a = id) (values m)).
Proof.
  intros Ho. apply (NoDup_fmap_1 (λ d, key [id; d])). rewrite <- list_fmap_compose.
  assert (filter (λ a, vid a = id) (values m) ≡ₚ filter (λ a, vid a = id) (map_to_list m).*2) as ->
    by (unfold values; by rewrite range_map_perm).
  assert (((λ d, key [id; d]) ∘ did) <$> filter (λ a, vid a = id) (map_to_list m).*2 =
          (filter (λ kv, vid kv.2 = id) (map_to_list m)).*1) as ->.
  - assert (∀ k a, (k, a) ∈ map_to_list m → k = key [vid a; did a]) as Hkey.
    { intros k a Hka%elem_of_map_to_list. by apply Ho. }
    induction (map_to_list m) as [|[k a] kvs IH]; [done|].
    rewrite fmap_cons, !filter_cons. cbn [fst snd]. specialize (IH (λ k a Hin, Hkey k a (list_elem_of_further _ _ _ Hin))).
    case_decide as E; [|done]. rewrite !fmap_cons, IH. f_equal. cbn -[key].
    rewrite (Hkey k a (list_elem_of_here _ _)). by rewrite E.
  - eapply NoDup_fmap_fst; [|by apply NoDup_filter, NoDup_map_to_list].
    intros x y1 y2 [_ Hy1]%list_elem_of_filter [_ Hy2]%list_elem_of_filter.
    apply elem_of_map_to_list in Hy1, Hy2. congruence.
Qed.

(** ** Effects *)
Definition effect (id : string) (gv : Vault → Vault) (g : slice → slice) (s s' : state) : Prop :=
  keyed s' ∧ st_vaults s' = alter gv id (st_vaults s) ∧
  (∀ id', id' ≠ id → slice_of s' id' = slice_of s id') ∧ slice_of s' id = g (slice_of s id).

Section Effects.
Context `{MapRange} (id : string).
Implicit Types s : state.

Lemma effect_trans gv1 g1 gv2 g2 s s1 s2 :
  effect id gv1 g1 s s1 → effect id gv2 g2 s1 s2 →
  effect id (λ v, gv2 (gv1 v)) (λ sl, g2 (g1 sl)) s s2.
Proof.
  intros (Hk1 & Hv1 & Ho1 & Hs1) (Hk2 & Hv2 & Ho2 & Hs2). split_and!.
  - done.
  - rewrite Hv2, Hv1. apply map_eq. intros i. destruct (decide (i = id)) as [->|].
    + rewrite !lookup_alter_eq. by destruct (st_vaults s !! id).
    + by rewrite !lookup_alter_ne.
  - intros id' Hne. rewrite Ho2, Ho1; done.
  - by rewrite Hs2, Hs1.
Qed.

Lemma effect_refl s : keyed s → effect id (λ v, v) (λ sl, sl) s s.
Proof. intros Hk. split_and!; [done| |done|done]. by rewrite alter_id. Qed.

Lemma effect_vault gv g s s' v :
  effect id gv g s s' → st_vaults s !! id = Some v → st_vaults s' !! id = Some (gv v).
Proof. intros (_ & -> & _) Hv. by rewrite lookup_alter_eq, Hv. Qed.

(** A change of the state that keeps the vault records and the other slices. *)
Lemma effect_same_vaults g s s' :
  keyed s' → st_vaults s' = st_vaults s → (∀ id', id' ≠ id → slice_of s' id' = slice_of s id') →
  slice_of s' id = g (slice_of s id) → effect id (λ v, v) g s s'.
Proof. intros ? Hv ? ?. split_and!; [done| |done|done]. by rewrite alter_id. Qed.

Lemma effect_nonces s m : keyed s → effect id (λ v, v) (λ sl, sl) s (set_nonces m s).
Proof. intros [? ? ? ? ? ? ? ? ?]. apply effect_same_vaults; done. Qed.

(** The rows of one map change, under their own keys: the other maps and vaults are untouched. *)
Local Ltac row_effect lem Hk own :=
  apply effect_same_vaults; try done;
  [ destruct Hk; split; try done; cbn -[key]; own
  | intros id' Hne; unfold slice_of; f_equal; cbn -[key];
    erewrite lem by (first [apply Hk | done | auto]); by rewrite decide_False by congruence
  | unfold slice_of, on_devices, on_packages, on_pairings, on_checkpoints; f_equal; cbn -[key];
    erewrite lem by (first [apply Hk | done | auto]); rewrite decide_True by congruence; try congruence ].
Local Ltac put_effect vid did d s :=
  let Hk := fresh "Hk" in let Hv := fresh "Hv" in let Hd := fresh "Hd" in let Hn := fresh "Hn" in
  intros Hk Hv Hd; assert (is_Some (st_vaults s !! vid d)) by congruence;
  pose proof (keyed_nul_free s Hk) as Hn;
  row_effect (rows_insert vid did) Hk ltac:(by apply owned_insert).
Local Ltac delete_effect vid did s :=
  let Hk := fresh "Hk" in let Hv := fresh "Hv" in let Hn := fresh "Hn" in
  intros Hk Hv; pose proof (keyed_nul_free s Hk) as Hn;
  row_effect (rows_delete vid did) Hk ltac:(by eapply owned_subseteq; [apply delete_subseteq|]).

Lemma effect_PutDevice s d :
  keyed s → is_Some (st_vaults s !! id) → d_VaultID d = id →
  effect id (λ v, v) (on_devices <[key [id; d_DeviceID d] := d]>) s
    (set_devices (<[key [d_VaultID d; d_DeviceID d] := d]> (st_devices s)) s).
Proof. put_effect d_VaultID d_DeviceID d s. Qed.

Lemma effect_PutKeyPackage s p :
  keyed s → is_Some (st_vaults s !! id) → pkg_VaultID p = id →
  effect id (λ v, v) (on_packages <[key [id; pkg_DeviceID p] := p]>) s
    (set_packages (<[key [pkg_VaultID p; pkg_DeviceID p] := p]> (st_packages s)) s).
Proof. put_effect pkg_VaultID pkg_DeviceID p s. Qed.

Lemma effect_PutPairing s p :
  keyed s → is_Some (st_vaults s !! id) → p_VaultID p = id →
  effect id (λ v, v) (on_pairings <[key [id; p_DeviceID p] := p]>) s
    (set_pairings (<[key [p_VaultID p; p_DeviceID p] := p]> (st_pairings s)) s).
Proof. put_effect p_VaultID p_DeviceID p s. Qed.

Lemma effect_PutCheckpoint s c :
  keyed s → is_Some (st_vaults s !! id) → chk_VaultID c = id →
  effect id (λ v, v) (on_checkpoints <[key [id; chk_DeviceID c] := c]>) s
    (set_checkpoints (<[key [chk_VaultID c; chk_DeviceID c] := c]> (st_checkpoints s)) s).
Proof. put_effect chk_VaultID chk_DeviceID c s. Qed.

Lemma effect_DeletePairing s d :
  keyed s → is_Some (st_vaults s !! id) →
  effect id (λ v, v) (on_pairings (delete (key [id; d]))) s
    (set_pairings (delete (key [id; d]) (st_pairings s)) s).
Proof. delete_effect p_VaultID p_DeviceID s. Qed.

Lemma effect_DeleteCheckpoint s d :
  keyed s → is_Some (st_vaults s !! id) →
  effect id (λ v, v) (on_checkpoints (delete (key [id; d]))) s
    (set_checkpoints (delete (key [id; d]) (st_checkpoints s)) s).
Proof. delete_effect chk_VaultID chk_DeviceID s. Qed.

Lemma effect_DeleteKeyPackages s :
  keyed s →
  effect id (λ v, v) (on_packages (λ _, ∅)) s
    (set_packages (filter (λ kv, k_VaultID (kp_Package kv.2) ≠ id) (st_packages s)) s).
Proof.
  intros Hk. apply effect_same_vaults; try done.
  - destruct Hk as [? ? ? ? ? ? ? ? ?]. split; try done. cbn.
    by eapply owned_subseteq; [apply map_filter_subseteq|].
  - intros id' Hne. unfold slice_of. f_equal. cbn.
    rewrite (rows_delete_vault pkg_VaultID). by rewrite decide_False.
  - unfold slice_of, on_packages. f_equal. cbn.
    rewrite (rows_delete_vault pkg_VaultID). by rewrite decide_True.
Qed.

Lemma effect_AppendDeviceListEntry s e :
  keyed s → is_Some (st_vaults s !! id) → e_VaultID e = id →
  effect id (λ v, v) (on_entries (λ es, es ++ [e])) s
    (set_entries (<[e_VaultID e := entries_of s (e_VaultID e) ++ [e]]> (st_entries s)) s).
Proof.
  intros Hk Hv He. rewrite He. apply effect_same_vaults; try done.
  - destruct Hk as [? ? ? ? ? ? Hen ? ?]. split; try done. cbn.
    intros i x [[<- _]|[_ Hx]]%lookup_insert_Some; eauto.
  - intros id' Hne. unfold slice_of, entries_of. f_equal. cbn. by rewrite lookup_insert_ne.
  - unfold slice_of, on_entries. f_equal. cbn. unfold entries_of at 1. cbn. by rewrite lookup_insert_eq.
Qed.

(** A change of the vault's own header map, whichever way the code writes it. *)
Lemma effect_headers s m f :
  keyed s → is_Some (st_vaults s !! id) →
  (∀ id', id' ≠ id → m !! id' = st_headers s !! id') → default ∅ (m !! id) = f (headers_of s id) →
  effect id (λ v, v) (on_headers f) s (set_headers m s).
Proof.
  intros Hk Hv Hne Hm. apply effect_same_vaults; try done.
  - destruct Hk as [? ? ? ? ? ? ? Hh ?]. split; try done. cbn. intros i x Hx.
    destruct (decide (i = id)) as [->|Hi]; [done|]. rewrite Hne in Hx by done. eauto.
  - intros id' Hi. unfold slice_of, headers_of. f_equal. cbn. by rewrite Hne.
  - unfold slice_of, on_headers. f_equal. done.
Qed.

Lemma effect_ciphertexts s m f :
  keyed s → is_Some (st_vaults s !! id) →
  (∀ id', id' ≠ id → m !! id' = st_ciphertexts s !! id') →
  default ∅ (m !! id) = f (ciphertexts_of s id) →
  effect id (λ v, v) (on_ciphertexts f) s (set_ciphertexts m s).
Proof.
  intros Hk Hv Hne Hm. apply effect_same_vaults; try done.
  - destruct Hk as [? ? ? ? ? ? ? ? Hh]. split; try done. cbn. intros i x Hx.
    destruct (decide (i = id)) as [->|Hi]; [done|]. rewrite Hne in Hx by done. eauto.
  - intros id' Hi. unfold slice_of, ciphertexts_of. f_equal. cbn. by rewrite Hne.
  - unfold slice_of, on_ciphertexts. f_equal. done.
Qed.

Lemma effect_UpdateVault s v0 v :
  keyed s → st_vaults s !! id = Some v0 → v_ID v = id → v_OwnerKey v = v_OwnerKey v0 →
  effect id (λ _, v) (λ sl, sl) s (set_vaults (<[v_ID v := v]> (st_vaults s)) s).
Proof.
  intros Hk Hv Hid Ho.
  assert (∀ i, is_Some (st_vaults s !! i) → is_Some (<[id := v]> (st_vaults s) !! i)) as Hmono.
  { intros i Hi. rewrite lookup_insert_is_Some'. by right. }
  split_and!; [| |done|done].
  - rewrite Hid. destruct Hk as [Hkv Hko ? ? ? ? ? ? ?].
    split; cbn; try (by eapply owned_mono); eauto.
    + intros i w [[<- <-]|[_ Hw]]%lookup_insert_Some; [|eauto]. split; [done|]. by eapply Hkv.
    + intros a b w1 w2 H1 H2 E.
      assert (∀ i w, <[id := v]> (st_vaults s) !! i = Some w →
                ∃ w', st_vaults s !! i = Some w' ∧ v_OwnerKey w' = v_OwnerKey w) as Hback.
      { intros i w [[<- <-]|[_ Hw]]%lookup_insert_Some; eauto. }
      destruct (Hback _ _ H1) as (w1' & ? & ?), (Hback _ _ H2) as (w2' & ? & ?).
      eapply Hko; [eassumption..|congruence].
  - cbn. rewrite Hid. apply map_eq. intros i. destruct (decide (i = id)) as [->|Hi].
    + by rewrite lookup_insert_eq, lookup_alter_eq, Hv.
    + by rewrite lookup_insert_ne, lookup_alter_ne.
Qed.
End Effects.
