(* ===== verification/NonceKeeper.v ===== *)
(** * Keeping the nonce of a failed request: internal/syncsvc/nonce_keeper.go

    The decorator around any transaction and store.  [nonceTx] notes a nonce it recorded; when the
    transaction fails and is rolled back, [keeper_Update] records that nonce again in a transaction of
    its own, so a request that was verified is spent even when it fails. *)

From stdpp Require Import base list gmap strings.
From Stdlib Require Import ZArith Lia Strings.Byte.
From S2P Require Import Prelude GoStd Canonical DeviceList Header Request SyncTypes.
Local Open Scope Z_scope.
Local Open Scope go_scope.

Record spentNonce := {
  sn_scope : string;
  sn_nonce : string;
  sn_now : time;
  sn_expires : time;
}.

(** A [nonceTx] is the inner transaction and the [spent] field. *)
Notation tracked S := (S * option spentNonce)%type.

Definition inner {S A} (m : M S A) : M (tracked S) A :=
  λ '(s, spent), let '(r, s') := m s in (r, (s', spent)).

Definition nonceTx_RecordNonce {S : Type} `{Tx S} (scope nonce : string) (now expiresAt : time) : M (tracked S) bool :=
  λ '(s, spent),
    match tx_RecordNonce scope nonce now expiresAt s with
    | (Ok true, s') =>
        (Ok true, (s', Some {| sn_scope := scope; sn_nonce := nonce; sn_now := now; sn_expires := expiresAt |}))
    | (r, s') => (r, (s', spent))
    end.

#[export] Instance nonceTx {S : Type} `{Tx S} : Tx (tracked S) := {|
  tx_VaultByOwner a := inner (tx_VaultByOwner a);
  tx_VaultByID a := inner (tx_VaultByID a);
  tx_InsertVault a := inner (tx_InsertVault a);
  tx_UpdateVault a := inner (tx_UpdateVault a);
  tx_DeleteVault a := inner (tx_DeleteVault a);
  tx_Devices a := inner (tx_Devices a);
  tx_Device a b := inner (tx_Device a b);
  tx_DeviceByToken a b := inner (tx_DeviceByToken a b);
  tx_PutDevice a := inner (tx_PutDevice a);
  tx_DeviceListEntries a b c := inner (tx_DeviceListEntries a b c);
  tx_AppendDeviceListEntry a := inner (tx_AppendDeviceListEntry a);
  tx_PutKeyPackage a := inner (tx_PutKeyPackage a);
  tx_KeyPackage a b := inner (tx_KeyPackage a b);
  tx_DeleteKeyPackages a := inner (tx_DeleteKeyPackages a);
  tx_InsertHeader a := inner (tx_InsertHeader a);
  tx_Headers a b c := inner (tx_Headers a b c);
  tx_Header a b := inner (tx_Header a b);
  tx_LatestHeader a := inner (tx_LatestHeader a);
  tx_PruneHeaders a b := inner (tx_PruneHeaders a b);
  tx_PutCiphertext a b c := inner (tx_PutCiphertext a b c);
  tx_Ciphertext a b := inner (tx_Ciphertext a b);
  tx_CiphertextBytes a := inner (tx_CiphertextBytes a);
  tx_OldestCiphertext a := inner (tx_OldestCiphertext a);
  tx_DeleteCiphertext a b := inner (tx_DeleteCiphertext a b);
  tx_DeleteCiphertextsBefore a b := inner (tx_DeleteCiphertextsBefore a b);
  tx_PutCheckpoint a := inner (tx_PutCheckpoint a);
  tx_Checkpoint a b := inner (tx_Checkpoint a b);
  tx_Checkpoints a := inner (tx_Checkpoints a);
  tx_DeleteCheckpoint a b := inner (tx_DeleteCheckpoint a b);
  tx_PutPairing a := inner (tx_PutPairing a);
  tx_Pairing a b := inner (tx_Pairing a b);
  tx_PairingByToken a b := inner (tx_PairingByToken a b);
  tx_Pairings a := inner (tx_Pairings a);
  tx_DeletePairing a b := inner (tx_DeletePairing a b);
  tx_RecordNonce := nonceTx_RecordNonce;
  tx_PurgeExpired a := inner (tx_PurgeExpired a);
|}.

Section Keeper.
Context {W S : Type} `{Tx S} `{Storage W S}.

(** The recovery transaction, whose error is only logged. *)
Definition keep_nonce (spent : spentNonce) (w : W) : W :=
  (storage_Update
     (λ s, let '(r, s') := tx_RecordNonce (sn_scope spent) (sn_nonce spent) (sn_now spent)
                             (sn_expires spent) s in (r, tt, s')) w).2.

Definition keeper_Update {A X} (fn : tracked S → result A * X * tracked S) (w : W)
  : result A * option X * W :=
  let body s :=
    let '(r, x, (s', spent)) := fn (s, None) in (r, (x, spent), s') in
  match storage_Update body w with
  | (Err e, Some (x, Some spent), w') => (Err e, Some x, keep_nonce spent w')
  | (r, outer, w') => (r, fst <$> outer, w')
  end.

(** [View] hands the body the inner transaction itself. *)
Definition keeper_View {A} (fn : M S A) (w : W) : result A * W := storage_View fn w.
End Keeper.
