(* ===== verification/Service.v ===== *)
(** * The sync service: internal/syncsvc/service.go

    Each operation is a transaction body over the interface [Tx], run by the store through the nonce
    keeper.  [clk i] is the [i]-th reading of the service's clock during the call: 0 in [actorFor],
    1 to 3 in [verifyRequest], 4 and 5 in the body. *)

From stdpp Require Import base list gmap strings.
From Stdlib Require Import ZArith Lia Strings.Byte.
From S2P Require Import Prelude GoStd Canonical DeviceList Header Request SyncTypes NonceKeeper.
Local Open Scope Z_scope.
Local Open Scope go_scope.

Record Config := {
  cfg_ReceiptKey : bytes;
  cfg_ByteBudget : Z;
  cfg_HeaderRetention : Z;
}.

Definition defaultByteBudget : Z := 128 * 1024 * 1024.

(** [New], without the clock and the storage it wraps. *)
Definition New (config : Config) : result Config :=
  check rfail_if (length (cfg_ReceiptKey config) ≠ 64%nat) [];
  Ok {| cfg_ReceiptKey := cfg_ReceiptKey config;
        cfg_ByteBudget := if decide (cfg_ByteBudget config ≤ 0) then defaultByteBudget
                          else cfg_ByteBudget config;
        cfg_HeaderRetention := if decide (cfg_HeaderRetention config = 0) then MaxHeaderRetention
                               else cfg_HeaderRetention config |}.

(** [Service.unix]. *)
Definition unix (now : time) : Z :=
  let seconds := unix_seconds now in
  if decide (seconds < 0) then 0 else u64 seconds.

Definition clamp (limit maximum : Z) : Z :=
  if decide (limit ≤ 0 ∨ limit > maximum) then maximum else limit.

(** ** Inputs and outputs *)
Record CreateVaultInput := { cvi_Entry : DeviceListEntry }.
Record PairingOffer := { po_DeviceID : string; po_SigningKey : string; po_PackageKey : string; po_Message : bytes }.
Record ApproveInput := { api_Entry : DeviceListEntry; api_Package : KeyPackageV3 }.
Record ActivateInput := { aci_PackageDigest : string }.
Record RemoveInput := { rmi_Entry : DeviceListEntry; rmi_Packages : list KeyPackageV3 }.
Record RotateInput := { roi_Entry : DeviceListEntry; roi_Packages : list KeyPackageV3 }.
Record UpgradeKeyInput := { uki_Entry : DeviceListEntry }.
Record UploadInput := { upi_Header : Header; upi_Ciphertext : bytes }.
Record ResetInput := { rei_VaultEpoch : Z }.
Record Accepted := { ac_Header : StoredHeader; ac_Vault : Vault; ac_Receipt : string }.
Record SnapshotOut := { sn_Header : StoredHeader; sn_Ciphertext : bytes; sn_Vault : Vault }.
Record OverviewOut := {
  ov_HasVault : bool; ov_Devices : Z; ov_CurrentRevision : Z; ov_StoredBytes : Z; ov_UpdatedAt : time }.

(** ** Error handling patterns of the source *)
Section Patterns.
Context {S : Type}.

(** [if errors.Is(err, ErrNotFound) { return to }; if err != nil { return err }]. *)
Definition not_found_as {A} (to : error) (m : M S A) : M S A :=
  let! r := mtry m in
  match r with
  | Ok a => mreturn a
  | Err e => if is_error e ErrNotFound then mfail to else mfail e
  end.

(** [if _, err := m; err == nil { return e } else if !errors.Is(err, ErrNotFound) { return err }]. *)
Definition expect_absent {A} (m : M S A) (e : error) : M S unit :=
  let! r := mtry m in
  match r with
  | Ok _ => mfail e
  | Err e' => if is_error e' ErrNotFound then mreturn tt else mfail e'
  end.
End Patterns.

(** ** Transaction bodies *)
Section Bodies.
Context `{Crypto} `{MapRange} {T : Type} `{Tx T}.
Context (cfg : Config) (clk : nat → time).

Definition anonymous (caller : Caller) : Prop :=
  cl_OwnerKey caller = "" ∨ cl_TokenDeviceID caller = "" ∨ cl_Token caller = "".
#[export] Instance anonymous_dec caller : Decision (anonymous caller).
Proof. unfold anonymous. apply _. Defined.

Definition actorFor (caller : Caller) : M T Actor :=
  run mfail_if (anonymous caller) [ErrForbidden];
  let! vault := not_found_as [ErrNoVault] (tx_VaultByOwner (cl_OwnerKey caller)) in
  let! r := mtry (tx_DeviceByToken (v_ID vault) (cl_TokenDeviceID caller)) in
  let device := match r with Ok d => d | Err _ => zero_Device end in
  if decide (is_ok r = true ∧ d_State device ≠ DeviceRevoked)
  then mreturn {| a_Vault := vault; a_Device := device; a_Pairing := None |}
  else
    run match r with
        | Err e => if is_error e ErrNotFound then mreturn tt else mfail e
        | Ok _ => mreturn tt
        end;
    let! rp := mtry (tx_PairingByToken (v_ID vault) (cl_TokenDeviceID caller)) in
    match rp with
    | Err e =>
        if is_error e ErrNotFound then
          if decide (d_State device = DeviceRevoked)
          then mreturn {| a_Vault := vault; a_Device := device; a_Pairing := None |}
          else mfail [ErrForbidden]
        else mfail e
    | Ok pairing =>
        run mfail_if (¬ clk 0%nat < p_ExpiresAt pairing) [ErrForbidden];
        mreturn {| a_Vault := vault;
                   a_Device := {| d_VaultID := v_ID vault; d_DeviceID := p_DeviceID pairing;
                                  d_TokenDeviceID := p_TokenDeviceID pairing;
                                  d_SigningKey := p_SigningKey pairing;
                                  d_PackageKey := p_PackageKey pairing; d_State := DevicePending;
                                  d_AddedIndex := 0; d_ActivatedEpoch := 0; d_CreatedAt := zero_time |};
                   a_Pairing := Some pairing |}
    end.

Definition verifyRequest (scope signingKey : string) (caller : Caller) (request : SignedRequest)
  : M T unit :=
  let signed := {| r_Method := q_Method request; r_Target := q_Target request;
                   r_Body := q_Body request; r_Token := cl_Token caller;
                   r_Timestamp := q_Timestamp request; r_Nonce := q_Nonce request |} in
  run mlift (orelse [ErrSignature]
               (request_Verify signed signingKey (q_Signature request) (unix (clk 1%nat))));
  let expires := clk 2%nat + RequestNonceRetention * second in
  let! fresh := tx_RecordNonce scope (q_Nonce request) (clk 3%nat) expires in
  mfail_if (fresh = false) [ErrReplay].

Definition signedActor (caller : Caller) (request : SignedRequest) : M T Actor :=
  let! actor := actorFor caller in
  run verifyRequest (v_ID (a_Vault actor) +:+ "/" +:+ d_DeviceID (a_Device actor))
        (d_SigningKey (a_Device actor)) caller request;
  mreturn actor.

Definition requireApproved (actor : Actor) : M T unit :=
  mfail_if (is_Some (a_Pairing actor) ∨ d_State (a_Device actor) ≠ DeviceApproved) [ErrForbidden].

Definition requireActivated (actor : Actor) : M T unit :=
  run requireApproved actor;
  mfail_if (d_ActivatedEpoch (a_Device actor) ≠ v_Epoch (a_Vault actor)) [ErrNotActivated].

(** The inner loop of [loadList]: extend by a page, remember the last index. *)
Fixpoint extend_page (lst : DeviceList) (after : Z) (entries : list DeviceListEntry)
  : result (DeviceList * Z) :=
  match entries with
  | [] => Ok (lst, after)
  | entry :: entries =>
      let? lst := Extend lst entry in extend_page lst (e_Index entry) entries
  end.

Definition loadList (vaultID : string) : M T DeviceList :=
  mloop 64 (λ '(lst, after),
    let! entries := tx_DeviceListEntries vaultID after MaxEntriesPerPage in
    let! (lst, after) := mlift (extend_page lst after entries) in
    mreturn (if decide (Z.of_nat (length entries) < MaxEntriesPerPage) then Done lst
             else Continue (lst, after))) (NewDeviceList, 0).

Definition CreateVault_tx (caller : Caller) (request : SignedRequest) (input : CreateVaultInput)
  : M T Vault :=
  let entry := cvi_Entry input in
  run mfail_if (anonymous caller) [ErrForbidden];
  run expect_absent (tx_VaultByOwner (cl_OwnerKey caller)) [ErrVaultExists];
  let! lst := mlift (wrap ErrInvalid (VerifyDeviceList [entry])) in
  run verifyRequest ("owner/" +:+ cl_OwnerKey caller) (e_SubjectSigningKey entry) caller request;
  let now := clk 4%nat in
  let vault := {| v_ID := e_VaultID entry; v_OwnerKey := cl_OwnerKey caller;
                  v_CurrentRevision := 0; v_HeadIndex := 1; v_Epoch := Epoch lst;
                  v_CreatedAt := now; v_UpdatedAt := now |} in
  run tx_InsertVault vault;
  run tx_AppendDeviceListEntry entry;
  run tx_PutDevice {| d_VaultID := v_ID vault; d_DeviceID := e_SubjectDeviceID entry;
                      d_TokenDeviceID := cl_TokenDeviceID caller;
                      d_SigningKey := e_SubjectSigningKey entry;
                      d_PackageKey := e_SubjectPackageKey entry; d_State := DeviceApproved;
                      d_AddedIndex := 1; d_ActivatedEpoch := v_Epoch vault; d_CreatedAt := now |};
  mreturn vault.

(** [base64.RawURLEncoding.EncodeToString(make([]byte, n))]. *)
Definition encoded_zeros (n : Z) : string := EncodeToString (replicate (Z.to_nat n) x00).

(** The entry [BeginPairing] validates the offered keys with. *)
Definition pairing_probe (vault : Vault) (offer : PairingOffer) : DeviceListEntry :=
  {| e_VaultID := v_ID vault; e_Index := 2; e_PreviousDigest := encoded_zeros DigestBytes;
     e_Kind := EntryAdd; e_SignerDeviceID := po_DeviceID offer;
     e_SubjectDeviceID := po_DeviceID offer; e_SubjectSigningKey := po_SigningKey offer;
     e_SubjectPackageKey := po_PackageKey offer;
     e_SealedLabel := encoded_zeros MinSealedLabelBytes; e_EpochAfter := v_Epoch vault;
     e_SnapshotFloor := 0; e_Signature := encoded_zeros Ed25519SignatureBytes |}.

(** A pairing message is refused when it is empty or too long. *)
Definition bad_message (message : bytes) : Prop :=
  length message = 0%nat ∨ Z.of_nat (length message) > MaxPairingMessageBytes.
#[export] Instance bad_message_dec message : Decision (bad_message message).
Proof. unfold bad_message. apply _. Defined.

Definition BeginPairing_tx (caller : Caller) (request : SignedRequest) (offer : PairingOffer)
  : M T unit :=
  run mfail_if (anonymous caller) [ErrForbidden];
  let! vault := not_found_as [ErrNoVault] (tx_VaultByOwner (cl_OwnerKey caller)) in
  run mfail_if (bad_message (po_Message offer)) [ErrInvalid];
  run mlift (wrap ErrInvalid (entry_Validate (pairing_probe vault offer)));
  run verifyRequest ("owner/" +:+ cl_OwnerKey caller) (po_SigningKey offer) caller request;
  let! existing := mtry (tx_DeviceByToken (v_ID vault) (cl_TokenDeviceID caller)) in
  run match existing with
      | Ok existing => mfail_if (d_State existing ≠ DeviceRevoked) [ErrForbidden]
      | Err e => if is_error e ErrNotFound then mreturn tt else mfail e
      end;
  run expect_absent (tx_Device (v_ID vault) (po_DeviceID offer)) [ErrConflict];
  let! previous := mtry (tx_PairingByToken (v_ID vault) (cl_TokenDeviceID caller)) in
  run match previous with
      | Ok previous => tx_DeletePairing (v_ID vault) (p_DeviceID previous)
      | Err e => if is_error e ErrNotFound then mreturn tt else mfail e
      end;
  run tx_PurgeExpired (clk 4%nat);
  let! pairings := tx_Pairings (v_ID vault) in
  run mfail_if (Z.of_nat (length pairings) >= MaxPendingPairings) [ErrQuota];
  let now := clk 5%nat in
  tx_PutPairing {| p_VaultID := v_ID vault; p_DeviceID := po_DeviceID offer;
                   p_TokenDeviceID := cl_TokenDeviceID caller; p_SigningKey := po_SigningKey offer;
                   p_PackageKey := po_PackageKey offer; p_Offer := po_Message offer;
                   p_Answer := []; p_Confirm := []; p_State := PairingOffered;
                   p_ExpiresAt := now + PairingLifetime; p_CreatedAt := now |}.

Definition PairingStatus_tx (caller : Caller) : M T Pairing :=
  let! actor := actorFor caller in
  match a_Pairing actor with
  | None => mfail [ErrForbidden]
  | Some pairing => mreturn pairing
  end.

Definition PendingPairings_tx (caller : Caller) : M T (list Pairing) :=
  let! actor := actorFor caller in
  run requireApproved actor;
  let! pairings := tx_Pairings (v_ID (a_Vault actor)) in
  let now := clk 4%nat in
  mreturn (filter (λ p, now < p_ExpiresAt p) pairings).

Definition AnswerPairing_tx (caller : Caller) (request : SignedRequest) (deviceID : string)
    (message : bytes) : M T unit :=
  let! actor := signedActor caller request in
  run requireActivated actor;
  run mfail_if (bad_message message) [ErrInvalid];
  let! pairing := tx_Pairing (v_ID (a_Vault actor)) deviceID in
  run mfail_if (p_State pairing ≠ PairingOffered ∨ ¬ clk 4%nat < p_ExpiresAt pairing) [ErrConflict];
  tx_PutPairing (set_p_Answer message pairing).

Definition ConfirmPairing_tx (caller : Caller) (request : SignedRequest) (message : bytes)
  : M T unit :=
  let! actor := signedActor caller request in
  match a_Pairing actor with
  | None => mfail [ErrForbidden]
  | Some pairing =>
      run mfail_if (bad_message message) [ErrInvalid];
      run mfail_if (p_State pairing ≠ PairingAnswered) [ErrConflict];
      tx_PutPairing (set_p_Confirm message pairing)
  end.

Definition CancelPairing_tx (caller : Caller) (request : SignedRequest) (deviceID : string)
  : M T unit :=
  let! actor := signedActor caller request in
  match a_Pairing actor with
  | Some pairing => tx_DeletePairing (v_ID (a_Vault actor)) (p_DeviceID pairing)
  | None =>
      run requireApproved actor;
      tx_DeletePairing (v_ID (a_Vault actor)) deviceID
  end.

Definition Approve_tx (caller : Caller) (request : SignedRequest) (input : ApproveInput) : M T unit :=
  let! actor := signedActor caller request in
  run requireActivated actor;
  let vault := a_Vault actor in
  let device := a_Device actor in
  let entry := api_Entry input in
  let pkg := api_Package input in
  run mfail_if (e_Kind entry ≠ EntryAdd ∨ e_SignerDeviceID entry ≠ d_DeviceID device
                ∨ e_VaultID entry ≠ v_ID vault) [ErrForbidden];
  let! pairing := tx_Pairing (v_ID vault) (e_SubjectDeviceID entry) in
  run mfail_if (p_State pairing ≠ PairingConfirmed ∨ ¬ clk 4%nat < p_ExpiresAt pairing) [ErrConflict];
  run mfail_if (p_SigningKey pairing ≠ e_SubjectSigningKey entry
                ∨ p_PackageKey pairing ≠ e_SubjectPackageKey entry) [ErrForbidden];
  run mfail_if (e_Index entry ≠ u64 (v_HeadIndex vault + 1)) [ErrConflict];
  let! lst := loadList (v_ID vault) in
  let! _ := mlift (wrap ErrInvalid (Extend lst entry)) in
  run mfail_if (k_VaultID pkg ≠ v_ID vault ∨ k_SenderDeviceID pkg ≠ d_DeviceID device
                ∨ k_RecipientDeviceID pkg ≠ e_SubjectDeviceID entry
                ∨ k_VaultEpoch pkg ≠ v_Epoch vault
                ∨ k_EntryDigest pkg ≠ entry_Digest entry) [ErrInvalid];
  run mlift (wrap ErrInvalid (package_Verify pkg (d_SigningKey device)));
  let now := clk 5%nat in
  run tx_AppendDeviceListEntry entry;
  run tx_PutDevice {| d_VaultID := v_ID vault; d_DeviceID := e_SubjectDeviceID entry;
                      d_TokenDeviceID := p_TokenDeviceID pairing;
                      d_SigningKey := e_SubjectSigningKey entry;
                      d_PackageKey := e_SubjectPackageKey entry; d_State := DeviceApproved;
                      d_AddedIndex := e_Index entry; d_ActivatedEpoch := 0; d_CreatedAt := now |};
  run tx_PutKeyPackage {| kp_Package := pkg; kp_CreatedAt := now |};
  run tx_DeletePairing (v_ID vault) (e_SubjectDeviceID entry);
  tx_UpdateVault (set_v_list (e_Index entry) (v_Epoch vault) now vault).

Definition KeyPackage_tx (caller : Caller) : M T KeyPackage :=
  let! actor := actorFor caller in
  run requireApproved actor;
  tx_KeyPackage (v_ID (a_Vault actor)) (d_DeviceID (a_Device actor)).

Definition Activate_tx (caller : Caller) (request : SignedRequest) (input : ActivateInput) : M T unit :=
  let! actor := signedActor caller request in
  run requireApproved actor;
  let! pkg := tx_KeyPackage (v_ID (a_Vault actor)) (d_DeviceID (a_Device actor)) in
  run mfail_if (k_VaultEpoch (kp_Package pkg) ≠ v_Epoch (a_Vault actor)
                ∨ package_Digest (kp_Package pkg) ≠ aci_PackageDigest input) [ErrConflict];
  tx_PutDevice (set_d_ActivatedEpoch (v_Epoch (a_Vault actor)) (a_Device actor)).

(** The devices that must receive a key package: every current member but the signer. *)
Definition survivors (lst : DeviceList) (signer : string) : gset string :=
  list_to_set (filter (λ id, id ≠ signer) (m_DeviceID <$> Current lst)).

(** One iteration of the package loop of [rekey]. *)
Definition store_package (actor : Actor) (entry : DeviceListEntry) (now : time)
    (expected : gset string) (pkg : KeyPackageV3) : M T (gset string) :=
  run mfail_if (k_RecipientDeviceID pkg ∉ expected) [ErrInvalid];
  let expected := expected ∖ {[k_RecipientDeviceID pkg]} in
  run mfail_if (k_VaultID pkg ≠ v_ID (a_Vault actor)
                ∨ k_SenderDeviceID pkg ≠ d_DeviceID (a_Device actor)
                ∨ k_VaultEpoch pkg ≠ e_EpochAfter entry
                ∨ k_EntryDigest pkg ≠ entry_Digest entry) [ErrInvalid];
  run mlift (wrap ErrInvalid (package_Verify pkg (d_SigningKey (a_Device actor))));
  run tx_PutKeyPackage {| kp_Package := pkg; kp_CreatedAt := now |};
  mreturn expected.

(** One iteration of the device loop of [rekey]. *)
Definition update_device (actor : Actor) (kind : string) (entry : DeviceListEntry)
    (_ : unit) (device : Device) : M T unit :=
  if decide (kind = EntryRemove ∧ d_DeviceID device = e_SubjectDeviceID entry)
  then tx_PutDevice (set_d_State DeviceRevoked device)
  else if decide (d_DeviceID device = d_DeviceID (a_Device actor) ∧ d_State device = DeviceApproved)
  then tx_PutDevice (set_d_ActivatedEpoch (e_EpochAfter entry) device)
  else mreturn tt.

Definition rekey_tx (caller : Caller) (request : SignedRequest) (kind : string)
    (entry : DeviceListEntry) (packages : list KeyPackageV3) : M T unit :=
  let! actor := signedActor caller request in
  run requireActivated actor;
  let vault := a_Vault actor in
  let device := a_Device actor in
  run mfail_if (e_Kind entry ≠ kind ∨ e_SignerDeviceID entry ≠ d_DeviceID device
                ∨ e_VaultID entry ≠ v_ID vault) [ErrForbidden];
  run mfail_if (e_Index entry ≠ u64 (v_HeadIndex vault + 1)) [ErrConflict];
  let! lst := loadList (v_ID vault) in
  let! lst := mlift (wrap ErrInvalid (Extend lst entry)) in
  let expected := survivors lst (d_DeviceID device) in
  run mfail_if (length packages ≠ size expected) [ErrInvalid];
  let now := clk 4%nat in
  run tx_DeleteKeyPackages (v_ID vault);
  let! _ := mforeach (store_package actor entry now) expected packages in
  run tx_AppendDeviceListEntry entry;
  run (if decide (kind = EntryRemove)
       then tx_DeleteCheckpoint (v_ID vault) (e_SubjectDeviceID entry) else mreturn tt);
  let! devices := tx_Devices (v_ID vault) in
  run mforeach (update_device actor kind entry) tt devices;
  let! pairings := tx_Pairings (v_ID vault) in
  run mforeach (λ _ pairing, tx_DeletePairing (v_ID vault) (p_DeviceID pairing)) tt pairings;
  tx_UpdateVault (set_v_list (e_Index entry) (e_EpochAfter entry) now vault).

Definition UpgradeKey_tx (caller : Caller) (request : SignedRequest) (input : UpgradeKeyInput)
  : M T unit :=
  let! actor := signedActor caller request in
  run requireActivated actor;
  let vault := a_Vault actor in
  let entry := uki_Entry input in
  run mfail_if (e_Kind entry ≠ EntryKey ∨ e_SignerDeviceID entry ≠ d_DeviceID (a_Device actor)
                ∨ e_VaultID entry ≠ v_ID vault) [ErrForbidden];
  run mfail_if (e_Index entry ≠ u64 (v_HeadIndex vault + 1)) [ErrConflict];
  let! lst := loadList (v_ID vault) in
  let! _ := mlift (wrap ErrInvalid (Extend lst entry)) in
  run tx_AppendDeviceListEntry entry;
  run tx_PutDevice (set_d_PackageKey (e_SubjectPackageKey entry) (a_Device actor));
  tx_UpdateVault (set_v_list (e_Index entry) (v_Epoch vault) (clk 4%nat) vault).

(** [makeRoom] deletes the oldest snapshots until the incoming one fits. *)
Definition makeRoom (vault : Vault) (incoming : Z) : M T unit :=
  run mfail_if (incoming > cfg_ByteBudget cfg) [ErrQuota];
  let! stored := tx_CiphertextBytes (v_ID vault) in
  mloop 64 (λ stored,
    if decide (¬ i64 (stored + incoming) > cfg_ByteBudget cfg) then mreturn (Done tt)
    else
      let! oldest := mtry (tx_OldestCiphertext (v_ID vault)) in
      match oldest with
      | Err e => if is_error e ErrNotFound then mfail [ErrQuota] else mfail e
      | Ok (revision, size) =>
          run mfail_if (revision >= v_CurrentRevision vault) [ErrQuota];
          run tx_DeleteCiphertext (v_ID vault) revision;
          mreturn (Continue (i64 (stored - size)))
      end) stored.

(** The latest header, which the new one must name when there is one. *)
Definition previous_header (vault : Vault) (header : Header) : M T (option Header) :=
  if decide (v_CurrentRevision vault > 0) then
    let! latest := tx_LatestHeader (v_ID vault) in
    run mfail_if (h_PreviousDigest header ≠ sh_Digest latest) [ErrConflict];
    mreturn (Some (sh_Header latest))
  else mreturn None.

Definition Upload_tx (caller : Caller) (request : SignedRequest) (input : UploadInput) : M T Accepted :=
  let! actor := signedActor caller request in
  run requireActivated actor;
  let header := upi_Header input in
  let ciphertext := upi_Ciphertext input in
  run mlift (wrap ErrInvalid (header_Validate header));
  let vault := a_Vault actor in
  run mfail_if (h_VaultID header ≠ v_ID vault ∨ h_DeviceID header ≠ d_DeviceID (a_Device actor))
        [ErrForbidden];
  run mfail_if (checkedNext (v_CurrentRevision vault) ≠ Some (h_Revision header)
                ∨ h_VaultEpoch header ≠ v_Epoch vault
                ∨ h_DeviceListIndex header ≠ v_HeadIndex vault) [ErrConflict];
  run mlift (wrap ErrInvalid (VerifyCiphertext header ciphertext));
  let! lst := loadList (v_ID vault) in
  let! previous := previous_header vault header in
  run mlift (wrap ErrInvalid (VerifyHeader lst previous header));
  run makeRoom vault (Z.of_nat (length ciphertext));
  let now := clk 4%nat in
  let digest := header_Digest header in
  let receipt := {| rc_VaultID := v_ID vault; rc_Revision := h_Revision header;
                    rc_HeaderDigest := digest; rc_VaultEpoch := h_VaultEpoch header;
                    rc_AcceptedAt := u64 (unix_seconds now) |} in
  let signature := EncodeToString (receipt_Sign receipt (cfg_ReceiptKey cfg)) in
  let stored := {| sh_Header := header; sh_Digest := digest; sh_Receipt := signature;
                   sh_AcceptedAt := now |} in
  run tx_InsertHeader stored;
  run tx_PutCiphertext (v_ID vault) (h_Revision header) ciphertext;
  run match previous with
      | Some previous =>
          if decide (h_VaultEpoch previous < h_VaultEpoch header)
          then tx_DeleteCiphertextsBefore (v_ID vault) (h_Revision header) else mreturn tt
      | None => mreturn tt
      end;
  let vault := set_v_revision (h_Revision header) now vault in
  run tx_UpdateVault vault;
  run (if decide (h_Revision header > cfg_HeaderRetention cfg)
       then tx_PruneHeaders (v_ID vault) (u64 (h_Revision header - cfg_HeaderRetention cfg + 1))
       else mreturn tt);
  mreturn {| ac_Header := stored; ac_Vault := vault; ac_Receipt := signature |}.

Definition PutCheckpoint_tx (caller : Caller) (request : SignedRequest) (checkpoint : Checkpoint)
  : M T StoredCheckpoint :=
  let! actor := signedActor caller request in
  run requireActivated actor;
  run mfail_if (c_VaultID checkpoint ≠ v_ID (a_Vault actor)
                ∨ c_DeviceID checkpoint ≠ d_DeviceID (a_Device actor)) [ErrForbidden];
  run mlift (wrap ErrInvalid (checkpoint_Verify checkpoint (d_SigningKey (a_Device actor))));
  run mfail_if (WithinRequestSkew (c_ObservedAt checkpoint) (unix (clk 4%nat)) = false) [ErrInvalid];
  let! r := mtry (tx_Checkpoint (v_ID (a_Vault actor)) (d_DeviceID (a_Device actor))) in
  run match r with
      | Ok previous =>
          let previous := sc_Checkpoint previous in
          mfail_if (c_ObservedAt checkpoint ≤ c_ObservedAt previous
                    ∨ c_DeviceListIndex checkpoint < c_DeviceListIndex previous
                    ∨ c_HeaderRevision checkpoint < c_HeaderRevision previous) [ErrConflict]
      | Err e => if is_error e ErrNotFound then mreturn tt else mfail e
      end;
  let stored := {| sc_Checkpoint := checkpoint; sc_AcceptedAt := clk 5%nat |} in
  run tx_PutCheckpoint stored;
  mreturn stored.

Definition Checkpoints_tx (caller : Caller) : M T (list StoredCheckpoint) :=
  let! actor := actorFor caller in
  run requireApproved actor;
  tx_Checkpoints (v_ID (a_Vault actor)).

Definition DeviceList_tx (caller : Caller) (after limit : Z) : M T (list DeviceListEntry) :=
  let! actor := actorFor caller in
  run mfail_if (a_Pairing actor = None ∧ d_State (a_Device actor) ≠ DeviceApproved) [ErrForbidden];
  run match a_Pairing actor with
      | Some pairing => mfail_if (p_State pairing ≠ PairingConfirmed) [ErrForbidden]
      | None => mreturn tt
      end;
  tx_DeviceListEntries (v_ID (a_Vault actor)) after (clamp limit MaxEntriesPerPage).

Definition Headers_tx (caller : Caller) (after limit : Z) : M T (list StoredHeader) :=
  let! actor := actorFor caller in
  run requireApproved actor;
  tx_Headers (v_ID (a_Vault actor)) after (clamp limit MaxHeadersPerPage).

Definition Snapshot_tx (caller : Caller) : M T SnapshotOut :=
  let! actor := actorFor caller in
  run requireApproved actor;
  let vault := a_Vault actor in
  run mfail_if (v_CurrentRevision vault = 0) [ErrNotFound];
  let! header := tx_Header (v_ID vault) (v_CurrentRevision vault) in
  let! ciphertext := tx_Ciphertext (v_ID vault) (v_CurrentRevision vault) in
  mreturn {| sn_Header := header; sn_Ciphertext := ciphertext; sn_Vault := vault |}.

Definition Devices_tx (caller : Caller) : M T (Vault * list Device) :=
  let! actor := actorFor caller in
  run mfail_if (is_Some (a_Pairing actor)) [ErrForbidden];
  let! devices := tx_Devices (v_ID (a_Vault actor)) in
  mreturn (a_Vault actor, devices).

Definition VaultState_tx (caller : Caller) : M T (Vault * Actor) :=
  let! actor := actorFor caller in
  mreturn (a_Vault actor, actor).

Definition Reset_tx (caller : Caller) (request : SignedRequest) (input : ResetInput) : M T unit :=
  let! actor := signedActor caller request in
  run requireApproved actor;
  run mfail_if (rei_VaultEpoch input ≠ v_Epoch (a_Vault actor)) [ErrConflict];
  tx_DeleteVault (v_ID (a_Vault actor)).

Definition Maintain_tx : M T unit := tx_PurgeExpired (clk 0%nat).

Definition Overview_tx (ownerKey : string) : M T OverviewOut :=
  let! r := mtry (tx_VaultByOwner ownerKey) in
  match r with
  | Err e =>
      if is_error e ErrNotFound
      then mreturn {| ov_HasVault := false; ov_Devices := 0; ov_CurrentRevision := 0;
                      ov_StoredBytes := 0; ov_UpdatedAt := zero_time |}
      else mfail e
  | Ok vault =>
      let! devices := tx_Devices (v_ID vault) in
      let! stored := tx_CiphertextBytes (v_ID vault) in
      mreturn {| ov_HasVault := true;
                 ov_Devices := Z.of_nat (length (filter (λ d, d_State d = DeviceApproved) devices));
                 ov_CurrentRevision := v_CurrentRevision vault; ov_StoredBytes := stored;
                 ov_UpdatedAt := v_UpdatedAt vault |}
  end.

Definition AdminReset_tx (ownerKey : string) : M T unit :=
  let! vault := tx_VaultByOwner ownerKey in
  tx_DeleteVault (v_ID vault).
End Bodies.

(** ** The operations of [Service] *)
Section Operations.
Context `{Crypto} `{MapRange} {W S : Type} `{Tx S} `{Storage W S}.
Context (cfg : Config) (clk : nat → time).

(** [s.storage.Update] and [s.storage.View]. *)
Definition update {A} (body : M (tracked S) A) (w : W) : result A * W :=
  let '(r, _, w') := keeper_Update (λ t, let '(r, t') := body t in (r, tt, t')) w in (r, w').
Definition view {A} (body : M S A) (w : W) : result A * W := keeper_View body w.

Definition InstancePublicKey : bytes := ed25519_Public (cfg_ReceiptKey cfg).
Definition CreateVault caller request input := update (CreateVault_tx clk caller request input).
Definition BeginPairing caller request offer := update (BeginPairing_tx clk caller request offer).
Definition PairingStatus caller := view (PairingStatus_tx clk caller).
Definition PendingPairings caller := view (PendingPairings_tx clk caller).
Definition AnswerPairing caller request deviceID message :=
  update (AnswerPairing_tx clk caller request deviceID message).
Definition ConfirmPairing caller request message :=
  update (ConfirmPairing_tx clk caller request message).
Definition CancelPairing caller request deviceID :=
  update (CancelPairing_tx clk caller request deviceID).
Definition Approve caller request input := update (Approve_tx clk caller request input).
Definition GetKeyPackageOp caller := view (KeyPackage_tx clk caller).
Definition Activate caller request input := update (Activate_tx clk caller request input).
Definition rekey caller request kind entry packages :=
  update (rekey_tx clk caller request kind entry packages).
Definition Remove caller request input :=
  rekey caller request EntryRemove (rmi_Entry input) (rmi_Packages input).
Definition Rotate caller request input :=
  rekey caller request EntryRotate (roi_Entry input) (roi_Packages input).
Definition UpgradeKey caller request input := update (UpgradeKey_tx clk caller request input).
Definition Upload caller request input := update (Upload_tx cfg clk caller request input).
Definition PutCheckpointOp caller request checkpoint :=
  update (PutCheckpoint_tx clk caller request checkpoint).
Definition CheckpointsOp caller := view (Checkpoints_tx clk caller).
Definition DeviceListOp caller after limit := view (DeviceList_tx clk caller after limit).
Definition HeadersOp caller after limit := view (Headers_tx clk caller after limit).
Definition Snapshot caller := view (Snapshot_tx clk caller).
Definition DevicesOp caller := view (Devices_tx clk caller).
Definition VaultState caller := view (VaultState_tx clk caller).
Definition Reset caller request input := update (Reset_tx clk caller request input).
Definition Maintain := update (Maintain_tx clk).
Definition Overview ownerKey := view (Overview_tx ownerKey).
Definition AdminReset ownerKey := update (AdminReset_tx ownerKey).
End Operations.
