(* ===== verification/Erasure.v ===== *)
(** * The nonce keeper is transparent

    Running a transaction body through [nonceTx] gives the result, and leaves the inner state, that
    running it on the inner transaction gives.  The service's theorems are therefore proved on the
    inner transaction, and what the keeper adds is one recorded nonce after a failure. *)

From stdpp Require Import base list gmap strings.
From Stdlib Require Import ZArith Lia Strings.Byte.
From S2P Require Import Prelude GoStd Canonical DeviceList Header Request SyncTypes NonceKeeper Service.
Local Open Scope Z_scope.
Local Open Scope go_scope.

Definition erases {S A} (m1 : M (tracked S) A) (m2 : M S A) : Prop :=
  ∀ s x, (m1 (s, x)).1 = (m2 s).1 ∧ (m1 (s, x)).2.1 = (m2 s).2.

Section Erases.
Context {S : Type}.

Lemma erases_inner {A} (m : M S A) : erases (inner m) m.
Proof. intros s x. unfold inner. by destruct (m s). Qed.

Lemma erases_return {A} (a : A) : erases (S := S) (mreturn a) (mreturn a).
Proof. done. Qed.

Lemma erases_fail {A} e : erases (S := S) (A := A) (mfail e) (mfail e).
Proof. done. Qed.

Lemma erases_lift {A} (r : result A) : erases (S := S) (mlift r) (mlift r).
Proof. done. Qed.

Lemma erases_fail_if P `{!Decision P} e : erases (S := S) (mfail_if P e) (mfail_if P e).
Proof. unfold mfail_if. by case_decide. Qed.

Lemma erases_bind {A B} (m1 : M (tracked S) A) m2 (k1 : A → M (tracked S) B) k2 :
  erases m1 m2 → (∀ a, erases (k1 a) (k2 a)) → erases (mbindM m1 k1) (mbindM m2 k2).
Proof.
  intros Hm Hk s x. unfold mbindM. specialize (Hm s x).
  destruct (m1 (s, x)) as [r1 [s1 x1]], (m2 s) as [r2 s2]. cbn in Hm. destruct Hm as [-> ->].
  destruct r2; [apply Hk|done].
Qed.

Lemma erases_try {A} (m1 : M (tracked S) A) m2 : erases m1 m2 → erases (mtry m1) (mtry m2).
Proof.
  intros Hm s x. unfold mtry. specialize (Hm s x).
  destruct (m1 (s, x)) as [r1 [s1 x1]], (m2 s) as [r2 s2]. cbn in *. naive_solver.
Qed.

Lemma erases_foreach {A B} (f1 : B → A → M (tracked S) B) f2 acc xs :
  (∀ acc x, erases (f1 acc x) (f2 acc x)) → erases (mforeach f1 acc xs) (mforeach f2 acc xs).
Proof.
  intros Hf. revert acc. induction xs as [|x xs IH]; intros acc; cbn; [done|].
  apply erases_bind; [apply Hf|auto].
Qed.

Lemma erases_loop {A B} n (b1 : A → M (tracked S) (step A B)) b2 a :
  (∀ a, erases (b1 a) (b2 a)) → erases (mloop n b1 a) (mloop n b2 a).
Proof.
  intros Hb s x. unfold mloop.
  set (i1 := iteration b1). set (i2 := iteration b2).
  assert (∀ n a s x,
    match loop n i1 (a, (s, x)), loop n i2 (a, s) with
    | Continue (a1, (s1, _)), Continue (a2, s2) => a1 = a2 ∧ s1 = s2
    | Done (r1, (s1, _)), Done (r2, s2) => r1 = r2 ∧ s1 = s2
    | _, _ => False
    end) as Hl.
  { clear n a s x. induction n as [|n IH]; intros a s x; cbn.
    - unfold i1, i2, iteration. cbn [fst snd]. specialize (Hb a s x). destruct (b1 a (s, x)) as [r1 [s1 x1]], (b2 a s) as [r2 s2].
      cbn in Hb. destruct Hb as [-> ->]. by destruct r2 as [[]|].
    - specialize (IH a s x) as Hi. destruct (loop n i1 (a, (s, x))) as [[a1 [s1 x1]]|[r1 [s1 x1]]],
        (loop n i2 (a, s)) as [[a2 s2]|[r2 s2]]; try done.
      destruct Hi as [-> ->]. apply IH. }
  specialize (Hl n a s x).
  destruct (loop n i1 (a, (s, x))) as [[a1 [s1 x1]]|[r1 [s1 x1]]],
    (loop n i2 (a, s)) as [[a2 s2]|[r2 s2]]; try done.
  destruct Hl as [_ ->]. done.
Qed.

Lemma erases_RecordNonce `{Tx S} scope nonce now expires :
  erases (S := S) (tx_RecordNonce scope nonce now expires) (tx_RecordNonce scope nonce now expires).
Proof.
  intros s x. cbn. destruct (tx_RecordNonce scope nonce now expires s) as [[[]|] s']; done.
Qed.
End Erases.

(** Walks through a body and its erasure in lock step. *)
Create HintDb erase discriminated.
#[export] Hint Resolve erases_return erases_fail erases_lift erases_fail_if : erase.
Ltac erase :=
  intros;
  repeat first
    [ solve [eauto with erase nocore] | apply erases_inner | apply erases_RecordNonce
    | apply erases_bind; [|intros] | apply erases_try | apply erases_foreach; intros
    | apply erases_loop; intros
    | progress cbn beta iota zeta
    | match goal with
      | |- erases (match ?x with _ => _ end) _ => destruct x
      end ].

Section Bodies.
Context `{Crypto} `{MapRange} {S : Type} `{Tx S} (cfg : Config) (clk : nat → time).
Implicit Types (caller : Caller) (request : SignedRequest).

Lemma erases_actorFor caller : erases (actorFor (T := tracked S) clk caller) (actorFor clk caller).
Proof. unfold actorFor, not_found_as. erase. Qed.

Lemma erases_verifyRequest scope key caller request :
  erases (verifyRequest (T := tracked S) clk scope key caller request) (verifyRequest clk scope key caller request).
Proof. unfold verifyRequest. erase. Qed.

Lemma erases_signedActor caller request :
  erases (signedActor (T := tracked S) clk caller request) (signedActor clk caller request).
Proof. unfold signedActor. pose proof erases_actorFor. pose proof erases_verifyRequest. erase. Qed.

Lemma erases_requireApproved actor : erases (requireApproved (T := tracked S) actor) (requireApproved actor).
Proof. unfold requireApproved. erase. Qed.

Lemma erases_requireActivated actor : erases (requireActivated (T := tracked S) actor) (requireActivated actor).
Proof. unfold requireActivated, requireApproved. erase. Qed.

Lemma erases_loadList vaultID : erases (loadList (T := tracked S) vaultID) (loadList vaultID).
Proof. unfold loadList. erase. Qed.
End Bodies.

#[export] Hint Resolve erases_actorFor erases_verifyRequest erases_signedActor erases_requireApproved
  erases_requireActivated erases_loadList : erase.

Section Operations.
Context `{Crypto} `{MapRange} {S : Type} `{Tx S} (cfg : Config) (clk : nat → time).

Lemma erases_CreateVault caller request input :
  erases (CreateVault_tx (T := tracked S) clk caller request input) (CreateVault_tx clk caller request input).
Proof. unfold CreateVault_tx, expect_absent. erase. Qed.
Lemma erases_BeginPairing caller request offer :
  erases (BeginPairing_tx (T := tracked S) clk caller request offer) (BeginPairing_tx clk caller request offer).
Proof. unfold BeginPairing_tx, expect_absent, not_found_as. erase. Qed.
Lemma erases_AnswerPairing caller request deviceID message :
  erases (AnswerPairing_tx (T := tracked S) clk caller request deviceID message)
         (AnswerPairing_tx clk caller request deviceID message).
Proof. unfold AnswerPairing_tx. erase. Qed.
Lemma erases_ConfirmPairing caller request message :
  erases (ConfirmPairing_tx (T := tracked S) clk caller request message) (ConfirmPairing_tx clk caller request message).
Proof. unfold ConfirmPairing_tx. erase. Qed.
Lemma erases_CancelPairing caller request deviceID :
  erases (CancelPairing_tx (T := tracked S) clk caller request deviceID) (CancelPairing_tx clk caller request deviceID).
Proof. unfold CancelPairing_tx. erase. Qed.
Lemma erases_Approve caller request input :
  erases (Approve_tx (T := tracked S) clk caller request input) (Approve_tx clk caller request input).
Proof. unfold Approve_tx. erase. Qed.
Lemma erases_Activate caller request input :
  erases (Activate_tx (T := tracked S) clk caller request input) (Activate_tx clk caller request input).
Proof. unfold Activate_tx. erase. Qed.
Lemma erases_rekey caller request kind entry packages :
  erases (rekey_tx (T := tracked S) clk caller request kind entry packages)
         (rekey_tx clk caller request kind entry packages).
Proof. unfold rekey_tx, store_package, update_device. erase. Qed.
Lemma erases_UpgradeKey caller request input :
  erases (UpgradeKey_tx (T := tracked S) clk caller request input) (UpgradeKey_tx clk caller request input).
Proof. unfold UpgradeKey_tx. erase. Qed.
Lemma erases_makeRoom vault incoming :
  erases (makeRoom (T := tracked S) cfg vault incoming) (makeRoom cfg vault incoming).
Proof. unfold makeRoom. erase. Qed.
Lemma erases_Upload caller request input :
  erases (Upload_tx (T := tracked S) cfg clk caller request input) (Upload_tx cfg clk caller request input).
Proof. unfold Upload_tx, previous_header. pose proof erases_makeRoom. erase. Qed.
Lemma erases_PutCheckpoint caller request checkpoint :
  erases (PutCheckpoint_tx (T := tracked S) clk caller request checkpoint) (PutCheckpoint_tx clk caller request checkpoint).
Proof. unfold PutCheckpoint_tx. erase. Qed.
Lemma erases_Reset caller request input :
  erases (Reset_tx (T := tracked S) clk caller request input) (Reset_tx clk caller request input).
Proof. unfold Reset_tx. erase. Qed.
Lemma erases_Maintain : erases (Maintain_tx (T := tracked S) clk) (Maintain_tx clk).
Proof. unfold Maintain_tx. erase. Qed.
Lemma erases_AdminReset ownerKey : erases (AdminReset_tx (T := tracked S) ownerKey) (AdminReset_tx ownerKey).
Proof. unfold AdminReset_tx. erase. Qed.
End Operations.
