(* ===== verification/VaultInv.v ===== *)
(** * The invariant of the sync store

    [vault_ok cfg v sl l]: what holds of a vault record, its slice of the store and the device list
    [l] its entries verify to, between any two operations of the service.  [Inv cfg s]: every row of
    the store is stored under its own key, and every vault satisfies [vault_ok]. *)

From stdpp Require Import base list gmap strings sorting.
From Stdlib Require Import ZArith Lia Strings.Byte.
From S2P Require Import Prelude GoStd Canonical DeviceList DeviceListFacts DeviceListThms Header Request.
From S2P Require Import SyncTypes MemStore MemStoreFacts Slices NonceKeeper Service.
Local Open Scope Z_scope.
Local Open Scope go_scope.

(** Settings for which no counter of the service can overflow. *)
Record cfg_ok (cfg : Config) : Prop := {
  co_budget : 0 < cfg_ByteBudget cfg;
  co_budget_fits : cfg_ByteBudget cfg + MaxCiphertextBytes < 2 ^ 63;
  co_retention : 1 ≤ cfg_HeaderRetention cfg < 2 ^ 64;
}.

(** The bytes a vault's snapshots take. *)
Definition total_bytes (m : gmap Z bytes) : Z :=
  Z.of_nat (sum_list_with length (map_to_list m).*2).

(** The oldest revision whose header is kept. *)
Definition first_kept (cfg : Config) (rev : Z) : Z := Z.max 1 (rev - cfg_HeaderRetention cfg + 1).

Section VaultInv.
Context `{Crypto} `{MapRange} (cfg : Config).

Record list_ok (v : Vault) (es : list DeviceListEntry) (l : DeviceList) : Prop := {
  lo_verified : VerifyDeviceList es = Ok l;
  lo_nonempty : es ≠ [];
  lo_vault : l_vaultID l = v_ID v;
  lo_head : v_HeadIndex v = list_length l;
  lo_epoch : v_Epoch v = Epoch l;
}.

(** A device row and the list member of the same identifier. *)
Record device_matches (l : DeviceList) (d : Device) (m : DeviceListMember) : Prop := {
  dm_member : l_members l !! d_DeviceID d = Some m;
  dm_signing : d_SigningKey d = m_SigningKey m;
  dm_package : d_PackageKey d = m_PackageKey m;
  dm_added : d_AddedIndex d = m_AddedIndex m;
  dm_state : d_State d = if decide (m_RemovedIndex m = 0) then DeviceApproved else DeviceRevoked;
  dm_activated : 0 ≤ d_ActivatedEpoch d ≤ Epoch l;
}.

Record devices_ok (id : string) (devs : gmap string Device) (l : DeviceList) : Prop := {
  do_member : ∀ k d, devs !! k = Some d → ∃ m, device_matches l d m;
  do_device : ∀ did m, l_members l !! did = Some m → is_Some (devs !! key [id; did]);
  do_token : ∀ k1 k2 d1 d2, devs !! k1 = Some d1 → devs !! k2 = Some d2 →
    d_State d1 ≠ DeviceRevoked → d_State d2 ≠ DeviceRevoked →
    d_TokenDeviceID d1 = d_TokenDeviceID d2 → k1 = k2;
}.

Record packages_ok (pkgs : gmap string KeyPackage) (devs : gmap string Device) (l : DeviceList) : Prop := {
  ko_current : ∀ k p, pkgs !! k = Some p →
    k_VaultEpoch (kp_Package p) = Epoch l ∧ ∃ m, current_member l (pkg_DeviceID p) m;
  ko_reach : ∀ k d, devs !! k = Some d → d_State d = DeviceApproved →
    d_ActivatedEpoch d = Epoch l ∨ is_Some (pkgs !! k);
}.

(** The messages a pairing holds in each of its states. *)
Definition pairing_stage (p : Pairing) : Prop :=
  ¬ bad_message (p_Offer p) ∧
  (p_State p = PairingOffered ∧ p_Answer p = [] ∧ p_Confirm p = [] ∨
   p_State p = PairingAnswered ∧ ¬ bad_message (p_Answer p) ∧ p_Confirm p = [] ∨
   p_State p = PairingConfirmed ∧ ¬ bad_message (p_Answer p) ∧ ¬ bad_message (p_Confirm p)).

Record pairings_ok (pairs : gmap string Pairing) (devs : gmap string Device) (l : DeviceList) : Prop := {
  pa_new : ∀ k p, pairs !! k = Some p → l_members l !! p_DeviceID p = None;
  pa_stage : ∀ k p, pairs !! k = Some p → pairing_stage p;
  pa_token : ∀ k1 k2 p1 p2, pairs !! k1 = Some p1 → pairs !! k2 = Some p2 →
    p_TokenDeviceID p1 = p_TokenDeviceID p2 → k1 = k2;
  pa_live : ∀ k1 k2 p d, pairs !! k1 = Some p → devs !! k2 = Some d → d_State d ≠ DeviceRevoked →
    d_TokenDeviceID d ≠ p_TokenDeviceID p;
  pa_count : Z.of_nat (size pairs) ≤ MaxPendingPairings;
}.

Definition checkpoints_ok (chks : gmap string StoredCheckpoint) (l : DeviceList) : Prop :=
  ∀ k c, chks !! k = Some c →
    ∃ m, current_member l (chk_DeviceID c) m ∧
         checkpoint_Verify (sc_Checkpoint c) (m_SigningKey m) = Ok tt.

Record history_ok (rev : Z) (hdrs : gmap Z StoredHeader) (cts : gmap Z bytes) (l : DeviceList) : Prop := {
  hi_rev : 0 ≤ rev < 2 ^ 64;
  hi_range : ∀ r, is_Some (hdrs !! r) ↔ first_kept cfg rev ≤ r ≤ rev;
  hi_header : ∀ r h, hdrs !! r = Some h →
    h_Revision (sh_Header h) = r ∧ sh_Digest h = header_Digest (sh_Header h) ∧
    1 ≤ h_DeviceListIndex (sh_Header h) ∧ VerifyHeader l None (sh_Header h) = Ok tt;
  hi_link : ∀ r h h', hdrs !! r = Some h → hdrs !! (r + 1) = Some h' →
    verifyLink (sh_Header h) (sh_Header h') = Ok tt;
  hi_cipher : ∀ r c, cts !! r = Some c → 1 ≤ r ≤ rev;
  hi_match : ∀ r c h, cts !! r = Some c → hdrs !! r = Some h → VerifyCiphertext (sh_Header h) c = Ok tt;
  hi_epoch : ∀ r c h top, cts !! r = Some c → hdrs !! r = Some h → hdrs !! rev = Some top →
    h_VaultEpoch (sh_Header h) = h_VaultEpoch (sh_Header top);
  hi_current : 0 < rev → is_Some (cts !! rev);
  hi_bytes : total_bytes cts ≤ cfg_ByteBudget cfg;
  hi_size : ∀ r c, cts !! r = Some c → 16 ≤ Z.of_nat (length c) ≤ MaxCiphertextBytes;
}.

Record vault_ok (v : Vault) (sl : slice) (l : DeviceList) : Prop := {
  vo_list : list_ok v (sl_entries sl) l;
  vo_devices : devices_ok (v_ID v) (sl_devices sl) l;
  vo_packages : packages_ok (sl_packages sl) (sl_devices sl) l;
  vo_pairings : pairings_ok (sl_pairings sl) (sl_devices sl) l;
  vo_checkpoints : checkpoints_ok (sl_checkpoints sl) l;
  vo_history : history_ok (v_CurrentRevision v) (sl_headers sl) (sl_ciphertexts sl) l;
}.

Definition Inv (s : state) : Prop :=
  keyed s ∧ ∀ id v, st_vaults s !! id = Some v → ∃ l, vault_ok v (slice_of s id) l.

Lemma Inv_empty : Inv newState.
Proof. split; [split|]; cbn; try done; intros k a; rewrite lookup_empty; done. Qed.

(** The invariant for every vault but one. *)
Definition Inv_except (id : string) (s : state) : Prop :=
  keyed s ∧ ∀ i v, i ≠ id → st_vaults s !! i = Some v → ∃ l, vault_ok v (slice_of s i) l.

Lemma Inv_except_intro id s : Inv s → Inv_except id s.
Proof. intros [? ?]. split; eauto. Qed.

(** ** Isolation of owners *)

(** Nothing changed in a slice, except that pairings which had expired may be gone. *)
Record untouched (clk : nat → time) (sl sl' : slice) : Prop := {
  un_slice : sl' = on_pairings (λ _, sl_pairings sl') sl;
  un_fewer : sl_pairings sl' ⊆ sl_pairings sl;
  un_expired : ∀ k p, sl_pairings sl !! k = Some p →
    sl_pairings sl' !! k = Some p ∨ ∃ i, p_ExpiresAt p ≤ clk i;
}.

(** The vaults of everybody but [owner] are as they were. *)
Definition isolated (clk : nat → time) (owner : string) (s s' : state) : Prop :=
  ∀ id v, st_vaults s !! id = Some v → v_OwnerKey v ≠ owner →
    st_vaults s' !! id = Some v ∧ untouched clk (slice_of s id) (slice_of s' id).

Lemma untouched_refl clk sl : untouched clk sl sl.
Proof. split; [by destruct sl|done|by left]. Qed.

Lemma isolated_same clk owner s s' :
  (∀ id v, st_vaults s !! id = Some v → v_OwnerKey v ≠ owner →
     st_vaults s' !! id = Some v ∧ slice_of s' id = slice_of s id) → isolated clk owner s s'.
Proof.
  intros Hs id v Hv Ho. destruct (Hs id v Hv Ho) as [? ->]. split; [done|apply untouched_refl].
Qed.

Lemma isolated_trans clk owner s s1 s2 :
  isolated clk owner s s1 → isolated clk owner s1 s2 → isolated clk owner s s2.
Proof.
  intros H1 H2 id v Hv Ho. destruct (H1 id v Hv Ho) as [Hv1 [E1 F1 X1]].
  destruct (H2 id v Hv1 Ho) as [Hv2 [E2 F2 X2]]. split; [done|]. split.
  - rewrite E2, E1. done.
  - by etrans.
  - intros k p Hp. destruct (X1 k p Hp) as [Hp1|?]; [|by right]. by apply X2.
Qed.

(** A transaction that only touches one vault gives the invariant when it gives it for that vault,
    and leaves the vaults of other owners alone. *)
Lemma Inv_effect clk id gv g v s s' :
  Inv_except id s → effect id gv g s s' → st_vaults s !! id = Some v →
  (∃ l', vault_ok (gv v) (g (slice_of s id)) l') → Inv s' ∧ isolated clk (v_OwnerKey v) s s'.
Proof.
  intros [Hk Hi] (Hk' & Hv' & Ho & Hs) Hv Hstep. split.
  - split; [done|]. intros i w Hw. rewrite Hv' in Hw. destruct (decide (i = id)) as [->|Hne].
    + rewrite lookup_alter_eq, Hv in Hw. injection Hw as <-. by rewrite Hs.
    + rewrite lookup_alter_ne in Hw by done. rewrite Ho by done. eauto.
  - apply isolated_same. intros i w Hw Hown. rewrite Hv'.
    assert (i ≠ id) by congruence. rewrite lookup_alter_ne by done. auto.
Qed.

Lemma Inv_nonces s m : Inv s → Inv (set_nonces m s).
Proof. intros [[? ? ? ? ? ? ? ? ?] Hi]. split; [by split|]. exact Hi. Qed.

Lemma Inv_vault s id v : Inv s → st_vaults s !! id = Some v → ∃ l, vault_ok v (slice_of s id) l.
Proof. intros [_ Hi]. apply Hi. Qed.

(** Every row of the store belongs to a vault that satisfies the invariant. *)
Lemma Inv_device s k d :
  Inv s → st_devices s !! k = Some d →
  ∃ v l, st_vaults s !! d_VaultID d = Some v ∧ vault_ok v (slice_of s (d_VaultID d)) l ∧
    sl_devices (slice_of s (d_VaultID d)) !! k = Some d.
Proof.
  intros [Hk Hi] Hd. destruct (ky_devices s Hk _ _ Hd) as [_ [v Hv]].
  destruct (Hi _ _ Hv) as [l Hl]. exists v, l. split_and!; [done|done|]. by apply rows_Some.
Qed.
End VaultInv.

(** ** Members of an extended list *)
Section Members.
Context `{Crypto} `{MapRange}.
Implicit Types l : DeviceList.

Lemma list_step_old l e l' id m :
  list_wf l → list_step l e l' → l_members l !! id = Some m →
  ∃ m', l_members l' !! id = Some m' ∧ m_SigningKey m' = m_SigningKey m ∧
    m_AddedIndex m' = m_AddedIndex m ∧
    m_RemovedIndex m' = (if decide (e_Kind e = EntryRemove ∧ id = e_SubjectDeviceID e)
                         then e_Index e else m_RemovedIndex m) ∧
    m_PackageKey m' = (if decide (e_Kind e = EntryKey ∧ id = e_SignerDeviceID e)
                       then e_SubjectPackageKey e else m_PackageKey m).
Proof.
  intros Hw Hst Hm.
  destruct Hst as [Hnil|? ? Hk Hn|? ? ? Hk [Hs Hz]|signer ? Hf Hk|? ? Hk]; cbn.
  - rewrite (lw_empty l Hw Hnil) in Hm. done.
  - exists m. rewrite lookup_insert_ne by (intros <-; congruence). rewrite Hk.
    rewrite !decide_False by (intros [? _]; done). done.
  - rewrite Hk. rewrite (decide_False (P := EntryRemove = EntryKey ∧ _)) by (intros [? _]; done).
    rewrite lookup_insert. case_decide; [subst id|].
    + rewrite decide_True by done. rewrite Hs in Hm. injection Hm as <-. eexists. split_and!; done.
    + rewrite decide_False by (intros [_ ->]; done). eauto 10.
  - destruct (fo_signer _ _ _ Hf) as [Hs Hz].
    assert (m_DeviceID signer = e_SignerDeviceID e) as -> by apply (mw_id _ _ _ (lw_members l Hw _ _ Hs)).
    rewrite Hk. rewrite (decide_False (P := EntryKey = EntryRemove ∧ _)) by (intros [? _]; done).
    rewrite lookup_insert. case_decide; [subst id|].
    + rewrite decide_True by done. rewrite Hs in Hm. injection Hm as <-. eexists. split_and!; done.
    + rewrite decide_False by (intros [_ ->]; done). eauto 10.
  - rewrite Hk. rewrite !decide_False by (intros [? _]; done). eauto 10.
Qed.

Lemma list_step_fresh l e l' id :
  list_wf l → l_digests l ≠ [] → list_step l e l' → l_members l !! id = None →
  l_members l' !! id = (if decide (e_Kind e = EntryAdd ∧ id = e_SubjectDeviceID e)
                        then Some (memberFromEntry e) else None).
Proof.
  intros Hw Hne Hst Hn.
  destruct Hst as [Hnil|? ? Hk|? ? ? Hk [Hs Hz]|signer ? Hf Hk|? ? Hk]; cbn; [done|rewrite Hk..].
  - rewrite lookup_insert. case_decide; case_decide; try done; naive_solver.
  - rewrite decide_False by (intros [? _]; done). rewrite lookup_insert_ne by congruence. done.
  - destruct (fo_signer _ _ _ Hf) as [Hs Hz].
    assert (m_DeviceID signer = e_SignerDeviceID e) as -> by apply (mw_id _ _ _ (lw_members l Hw _ _ Hs)).
    rewrite decide_False by (intros [? _]; done). rewrite lookup_insert_ne by congruence. done.
  - by rewrite decide_False by (intros [? _]; done).
Qed.
End Members.
