(* ===== verification/VaultExtend.v ===== *)
(** * The invariant when the device list grows

    An entry that extends the list leaves the rows it does not name valid: the snapshot headers still
    verify against the longer list, a checkpoint still names a current member unless its device was
    removed, and the device rows follow the members. *)

From stdpp Require Import base list gmap strings sorting.
From Stdlib Require Import ZArith Lia Strings.Byte.
From S2P Require Import Prelude GoStd Canonical DeviceList DeviceListFacts DeviceListThms Header Request.
From S2P Require Import SyncTypes MemStore MemStoreFacts Slices NonceKeeper Service VaultInv.
Local Open Scope Z_scope.
Local Open Scope go_scope.

Section Extend.
Context `{Crypto} `{MapRange} (cfg : Config).
Implicit Types l : DeviceList.

(** What every extension of a stored list gives. *)
Record extends (v : Vault) (es : list DeviceListEntry) (l : DeviceList) (e : DeviceListEntry)
    (l' : DeviceList) : Prop := {
  ex_ok : list_ok v es l;
  ex_wf : list_wf l;
  ex_wf' : list_wf l';
  ex_valid : entry_valid e;
  ex_index : e_Index e = list_length l + 1;
  ex_bound : e_Index e < 2 ^ 64;
  ex_step : list_step l e l';
  ex_extend : Extend l e = Ok l';
}.

Lemma list_ok_nonempty v es l : list_ok v es l → l_digests l ≠ [].
Proof.
  intros [Hv Hne _ _ _]. destruct (VerifyDeviceList_length _ _ Hv) as [Hl _].
  intros E. rewrite E in Hl. cbn in Hl. apply Hne. by apply length_zero_iff_nil.
Qed.

Lemma list_ok_length v es l : list_ok v es l → v_HeadIndex v = Z.of_nat (length es).
Proof.
  intros Hl. rewrite (lo_head _ _ _ Hl). unfold list_length.
  by rewrite (proj1 (VerifyDeviceList_length _ _ (lo_verified _ _ _ Hl))).
Qed.

Lemma extends_intro v es l e l' : list_ok v es l → Extend l e = Ok l' → extends v es l e l'.
Proof.
  intros Hl Hx. pose proof (VerifyDeviceList_wf _ _ (lo_verified _ _ _ Hl)) as Hw.
  destruct (Extend_step _ _ _ (lw_bound l Hw) Hx) as (? & ? & ? & ?).
  split; try done. by eapply Extend_wf.
Qed.

Lemma extends_epoch v es l e l' : extends v es l e l' → Epoch l ≤ Epoch l'.
Proof.
  intros Hx. rewrite (list_step_epoch_rule l e l') by apply Hx. case_decide; lia.
Qed.

Lemma list_ok_extend v es l e l' now :
  extends v es l e l' → list_ok (set_v_list (e_Index e) (Epoch l') now v) (es ++ [e]) l'.
Proof.
  intros Hx. pose proof (ex_ok _ _ _ _ _ Hx) as Hl. split; cbn.
  - eapply VerifyDeviceList_snoc; [by apply Hl|apply Hx].
  - intros E%(f_equal length). rewrite length_app in E. cbn in E. lia.
  - rewrite <- (lo_vault _ _ _ Hl).
    destruct (ex_step _ _ _ _ _ Hx) as [Hnil|? Hf|? ? Hf|? ? Hf|? Hf]; cbn; try done.
    by destruct (list_ok_nonempty _ _ _ Hl).
  - rewrite (list_step_length l e l') by apply Hx. apply Hx.
  - done.
Qed.

(** A header that verified against the list verifies against every longer list. *)
Lemma VerifyHeader_extend v es l e l' h :
  extends v es l e l' → 1 ≤ h_DeviceListIndex h →
  VerifyHeader l None h = Ok tt → VerifyHeader l' None h = Ok tt.
Proof.
  intros Hx Hi Hv. unfold VerifyHeader in *.
  apply rbind_ok in Hv as [[] [Hv1 Hv]]. rewrite Hv1. cbn [rbind].
  apply rbind_ok in Hv as [[] [Hv2%rfail_if_ok Hv]]. apply rbind_ok in Hv as [[] [Hv3%rfail_if_ok Hv]].
  apply rbind_ok in Hv as [[] [Hv4%rfail_if_ok Hv]]. apply rbind_ok in Hv as [[] [Hv5%rfail_if_ok Hv]].
  cbn [rbind] in Hv. dstable.
  pose proof (ex_ok _ _ _ _ _ Hx) as Hl. pose proof (list_ok_extend _ _ _ _ _ 0 Hx) as Hl'.
  rewrite (Head_bound l) in Hv3 by apply Hx.
  assert (Head l' = list_length l + 1) as Hh'.
  { rewrite Head_bound by apply Hx. by apply list_step_length with (e := e), Hx. }
  destruct (history_of_prefix es [e] l' l (h_DeviceListIndex h)) as (Hd & He & Hm);
    [apply Hl|cbn; by rewrite (ex_extend _ _ _ _ _ Hx)|lia|].
  rewrite Hd, He, Hh'. specialize (Hm (h_DeviceID h)).
  assert (VaultID l' = VaultID l) as ->.
  { unfold VaultID. rewrite (lo_vault _ _ _ Hl), (lo_vault _ _ _ Hl'). done. }
  unfold rfail_if at 1 2 3 4. rewrite !decide_False by (first [lia|intros []; done]). cbn [rbind].
  destruct (MemberAt l (h_DeviceID h) (h_DeviceListIndex h)) as [m|] eqn:Em; [|done].
  cbn in Hm. destruct (MemberAt l' (h_DeviceID h) (h_DeviceListIndex h)) as [m'|] eqn:Em'; [|done].
  cbn in Hm. injection Hm as _ Hkey _ _ _. rewrite Hkey. done.
Qed.

Lemma history_ok_extend v es l e l' rev hdrs cts :
  extends v es l e l' → history_ok cfg rev hdrs cts l → history_ok cfg rev hdrs cts l'.
Proof.
  intros Hx [? ? Hh ? ? ? ? ? ? ?]. split; try done.
  intros r h Hr. destruct (Hh r h Hr) as (? & ? & ? & Hv). split_and!; try done.
  by eapply VerifyHeader_extend.
Qed.

Lemma checkpoints_ok_extend v es l e l' chks :
  extends v es l e l' →
  (∀ k c, chks !! k = Some c → ¬ (e_Kind e = EntryRemove ∧ chk_DeviceID c = e_SubjectDeviceID e)) →
  checkpoints_ok chks l → checkpoints_ok chks l'.
Proof.
  intros Hx Hne Hc k c Hk. destruct (Hc k c Hk) as (m & [Hm Hr] & Hv).
  destruct (list_step_old l e l' _ m (ex_wf _ _ _ _ _ Hx) (ex_step _ _ _ _ _ Hx) Hm)
    as (m' & ? & Hkey & _ & Hrem & _).
  rewrite decide_False in Hrem by eauto. exists m'. rewrite Hkey. split; [|done]. split; congruence.
Qed.

(** A row that changed with the member it describes. *)
Lemma device_matches_extend v es l e l' d m :
  extends v es l e l' → device_matches l d m →
  ¬ (e_Kind e = EntryRemove ∧ d_DeviceID d = e_SubjectDeviceID e) →
  ¬ (e_Kind e = EntryKey ∧ d_DeviceID d = e_SignerDeviceID e) →
  ∃ m', device_matches l' d m'.
Proof.
  intros Hx [Hm ? ? ? ? ?] Hn1 Hn2.
  destruct (list_step_old l e l' _ m (ex_wf _ _ _ _ _ Hx) (ex_step _ _ _ _ _ Hx) Hm)
    as (m' & ? & Hkey & Hadd & Hrem & Hpkg).
  rewrite decide_False in Hrem by done. rewrite decide_False in Hpkg by done. exists m'. pose proof (extends_epoch _ _ _ _ _ Hx).
  split; try congruence; [by rewrite Hrem|lia].
Qed.

Lemma device_matches_epoch l d m ep :
  device_matches l d m → 0 ≤ ep ≤ Epoch l → device_matches l (set_d_ActivatedEpoch ep d) m.
Proof. intros [? ? ? ? ? ?] ?. split; done. Qed.

(** The row of a current member is the only place its identifier can be approved. *)
Lemma device_matches_approved l d m :
  device_matches l d m → d_State d = DeviceApproved ↔ m_RemovedIndex m = 0.
Proof.
  intros [_ _ _ _ Hs _]. rewrite Hs. case_decide; [done|]. split; [|done]. intros E. done.
Qed.
Lemma device_matches_live l d m :
  device_matches l d m → d_State d ≠ DeviceRevoked ↔ d_State d = DeviceApproved.
Proof.
  intros [_ _ _ _ Hs _]. rewrite Hs. case_decide; [done|]. split; [done|]. intros E. done.
Qed.
End Extend.
