(* ===== verification/LoadList.v ===== *)
(** * Loading the device list page by page

    [loadList] reads the entries of a vault in pages and extends an empty list with them.  It gives
    what [VerifyDeviceList] gives on all of them at once, errors included, and it always ends. *)

From stdpp Require Import base list gmap strings sorting.
From Stdlib Require Import ZArith Lia Strings.Byte.
From S2P Require Import Prelude GoStd Canonical DeviceList DeviceListFacts DeviceListThms Header Request.
From S2P Require Import SyncTypes MemStore MemStoreFacts NonceKeeper Service.
Local Open Scope Z_scope.
Local Open Scope go_scope.

(** The entries carry their positions, as [AppendDeviceListEntry] demands. *)
Definition indexed (es : list DeviceListEntry) : Prop :=
  ∀ i e, es !! i = Some e → e_Index e = Z.of_nat i + 1.

Lemma page_spec after limit es out (off : nat) :
  (∀ i e, es !! i = Some e → e_Index e = Z.of_nat off + Z.of_nat i + 1) → 0 ≤ after →
  Z.of_nat (length out) ≤ limit →
  page after limit out es =
    out ++ take (Z.to_nat limit - length out) (drop (Z.to_nat after - off) es).
Proof.
  revert out off. induction es as [|e es IH]; intros out off Hi Ha Hl; cbn [page].
  { by rewrite drop_nil, take_nil, app_nil_r. }
  pose proof (Hi 0%nat e eq_refl) as He.
  assert (∀ i e, es !! i = Some e → e_Index e = Z.of_nat (S off) + Z.of_nat i + 1) as Hi'.
  { intros i e' Hx. rewrite (Hi (S i) e' Hx). lia. }
  case_decide as Hc.
  - rewrite (IH _ (S off)); [|done|done|rewrite length_app; cbn; lia].
    replace (Z.to_nat after - off)%nat with 0%nat by lia.
    replace (Z.to_nat after - S off)%nat with 0%nat by lia.
    rewrite length_app, <- app_assoc. cbn. f_equal.
    replace (Z.to_nat limit - length out)%nat with (S (Z.to_nat limit - (length out + 1)))%nat by lia.
    done.
  - rewrite (IH _ (S off)) by done. f_equal.
    destruct (decide (after < e_Index e)).
    + replace (Z.to_nat limit - length out)%nat with 0%nat by lia. by rewrite !take_0.
    + by replace (Z.to_nat after - off)%nat with (S (Z.to_nat after - S off)) by lia.
Qed.

Section LoadList.
Context `{Crypto} `{MapRange}.
Implicit Types l : DeviceList.

Lemma verified_indexed es l : VerifyDeviceList es = Ok l → indexed es.
Proof.
  revert es l. apply (verify_ind (λ es _, indexed es)); [by intros ? ?|].
  intros es l e l' Hv IH Hx i e' Hi. pose proof (VerifyDeviceList_wf _ _ Hv) as Hw.
  destruct (Extend_step _ _ _ (lw_bound l Hw) Hx) as (_ & _ & He & _).
  apply lookup_app_Some in Hi as [Hi|[Hlen Hi]]; [by apply IH|].
  apply list_lookup_singleton_Some in Hi as [Hz <-]. rewrite He. unfold list_length.
  rewrite (proj1 (VerifyDeviceList_length _ _ Hv)). lia.
Qed.

Lemma extend_page_spec l after es :
  extend_page l after es =
    (let? l' := ExtendAll l es in Ok (l', default after (e_Index <$> last es))).
Proof.
  revert l after. induction es as [|e es IH]; intros l after; [done|].
  cbn [extend_page ExtendAll]. destruct (Extend l e) as [l1|]; [|done]. cbn [rbind].
  rewrite IH. destruct (ExtendAll l1 es); [|done]. cbn [rbind]. f_equal. f_equal.
  destruct (last es) as [e'|] eqn:E; [by rewrite last_cons, E|].
  apply last_None in E as ->. done.
Qed.

(** One page. *)
Lemma page_at es (k : nat) :
  indexed es → page (Z.of_nat k) MaxEntriesPerPage [] es = take 500 (drop k es).
Proof.
  intros Hi. rewrite (page_spec _ _ _ _ 0); [|intros; rewrite (Hi i e) by done; lia|lia|done].
  cbn [app length]. rewrite !Nat.sub_0_r, Nat2Z.id. done.
Qed.

Definition load_body (vaultID : string) : DeviceList * Z → M state (step (DeviceList * Z) DeviceList) :=
  λ '(lst, after),
    let! entries := tx_DeviceListEntries vaultID after MaxEntriesPerPage in
    let! (lst, after) := mlift (extend_page lst after entries) in
    mreturn (if decide (Z.of_nat (length entries) < MaxEntriesPerPage) then Done lst
             else Continue (lst, after)).

Lemma load_iteration id lst after s :
  iteration (load_body id) (lst, after, s) =
    let pg := page after MaxEntriesPerPage [] (entries_of s id) in
    match extend_page lst after pg with
    | Ok (lst', after') =>
        if decide (Z.of_nat (length pg) < MaxEntriesPerPage) then Done (Ok lst', s)
        else Continue (lst', after', s)
    | Err e => Done (Err e, s)
    end.
Proof.
  unfold iteration. cbn. unfold mbindM, mlift, DeviceListEntries, reading, mreturn.
  destruct (extend_page _ _ _) as [[l1 a1]|]; [|done]. by case_decide.
Qed.

(** A position of the loop: the list read so far is the verified prefix. *)
Definition at_prefix (id : string) (s : state) (a : DeviceList * Z * state) : Prop :=
  ∃ k : nat, (k ≤ length (entries_of s id))%nat ∧ a.1.2 = Z.of_nat k ∧ a.2 = s ∧
    ExtendAll NewDeviceList (take k (entries_of s id)) = Ok a.1.1.

Lemma load_iteration_at id s a :
  indexed (entries_of s id) → at_prefix id s a →
  match iteration (load_body id) a with
  | Continue a' => at_prefix id s a' ∧ a.1.2 + 500 ≤ a'.1.2
  | Done r => r = (VerifyDeviceList (entries_of s id), s)
  end.
Proof.
  destruct a as [[l after] s0]. intros Hi (k & Hk & Ha & Hs & Hl). cbn in Ha, Hs, Hl. subst after s0.
  rewrite load_iteration. cbv zeta. rewrite page_at, extend_page_spec by done.
  set (es := entries_of s id) in *. set (pg := take 500 (drop k es)).
  assert (take (k + length pg) es = take k es ++ pg) as Htk.
  { rewrite <- take_take_drop. f_equal. unfold pg. rewrite length_take.
    destruct (Nat.min_spec 500 (length (drop k es))) as [[? ->]|[? ->]]; [done|].
    by rewrite !take_ge by lia. }
  assert (ExtendAll l pg = ExtendAll NewDeviceList (take (k + length pg) es)) as Hpg.
  { rewrite Htk, ExtendAll_app, Hl. done. }
  assert (VerifyDeviceList es = (let? l' := ExtendAll l pg in ExtendAll l' (drop (k + length pg) es))) as Hv.
  { unfold VerifyDeviceList. rewrite <- (take_drop (k + length pg) es) at 1.
    by rewrite ExtendAll_app, Hpg. }
  assert (length pg = Nat.min 500 (length es - k)) as Hlen by (unfold pg; by rewrite length_take, length_drop).
  destruct (ExtendAll l pg) as [l1|e] eqn:E1; cbn [rbind] in *; [|by rewrite Hv].
  case_decide as Hd.
  - rewrite Hv, drop_ge; [done|]. unfold MaxEntriesPerPage in Hd. lia.
  - unfold MaxEntriesPerPage in Hd. assert (length pg = 500%nat) as H500 by lia.
    assert (default (Z.of_nat k) (e_Index <$> last pg) = Z.of_nat (k + 500)) as Hlast.
    { destruct (last pg) as [e|] eqn:El; [|apply last_None in El; rewrite El in H500; done].
      cbn. rewrite last_lookup, H500 in El. unfold pg in El. cbn [pred] in El.
      apply lookup_take_Some in El as [El _].
      rewrite lookup_drop in El. rewrite (Hi _ _ El). lia. }
    rewrite Hlast. cbn. split; [|lia]. exists (k + 500)%nat. cbn. fold es.
    rewrite H500 in Hpg. split_and!; [lia|done|done|done].
Qed.

(** The loop ends, whatever the entries are, and gives the verdict on all of them. *)
Lemma loadList_verifies id s :
  indexed (entries_of s id) → Z.of_nat (length (entries_of s id)) < 2 ^ 64 →
  loadList id s = (VerifyDeviceList (entries_of s id), s).
Proof.
  intros Hi Hb. unfold loadList, mloop. fold (load_body id). set (es := entries_of s id) in *.
  assert (at_prefix id s (NewDeviceList, 0, s)) as H0'.
  { exists 0%nat. cbn. split_and!; [lia|done..]. }
  destruct (loop_terminates (iteration (load_body id)) (at_prefix id s)
    (λ a, length es - Z.to_nat a.1.2)%nat 64 (NewDeviceList, 0, s)) as [r Hr].
  - intros a a' Ha Hc. pose proof (load_iteration_at id s a Hi Ha) as Hx. rewrite Hc in Hx.
    destruct Hx as [Hx Hlt]. split; [done|]. destruct Ha as (k & ? & Hk & _), Hx as (k' & Hk' & Hka & _).
    unfold es. lia.
  - done.
  - apply Nat2Z.inj_lt. rewrite Nat2Z.inj_pow. change (Z.of_nat 2) with 2. change (Z.of_nat 64) with 64.
    cbn [fst snd]. change (Z.to_nat 0) with 0%nat. rewrite Nat.sub_0_r. done.
  - rewrite Hr. apply loop_done in Hr.
    assert (∀ a r, loop_runs (iteration (load_body id)) a r → at_prefix id s a → r = (VerifyDeviceList es, s)) as Hrun.
    { clear -Hi. intros a r. induction 1 as [a r Hd|a a' r Hc _ IH]; intros Ha;
        pose proof (load_iteration_at id s a Hi Ha) as Hx.
      - rewrite Hd in Hx. done.
      - rewrite Hc in Hx. apply IH, Hx. }
    eauto.
Qed.
End LoadList.
