(* ===== verification/Actors.v ===== *)
(** * Who is acting

    What [actorFor], [verifyRequest] and [signedActor] establish about the store when they succeed. *)

From stdpp Require Import base list gmap strings sorting.
From Stdlib Require Import ZArith Lia Strings.Byte.
From S2P Require Import Prelude GoStd Canonical DeviceList DeviceListFacts DeviceListThms Header Request.
From S2P Require Import SyncTypes MemStore MemStoreFacts Slices NonceKeeper Service.
Local Open Scope Z_scope.
Local Open Scope go_scope.

Section Actors.
Context `{Crypto} `{MapRange} (clk : nat → time).
Implicit Types s : state.

Lemma not_found_as_ok {S A} to (m : M S A) (s : S) a (s' : S) :
  not_found_as to m s = (Ok a, s') ↔ m s = (Ok a, s').
Proof.
  unfold not_found_as, mbindM, mtry. destruct (m s) as [[b|e] s1]; [done|].
  destruct (is_error e ErrNotFound); done.
Qed.

Lemma expect_absent_ok {S A} (m : M S A) e (s : S) u (s' : S) :
  expect_absent m e s = (Ok u, s') ↔ ∃ e', m s = (Err e', s') ∧ is_error e' ErrNotFound = true.
Proof.
  unfold expect_absent, mbindM, mtry. destruct u, (m s) as [[b|e'] s1].
  - split; [done|]. by intros (? & [=] & _).
  - destruct (is_error e' ErrNotFound) eqn:E; unfold mreturn, mfail.
    + split; [intros [= <-]; eauto|]. by intros (? & [= _ ->] & _).
    + split; [done|]. intros (? & [= -> _] & ?). congruence.
Qed.

(** The row of the device a pairing stands for until it is approved. *)
Definition pairing_device (v : Vault) (p : Pairing) : Device :=
  {| d_VaultID := v_ID v; d_DeviceID := p_DeviceID p; d_TokenDeviceID := p_TokenDeviceID p;
     d_SigningKey := p_SigningKey p; d_PackageKey := p_PackageKey p; d_State := DevicePending;
     d_AddedIndex := 0; d_ActivatedEpoch := 0; d_CreatedAt := zero_time |}.

Record acts (s : state) (caller : Caller) (a : Actor) : Prop := {
  ac_named : ¬ anonymous caller;
  ac_vault : st_vaults s !! v_ID (a_Vault a) = Some (a_Vault a);
  ac_owner : v_OwnerKey (a_Vault a) = cl_OwnerKey caller;
  ac_token : d_TokenDeviceID (a_Device a) = cl_TokenDeviceID caller;
  ac_row : let id := v_ID (a_Vault a) in
    match a_Pairing a with
    | None => sl_devices (slice_of s id) !! key [id; d_DeviceID (a_Device a)] = Some (a_Device a)
    | Some p => sl_pairings (slice_of s id) !! key [id; p_DeviceID p] = Some p ∧
                a_Device a = pairing_device (a_Vault a) p ∧ clk 0%nat < p_ExpiresAt p
    end;
}.

Lemma device_row s k d v :
  keyed s → st_devices s !! k = Some d → d_VaultID d = v →
  sl_devices (slice_of s v) !! key [v; d_DeviceID d] = Some d.
Proof.
  intros Hk Hd <-. destruct (ky_devices s Hk _ _ Hd) as [-> _]. apply rows_Some. done.
Qed.
Lemma pairing_row s k p v :
  keyed s → st_pairings s !! k = Some p → p_VaultID p = v →
  sl_pairings (slice_of s v) !! key [v; p_DeviceID p] = Some p.
Proof.
  intros Hk Hd <-. destruct (ky_pairings s Hk _ _ Hd) as [-> _]. apply rows_Some. done.
Qed.

Lemma actorFor_inv caller s a s' :
  keyed s → actorFor clk caller s = (Ok a, s') → s' = s ∧ acts s caller a.
Proof.
  intros Hk Hx. unfold actorFor in Hx.
  passed Hx as Hn.
  called Hx v s1 as Hv%not_found_as_ok.
  apply VaultByOwner_inv in Hv as [-> (Ho & id & Hv)].
  destruct (ky_vault s Hk _ _ Hv) as [Hid _]. rewrite <- Hid in Hv.
  called Hx r s1 as Hr. apply (proj1 (mtry_ok _ _ _ _)) in Hr.
  apply DeviceByToken_inv in Hr as [-> Hr].
  assert (∀ d, r = Ok d → acts s caller {| a_Vault := v; a_Device := d; a_Pairing := None |}) as Hdev.
  { intros d ->. destruct Hr as (Hdv & Ht & _ & k & Hd). split; cbn; try done. by eapply device_row. }
  case_decide as Hlive.
  { apply mreturn_ok in Hx as [-> ->]. split; [done|]. destruct r; [by apply Hdev|]. by destruct Hlive. }
  called Hx ? s1 as Hs1.
  assert (s1 = s) as ->.
  { destruct r as [|e]; [by apply mreturn_ok in Hs1 as [_ ->]|].
    destruct (is_error e ErrNotFound); [by apply mreturn_ok in Hs1 as [_ ->]|]. by apply mfail_ok in Hs1. }
  called Hx rp s1 as Hrp. apply (proj1 (mtry_ok _ _ _ _)) in Hrp.
  apply PairingByToken_inv in Hrp as [-> Hrp]. destruct rp as [p|e].
  - passed Hx as He. apply mreturn_ok in Hx as [-> ->].
    split; [done|]. destruct Hrp as (Hpv & Ht & k & Hp). split; cbn -[key slice_of]; try done.
    split_and!; [by eapply pairing_row|done|]. destruct (decide (clk 0%nat < p_ExpiresAt p)); [done|]. done.
  - destruct (is_error e ErrNotFound); [|by apply mfail_ok in Hx].
    case_decide; [|by apply mfail_ok in Hx]. apply mreturn_ok in Hx as [-> ->]. split; [done|].
    destruct r; [by apply Hdev|done].
Qed.

(** The request a caller sends, as the device signs it. *)
Definition signed_request (caller : Caller) (q : SignedRequest) : RequestSignature :=
  {| r_Method := q_Method q; r_Target := q_Target q; r_Body := q_Body q; r_Token := cl_Token caller;
     r_Timestamp := q_Timestamp q; r_Nonce := q_Nonce q |}.

Definition request_expires : time := clk 2%nat + RequestNonceRetention * second.

Lemma verifyRequest_inv scope k caller q s u s' :
  verifyRequest clk scope k caller q s = (Ok u, s') →
  request_Verify (signed_request caller q) k (q_Signature q) (unix (clk 1%nat)) = Ok tt ∧
  s' = set_nonces (<[key [scope; q_Nonce q] := request_expires]> (st_nonces s)) s ∧
  ∀ until, st_nonces s !! key [scope; q_Nonce q] = Some until → until ≤ clk 3%nat.
Proof.
  intros Hx. unfold verifyRequest in Hx.
  lifted Hx [] as Hr%orelse_ok.
  apply mbindM_ok in Hx as (fresh & s1 & Hn & [Hf ->]%mfail_if_ok).
  apply RecordNonce_inv in Hn as [([= ->] & _)|(_ & Hs & Hu)]; done.
Qed.

(** The scope a device's nonces are recorded under. *)
Definition device_scope (a : Actor) : string := v_ID (a_Vault a) +:+ "/" +:+ d_DeviceID (a_Device a).

Lemma signedActor_inv caller q s a s' :
  keyed s → signedActor clk caller q s = (Ok a, s') →
  acts s caller a ∧
  request_Verify (signed_request caller q) (d_SigningKey (a_Device a)) (q_Signature q) (unix (clk 1%nat)) = Ok tt ∧
  s' = set_nonces (<[key [device_scope a; q_Nonce q] := request_expires]> (st_nonces s)) s.
Proof.
  intros Hk Hx. unfold signedActor in Hx.
  called Hx a0 s1 as Ha. apply actorFor_inv in Ha as [-> Ha]; [|done].
  called Hx ? s1 as Hv. apply mreturn_ok in Hx as [-> ->].
  apply verifyRequest_inv in Hv as (? & -> & _). done.
Qed.

Lemma requireApproved_inv {S : Type} a (s : S) u (s' : S) :
  requireApproved a s = (Ok u, s') → s' = s ∧ a_Pairing a = None ∧ d_State (a_Device a) = DeviceApproved.
Proof.
  intros [Hn ->]%mfail_if_ok. split; [done|]. apply Decidable.not_or in Hn as [Hp Hd].
  split; [by apply eq_None_not_Some|]. by apply dec_stable in Hd.
Qed.

Lemma requireActivated_inv {S : Type} a (s : S) u (s' : S) :
  requireActivated a s = (Ok u, s') →
  s' = s ∧ a_Pairing a = None ∧ d_State (a_Device a) = DeviceApproved ∧
  d_ActivatedEpoch (a_Device a) = v_Epoch (a_Vault a).
Proof.
  intros Hx. unfold requireActivated in Hx. apply mbindM_ok in Hx as (? & s1 & Ha & [Hn ->]%mfail_if_ok).
  apply requireApproved_inv in Ha as (-> & ? & ?). apply dec_stable in Hn. done.
Qed.
End Actors.
