(* ===== verification/InvPairing.v ===== *)
(** * The pairing, checkpoint, activation and lifecycle operations keep the invariant *)

From stdpp Require Import base list gmap strings sorting.
From Stdlib Require Import ZArith Lia Strings.Byte.
From S2P Require Import Prelude GoStd Canonical DeviceList DeviceListFacts DeviceListThms Header Request.
From S2P Require Import SyncTypes MemStore MemStoreFacts Slices NonceKeeper Service VaultInv VaultExtend.
From S2P Require Import Actors.
Local Open Scope Z_scope.
Local Open Scope go_scope.

(** ** Rows of one slice *)
Section Rows.
Context `{Crypto} `{MapRange}.
Implicit Types l : DeviceList.

Lemma pairings_ok_subseteq pairs pairs' devs l :
  pairs' ⊆ pairs → pairings_ok pairs devs l → pairings_ok pairs' devs l.
Proof.
  intros Hs [H1 H2 H3 H4 H5].
  assert (∀ k p, pairs' !! k = Some p → pairs !! k = Some p) as Hw by (intros; by eapply lookup_weaken).
  split; eauto. apply map_subseteq_size in Hs. lia.
Qed.

Lemma pairings_ok_replace pairs devs l k p p' :
  pairings_ok pairs devs l → pairs !! k = Some p → p_DeviceID p' = p_DeviceID p →
  p_TokenDeviceID p' = p_TokenDeviceID p → pairing_stage p' →
  pairings_ok (<[k := p']> pairs) devs l.
Proof.
  intros [H1 H2 H3 H4 H5] Hp Hd Ht Hst.
  assert (∀ k0 p0, <[k := p']> pairs !! k0 = Some p0 →
    ∃ p1, pairs !! k0 = Some p1 ∧ p_DeviceID p0 = p_DeviceID p1 ∧ p_TokenDeviceID p0 = p_TokenDeviceID p1) as Hback.
  { intros k0 p0 [[<- <-]|[_ ?]]%lookup_insert_Some; eauto. }
  split.
  - intros k0 p0 (p1 & Hp1 & -> & _)%Hback. eauto.
  - intros k0 p0 [[<- <-]|[_ ?]]%lookup_insert_Some; eauto.
  - intros k1 k2 p1 p2 (q1 & ? & _ & ->)%Hback (q2 & ? & _ & ->)%Hback. eauto.
  - intros k1 k2 p0 d (q & ? & _ & ->)%Hback. eauto.
  - rewrite map_size_insert_Some by eauto. done.
Qed.

Lemma pairings_ok_new pairs devs l k p :
  pairings_ok pairs devs l → l_members l !! p_DeviceID p = None → pairing_stage p →
  (∀ k' q, pairs !! k' = Some q → p_TokenDeviceID q ≠ p_TokenDeviceID p) →
  (∀ k' d, devs !! k' = Some d → d_State d ≠ DeviceRevoked → d_TokenDeviceID d ≠ p_TokenDeviceID p) →
  Z.of_nat (size pairs) < MaxPendingPairings →
  pairings_ok (<[k := p]> pairs) devs l.
Proof.
  intros [H1 H2 H3 H4 H5] Hm Hst Ht Hl Hc. split.
  - intros k0 p0 [[<- <-]|[_ ?]]%lookup_insert_Some; eauto.
  - intros k0 p0 [[<- <-]|[_ ?]]%lookup_insert_Some; eauto.
  - intros k1 k2 p1 p2 [[<- <-]|[_ ?]]%lookup_insert_Some [[<- <-]|[_ ?]]%lookup_insert_Some E;
      [done|by edestruct Ht|by edestruct Ht|eauto].
  - intros k1 k2 p0 d [[<- <-]|[_ ?]]%lookup_insert_Some; eauto.
  - destruct (pairs !! k) eqn:E; [rewrite map_size_insert_Some by eauto|rewrite map_size_insert_None by done]; lia.
Qed.
End Rows.

(** ** Operations *)
Section Ops.
Context `{Crypto} `{MapRange} (cfg : Config) (clk : nat → time).
Implicit Types s : state.

(** A successful run of [m] keeps the invariant and the vaults of everybody but [owner]. *)
Definition preserves {A} (owner : string) (m : M state A) : Prop :=
  ∀ s a s', Inv cfg s → m s = (Ok a, s') → Inv cfg s' ∧ isolated clk owner s s'.

Lemma vault_ok_pairings v sl l f :
  vault_ok cfg v sl l → pairings_ok (f (sl_pairings sl)) (sl_devices sl) l →
  vault_ok cfg v (on_pairings f sl) l.
Proof. intros [? ? ? ? ? ?] ?. by split. Qed.

Lemma Inv_PutPairing id v s p :
  Inv cfg s → st_vaults s !! id = Some v → p_VaultID p = id →
  (∀ l, vault_ok cfg v (slice_of s id) l →
     pairings_ok (<[key [id; p_DeviceID p] := p]> (sl_pairings (slice_of s id)))
       (sl_devices (slice_of s id)) l) →
  let s' := set_pairings (<[key [p_VaultID p; p_DeviceID p] := p]> (st_pairings s)) s in
  Inv cfg s' ∧ isolated clk (v_OwnerKey v) s s'.
Proof.
  intros Hi Hv Hp Hok. destruct (Inv_vault _ _ _ _ Hi Hv) as [l Hl].
  eapply (Inv_effect cfg clk id); [by apply Inv_except_intro| |done|].
  - apply effect_PutPairing; [apply Hi|eauto|done].
  - exists l. apply vault_ok_pairings; [done|]. by apply Hok.
Qed.

Lemma Inv_DeletePairing id v s d :
  Inv cfg s → st_vaults s !! id = Some v →
  let s' := set_pairings (delete (key [id; d]) (st_pairings s)) s in
  Inv cfg s' ∧ isolated clk (v_OwnerKey v) s s'.
Proof.
  intros Hi Hv. destruct (Inv_vault _ _ _ _ Hi Hv) as [l Hl].
  eapply (Inv_effect cfg clk id); [by apply Inv_except_intro| |done|].
  - apply effect_DeletePairing; [apply Hi|eauto].
  - exists l. apply vault_ok_pairings; [done|].
    eapply pairings_ok_subseteq; [apply delete_subseteq|apply Hl].
Qed.

Lemma slice_purge s now id :
  ∃ f, slice_of (tx_PurgeExpired now s).2 id = on_pairings f (slice_of s id) ∧ (∀ m, f m ⊆ m) ∧
    ∀ m k p, m !! k = Some p → f m !! k = Some p ∨ p_ExpiresAt p ≤ now.
Proof.
  exists (filter (λ kv, now < p_ExpiresAt kv.2)). split_and!; [|intros; apply map_filter_subseteq|].
  - unfold slice_of, on_pairings. cbn. f_equal. unfold rows. rewrite !map_filter_filter.
    apply map_filter_ext. naive_solver.
  - intros m k p Hp. destruct (decide (now < p_ExpiresAt p)); [left|right; lia].
    by apply map_lookup_filter_Some.
Qed.

Lemma Inv_PurgeExpired s owner i :
  Inv cfg s → Inv cfg (tx_PurgeExpired (clk i) s).2 ∧ isolated clk owner s (tx_PurgeExpired (clk i) s).2.
Proof.
  intros [[? ? ? ? ? ? ? ? ?] Hi]. split; [split|].
  - split; cbn; try done. eapply owned_subseteq; [apply map_filter_subseteq|done].
  - intros id v Hv. destruct (Hi id v Hv) as [l Hl]. exists l.
    destruct (slice_purge s (clk i) id) as (f & -> & Hf & _). apply vault_ok_pairings; [done|].
    eapply pairings_ok_subseteq; [apply Hf|apply Hl].
  - intros id v Hv _. split; [done|]. destruct (slice_purge s (clk i) id) as (f & -> & Hf & Hx).
    split; cbn [sl_pairings on_pairings]; [done|apply Hf|].
    intros k p Hp. destruct (Hx _ _ _ Hp); [by left|right; eauto].
Qed.

Lemma Inv_DeleteVault s id v :
  Inv cfg s → st_vaults s !! id = Some v →
  Inv cfg (tx_DeleteVault id s).2 ∧ isolated clk (v_OwnerKey v) s (tx_DeleteVault id s).2.
Proof.
  intros [[Hv Ho Hd Hp Hpa Hc He Hh Hx] Hi] Hvid.
  assert (∀ A (vid did : A → string) m, owned vid did (st_vaults s) m →
    owned vid did (delete id (st_vaults s)) (filter (λ kv, vid kv.2 ≠ id) m)) as Hown.
  { intros A vid did m Hm k a [Ha Hne]%map_lookup_filter_Some. cbn in Hne.
    destruct (Hm _ _ Ha). by rewrite lookup_delete_ne. }
  assert (∀ A (m : gmap string A), (∀ i x, m !! i = Some x → is_Some (st_vaults s !! i)) →
    ∀ i x, delete id m !! i = Some x → is_Some (delete id (st_vaults s) !! i)) as Hdel.
  { intros A m Hm i x [Hne Hx']%lookup_delete_Some. rewrite lookup_delete_ne by done. eauto. }
  assert (∀ i, i ≠ id → slice_of (tx_DeleteVault id s).2 i = slice_of s i) as Hsl.
  { intros i Hne. unfold slice_of, entries_of, headers_of, ciphertexts_of. cbn.
    rewrite !lookup_delete_ne by done.
    rewrite (rows_delete_vault d_VaultID), (rows_delete_vault pkg_VaultID),
      (rows_delete_vault p_VaultID), (rows_delete_vault chk_VaultID).
    by rewrite !decide_False by done. }
  split; [split|].
  - split; cbn.
    + intros i w [_ ?]%lookup_delete_Some. eauto.
    + intros a b w1 w2 [_ ?]%lookup_delete_Some [_ ?]%lookup_delete_Some. eauto.
    + by apply Hown.
    + by apply (Hown _ pkg_VaultID).
    + by apply Hown.
    + by apply (Hown _ chk_VaultID).
    + by apply Hdel.
    + by apply Hdel.
    + by apply Hdel.
  - intros i w Hiv. cbn in Hiv. apply lookup_delete_Some in Hiv as [Hne Hiv].
    destruct (Hi _ _ Hiv) as [l Hl]. exists l. by rewrite Hsl.
  - apply isolated_same. intros i w Hw Hwo. assert (i ≠ id) by congruence.
    split; [cbn; by rewrite lookup_delete_ne|by apply Hsl].
Qed.

(** The row an actor's request reaches. *)
Lemma Pairing_at s v d p :
  keyed s → is_Some (st_vaults s !! v) → st_pairings s !! key [v; d] = Some p →
  p_VaultID p = v ∧ p_DeviceID p = d ∧ sl_pairings (slice_of s v) !! key [v; d] = Some p.
Proof.
  intros Hk Hv Hp. pose proof (keyed_nul_free s Hk) as Hn.
  destruct (owned_at p_VaultID p_DeviceID _ v d _ p Hn (Hn _ Hv) (ky_pairings s Hk) Hp) as [E1 E2].
  split_and!; [done|done|]. apply rows_Some. done.
Qed.

Lemma preserves_AnswerPairing caller q d m : preserves (cl_OwnerKey caller) (AnswerPairing_tx clk caller q d m).
Proof.
  intros s u s' Hi Hx. unfold AnswerPairing_tx in Hx.
  called Hx a s1 as Ha. apply signedActor_inv in Ha as (Ha & _ & ->); [|apply Hi].
  set (nn := <[_ := _]> (st_nonces s)) in Hx. clearbody nn.
  called Hx ? s1 as Hr. apply requireActivated_inv in Hr as (-> & _).
  passed Hx as Hm.
  called Hx p s1 as Hp. apply Pairing_inv in Hp as [-> Hp].
  destruct (st_pairings _ !! _) as [p0|] eqn:E; [injection Hp as ->|done].
  passed Hx as Hs. apply updating_inv in Hx as ->.
  apply Decidable.not_or in Hs as [Hs%dec_stable _].
  apply (Inv_nonces _ _ nn) in Hi.
  assert (st_vaults (set_nonces nn s) !! v_ID (a_Vault a) = Some (a_Vault a)) as Hv by apply Ha.
  apply Pairing_at in E as (Epv & Epd & E); [|apply Hi|eauto]. rewrite <- (ac_owner _ _ _ _ Ha).
  apply (Inv_PutPairing (v_ID (a_Vault a)) (a_Vault a) (set_nonces nn s) (set_p_Answer m p0)); [done|done|done|].
  intros l Hl. cbn [set_p_Answer p_DeviceID]. rewrite Epd.
  eapply pairings_ok_replace; [apply Hl|done|done|done|].
  destruct (pa_stage _ _ _ (vo_pairings _ _ _ _ Hl) _ _ E) as [Ho [(? & _ & ?)|[(E' & _)|(E' & _)]]];
    [|by rewrite Hs in E'..]. split; [done|]. right. left. done.
Qed.

Lemma preserves_ConfirmPairing caller q m : preserves (cl_OwnerKey caller) (ConfirmPairing_tx clk caller q m).
Proof.
  intros s u s' Hi Hx. unfold ConfirmPairing_tx in Hx.
  called Hx a s1 as Ha. apply signedActor_inv in Ha as (Ha & _ & ->); [|apply Hi].
  set (nn := <[_ := _]> (st_nonces s)) in Hx. clearbody nn.
  destruct (a_Pairing a) as [p|] eqn:Ep; [|done].
  passed Hx as Hm.
  passed Hx as Hs%dec_stable.
  apply updating_inv in Hx as ->. apply (Inv_nonces _ _ nn) in Hi.
  assert (st_vaults (set_nonces nn s) !! v_ID (a_Vault a) = Some (a_Vault a)) as Hv by apply Ha.
  pose proof (ac_row _ _ _ _ Ha) as Hrow. rewrite Ep in Hrow. destruct Hrow as (Hrow & _).
  apply rows_Some in Hrow as Hpv. destruct Hpv as [_ Hpv]. rewrite <- (ac_owner _ _ _ _ Ha).
  apply (Inv_PutPairing (v_ID (a_Vault a)) (a_Vault a) (set_nonces nn s) (set_p_Confirm m p)); [done|done|done|].
  intros l Hl. eapply pairings_ok_replace; [apply Hl|exact Hrow|done|done|].
  destruct (pa_stage _ _ _ (vo_pairings _ _ _ _ Hl) _ _ Hrow) as [Ho [(E' & _)|[(? & ? & _)|(E' & _)]]];
    [by rewrite Hs in E'| |by rewrite Hs in E']. split; [done|]. right. right. done.
Qed.

Lemma preserves_CancelPairing caller q d : preserves (cl_OwnerKey caller) (CancelPairing_tx clk caller q d).
Proof.
  intros s u s' Hi Hx. unfold CancelPairing_tx in Hx.
  called Hx a s1 as Ha. apply signedActor_inv in Ha as (Ha & _ & ->); [|apply Hi].
  set (nn := <[_ := _]> (st_nonces s)) in Hx. clearbody nn. apply (Inv_nonces _ _ nn) in Hi.
  assert (st_vaults (set_nonces nn s) !! v_ID (a_Vault a) = Some (a_Vault a)) as Hv by apply Ha.
  rewrite <- (ac_owner _ _ _ _ Ha). destruct (a_Pairing a) as [p|] eqn:Ep.
  - apply updating_inv in Hx as ->. by apply (Inv_DeletePairing (v_ID (a_Vault a)) (a_Vault a) (set_nonces nn s)).
  - called Hx ? s1 as Hr. apply requireApproved_inv in Hr as (-> & _).
    apply updating_inv in Hx as ->. by apply (Inv_DeletePairing (v_ID (a_Vault a)) (a_Vault a) (set_nonces nn s)).
Qed.

Lemma preserves_Reset caller q input : preserves (cl_OwnerKey caller) (Reset_tx clk caller q input).
Proof.
  intros s u s' Hi Hx. unfold Reset_tx in Hx.
  called Hx a s1 as Ha. apply signedActor_inv in Ha as (Ha & _ & ->); [|apply Hi].
  called Hx ? s1 as Hr. apply requireApproved_inv in Hr as (-> & _).
  passed Hx as Hm.
  injection Hx as _ <-. rewrite <- (ac_owner _ _ _ _ Ha).
  apply (Inv_DeleteVault (set_nonces _ s)); [by apply Inv_nonces|apply Ha].
Qed.

Lemma preserves_AdminReset o : preserves o (AdminReset_tx o).
Proof.
  intros s u s' Hi Hx. unfold AdminReset_tx in Hx.
  called Hx v s1 as Hv. apply VaultByOwner_inv in Hv as [-> (<- & id & Hv)].
  destruct (ky_vault s (proj1 Hi) _ _ Hv) as [<- _]. injection Hx as _ <-. by apply (Inv_DeleteVault s).
Qed.

Lemma preserves_Maintain owner : preserves owner (Maintain_tx clk).
Proof. intros s u s' Hi Hx. injection Hx as _ <-. by apply (Inv_PurgeExpired s owner 0%nat). Qed.

Lemma preserves_PutCheckpoint caller q c : preserves (cl_OwnerKey caller) (PutCheckpoint_tx clk caller q c).
Proof.
  intros s u s' Hi Hx. unfold PutCheckpoint_tx in Hx.
  called Hx a s1 as Ha. apply signedActor_inv in Ha as (Ha & _ & ->); [|apply Hi].
  set (nn := <[_ := _]> (st_nonces s)) in Hx. clearbody nn. apply (Inv_nonces _ _ nn) in Hi.
  called Hx ? s1 as Hr. apply requireActivated_inv in Hr as (-> & Hp & Hst & _).
  passed Hx as Hm.
  apply Decidable.not_or in Hm as [Hcv%dec_stable Hcd%dec_stable].
  lifted Hx [] as Hver%wrap_ok.
  passed Hx as _.
  called Hx r s1 as Hr. apply (proj1 (mtry_ok _ _ _ _)) in Hr.
  apply Checkpoint_inv in Hr as [-> _].
  called Hx ? s1 as Hs1.
  assert (s1 = set_nonces nn s) as ->.
  { destruct r as [c'|e]; [by apply mfail_if_ok in Hs1 as [_ ->]|].
    destruct (is_error e ErrNotFound); [by apply mreturn_ok in Hs1 as [_ ->]|by apply mfail_ok in Hs1]. }
  called Hx ? s1 as Hput. apply mreturn_ok in Hx as [-> ->].
  apply updating_inv in Hput as ->.
  destruct (Inv_vault _ _ _ _ Hi (ac_vault _ _ _ _ Ha)) as [l Hl].
  pose proof (ac_row _ _ _ _ Ha) as Hrow. rewrite Hp in Hrow.
  rewrite <- (ac_owner _ _ _ _ Ha).
  eapply (Inv_effect cfg clk (v_ID (a_Vault a)) _ (on_checkpoints _) (a_Vault a) (set_nonces nn s)).
  - apply Inv_except_intro, Hi.
  - apply (effect_PutCheckpoint (v_ID (a_Vault a)) (set_nonces nn s)
      {| sc_Checkpoint := c; sc_AcceptedAt := clk 5%nat |}); [apply Hi|eexists; apply Ha|done].
  - apply Ha.
  - exists l. destruct Hl as [? Hd ? ? Hc ?]. split; try done. cbn [sl_checkpoints on_checkpoints].
    intros k c' [[<- <-]|[_ Hx]]%lookup_insert_Some; [|by eapply Hc].
    destruct (do_member _ _ _ Hd _ _ Hrow) as [m Hm]. exists m. unfold chk_DeviceID. cbn.
    rewrite Hcd. split; [split; [apply Hm|by eapply device_matches_approved]|].
    by rewrite <- (dm_signing _ _ _ Hm).
Qed.

Lemma preserves_Activate caller q input : preserves (cl_OwnerKey caller) (Activate_tx clk caller q input).
Proof.
  intros s u s' Hi Hx. unfold Activate_tx in Hx.
  called Hx a s1 as Ha. apply signedActor_inv in Ha as (Ha & _ & ->); [|apply Hi].
  set (nn := <[_ := _]> (st_nonces s)) in Hx. clearbody nn. apply (Inv_nonces _ _ nn) in Hi.
  called Hx ? s1 as Hr. apply requireApproved_inv in Hr as (-> & Hp & Hst).
  called Hx p s1 as Hpk. apply KeyPackage_inv in Hpk as [-> _].
  passed Hx as _.
  apply PutDevice_inv in Hx as [_ ->].
  destruct (Inv_vault _ _ _ _ Hi (ac_vault _ _ _ _ Ha)) as [l Hl].
  pose proof (ac_row _ _ _ _ Ha) as Hrow. rewrite Hp in Hrow.
  set (d := a_Device a) in *. set (id := v_ID (a_Vault a)) in *.
  assert (d_VaultID d = id) as Hdv by (by apply rows_Some in Hrow as [_ ?]).
  rewrite <- (ac_owner _ _ _ _ Ha).
  eapply (Inv_effect cfg clk id _ (on_devices _) (a_Vault a) (set_nonces nn s)).
  - apply Inv_except_intro, Hi.
  - apply (effect_PutDevice id (set_nonces nn s) (set_d_ActivatedEpoch (v_Epoch (a_Vault a)) d));
      [apply Hi|eexists; apply Ha|done].
  - apply Ha.
  - exists l. destruct Hl as [Hlo [Hd1 Hd2 Hd3] [Hk1 Hk2] [? ? ? Hpl ?] ? ?].
    assert (Epoch l = v_Epoch (a_Vault a)) as He by (symmetry; apply Hlo).
    assert (1 ≤ Epoch l) as He1.
    { apply Epoch_range; [by eapply VerifyDeviceList_wf, Hlo|by eapply list_ok_nonempty]. }
    assert (∀ k d', <[key [id; d_DeviceID d] := set_d_ActivatedEpoch (v_Epoch (a_Vault a)) d]>
        (sl_devices (slice_of s id)) !! k = Some d' → ∃ d0, sl_devices (slice_of s id) !! k = Some d0 ∧
        d_State d' = d_State d0 ∧ d_TokenDeviceID d' = d_TokenDeviceID d0) as Hback.
    { intros k d' [[<- <-]|[_ ?]]%lookup_insert_Some; eauto. }
    split; try done; cbn [sl_devices on_devices sl_packages sl_pairings].
    + split.
      * intros k d' [[<- <-]|[_ Hx]]%lookup_insert_Some; [|eauto].
        destruct (Hd1 _ _ Hrow) as [m Hm]. exists m. apply device_matches_epoch; [done|lia].
      * intros did m Hm. rewrite lookup_insert_is_Some'. right. eauto.
      * intros k1 k2 d1 d2 (? & ? & -> & ->)%Hback (? & ? & -> & ->)%Hback. eauto.
    + split; [done|]. intros k d' [[<- <-]|[_ Hx]]%lookup_insert_Some; [left; by rewrite He|eauto].
    + split; try done. intros k1 k2 p0 d' Hp0 (? & ? & -> & ->)%Hback. eauto.
Qed.
End Ops.
