(* ===== verification/InvCreate.v ===== *)
(** * Creating a vault and offering to pair keep the invariant *)

From stdpp Require Import base list gmap strings sorting.
From Stdlib Require Import ZArith Lia Strings.Byte.
From S2P Require Import Prelude GoStd Canonical DeviceList DeviceListFacts DeviceListThms Header Request.
From S2P Require Import SyncTypes MemStore MemStoreFacts Slices NonceKeeper Service VaultInv VaultExtend.
From S2P Require Import Actors InvPairing.
Local Open Scope Z_scope.
Local Open Scope go_scope.

Definition empty_slice : slice :=
  {| sl_entries := []; sl_devices := ∅; sl_packages := ∅; sl_headers := ∅; sl_ciphertexts := ∅;
     sl_pairings := ∅; sl_checkpoints := ∅ |}.

Section Create.
Context `{Crypto} `{MapRange} (cfg : Config) (clk : nat → time) (Hcfg : cfg_ok cfg).
Implicit Types s : state.

(** A vault that does not exist owns nothing. *)
Lemma slice_absent s id : keyed s → st_vaults s !! id = None → slice_of s id = empty_slice.
Proof.
  intros [? ? Hd Hp Hpa Hc He Hh Hx] Hn. unfold slice_of, empty_slice, entries_of, headers_of, ciphertexts_of.
  rewrite (rows_empty _ _ _ _ _ Hd Hn), (rows_empty _ _ _ _ _ Hp Hn), (rows_empty _ _ _ _ _ Hpa Hn),
    (rows_empty _ _ _ _ _ Hc Hn).
  destruct (st_entries s !! id) eqn:E1; [destruct (He _ _ E1); congruence|].
  destruct (st_headers s !! id) eqn:E2; [destruct (Hh _ _ E2); congruence|].
  destruct (st_ciphertexts s !! id) eqn:E3; [destruct (Hx _ _ E3); congruence|]. done.
Qed.

Lemma Inv_InsertVault s v :
  Inv cfg s → opaqueID (v_ID v) = true → st_vaults s !! v_ID v = None →
  (∀ i w, st_vaults s !! i = Some w → v_OwnerKey w ≠ v_OwnerKey v) →
  Inv_except cfg (v_ID v) (set_vaults (<[v_ID v := v]> (st_vaults s)) s).
Proof.
  intros [[Hv Ho Hd Hp Hpa Hc He Hh Hx] Hi] Hid Hn Hown.
  assert (∀ i, is_Some (st_vaults s !! i) → is_Some (<[v_ID v := v]> (st_vaults s) !! i)) as Hmono.
  { intros i Hs. rewrite lookup_insert_is_Some'. by right. }
  split.
  - split; cbn; eauto using owned_mono.
    + intros i w [[<- <-]|[_ Hw]]%lookup_insert_Some; eauto.
    + intros a b w1 w2 [[<- <-]|[_ H1]]%lookup_insert_Some [[<- <-]|[_ H2]]%lookup_insert_Some E;
        [done|by edestruct Hown|by edestruct Hown|eauto].
  - intros i w Hne Hw. cbn in Hw. rewrite lookup_insert_ne in Hw by done. by apply Hi.
Qed.

(** The list of one entry. *)
Lemma first_list e l :
  VerifyDeviceList [e] = Ok l →
  entry_valid e ∧ e_Kind e = EntryCreate ∧ l_vaultID l = e_VaultID e ∧ Epoch l = 1 ∧ list_length l = 1 ∧
  l_members l = {[e_SubjectDeviceID e := memberFromEntry e]} ∧ e_Index e = 1.
Proof.
  intros Hl. unfold VerifyDeviceList in Hl. cbn in Hl. apply rbind_ok in Hl as (l1 & Hx & [= ->]).
  destruct (Extend_step NewDeviceList e l) as (Hv & _ & Hi & Hst); [done|done|].
  pose proof (list_step_epoch _ _ _ Hst). pose proof (list_step_length _ _ _ Hst).
  destruct Hst as [Hnil _ Hk _ He _ _|? Hf|? ? Hf|? ? Hf|? Hf];
    [|by destruct (fo_signer _ _ _ Hf) as [? _]..].
  split_and!; [done|done|done|congruence|done|done|done].
Qed.

Lemma history_ok_empty l : history_ok cfg 0 ∅ ∅ l.
Proof.
  destruct Hcfg as [? ? ?]. split; try done.
  - intros r. rewrite lookup_empty, is_Some_alt. unfold first_kept. split; [done|lia].
  - unfold total_bytes. rewrite map_to_list_empty. cbn. lia.
Qed.

(** The slice of a vault that was just created. *)
Definition created (e : DeviceListEntry) (d : Device) : slice :=
  on_devices (λ m, <[key [e_VaultID e; d_DeviceID d] := d]> m) (on_entries (λ es, es ++ [e]) empty_slice).

Lemma vault_ok_created e l v d :
  VerifyDeviceList [e] = Ok l → v_ID v = e_VaultID e → v_CurrentRevision v = 0 → v_HeadIndex v = 1 →
  v_Epoch v = Epoch l → d_DeviceID d = e_SubjectDeviceID e → d_SigningKey d = e_SubjectSigningKey e →
  d_PackageKey d = e_SubjectPackageKey e → d_State d = DeviceApproved → d_AddedIndex d = 1 →
  d_ActivatedEpoch d = Epoch l → vault_ok cfg v (created e d) l.
Proof.
  intros Hl Hid Hrev Hhead Hep Hd Hsk Hpk Hst Hadd Hact.
  destruct (first_list _ _ Hl) as (Hv & Hk & Hvid & He & Hlen & Hm & Hidx).
  unfold created. rewrite Hd.
  set (k := key [e_VaultID e; e_SubjectDeviceID e]).
  split; cbn [sl_entries sl_devices sl_packages sl_headers sl_ciphertexts sl_pairings sl_checkpoints
              on_devices on_entries empty_slice app].
  - split; [done|done|congruence|congruence|done].
  - split.
    + intros k' d' [<- <-]%lookup_singleton_Some. exists (memberFromEntry e).
      split; [by rewrite Hd, Hm, lookup_singleton_eq|done|done|cbn; congruence|done|lia].
    + intros did m. rewrite Hm. intros [<- <-]%lookup_singleton_Some. rewrite Hid.
      rewrite insert_empty, lookup_singleton_eq. eauto.
    + intros k1 k2 d1 d2 [<- <-]%lookup_singleton_Some [<- <-]%lookup_singleton_Some. done.
  - split; [done|]. intros k' d' [<- <-]%lookup_singleton_Some _. by left.
  - by split.
  - done.
  - rewrite Hrev. apply history_ok_empty.
Qed.

Lemma preserves_CreateVault caller q input : preserves cfg clk (cl_OwnerKey caller) (CreateVault_tx clk caller q input).
Proof.
  intros s u s' Hi Hx. unfold CreateVault_tx in Hx. set (e := cvi_Entry input) in *.
  passed Hx as Hanon. called Hx ? s1 as Habs.
  apply expect_absent_ok in Habs as (e' & Habs & _). apply VaultByOwner_inv in Habs as [-> _].
  lifted Hx l as Hl%wrap_ok. called Hx ? s1 as Hreq. apply verifyRequest_inv in Hreq as (_ & -> & _).
  set (nn := <[_ := _]> (st_nonces s)) in Hx. clearbody nn. apply (Inv_nonces _ _ nn) in Hi.
  destruct (first_list _ _ Hl) as (Hv & _ & _ & _ & _ & _ & _).
  called Hx ? s2 as Hins. apply InsertVault_inv in Hins as (Hnone & Hown & ->).
  set (v := {| v_ID := _ |}) in *. cbn [v_ID v] in Hnone.
  assert (slice_of (set_vaults (<[v_ID v := v]> (st_vaults (set_nonces nn s))) (set_nonces nn s)) (e_VaultID e)
          = empty_slice) as Hsl.
  { change (slice_of _ (e_VaultID e)) with (slice_of (set_nonces nn s) (e_VaultID e)).
    apply slice_absent; [apply Hi|done]. }
  assert (isolated clk (cl_OwnerKey caller) s
            (set_vaults (<[v_ID v := v]> (st_vaults (set_nonces nn s))) (set_nonces nn s))) as Hiso.
  { apply isolated_same. intros i w Hw _. split; [|done]. cbn in *. rewrite lookup_insert_ne; [done|]. congruence. }
  apply (Inv_InsertVault _ v) in Hi; [|apply Hv|done|done].
  set (s2 := set_vaults _ _) in *.
  assert (st_vaults s2 !! e_VaultID e = Some v) as Hv2 by apply lookup_insert_eq.
  clearbody s2. called Hx ? s3 as Happ. apply AppendDeviceListEntry_inv in Happ as ->.
  called Hx ? s3 as Hput. apply PutDevice_inv in Hput as [_ ->]. apply mreturn_ok in Hx as [-> ->].
  pose proof (effect_AppendDeviceListEntry (e_VaultID e) s2 e (proj1 Hi) ltac:(eauto) eq_refl) as E1.
  set (s3 := set_entries _ s2) in *. clearbody s3.
  assert (is_Some (st_vaults s3 !! e_VaultID e)) as Hv3.
  { rewrite (effect_vault _ _ _ _ _ _ E1 Hv2). eauto. }
  match goal with |- context [set_devices (<[key [d_VaultID ?d; _] := _]> _)] =>
    pose proof (effect_PutDevice (e_VaultID e) s3 d (proj1 E1) Hv3 eq_refl) as E2; set (dd := d) in * end.
  pose proof (effect_trans _ _ _ _ _ _ _ _ E1 E2) as E3.
  edestruct (Inv_effect cfg clk (e_VaultID e)) as [Hinv Hiso2]; [exact Hi|exact E3|exact Hv2| |].
  - exists l. cbv beta. rewrite Hsl. by apply (vault_ok_created e l v dd).
  - split; [exact Hinv|]. by eapply isolated_trans.
Qed.

(** ** Offering to pair *)
Lemma device_ids s id v :
  Inv cfg s → st_vaults s !! id = Some v →
  ∀ k d, st_devices s !! k = Some d → d_VaultID d = id → d_DeviceID d ≠ "".
Proof.
  intros Hi Hv k d Hd E Hid. destruct (Inv_device _ _ _ _ Hi Hd) as (v' & l & Hv' & Hl & Hrow).
  destruct (do_member _ _ _ (vo_devices _ _ _ _ Hl) _ _ Hrow) as [m Hm].
  pose proof (VerifyDeviceList_wf _ _ (lo_verified _ _ _ (vo_list _ _ _ _ Hl))) as Hw.
  pose proof (mw_opaque _ _ _ (lw_members l Hw _ _ (dm_member _ _ _ Hm))) as Ho.
  by rewrite Hid in Ho.
Qed.

(** The pairings that are left when the caller's own previous one is gone. *)
Lemma no_pairing_left s id v t r s1 u s2 :
  Inv cfg s → st_vaults s !! id = Some v →
  tx_PairingByToken id t s = (r, s1) →
  match r with
  | Ok p => tx_DeletePairing id (p_DeviceID p)
  | Err e => if is_error e ErrNotFound then mreturn tt else mfail e
  end s1 = (Ok u, s2) →
  Inv cfg s2 ∧ isolated clk (v_OwnerKey v) s s2 ∧ st_vaults s2 = st_vaults s ∧ st_devices s2 = st_devices s ∧
  ∀ k p, sl_pairings (slice_of s2 id) !! k = Some p → p_TokenDeviceID p ≠ t.
Proof.
  intros Hi Hv Hr Hd. apply PairingByToken_inv in Hr as [-> Hr]. destruct r as [p|e].
  - apply updating_inv in Hd as ->. destruct Hr as (Hpv & Ht & k & Hk).
    split_and!; [by eapply (Inv_DeletePairing cfg clk)|by eapply (Inv_DeletePairing cfg clk)|done|done|].
    intros k' p' Hp' Ht'. destruct (Inv_vault _ _ _ _ Hi Hv) as [l Hl].
    pose proof (effect_DeletePairing id s (p_DeviceID p) (proj1 Hi) ltac:(eauto)) as (_ & _ & _ & Hs).
    rewrite Hs in Hp'. cbn [sl_pairings on_pairings] in Hp'. apply lookup_delete_Some in Hp' as [Hne Hp'].
    apply Hne. apply (pa_token _ _ _ (vo_pairings _ _ _ _ Hl) _ _ p p'); [|exact Hp'|congruence].
    by eapply pairing_row; [apply Hi|..].
  - destruct Hr as [-> Hr]. cbn in Hd. apply mreturn_ok in Hd as [_ ->].
    split_and!; [done|by apply isolated_same|done|done|]. intros k p [Hp Hpv]%rows_Some Ht. by eapply Hr.
Qed.

Lemma preserves_BeginPairing caller q offer : preserves cfg clk (cl_OwnerKey caller) (BeginPairing_tx clk caller q offer).
Proof.
  intros s u s' Hi Hx. unfold BeginPairing_tx in Hx. passed Hx as _.
  called Hx v s1 as Hv%not_found_as_ok. apply VaultByOwner_inv in Hv as [-> (<- & id & Hv)].
  destruct (ky_vault s (proj1 Hi) _ _ Hv) as [<- _].
  passed Hx as Hmsg. lifted Hx [] as Hprobe. called Hx ? s1 as Hreq.
  apply verifyRequest_inv in Hreq as (_ & -> & _).
  set (nn := <[_ := _]> (st_nonces s)) in Hx. clearbody nn. apply (Inv_nonces _ _ nn) in Hi.
  set (s1 := set_nonces nn s) in *. assert (st_vaults s1 !! v_ID v = Some v) as Hv1 by done. assert (isolated clk (v_OwnerKey v) s s1) as Hiso1 by (by apply isolated_same). clearbody s1. clear Hv.
  called Hx r s2 as Hr. apply (proj1 (mtry_ok _ _ _ _)) in Hr.
  pose proof (DeviceByToken_inv _ _ _ _ _ Hr) as [-> _]. called Hx ? s3 as Hlive.
  assert (s3 = s1 ∧ ∀ d, r = Ok d → d_State d = DeviceRevoked) as [-> Hrev].
  { destruct r as [d|e]; [apply mfail_if_ok in Hlive as [Hd%dec_stable ->]; naive_solver|].
    destruct (is_error e ErrNotFound); [by apply mreturn_ok in Hlive as [_ ->]|by apply mfail_ok in Hlive]. }
  pose proof (DeviceByToken_revoked _ _ _ _ _ Hr (device_ids _ _ _ Hi Hv1) Hrev) as Hall.
  called Hx ? s3 as Habs. apply expect_absent_ok in Habs as (e' & Habs & _).
  apply Device_inv in Habs as [-> Habs].
  destruct (st_devices s1 !! key [v_ID v; po_DeviceID offer]) eqn:Edev; [done|]. clear Habs.
  called Hx rp s3 as Hrp. apply (proj1 (mtry_ok _ _ _ _)) in Hrp. called Hx ? s4 as Hdel.
  destruct (no_pairing_left _ _ _ _ _ _ _ _ Hi Hv1 Hrp Hdel) as (Hi4 & Hiso4 & Hv4 & Hd4 & Htok).
  called Hx ? s5 as Hpurge. apply (Inv_PurgeExpired cfg clk _ (v_OwnerKey v) 4%nat) in Hi4 as [Hi4 Hiso5].
  assert (s5 = (tx_PurgeExpired (clk 4%nat) s4).2) as -> by (by injection Hpurge).
  destruct (slice_purge s4 (clk 4%nat) (v_ID v)) as (f & Hsl5 & Hf & _).
  set (s5 := (tx_PurgeExpired _ s4).2) in *.
  assert (st_vaults s5 !! v_ID v = Some v) as Hv5 by (unfold s5; cbn; by rewrite Hv4).
  assert (st_devices s5 = st_devices s1) as Hd5 by (unfold s5; cbn; done). clearbody s5.
  called Hx ps s6 as Hps. apply Pairings_inv in Hps as [-> (ps' & [= <-] & Hperm)].
  passed Hx as Hcount. apply updating_inv in Hx as ->.
  rewrite (Permutation_length Hperm), (length_rows p_VaultID) in Hcount.
  match goal with |- context [set_pairings (<[key [p_VaultID ?p; _] := _]> _)] =>
    enough (Inv cfg (set_pairings (<[key [p_VaultID p; p_DeviceID p] := p]> (st_pairings s5)) s5) ∧
      isolated clk (v_OwnerKey v) s5 (set_pairings (<[key [p_VaultID p; p_DeviceID p] := p]> (st_pairings s5)) s5))
      as [? Hiso6] by (split; [done|];
        exact (isolated_trans _ _ _ _ _ Hiso1 (isolated_trans _ _ _ _ _ Hiso4 (isolated_trans _ _ _ _ _ Hiso5 Hiso6))))
  end.
  apply (Inv_PutPairing cfg clk (v_ID v) v); [done|done|done|]. intros l Hl. cbn [p_DeviceID].
  assert (sl_devices (slice_of s5 (v_ID v)) = rows d_VaultID (v_ID v) (st_devices s1)) as Hdv
    by (cbn; by rewrite Hd5).
  apply pairings_ok_new; cbn [p_DeviceID p_TokenDeviceID].
  - apply Hl.
  - destruct (l_members l !! po_DeviceID offer) as [m|] eqn:Em; [|done].
    destruct (do_device _ _ _ (vo_devices _ _ _ _ Hl) _ _ Em) as [d Hd].
    rewrite Hdv in Hd. apply rows_Some in Hd as [Hd _]. congruence.
  - split; [done|]. by left.
  - intros k p Hp. rewrite Hsl5 in Hp. cbn [sl_pairings on_pairings] in Hp.
    eapply Htok. eapply lookup_weaken; [exact Hp|apply Hf].
  - intros k d Hd Hst Ht. rewrite Hdv in Hd. apply rows_Some in Hd as [Hd Hdv']. by eapply Hst, Hall.
  - unfold MaxPendingPairings in *. change (sl_pairings (slice_of s5 (v_ID v))) with (rows p_VaultID (v_ID v) (st_pairings s5)). lia.
Qed.
End Create.
