(* ===== verification/InvApprove.v ===== *)
(** * Approving a device and upgrading a package key keep the invariant *)

From stdpp Require Import base list gmap strings sorting.
From Stdlib Require Import ZArith Lia Strings.Byte.
From S2P Require Import Prelude GoStd Canonical DeviceList DeviceListFacts DeviceListThms Header Request.
From S2P Require Import SyncTypes MemStore MemStoreFacts Slices NonceKeeper Service VaultInv VaultExtend.
From S2P Require Import LoadList Actors InvPairing.
Local Open Scope Z_scope.
Local Open Scope go_scope.

Section Pure.
Context `{Crypto} `{MapRange} (cfg : Config).
Implicit Types l : DeviceList.

Lemma current_extend v es l e l' id m :
  extends v es l e l' → current_member l id m →
  ¬ (e_Kind e = EntryRemove ∧ id = e_SubjectDeviceID e) → ∃ m', current_member l' id m'.
Proof.
  intros Hx [Hm Hr] Hn.
  destruct (list_step_old l e l' _ m (ex_wf _ _ _ _ _ Hx) (ex_step _ _ _ _ _ Hx) Hm)
    as (m' & ? & _ & _ & Hrem & _).
  rewrite decide_False in Hrem by done. exists m'. split; congruence.
Qed.

Lemma fresh_extend v es l e l' id :
  extends v es l e l' → l_members l !! id = None →
  l_members l' !! id = (if decide (e_Kind e = EntryAdd ∧ id = e_SubjectDeviceID e)
                        then Some (memberFromEntry e) else None).
Proof.
  intros Hx Hn. eapply list_step_fresh; [apply Hx| |apply Hx|done].
  by eapply list_ok_nonempty, (ex_ok _ _ _ _ _ Hx).
Qed.

Lemma extends_same_epoch v es l e l' :
  extends v es l e l' → e_Kind e = EntryAdd ∨ e_Kind e = EntryKey → Epoch l' = Epoch l ∧ v_Epoch v = Epoch l'.
Proof.
  intros Hx Hk. rewrite (lo_epoch _ _ _ (ex_ok _ _ _ _ _ Hx)).
  rewrite (list_step_epoch_rule l e l') by apply Hx. rewrite decide_True by done. lia.
Qed.

(** A vault whose list grew, for the parts that do not mention the entry's subject. *)
Lemma extends_add v es l e l' :
  extends v es l e l' → e_Kind e = EntryAdd → l_members l !! e_SubjectDeviceID e = None.
Proof.
  intros Hx Hk. destruct (ex_step _ _ _ _ _ Hx) as [_ _ Hk'|? ? Hk'|? ? ? Hk'|? ? ? Hk'|? ? Hk'];
    rewrite Hk in Hk'; try done.
Qed.

Definition approved (id : string) (e : DeviceListEntry) (d : Device) (p : KeyPackage) (sl : slice) : slice :=
  let k := key [id; e_SubjectDeviceID e] in
  on_pairings (delete k) (on_packages <[k := p]> (on_devices <[k := d]> (on_entries (λ es, es ++ [e]) sl))).

Lemma devices_ok_approved v id es devs l e l' d :
  extends v es l e l' → e_Kind e = EntryAdd → devices_ok id devs l →
  d_DeviceID d = e_SubjectDeviceID e → d_SigningKey d = e_SubjectSigningKey e →
  d_PackageKey d = e_SubjectPackageKey e → d_State d = DeviceApproved → d_AddedIndex d = e_Index e →
  d_ActivatedEpoch d = 0 →
  (∀ k d', devs !! k = Some d' → d_State d' ≠ DeviceRevoked → d_TokenDeviceID d' ≠ d_TokenDeviceID d) →
  devices_ok id (<[key [id; e_SubjectDeviceID e] := d]> devs) l'.
Proof.
  intros Hx Hk [Hd1 Hd2 Hd3] Hid Hsk Hpk Hst Hadd Hact Htok.
  pose proof (extends_add _ _ _ _ _ Hx Hk) as Hnew.
  pose proof (fresh_extend _ _ _ _ _ _ Hx Hnew) as Hm. rewrite decide_True in Hm by done.
  assert (1 ≤ Epoch l) as He1.
  { apply Epoch_range; [apply Hx|]. by eapply list_ok_nonempty, (ex_ok _ _ _ _ _ Hx). }
  pose proof (extends_epoch _ _ _ _ _ Hx). split.
  - intros k d' [[<- <-]|[_ Hd]]%lookup_insert_Some.
    + exists (memberFromEntry e). split; try done; [by rewrite Hid|lia].
    + destruct (Hd1 _ _ Hd) as [m Hmm]. eapply device_matches_extend; [done|done|..];
        intros [E _]; by rewrite Hk in E.
  - intros did m Hdm. rewrite lookup_insert_is_Some'.
    destruct (l_members l !! did) as [m0|] eqn:E0; [right; eauto|].
    rewrite (fresh_extend _ _ _ _ _ _ Hx E0) in Hdm. case_decide as Hc; [|done]. left. by destruct Hc as [_ ->].
  - intros k1 k2 d1 d2 [[<- <-]|[_ ?]]%lookup_insert_Some [[<- <-]|[_ ?]]%lookup_insert_Some ? ? E;
      [done|by edestruct Htok|by edestruct Htok|eauto].
Qed.

Lemma vault_ok_approved v sl l e l' now d p pr :
  let id := v_ID v in
  slice_keyed id sl → vault_ok cfg v sl l → extends v (sl_entries sl) l e l' → e_Kind e = EntryAdd →
  d_DeviceID d = e_SubjectDeviceID e → d_SigningKey d = e_SubjectSigningKey e →
  d_PackageKey d = e_SubjectPackageKey e → d_State d = DeviceApproved → d_AddedIndex d = e_Index e →
  d_ActivatedEpoch d = 0 → d_TokenDeviceID d = p_TokenDeviceID pr →
  sl_pairings sl !! key [id; e_SubjectDeviceID e] = Some pr →
  k_VaultEpoch (kp_Package p) = v_Epoch v → pkg_DeviceID p = e_SubjectDeviceID e →
  vault_ok cfg (set_v_list (e_Index e) (v_Epoch v) now v) (approved id e d p sl) l'.
Proof.
  intros id Hsk [Hlo Hd [Hk1 Hk2] Hpa Hc Hh] Hx Hk Hid Hks Hkp Hst Hadd Hact Htok Hpr Hpe Hpd.
  destruct (extends_same_epoch _ _ _ _ _ Hx (or_introl Hk)) as [He Hve].
  destruct Hpa as [Hp1 Hp2 Hp3 Hp4 Hp5].
  assert (∀ i, ¬ (e_Kind e = EntryRemove ∧ i = e_SubjectDeviceID e)) as Hnr by (intros i [E _]; by rewrite Hk in E).
  pose proof (extends_add _ _ _ _ _ Hx Hk) as Hnew.
  pose proof (fresh_extend _ _ _ _ _ _ Hx Hnew) as Hm. rewrite decide_True in Hm by done.
  unfold approved.
  split; cbn [v_ID set_v_list v_CurrentRevision sl_entries sl_devices sl_packages sl_headers sl_ciphertexts sl_pairings
              sl_checkpoints on_devices on_entries on_packages on_pairings].
  - rewrite Hve. by eapply list_ok_extend.
  - eapply devices_ok_approved; try done. intros k d' Hd' Hl. rewrite Htok. eauto.
  - split.
    + intros k p' [[<- <-]|[_ Hp']]%lookup_insert_Some.
      * rewrite Hpe, Hpd. split; [done|]. by exists (memberFromEntry e).
      * destruct (Hk1 _ _ Hp') as [Hpep [m Hpm]]. rewrite He. split; [done|]. by eapply current_extend.
    + intros k d' [[<- <-]|[Hne Hd']]%lookup_insert_Some Hap.
      * right. rewrite lookup_insert_eq. eauto.
      * rewrite He, lookup_insert_ne by done. eauto.
  - split.
    + intros k p' [Hne Hp']%lookup_delete_Some. rewrite (fresh_extend _ _ _ _ _ _ Hx (Hp1 _ _ Hp')).
      rewrite decide_False; [done|]. intros [_ E]. apply Hne.
      destruct (sk_pairings _ _ Hsk _ _ Hp') as [-> _]. by rewrite E.
    + intros k p' [_ Hp']%lookup_delete_Some. eauto.
    + intros k1 k2 p1 p2 [_ ?]%lookup_delete_Some [_ ?]%lookup_delete_Some. eauto.
    + intros k1 k2 p' d' [Hne Hp']%lookup_delete_Some [[<- <-]|[_ Hd']]%lookup_insert_Some Hl; [|eauto].
      rewrite Htok. intros E. apply Hne. eapply Hp3; eauto.
    + pose proof (map_size_delete_le (key [id; e_SubjectDeviceID e]) (sl_pairings sl)). lia.
  - eapply checkpoints_ok_extend; [done| |done]. intros k c _. apply Hnr.
  - by eapply history_ok_extend.
Qed.

(** The row of the device that changes its own package key. *)
Lemma vault_ok_upgraded v sl l e l' now d :
  let id := v_ID v in
  slice_keyed id sl → vault_ok cfg v sl l → extends v (sl_entries sl) l e l' → e_Kind e = EntryKey →
  d_DeviceID d = e_SignerDeviceID e → sl_devices sl !! key [id; d_DeviceID d] = Some d →
  vault_ok cfg (set_v_list (e_Index e) (v_Epoch v) now v)
    (on_devices <[key [id; d_DeviceID d] := set_d_PackageKey (e_SubjectPackageKey e) d]>
       (on_entries (λ es, es ++ [e]) sl)) l'.
Proof.
  intros id Hsk [Hlo [Hd1 Hd2 Hd3] [Hk1 Hk2] [Hp1 Hp2 Hp3 Hp4 Hp5] Hc Hh] Hx Hk Hid Hrow.
  destruct (extends_same_epoch _ _ _ _ _ Hx (or_intror Hk)) as [He Hve].
  assert (∀ i, ¬ (e_Kind e = EntryRemove ∧ i = e_SubjectDeviceID e)) as Hnr by (intros i [E _]; by rewrite Hk in E).
  set (d1 := set_d_PackageKey _ d). set (k0 := key [id; d_DeviceID d]) in *.
  assert (∀ k d', <[k0 := d1]> (sl_devices sl) !! k = Some d' → ∃ d0, sl_devices sl !! k = Some d0 ∧
    d_State d' = d_State d0 ∧ d_TokenDeviceID d' = d_TokenDeviceID d0 ∧
    d_ActivatedEpoch d' = d_ActivatedEpoch d0) as Hback.
  { intros k d' [[<- <-]|[_ ?]]%lookup_insert_Some; [by exists d|eauto]. }
  split; cbn [v_ID set_v_list v_CurrentRevision sl_entries sl_devices sl_packages sl_headers sl_ciphertexts sl_pairings
              sl_checkpoints on_devices on_entries].
  - rewrite Hve. by eapply list_ok_extend.
  - split.
    + intros k d' [[<- <-]|[Hne Hd']]%lookup_insert_Some.
      * destruct (Hd1 _ _ Hrow) as [m [Hm ? ? ? ? ?]].
        destruct (list_step_old l e l' _ m (ex_wf _ _ _ _ _ Hx) (ex_step _ _ _ _ _ Hx) Hm)
          as (m' & ? & Hkey & Hadd & Hrem & Hpkg).
        rewrite decide_False in Hrem by apply Hnr. rewrite decide_True in Hpkg by done.
        exists m'. split; cbn; try congruence; first [by rewrite Hrem|lia].
      * destruct (Hd1 _ _ Hd') as [m Hm]. eapply device_matches_extend; [done|done|apply Hnr|].
        intros [_ E]. apply Hne. destruct (sk_devices _ _ Hsk _ _ Hd') as [-> _]. unfold k0. congruence.
    + intros did m Hdm. rewrite lookup_insert_is_Some'. right.
      destruct (l_members l !! did) as [m0|] eqn:E0; [eauto|].
      rewrite (fresh_extend _ _ _ _ _ _ Hx E0), decide_False in Hdm; [done|]. intros [E _]. by rewrite Hk in E.
    + intros k1 k2 d2 d3 (? & ? & -> & -> & _)%Hback (? & ? & -> & -> & _)%Hback. eauto.
  - split.
    + intros k p Hp. destruct (Hk1 _ _ Hp) as [Hpep [m Hpm]]. rewrite He. split; [done|]. by eapply current_extend.
    + intros k d' (d0 & Hd0 & -> & _ & ->)%Hback Hap. rewrite He. eauto.
  - split; try done.
    + intros k p Hp. rewrite (fresh_extend _ _ _ _ _ _ Hx (Hp1 _ _ Hp)).
      rewrite decide_False; [done|]. intros [E _]. by rewrite Hk in E.
    + intros k1 k2 p d' Hp (d0 & Hd0 & -> & -> & _)%Hback. eauto.
  - eapply checkpoints_ok_extend; [done| |done]. intros k c _. apply Hnr.
  - by eapply history_ok_extend.
Qed.
End Pure.

(** ** Operations *)
Section Ops.
Context `{Crypto} `{MapRange} (cfg : Config) (clk : nat → time).
Implicit Types s : state.

(** Under the invariant [loadList] gives the list the invariant speaks of. *)
Lemma loadList_inv s id v r s' :
  Inv cfg s → st_vaults s !! id = Some v → loadList id s = (r, s') →
  s' = s ∧ ∃ l, r = Ok l ∧ vault_ok cfg v (slice_of s id) l.
Proof.
  intros Hi Hv. destruct (Inv_vault _ _ _ _ Hi Hv) as [l Hl].
  pose proof (lo_verified _ _ _ (vo_list _ _ _ _ Hl)) as Hver.
  rewrite loadList_verifies.
  - change (entries_of s id) with (sl_entries (slice_of s id)). rewrite Hver. intros [= <- <-]. eauto.
  - by eapply verified_indexed.
  - destruct (VerifyDeviceList_length _ _ Hver) as [Hlen _]. cbn in Hlen. rewrite <- Hlen.
    apply (lw_bound l), (VerifyDeviceList_wf _ _ Hver).
Qed.

(** The steps every operation on the list ends with. *)
Lemma effect_UpdateVault_inv id v v' s u s' :
  keyed s → st_vaults s !! id = Some v → v_ID v' = id → v_OwnerKey v' = v_OwnerKey v →
  tx_UpdateVault v' s = (Ok u, s') → effect id (λ _, v') (λ sl, sl) s s'.
Proof. intros Hk Hv Hid Ho [_ ->]%UpdateVault_inv. by eapply effect_UpdateVault. Qed.

Lemma effect_PutDevice_inv id v d s u s' :
  keyed s → st_vaults s !! id = Some v → d_VaultID d = id → tx_PutDevice d s = (Ok u, s') →
  effect id (λ v, v) (on_devices <[key [id; d_DeviceID d] := d]>) s s'.
Proof. intros Hk Hv Hid [_ ->]%PutDevice_inv. by apply effect_PutDevice; [|eauto|]. Qed.

Lemma effect_Append_inv id v e s u s' :
  keyed s → st_vaults s !! id = Some v → e_VaultID e = id → tx_AppendDeviceListEntry e s = (Ok u, s') →
  effect id (λ v, v) (on_entries (λ es, es ++ [e])) s s'.
Proof. intros Hk Hv Hid ->%AppendDeviceListEntry_inv. by apply effect_AppendDeviceListEntry; [|eauto|]. Qed.

Lemma effect_PutKeyPackage_inv id v p s u s' :
  keyed s → st_vaults s !! id = Some v → pkg_VaultID p = id → tx_PutKeyPackage p s = (Ok u, s') →
  effect id (λ v, v) (on_packages <[key [id; pkg_DeviceID p] := p]>) s s'.
Proof. intros Hk Hv Hid ->%updating_inv. by apply (effect_PutKeyPackage id s p); [|eauto|]. Qed.

Lemma effect_DeletePairing_inv id v d s u s' :
  keyed s → st_vaults s !! id = Some v → tx_DeletePairing id d s = (Ok u, s') →
  effect id (λ v, v) (on_pairings (delete (key [id; d]))) s s'.
Proof. intros Hk Hv ->%updating_inv. by apply effect_DeletePairing; [|eauto]. Qed.

(** What an accepted approval did. *)
Record approve_result (s : state) (a : Actor) (input : ApproveInput) (s' : state) (p : Pairing)
    (l l' : DeviceList) : Prop := {
  ap_vault : st_vaults s !! v_ID (a_Vault a) = Some (a_Vault a);
  ap_old : vault_ok cfg (a_Vault a) (slice_of s (v_ID (a_Vault a))) l;
  ap_kind : e_Kind (api_Entry input) = EntryAdd;
  ap_signer : e_SignerDeviceID (api_Entry input) = d_DeviceID (a_Device a);
  ap_vaultID : e_VaultID (api_Entry input) = v_ID (a_Vault a);
  ap_pairing : sl_pairings (slice_of s (v_ID (a_Vault a)))
    !! key [v_ID (a_Vault a); e_SubjectDeviceID (api_Entry input)] = Some p;
  ap_confirmed : p_State p = PairingConfirmed;
  ap_fresh : clk 4%nat < p_ExpiresAt p;
  ap_keys : p_SigningKey p = e_SubjectSigningKey (api_Entry input) ∧
            p_PackageKey p = e_SubjectPackageKey (api_Entry input);
  ap_extends : extends (a_Vault a) (sl_entries (slice_of s (v_ID (a_Vault a)))) l (api_Entry input) l';
  ap_package : k_RecipientDeviceID (api_Package input) = e_SubjectDeviceID (api_Entry input) ∧
               k_VaultEpoch (api_Package input) = v_Epoch (a_Vault a);
  ap_effect : effect (v_ID (a_Vault a))
    (λ _, set_v_list (e_Index (api_Entry input)) (v_Epoch (a_Vault a)) (clk 5%nat) (a_Vault a))
    (approved (v_ID (a_Vault a)) (api_Entry input)
       {| d_VaultID := v_ID (a_Vault a); d_DeviceID := e_SubjectDeviceID (api_Entry input);
          d_TokenDeviceID := p_TokenDeviceID p; d_SigningKey := e_SubjectSigningKey (api_Entry input);
          d_PackageKey := e_SubjectPackageKey (api_Entry input); d_State := DeviceApproved;
          d_AddedIndex := e_Index (api_Entry input); d_ActivatedEpoch := 0; d_CreatedAt := clk 5%nat |}
       {| kp_Package := api_Package input; kp_CreatedAt := clk 5%nat |}) s s';
}.

Lemma approve_inv caller q input s u s' :
  Inv cfg s → Approve_tx clk caller q input s = (Ok u, s') →
  ∃ nn a p l l', acts clk s caller a ∧ Inv cfg (set_nonces nn s) ∧
    approve_result (set_nonces nn s) a input s' p l l'.
Proof.
  intros Hi Hx. unfold Approve_tx in Hx.
  called Hx a s1 as Ha. apply signedActor_inv in Ha as (Ha & _ & ->); [|apply Hi].
  set (nn := <[_ := _]> (st_nonces s)) in Hx. exists nn, a. clearbody nn. apply (Inv_nonces _ _ nn) in Hi.
  assert (st_vaults (set_nonces nn s) !! v_ID (a_Vault a) = Some (a_Vault a)) as Hv by apply Ha.
  set (s1 := set_nonces nn s) in *. clearbody s1.
  called Hx ? s2 as Hr. apply requireActivated_inv in Hr as (-> & _ & Hst & _).
  cbv zeta in Hx. set (v := a_Vault a) in *. set (id := v_ID v) in *.
  set (e := api_Entry input) in *. set (pkg := api_Package input) in *.
  passed Hx as Hg. apply Decidable.not_or in Hg as [Hk%dec_stable Hg].
  apply Decidable.not_or in Hg as [Hsigner%dec_stable Hvid%dec_stable].
  called Hx pr s2 as Hpr. apply Pairing_inv in Hpr as [-> Hpr].
  destruct (st_pairings _ !! _) as [p0|] eqn:Epr in Hpr; [injection Hpr as ->|done].
  apply Pairing_at in Epr as (_ & _ & Epr); [|apply Hi|eauto].
  passed Hx as Hconf. apply Decidable.not_or in Hconf as [Hconf%dec_stable Hexp].
  assert (clk 4%nat < p_ExpiresAt p0) by lia. clear Hexp. passed Hx as Hkeys. apply Decidable.not_or in Hkeys as [Hks%dec_stable Hkp%dec_stable].
  passed Hx as _. called Hx l s2 as Hload.
  destruct (loadList_inv _ _ _ _ _ Hi Hv Hload) as [-> (l0 & [= <-] & Hl)].
  lifted Hx l' as Hext%wrap_ok. passed Hx as Hpk.
  apply Decidable.not_or in Hpk as [Hpv%dec_stable Hpk]. apply Decidable.not_or in Hpk as [_ Hpk].
  apply Decidable.not_or in Hpk as [Hpd%dec_stable Hpk]. apply Decidable.not_or in Hpk as [Hpe%dec_stable _].
  lifted Hx [] as _. cbv zeta in Hx.
  called Hx ? s2 as E1. eapply (effect_Append_inv id v) in E1; [|apply Hi|done|done].
  called Hx ? s3 as E2. eapply (effect_PutDevice_inv id v) in E2; [|apply E1|by apply (effect_vault _ _ _ _ _ _ E1)|done].
  pose proof (effect_trans _ _ _ _ _ _ _ _ E1 E2) as E12.
  called Hx ? s4 as E3. eapply (effect_PutKeyPackage_inv id v) in E3; [|apply E2|by apply (effect_vault _ _ _ _ _ _ E12)|done].
  pose proof (effect_trans _ _ _ _ _ _ _ _ E12 E3) as E13.
  called Hx ? s5 as E4. eapply (effect_DeletePairing_inv id v) in E4; [|apply E3|by apply (effect_vault _ _ _ _ _ _ E13)].
  pose proof (effect_trans _ _ _ _ _ _ _ _ E13 E4) as E14.
  eapply (effect_UpdateVault_inv id v) in Hx; [|apply E4|by apply (effect_vault _ _ _ _ _ _ E14)|done|done].
  pose proof (effect_trans _ _ _ _ _ _ _ _ E14 Hx) as E15.
  exists p0, l, l'. split_and!; [done|done|].
  change (pkg_DeviceID {| kp_Package := pkg; kp_CreatedAt := clk 5%nat |}) with (k_RecipientDeviceID pkg) in E15.
  rewrite Hpd in E15. split; try done. apply extends_intro; [apply Hl|done].
Qed.

Lemma preserves_Approve caller q input : preserves cfg clk (cl_OwnerKey caller) (Approve_tx clk caller q input).
Proof.
  intros s u s' Hi Hx. destruct (approve_inv _ _ _ _ _ _ Hi Hx) as (nn & a & p & l & l' & Ha & Hi1 & Hr).
  rewrite <- (ac_owner _ _ _ _ Ha). change (isolated clk ?o s) with (isolated clk o (set_nonces nn s)).
  destruct Hr as [Hv Hl Hk _ _ Hp _ _ _ Hex [Hpd Hpe] Heff].
  eapply (Inv_effect cfg clk (v_ID (a_Vault a))); [by apply Inv_except_intro|exact Heff|exact Hv|].
  cbv beta. exists l'. eapply (vault_ok_approved cfg (a_Vault a) _ l _ l' _ _ _ p); try done.
  apply keyed_slice, Hi1.
Qed.

Lemma preserves_UpgradeKey caller q input : preserves cfg clk (cl_OwnerKey caller) (UpgradeKey_tx clk caller q input).
Proof.
  intros s u s' Hi Hx. unfold UpgradeKey_tx in Hx. set (e := uki_Entry input) in *.
  called Hx a s1 as Ha. apply signedActor_inv in Ha as (Ha & _ & ->); [|apply Hi].
  set (nn := <[_ := _]> (st_nonces s)) in Hx. clearbody nn. apply (Inv_nonces _ _ nn) in Hi.
  assert (st_vaults (set_nonces nn s) !! v_ID (a_Vault a) = Some (a_Vault a)) as Hv by apply Ha.
  called Hx ? s2 as Hr. apply requireActivated_inv in Hr as (-> & Hp & Hst & _).
  pose proof (ac_row _ _ _ _ Ha) as Hrow. rewrite Hp in Hrow. cbv zeta in Hrow.
  change (slice_of s) with (slice_of (set_nonces nn s)) in Hrow.
  rewrite <- (ac_owner _ _ _ _ Ha). change (isolated clk ?o s) with (isolated clk o (set_nonces nn s)).
  set (s1 := set_nonces nn s) in *. clearbody s1. clear Ha Hp.
  cbv zeta in Hx. set (v := a_Vault a) in *. set (id := v_ID v) in *. set (d := a_Device a) in *.
  passed Hx as Hg. apply Decidable.not_or in Hg as [Hk%dec_stable Hg].
  apply Decidable.not_or in Hg as [Hsigner%dec_stable Hvid%dec_stable].
  passed Hx as _. called Hx l s2 as Hload.
  destruct (loadList_inv _ _ _ _ _ Hi Hv Hload) as [-> (l0 & [= <-] & Hl)].
  lifted Hx l' as Hext%wrap_ok.
  assert (d_VaultID d = id) as Hdv by (by apply rows_Some in Hrow as [_ ?]).
  called Hx ? s2 as E1. eapply (effect_Append_inv id v) in E1; [|apply Hi|done|done].
  called Hx ? s3 as E2. eapply (effect_PutDevice_inv id v) in E2; [|apply E1|by apply (effect_vault _ _ _ _ _ _ E1)|done].
  pose proof (effect_trans _ _ _ _ _ _ _ _ E1 E2) as E12.
  eapply (effect_UpdateVault_inv id v) in Hx; [|apply E2|by apply (effect_vault _ _ _ _ _ _ E12)|done|done].
  pose proof (effect_trans _ _ _ _ _ _ _ _ E12 Hx) as E13.
  eapply (Inv_effect cfg clk id); [by apply Inv_except_intro|exact E13|exact Hv|]. cbv beta. exists l'.
  cbn [d_DeviceID set_d_PackageKey].
  eapply (vault_ok_upgraded cfg v _ l e l'); try done.
  - apply keyed_slice, Hi.
  - apply extends_intro; [apply Hl|done].
Qed.
End Ops.
