(* ===== verification/InvRekey.v ===== *)
(** * Removing a device and rotating the epoch keep the invariant

    [rekey] replaces every key package of the vault, appends the entry, updates the device rows and
    drops the pairings: three loops, each with what it does to the vault's rows. *)

From stdpp Require Import base list gmap strings sorting.
From Stdlib Require Import ZArith Lia Strings.Byte.
From S2P Require Import Prelude GoStd Canonical DeviceList DeviceListFacts DeviceListThms Header Request.
From S2P Require Import SyncTypes MemStore MemStoreFacts Slices NonceKeeper Service VaultInv VaultExtend.
From S2P Require Import LoadList Actors InvPairing InvApprove.
Local Open Scope Z_scope.
Local Open Scope go_scope.

Section Loops.
Context `{Crypto} `{MapRange} (id : string).
Implicit Types s : state.

(** ** The package loop *)

(** The packages stored for the expected recipients [R], of which [R'] are still to come. *)
Record stored (e : DeviceListEntry) (R R' : gset string) (pk pk' : gmap string KeyPackage) : Prop := {
  st_origin : ∀ k p, pk' !! k = Some p → pk !! k = Some p ∨
    k_VaultEpoch (kp_Package p) = e_EpochAfter e ∧ pkg_DeviceID p ∈ R;
  st_kept : ∀ k, is_Some (pk !! k) → is_Some (pk' !! k);
  st_present : ∀ r, r ∈ R → r ∉ R' → is_Some (pk' !! key [id; r]);
  st_subset : R' ⊆ R;
}.

Lemma store_packages_inv a v e now ps R s R' s' :
  v_ID (a_Vault a) = id → keyed s → st_vaults s !! id = Some v →
  mforeach (store_package a e now) R ps s = (Ok R', s') →
  ∃ f, effect id (λ v, v) (on_packages f) s s' ∧ (size R' + length ps = size R)%nat ∧
    stored e R R' (sl_packages (slice_of s id)) (f (sl_packages (slice_of s id))).
Proof.
  intros Hid. revert R s. induction ps as [|p ps IH]; intros R s Hk Hv Hx; cbn [mforeach] in Hx.
  - apply mreturn_ok in Hx as [-> ->]. exists (λ m, m). split_and!; [by apply effect_refl|cbn; lia|].
    split; [by left|done|done|done].
  - called Hx R1 s1 as Hp. unfold store_package in Hp.
    passed Hp as Hin%dec_stable. passed Hp as Hg. lifted Hp [] as _. called Hp ? s2 as Hput.
    apply mreturn_ok in Hp as [-> ->].
    apply Decidable.not_or in Hg as [Hpv%dec_stable Hg]. apply Decidable.not_or in Hg as [_ Hg].
    apply Decidable.not_or in Hg as [Hpe%dec_stable _].
    eapply (effect_PutKeyPackage_inv id v) in Hput; [|done|done|unfold pkg_VaultID; cbn; congruence].
    destruct (IH _ _ (proj1 Hput) (effect_vault _ _ _ _ _ _ Hput Hv) Hx) as (f & Hf & Hsz & Hst).
    pose proof (effect_trans _ _ _ _ _ _ _ _ Hput Hf) as E.
    destruct Hput as (_ & _ & _ & Hsl). rewrite Hsl in Hst. cbn [sl_packages on_packages] in Hst.
    set (q := {| kp_Package := p; kp_CreatedAt := now |}) in *.
    exists (λ m, f (<[key [id; pkg_DeviceID q] := q]> m)). split_and!; [exact E| |].
    + rewrite size_difference, size_singleton in Hsz by set_solver.
      assert (size R ≠ 0)%nat by (intros E0%size_empty_inv; set_solver). cbn [length]. lia.
    + destruct Hst as [H1 H2 H3 H4]. split.
      * intros k p' Hp'. destruct (H1 k p' Hp') as [[[<- <-]|[_ ?]]%lookup_insert_Some|[? ?]];
          [right; done|by left|right; set_solver].
      * intros k Hs. apply H2. rewrite lookup_insert_is_Some'. by right.
      * intros r Hr Hr'. destruct (decide (r = k_RecipientDeviceID p)) as [->|Hne].
        -- apply H2. rewrite lookup_insert_is_Some'. by left.
        -- apply H3; set_solver.
      * set_solver.
Qed.

(** ** The device loop *)
Definition rekeyed (signer kind : string) (e : DeviceListEntry) (d : Device) : Device :=
  if decide (kind = EntryRemove ∧ d_DeviceID d = e_SubjectDeviceID e) then set_d_State DeviceRevoked d
  else if decide (d_DeviceID d = signer ∧ d_State d = DeviceApproved)
  then set_d_ActivatedEpoch (e_EpochAfter e) d else d.

Lemma rekeyed_id signer kind e d : d_DeviceID (rekeyed signer kind e d) = d_DeviceID d.
Proof. unfold rekeyed. by repeat case_decide. Qed.

Lemma update_devices_inv a v kind e ds s u s' :
  keyed s → st_vaults s !! id = Some v → Forall (λ d, d_VaultID d = id) ds → NoDup (d_DeviceID <$> ds) →
  (∀ d, d ∈ ds → sl_devices (slice_of s id) !! key [id; d_DeviceID d] = Some d) →
  mforeach (update_device a kind e) tt ds s = (Ok u, s') →
  ∃ f, effect id (λ v, v) (on_devices f) s s' ∧
    let devs := sl_devices (slice_of s id) in
    (∀ d, d ∈ ds → f devs !! key [id; d_DeviceID d] = Some (rekeyed (d_DeviceID (a_Device a)) kind e d)) ∧
    (∀ k, k ∉ (λ d, key [id; d_DeviceID d]) <$> ds → f devs !! k = devs !! k).
Proof.
  revert s. induction ds as [|d ds IH]; intros s Hk Hv Hds Hnd Hin Hx; cbn [mforeach] in Hx.
  - apply mreturn_ok in Hx as [-> ->]. exists (λ m, m). split; [by apply effect_refl|]. set_solver.
  - apply Forall_cons in Hds as [Hdv Hds]. rewrite fmap_cons in Hnd. apply NoDup_cons in Hnd as [Hnin Hnd].
    called Hx [] s1 as Hd. set (d' := rekeyed (d_DeviceID (a_Device a)) kind e d).
    assert (effect id (λ v, v) (on_devices <[key [id; d_DeviceID d] := d']>) s s1) as E1.
    { unfold update_device in Hd. pose proof (Hin d (list_elem_of_here _ _)) as Hrow. subst d'.
      unfold rekeyed. repeat case_decide.
      - eapply (effect_PutDevice_inv id v) in Hd; done.
      - eapply (effect_PutDevice_inv id v) in Hd; done.
      - apply mreturn_ok in Hd as [_ ->]. apply effect_same_vaults; try done.
        unfold on_devices. rewrite insert_id by done. done. }
    assert (∀ x, x ∈ ds → key [id; d_DeviceID d] ≠ key [id; d_DeviceID x]) as Hne.
    { intros x Hx' E%key_same. apply Hnin. rewrite E. by apply list_elem_of_fmap_2. }
    destruct (IH s1) as (f & Hf & H1 & H2); try done.
    + apply E1.
    + by apply (effect_vault _ _ _ _ _ _ E1).
    + intros x Hx'. destruct E1 as (_ & _ & _ & ->). cbn [sl_devices on_devices].
      rewrite lookup_insert_ne by eauto. apply Hin. by right.
    + pose proof (effect_trans _ _ _ _ _ _ _ _ E1 Hf) as E.
      exists (λ m, f (<[key [id; d_DeviceID d] := d']> m)). split; [exact E|].
      destruct E1 as (_ & _ & _ & Hsl). rewrite Hsl in H1, H2. cbn [sl_devices on_devices] in H1, H2.
      cbv zeta. split.
      * intros x [->|Hx']%elem_of_cons; [|by apply H1].
        rewrite H2, lookup_insert_eq; [done|]. intros (y & Ey & Hy)%list_elem_of_fmap. by eapply Hne.
      * intros k Hk'. rewrite fmap_cons in Hk'. apply not_elem_of_cons in Hk' as [Hk1 Hk2].
        rewrite H2 by done. by rewrite lookup_insert_ne.
Qed.

(** ** The pairing loop *)
Lemma delete_pairings_inv v ps s u s' :
  keyed s → st_vaults s !! id = Some v →
  mforeach (λ _ p, tx_DeletePairing id (p_DeviceID p)) tt ps s = (Ok u, s') →
  ∃ f, effect id (λ v, v) (on_pairings f) s s' ∧
    ∀ m k p, f m !! k = Some p → m !! k = Some p ∧ ∀ p', p' ∈ ps → k ≠ key [id; p_DeviceID p'].
Proof.
  revert s. induction ps as [|p ps IH]; intros s Hk Hv Hx; cbn [mforeach] in Hx.
  - apply mreturn_ok in Hx as [-> ->]. exists (λ m, m). split; [by apply effect_refl|]. set_solver.
  - called Hx [] s1 as Hd. eapply (effect_DeletePairing_inv id v) in Hd; [|done|done].
    destruct (IH s1 (proj1 Hd) (effect_vault _ _ _ _ _ _ Hd Hv) Hx) as (f & Hf & Hfm).
    pose proof (effect_trans _ _ _ _ _ _ _ _ Hd Hf) as E.
    exists (λ m, f (delete (key [id; p_DeviceID p]) m)). split; [exact E|].
    intros m k p' (Hk' & Hps)%Hfm. apply lookup_delete_Some in Hk' as [Hne Hk']. split; [done|].
    intros q [->|Hq]%elem_of_cons; eauto.
Qed.
End Loops.

(** ** The vault after a rekey *)
Section Pure.
Context `{Crypto} `{MapRange} (cfg : Config).
Implicit Types l : DeviceList.

Lemma elem_of_survivors l signer r :
  list_wf l → r ∈ survivors l signer ↔ r ≠ signer ∧ ∃ m, current_member l r m.
Proof.
  intros Hw. unfold survivors. rewrite elem_of_list_to_set, list_elem_of_filter, list_elem_of_fmap.
  unfold Current, current_member. setoid_rewrite list_elem_of_filter. setoid_rewrite list_elem_of_fmap.
  split.
  - intros [Hne (m & -> & Hr & [k m'] & -> & Hin)]. split; [done|]. apply elem_of_range_map in Hin.
    exists m'. cbn in *. by rewrite (mw_id _ _ _ (lw_members l Hw _ _ Hin)).
  - intros [Hne (m & Hm & Hr)]. split; [done|]. exists m.
    split; [by rewrite (mw_id _ _ _ (lw_members l Hw _ _ Hm))|]. split; [done|]. exists (r, m).
    split; [done|]. by apply elem_of_range_map.
Qed.

Lemma devices_ok_rekeyed v id es devs devs' l e l' :
  (∀ k d, devs !! k = Some d → k = key [id; d_DeviceID d]) →
  extends v es l e l' → e_Kind e = EntryRemove ∨ e_Kind e = EntryRotate → devices_ok id devs l →
  (∀ k, devs' !! k = rekeyed (e_SignerDeviceID e) (e_Kind e) e <$> devs !! k) →
  devices_ok id devs' l'.
Proof.
  intros Hkeys Hx Hk [Hd1 Hd2 Hd3] Hdev. pose proof (extends_epoch _ _ _ _ _ Hx).
  pose proof (list_step_epoch _ _ _ (ex_step _ _ _ _ _ Hx)) as Hep.
  pose proof (list_step_epoch_range _ _ _ (ex_wf _ _ _ _ _ Hx) (ex_step _ _ _ _ _ Hx)) as Her.
  assert (e_Kind e ≠ EntryKey ∧ e_Kind e ≠ EntryAdd) as [Hnk Hna] by (by destruct Hk as [-> | ->]).
  assert (∀ k d', devs' !! k = Some d' → ∃ d, devs !! k = Some d ∧ d' = rekeyed (e_SignerDeviceID e) (e_Kind e) e d) as Hback.
  { intros k d'. rewrite Hdev, fmap_Some. done. }
  split.
  - intros k d' (d & Hd & ->)%Hback. destruct (Hd1 _ _ Hd) as [m Hm]. unfold rekeyed.
    case_decide as Hrm; [|case_decide as Hsg].
    + destruct (list_step_old l e l' _ m (ex_wf _ _ _ _ _ Hx) (ex_step _ _ _ _ _ Hx) (dm_member _ _ _ Hm))
        as (m' & Hm' & Hkey & Hadd & Hrem & Hpkg).
      rewrite decide_True in Hrem by done. rewrite decide_False in Hpkg by (intros [? _]; done).
      destruct Hm as [? ? ? ? ? ?]. exists m'. split; cbn; try congruence; [|lia].
      rewrite decide_False; [done|]. rewrite Hrem. apply (ev_index e), Hx.
    + destruct (device_matches_extend _ _ _ _ _ _ _ Hx Hm Hrm) as [m' Hm']; [by intros [? _]|].
      exists m'. apply device_matches_epoch; [done|]. rewrite Hep. lia.
    + eapply device_matches_extend; [done|done|done|by intros [? _]].
  - intros did m Hdm. rewrite Hdev, fmap_is_Some.
    destruct (l_members l !! did) as [m0|] eqn:E0; [eauto|].
    rewrite (fresh_extend _ _ _ _ _ _ Hx E0), decide_False in Hdm; [done|]. by intros [? _].
  - assert (∀ d, d_State (rekeyed (e_SignerDeviceID e) (e_Kind e) e d) ≠ DeviceRevoked → d_State d ≠ DeviceRevoked) as Hlive.
    { intros d. unfold rekeyed. by repeat case_decide. }
    assert (∀ d, d_TokenDeviceID (rekeyed (e_SignerDeviceID e) (e_Kind e) e d) = d_TokenDeviceID d) as Htok.
    { intros d. unfold rekeyed. by repeat case_decide. }
    intros k1 k2 d1 d2 (? & ? & ->)%Hback (? & ? & ->)%Hback ?%Hlive ?%Hlive. rewrite !Htok. eauto.
Qed.

Lemma vault_ok_rekeyed v sl sl' l e l' now :
  let id := v_ID v in
  slice_keyed id sl → slice_keyed id sl' → vault_ok cfg v sl l → extends v (sl_entries sl) l e l' →
  e_Kind e = EntryRemove ∨ e_Kind e = EntryRotate →
  sl_entries sl' = sl_entries sl ++ [e] →
  (∀ k, sl_devices sl' !! k = rekeyed (e_SignerDeviceID e) (e_Kind e) e <$> sl_devices sl !! k) →
  stored id e (survivors l' (e_SignerDeviceID e)) ∅ ∅ (sl_packages sl') →
  sl_pairings sl' = ∅ →
  sl_checkpoints sl' = (if decide (e_Kind e = EntryRemove)
                        then delete (key [id; e_SubjectDeviceID e]) (sl_checkpoints sl) else sl_checkpoints sl) →
  sl_headers sl' = sl_headers sl → sl_ciphertexts sl' = sl_ciphertexts sl →
  vault_ok cfg (set_v_list (e_Index e) (e_EpochAfter e) now v) sl' l'.
Proof.
  intros id Hsk Hsk' [Hlo Hd Hp Hpa Hc Hh] Hx Hk Hes Hdev Hst Hpr Hch Hhd Hct.
  pose proof (list_step_epoch _ _ _ (ex_step _ _ _ _ _ Hx)) as Hep.
  assert (devices_ok id (sl_devices sl') l') as Hd'.
  { eapply devices_ok_rekeyed; try done. intros k d Hkd. by apply (sk_devices _ _ Hsk k d). }
  split; cbn [v_ID set_v_list v_CurrentRevision].
  - rewrite Hes, <- Hep. by eapply list_ok_extend.
  - done.
  - destruct Hst as [Ho _ Hpres _]. split.
    + intros k p Hkp. destruct (Ho _ _ Hkp) as [?|[Hpe Hin]]; [done|].
      apply elem_of_survivors in Hin as [_ ?]; [|apply Hx]. by rewrite Hep.
    + intros k d Hkd Hap. destruct (do_member _ _ _ Hd' _ _ Hkd) as [m Hm].
      destruct (sk_devices _ _ Hsk' _ _ Hkd) as [-> _].
      rewrite Hdev in Hkd. apply fmap_Some in Hkd as (d0 & Hd0 & Ed).
      destruct (decide (d_DeviceID d = e_SignerDeviceID e)) as [Es|Es].
      * left. rewrite Hep. revert Hap Es. rewrite Ed, rekeyed_id. unfold rekeyed.
        destruct (decide (e_Kind e = EntryRemove ∧ d_DeviceID d0 = e_SubjectDeviceID e)); [done|].
        destruct (decide (d_DeviceID d0 = e_SignerDeviceID e ∧ d_State d0 = DeviceApproved)) as [Hn|Hn]; [done|].
        intros Hap Es. by destruct Hn.
      * right. apply Hpres; [|set_solver]. apply elem_of_survivors; [apply Hx|]. split; [done|].
        exists m. split; [apply Hm|]. by eapply device_matches_approved.
  - rewrite Hpr. split; try done.
  - rewrite Hch. case_decide as Hrm.
    + eapply checkpoints_ok_extend; [done| |].
      * intros k c [Hne Hkc]%lookup_delete_Some [_ E]. apply Hne.
        destruct (sk_checkpoints _ _ Hsk _ _ Hkc) as [-> _]. by rewrite E.
      * intros k c [_ Hkc]%lookup_delete_Some. eauto.
    + eapply checkpoints_ok_extend; [done| |done]. by intros k c _ [? _].
  - rewrite Hhd, Hct. by eapply history_ok_extend.
Qed.
End Pure.

Section Ops.
Context `{Crypto} `{MapRange} (cfg : Config) (clk : nat → time).
Implicit Types s : state.

(** What a rekey leaves in the store, and the list it leads to: the whole transaction seen as one
    change of the vault's slice. *)
Record rekey_result (s : state) (a : Actor) (kind : string) (e : DeviceListEntry) (s' : state)
    (l l' : DeviceList) : Prop := {
  rr_vault : st_vaults s !! v_ID (a_Vault a) = Some (a_Vault a);
  rr_old : vault_ok cfg (a_Vault a) (slice_of s (v_ID (a_Vault a))) l;
  rr_kind : e_Kind e = kind;
  rr_signer : e_SignerDeviceID e = d_DeviceID (a_Device a);
  rr_extends : extends (a_Vault a) (sl_entries (slice_of s (v_ID (a_Vault a)))) l e l';
  rr_keyed : keyed s';
  rr_vaults : st_vaults s' =
    <[v_ID (a_Vault a) := set_v_list (e_Index e) (e_EpochAfter e) (clk 4%nat) (a_Vault a)]> (st_vaults s);
  rr_others : ∀ id', id' ≠ v_ID (a_Vault a) → slice_of s' id' = slice_of s id';
  rr_entries : sl_entries (slice_of s' (v_ID (a_Vault a))) = sl_entries (slice_of s (v_ID (a_Vault a))) ++ [e];
  rr_devices : ∀ k, sl_devices (slice_of s' (v_ID (a_Vault a))) !! k =
    rekeyed (e_SignerDeviceID e) kind e <$> sl_devices (slice_of s (v_ID (a_Vault a))) !! k;
  rr_packages : stored (v_ID (a_Vault a)) e (survivors l' (e_SignerDeviceID e)) ∅ ∅
    (sl_packages (slice_of s' (v_ID (a_Vault a))));
  rr_pairings : sl_pairings (slice_of s' (v_ID (a_Vault a))) = ∅;
  rr_checkpoints : sl_checkpoints (slice_of s' (v_ID (a_Vault a))) =
    (if decide (kind = EntryRemove)
     then delete (key [v_ID (a_Vault a); e_SubjectDeviceID e]) (sl_checkpoints (slice_of s (v_ID (a_Vault a))))
     else sl_checkpoints (slice_of s (v_ID (a_Vault a))));
  rr_headers : sl_headers (slice_of s' (v_ID (a_Vault a))) = sl_headers (slice_of s (v_ID (a_Vault a)));
  rr_ciphertexts :
    sl_ciphertexts (slice_of s' (v_ID (a_Vault a))) = sl_ciphertexts (slice_of s (v_ID (a_Vault a)));
}.

(** The device loop over all rows of the vault. *)
Lemma update_all_devices a v id kind e s ds s1 u s' :
  keyed s → st_vaults s !! id = Some v → tx_Devices id s = (Ok ds, s1) →
  mforeach (update_device a kind e) tt ds s1 = (Ok u, s') →
  ∃ f, effect id (λ v, v) (on_devices f) s s' ∧
    ∀ k, f (sl_devices (slice_of s id)) !! k =
         rekeyed (d_DeviceID (a_Device a)) kind e <$> sl_devices (slice_of s id) !! k.
Proof.
  intros Hk Hv [-> (ds' & [= <-] & Hp)]%Devices_inv Hx.
  assert (∀ d, d ∈ ds ↔ ∃ k, sl_devices (slice_of s id) !! k = Some d) as Hin.
  { intros d. rewrite Hp. apply elem_of_rows. }
  assert (∀ d, d ∈ ds → sl_devices (slice_of s id) !! key [id; d_DeviceID d] = Some d) as Hrow.
  { intros d [k Hd]%Hin. destruct (sk_devices _ _ (keyed_slice s id Hk) _ _ Hd) as [E _]. by rewrite <- E. }
  destruct (update_devices_inv id a v kind e ds s u s' Hk Hv) as (f & Hf & H1 & H2); try done.
  - apply Forall_forall. intros d [k [_ ?]%rows_Some]%Hin. done.
  - rewrite Hp. eapply NoDup_rows, Hk.
  - exists f. split; [done|]. intros k. destruct (sl_devices (slice_of s id) !! k) as [d|] eqn:E; cbn.
    + destruct (sk_devices _ _ (keyed_slice s id Hk) _ _ E) as [-> _]. apply H1, Hin. eauto.
    + rewrite H2; [done|]. intros (d & -> & Hd)%list_elem_of_fmap. rewrite (Hrow d Hd) in E. done.
Qed.

Lemma delete_all_pairings v id s ps s1 u s' :
  keyed s → st_vaults s !! id = Some v → tx_Pairings id s = (Ok ps, s1) →
  mforeach (λ _ p, tx_DeletePairing id (p_DeviceID p)) tt ps s1 = (Ok u, s') →
  ∃ f, effect id (λ v, v) (on_pairings f) s s' ∧ f (sl_pairings (slice_of s id)) = ∅.
Proof.
  intros Hk Hv [-> (ps' & [= <-] & Hp)]%Pairings_inv Hx.
  destruct (delete_pairings_inv id v ps s u s' Hk Hv Hx) as (f & Hf & Hfm). exists f. split; [done|].
  apply map_empty. intros k. destruct (f _ !! k) as [p|] eqn:E; [|done].
  destruct (Hfm _ _ _ E) as [Hkp Hne]. exfalso. apply (Hne p).
  - rewrite Hp. apply elem_of_rows. eauto.
  - by apply (sk_pairings _ _ (keyed_slice s id Hk) k p).
Qed.

Lemma rekey_inv caller q kind e ps s u s' :
  Inv cfg s → rekey_tx clk caller q kind e ps s = (Ok u, s') →
  ∃ nn a l l', acts clk s caller a ∧ d_State (a_Device a) = DeviceApproved ∧ a_Pairing a = None ∧
    Inv cfg (set_nonces nn s) ∧ rekey_result (set_nonces nn s) a kind e s' l l'.
Proof.
  intros Hi Hx. unfold rekey_tx in Hx.
  called Hx a s1 as Ha. apply signedActor_inv in Ha as (Ha & _ & ->); [|apply Hi].
  set (nn := <[_ := _]> (st_nonces s)) in Hx. exists nn, a. clearbody nn. apply (Inv_nonces _ _ nn) in Hi.
  assert (st_vaults (set_nonces nn s) !! v_ID (a_Vault a) = Some (a_Vault a)) as Hv by apply Ha.
  called Hx ? s2 as Hr. apply requireActivated_inv in Hr as (-> & Hpn & Hst & _).
  assert (acts clk s caller a ∧ d_State (a_Device a) = DeviceApproved ∧ a_Pairing a = None ∧
          Inv cfg (set_nonces nn s)) as Hact by done. clear Ha Hst Hpn.
  set (s1 := set_nonces nn s) in *. clearbody s1.
  cbv zeta in Hx. set (v := a_Vault a) in *. set (id := v_ID v) in *.
  passed Hx as Hg. apply Decidable.not_or in Hg as [Hk%dec_stable Hg].
  apply Decidable.not_or in Hg as [Hsigner%dec_stable Hvid%dec_stable].
  passed Hx as _. called Hx l s2 as Hload.
  destruct (loadList_inv _ _ _ _ _ _ Hi Hv Hload) as [-> (l0 & [= <-] & Hl)].
  lifted Hx l' as Hext%wrap_ok. passed Hx as Hlen%dec_stable. cbv zeta in Hx. exists l, l'.
  called Hx ? s2 as E1. apply updating_inv in E1 as ->.
  pose proof (effect_DeleteKeyPackages id s1 (proj1 Hi)) as E1. set (s2 := set_packages _ s1) in *. clearbody s2.
  called Hx R' s3 as Hpk.
  destruct (store_packages_inv id _ _ _ _ _ _ _ _ _ eq_refl (proj1 E1) (effect_vault _ _ _ _ _ _ E1 Hv) Hpk)
    as (fk & E2 & Hsz & Hstored).
  assert (sl_packages (slice_of s2 id) = ∅) as Hpk0 by (by destruct E1 as (_ & _ & _ & ->)).
  rewrite Hpk0 in Hstored. assert (R' = ∅) as ->.
  { apply leibniz_equiv, size_empty_inv. lia. }
  pose proof (effect_trans _ _ _ _ _ _ _ _ E1 E2) as E12.
  called Hx ? s4 as E3.
  eapply (effect_Append_inv id v) in E3; [|apply E2|by apply (effect_vault _ _ _ _ _ _ E12)|done].
  pose proof (effect_trans _ _ _ _ _ _ _ _ E12 E3) as E13.
  called Hx ? s5 as Hck.
  assert (∃ fc, effect id (λ v, v) (on_checkpoints fc) s4 s5 ∧
    fc = if decide (kind = EntryRemove) then delete (key [id; e_SubjectDeviceID e]) else λ m, m)
    as (fc & E4 & Hfc).
  { case_decide.
    - eexists. split; [|done]. apply updating_inv in Hck as ->.
      apply effect_DeleteCheckpoint; [apply E3|]. rewrite (effect_vault _ _ _ _ _ _ E13 Hv). eauto.
    - eexists. split; [|done]. apply mreturn_ok in Hck as [_ ->]. apply effect_refl, E3. }
  pose proof (effect_trans _ _ _ _ _ _ _ _ E13 E4) as E14.
  called Hx ds s6 as Hds. called Hx ? s7 as Hud.
  destruct (update_all_devices _ _ _ _ _ _ _ _ _ _ (proj1 E4) (effect_vault _ _ _ _ _ _ E14 Hv) Hds Hud)
    as (fd & E5 & Hfd). pose proof (effect_trans _ _ _ _ _ _ _ _ E14 E5) as E15.
  called Hx prs s8 as Hprs. called Hx ? s9 as Hdp.
  destruct (delete_all_pairings _ _ _ _ _ _ _ (proj1 E5) (effect_vault _ _ _ _ _ _ E15 Hv) Hprs Hdp)
    as (fp & E6 & Hfp). pose proof (effect_trans _ _ _ _ _ _ _ _ E15 E6) as E16.
  eapply (effect_UpdateVault_inv id v) in Hx; [|apply E6|by apply (effect_vault _ _ _ _ _ _ E16)|done|done].
  pose proof (effect_trans _ _ _ _ _ _ _ _ E16 Hx) as (Hkd & Hvs & Hoth & Hsl). cbv beta in Hsl, Hvs.
  destruct E14 as (_ & _ & _ & E14). rewrite E14 in Hfd. destruct E15 as (_ & _ & _ & E15). rewrite E15 in Hfp.
  split_and!; [apply Hact..|]. fold v id.
  split; fold v id; try rewrite Hsl; try done; try (by apply extends_intro; [apply Hl|]).
  - rewrite Hvs. apply map_eq. intros i. destruct (decide (i = id)) as [->|Hne].
    + by rewrite lookup_alter_eq, lookup_insert_eq, Hv.
    + by rewrite lookup_alter_ne, lookup_insert_ne.
  - rewrite Hsigner. exact Hfd.
  - rewrite Hsigner. exact Hstored.
  - cbn [sl_checkpoints on_pairings on_devices on_checkpoints on_entries on_packages]. rewrite Hfc. by case_decide.
Qed.

Lemma preserves_rekey caller q kind e ps :
  kind = EntryRemove ∨ kind = EntryRotate → preserves cfg clk (cl_OwnerKey caller) (rekey_tx clk caller q kind e ps).
Proof.
  intros Hk s u s' Hi Hx.
  destruct (rekey_inv _ _ _ _ _ _ _ _ Hi Hx) as (nn & a & l & l' & Ha & _ & _ & Hi1 & Hr).
  rewrite <- (ac_owner _ _ _ _ Ha). change (isolated clk ?o s) with (isolated clk o (set_nonces nn s)).
  set (s1 := set_nonces nn s) in *. clearbody s1. destruct Hr as [Hv Hl Hkd Hsig Hex Hky Hvs Hoth ? Hdv ? ? Hck ? ?].
  split; [split; [done|]|].
  - intros i w Hw. rewrite Hvs in Hw. apply lookup_insert_Some in Hw as [[<- <-]|[Hne Hw]].
    + exists l'. subst kind. eapply vault_ok_rekeyed; try done; apply keyed_slice; [apply Hi1|done].
    + rewrite Hoth by done. by apply (Inv_vault _ s1).
  - apply isolated_same. intros i w Hw Ho. assert (i ≠ v_ID (a_Vault a)) by congruence.
    rewrite Hvs, lookup_insert_ne by done. auto.
Qed.
End Ops.
