(* ===== verification/MakeRoom.v ===== *)
(** * Making room for a snapshot

    [makeRoom] deletes the oldest snapshots until the incoming one fits into the byte budget.  It
    ends, it never deletes the current snapshot, and it refuses exactly when the incoming snapshot
    and the current one do not fit together. *)

From stdpp Require Import base list gmap strings sorting.
From Stdlib Require Import ZArith Lia Strings.Byte.
From S2P Require Import Prelude GoStd Canonical DeviceList DeviceListFacts DeviceListThms Header Request.
From S2P Require Import SyncTypes MemStore MemStoreFacts Slices NonceKeeper Service VaultInv.
Local Open Scope Z_scope.
Local Open Scope go_scope.

(** ** Bytes *)
Lemma total_bytes_empty : total_bytes ∅ = 0.
Proof. unfold total_bytes. by rewrite map_to_list_empty. Qed.

Lemma total_bytes_insert (m : gmap Z bytes) r c :
  m !! r = None → total_bytes (<[r := c]> m) = total_bytes m + Z.of_nat (length c).
Proof. intros Hn. unfold total_bytes. rewrite map_to_list_insert by done. cbn. lia. Qed.

Lemma total_bytes_delete (m : gmap Z bytes) r c :
  m !! r = Some c → total_bytes (delete r m) = total_bytes m - Z.of_nat (length c).
Proof.
  intros Hs. rewrite <- (insert_delete_id m r c Hs) at 2.
  rewrite total_bytes_insert by apply lookup_delete_eq. lia.
Qed.

Lemma total_bytes_nonneg m : 0 ≤ total_bytes m.
Proof. unfold total_bytes. lia. Qed.

Lemma total_bytes_subseteq (m m' : gmap Z bytes) : m' ⊆ m → total_bytes m' ≤ total_bytes m.
Proof.
  revert m. induction m' as [|r c m' Hn IH] using map_ind; intros m Hs.
  - rewrite total_bytes_empty. apply total_bytes_nonneg.
  - assert (m !! r = Some c) as Hr by (eapply lookup_weaken; [apply lookup_insert_eq|done]).
    rewrite total_bytes_insert by done. specialize (IH (delete r m)).
    rewrite (total_bytes_delete _ _ _ Hr) in IH.
    enough (m' ⊆ delete r m) by (specialize (IH H); lia).
    rewrite <- (delete_insert_id m' r c Hn). by apply delete_mono.
Qed.

Lemma total_bytes_lookup (m : gmap Z bytes) r c : m !! r = Some c → Z.of_nat (length c) ≤ total_bytes m.
Proof. intros Hs. pose proof (total_bytes_delete _ _ _ Hs). pose proof (total_bytes_nonneg (delete r m)). lia. Qed.

Section MakeRoom.
Context `{Crypto} `{MapRange}.
Implicit Types s : state.

Lemma sum_i64 (cs : list bytes) acc :
  0 ≤ acc → acc + Z.of_nat (sum_list_with length cs) < 2 ^ 63 →
  foldl (λ total c, i64 (total + Z.of_nat (length c))) acc cs = acc + Z.of_nat (sum_list_with length cs).
Proof.
  revert acc. induction cs as [|c cs IH]; intros acc Ha Hb; cbn in *; [lia|].
  rewrite i64_small by lia. rewrite IH by lia. lia.
Qed.

Lemma CiphertextBytes_inv id s r s' :
  total_bytes (ciphertexts_of s id) < 2 ^ 63 → tx_CiphertextBytes id s = (r, s') →
  s' = s ∧ r = Ok (total_bytes (ciphertexts_of s id)).
Proof.
  cbn. unfold CiphertextBytes, reading, mreturn. intros Hb [= <- <-]. split; [done|]. f_equal.
  assert (sum_list_with length (range_map (ciphertexts_of s id)).*2 =
          sum_list_with length (map_to_list (ciphertexts_of s id)).*2) as E by (by rewrite range_map_perm).
  unfold total_bytes in *. rewrite sum_i64; rewrite ?E; lia.
Qed.

Lemma oldest_fold (kvs : list (Z * bytes)) acc :
  match foldl (λ oldest rc,
                match oldest with
                | Some (r, _) => if decide (rc.1 < r) then Some (rc.1, Z.of_nat (length rc.2)) else oldest
                | None => Some (rc.1, Z.of_nat (length rc.2))
                end) acc kvs with
  | None => acc = None ∧ kvs = []
  | Some (r, size) =>
      (acc = Some (r, size) ∨ ∃ c, (r, c) ∈ kvs ∧ size = Z.of_nat (length c)) ∧
      (∀ r0 z, acc = Some (r0, z) → r ≤ r0) ∧ ∀ rc, rc ∈ kvs → r ≤ rc.1
  end.
Proof.
  revert acc. induction kvs as [|rc kvs IH]; intros acc; cbn.
  - destruct acc as [[r z]|]; [|done]. split_and!; [by left|naive_solver|set_solver].
  - specialize (IH (match acc with
      | Some (r, _) => if decide (rc.1 < r) then Some (rc.1, Z.of_nat (length rc.2)) else acc
      | None => Some (rc.1, Z.of_nat (length rc.2)) end)).
    destruct (foldl _ _ kvs) as [[r size]|].
    + destruct IH as (H1 & H2 & H3). destruct rc as [k c]. cbn in *. destruct acc as [[r1 z1]|].
      * case_decide.
        -- split_and!; [|intros r0 z [= <- <-]; specialize (H2 _ _ eq_refl); lia|
             intros x [->|Hx]%elem_of_cons; [by apply (H2 _ _ eq_refl)|by apply H3]].
           right. destruct H1 as [[= <- <-]|(c' & ? & ?)]; [exists c|exists c']; set_solver.
        -- split_and!; [|done|intros x [->|Hx]%elem_of_cons; [cbn; specialize (H2 _ _ eq_refl); lia|by apply H3]].
           destruct H1 as [?|(c' & ? & ?)]; [by left|right; exists c'; set_solver].
      * split_and!; [|done|intros x [->|Hx]%elem_of_cons; [by apply (H2 _ _ eq_refl)|by apply H3]].
        right. destruct H1 as [[= <- <-]|(c' & ? & ?)]; [exists c|exists c']; set_solver.
    + destruct IH as [IH _]. destruct acc as [[? ?]|]; [case_decide|]; done.
Qed.

Lemma OldestCiphertext_inv id s r s' :
  tx_OldestCiphertext id s = (r, s') →
  s' = s ∧ match r with
           | Ok (rev, size) => ∃ c, ciphertexts_of s id !! rev = Some c ∧ size = Z.of_nat (length c) ∧
               ∀ r', is_Some (ciphertexts_of s id !! r') → rev ≤ r'
           | Err e => e = [ErrNotFound] ∧ ciphertexts_of s id = ∅
           end.
Proof.
  cbn. unfold OldestCiphertext, reading. intros [-> ->]%found_inv. split; [done|].
  pose proof (oldest_fold (range_map (ciphertexts_of s id)) None) as Hf.
  destruct (foldl _ _ _) as [[rev size]|].
  - destruct Hf as ([?|(c & Hc & ->)] & _ & Hmin); [done|]. exists c. apply elem_of_range_map in Hc.
    split_and!; [done|done|]. intros r' [c' Hr']. by apply (Hmin (r', c')), elem_of_range_map.
  - destruct Hf as [_ Hf]. split; [done|]. apply map_empty. intros k.
    destruct (ciphertexts_of s id !! k) as [c|] eqn:E; [|done].
    apply elem_of_range_map in E. rewrite Hf in E. set_solver.
Qed.

(** ** The loop *)
Context (cfg : Config) (Hcfg : cfg_ok cfg) (v : Vault) (incoming : Z).

Definition room_body : Z → M state (step Z unit) :=
  λ stored,
    if decide (¬ i64 (stored + incoming) > cfg_ByteBudget cfg) then mreturn (Done tt)
    else
      let! oldest := mtry (tx_OldestCiphertext (v_ID v)) in
      match oldest with
      | Err e => if is_error e ErrNotFound then mfail [ErrQuota] else mfail e
      | Ok (revision, size) =>
          run mfail_if (revision >= v_CurrentRevision v) [ErrQuota];
          run tx_DeleteCiphertext (v_ID v) revision;
          mreturn (Continue (i64 (stored - size)))
      end.

(** What the loop keeps: it only deleted snapshots older than the current one. *)
Definition trimmed (s s' : state) : Prop :=
  ∃ f, effect (v_ID v) (λ v, v) (on_ciphertexts f) s s' ∧
    f (ciphertexts_of s (v_ID v)) ⊆ ciphertexts_of s (v_ID v) ∧
    ∀ r, v_CurrentRevision v ≤ r →
      f (ciphertexts_of s (v_ID v)) !! r = ciphertexts_of s (v_ID v) !! r.

Lemma trimmed_refl s : keyed s → trimmed s s.
Proof. intros Hk. exists (λ m, m). split; [by apply effect_refl|done]. Qed.

Lemma trimmed_of s s' : trimmed s s' →
  keyed s' ∧ ciphertexts_of s' (v_ID v) ⊆ ciphertexts_of s (v_ID v) ∧
  ∀ r, v_CurrentRevision v ≤ r →
    ciphertexts_of s' (v_ID v) !! r = ciphertexts_of s (v_ID v) !! r.
Proof.
  intros (f & (Hk & _ & _ & Hsl) & Hsub & Hcur). apply (f_equal sl_ciphertexts) in Hsl. cbn in Hsl.
  by rewrite Hsl.
Qed.

Lemma trimmed_delete s s' r :
  is_Some (st_vaults s !! v_ID v) → trimmed s s' → r < v_CurrentRevision v →
  trimmed s (set_ciphertexts (alter (delete r) (v_ID v) (st_ciphertexts s')) s').
Proof.
  intros [w Hw] (f & Hf & Hsub & Hcur) Hr. exists (λ m, delete r (f m)). split_and!.
  - refine (effect_trans _ (λ v, v) _ (λ v, v) (on_ciphertexts (delete r)) _ _ _ Hf _).
    apply effect_ciphertexts; [apply Hf|rewrite (effect_vault _ _ _ _ _ _ Hf Hw); eauto|..].
    + intros id' Hne. by rewrite lookup_alter_ne.
    + unfold ciphertexts_of. rewrite lookup_alter_eq.
      destruct (st_ciphertexts s' !! v_ID v); [done|]. cbn. by rewrite delete_empty.
  - etrans; [apply delete_subseteq|done].
  - intros r' Hr'. rewrite lookup_delete_ne by lia. by apply Hcur.
Qed.

Record room_at (s : state) (a : Z * state) : Prop := {
  ra_vault : is_Some (st_vaults s !! v_ID v);
  ra_trimmed : trimmed s a.2;
  ra_stored : a.1 = total_bytes (ciphertexts_of a.2 (v_ID v));
  ra_budget : total_bytes (ciphertexts_of s (v_ID v)) ≤ cfg_ByteBudget cfg;
  ra_keys : ∀ r, is_Some (ciphertexts_of s (v_ID v) !! r) → r ≤ v_CurrentRevision v;
}.

(** The current snapshot and the incoming one do not fit together. *)
Definition no_room (s : state) : Prop :=
  match ciphertexts_of s (v_ID v) !! v_CurrentRevision v with
  | Some c => Z.of_nat (length c) + incoming > cfg_ByteBudget cfg
  | None => False
  end.

Lemma room_iteration s a :
  0 ≤ incoming ≤ MaxCiphertextBytes → incoming ≤ cfg_ByteBudget cfg → room_at s a →
  match iteration room_body a with
  | Continue a' => room_at s a' ∧
      (size (ciphertexts_of a'.2 (v_ID v)) < size (ciphertexts_of a.2 (v_ID v)))%nat
  | Done (r, s') =>
      (r = Ok tt ∧ trimmed s s' ∧
         total_bytes (ciphertexts_of s' (v_ID v)) + incoming ≤ cfg_ByteBudget cfg) ∨
      (r = Err [ErrQuota] ∧ no_room s)
  end.
Proof.
  destruct a as [stored st]. intros Hin Hfit [Hw Htr Hst Hbud Hkeys]. cbn in Htr, Hst.
  destruct (trimmed_of _ _ Htr) as (Hk & Hsub & Hcur). pose proof (total_bytes_subseteq _ _ Hsub) as Hle.
  pose proof (total_bytes_nonneg (ciphertexts_of st (v_ID v))). pose proof (co_budget_fits cfg Hcfg).
  unfold iteration, room_body. cbn [fst snd]. rewrite i64_small by lia.
  case_decide as Hd; [left; split_and!; [done|done|lia]|].
  unfold mbindM, mtry. destruct (tx_OldestCiphertext (v_ID v) st) as [ro so] eqn:Eo.
  apply OldestCiphertext_inv in Eo as [-> Eo]. destruct ro as [[rev size]|e].
  - destruct Eo as (c & Hc & -> & Hmin). unfold mfail_if. case_decide as Hrev.
    + right. split; [done|]. unfold no_room.
      assert (rev = v_CurrentRevision v) as ->.
      { assert (rev ≤ v_CurrentRevision v); [|lia]. apply Hkeys. exists c. by eapply lookup_weaken. }
      rewrite <- Hcur, Hc by lia.
      assert (ciphertexts_of st (v_ID v) = {[v_CurrentRevision v := c]}) as Esing.
      { apply map_eq. intros r. destruct (decide (r = v_CurrentRevision v)) as [->|Hne].
        - by rewrite lookup_singleton_eq.
        - rewrite lookup_singleton_ne by done. destruct (ciphertexts_of st (v_ID v) !! r) as [c'|] eqn:E; [|done].
          assert (r ≤ v_CurrentRevision v) by (apply Hkeys; exists c'; by eapply lookup_weaken).
          assert (v_CurrentRevision v ≤ r) by (apply Hmin; eauto). lia. }
      rewrite Hst, Esing, <- insert_empty, total_bytes_insert, total_bytes_empty in Hd by done. lia.
    + cbn. split.
      * assert (ciphertexts_of (set_ciphertexts (alter (delete rev) (v_ID v) (st_ciphertexts st)) st) (v_ID v) =
          delete rev (ciphertexts_of st (v_ID v))) as Edel.
        { unfold ciphertexts_of. cbn. rewrite lookup_alter_eq.
          destruct (st_ciphertexts st !! v_ID v); [done|]. cbn. by rewrite delete_empty. }
        split; cbn [fst snd]; try done; [by apply trimmed_delete; [done|done|lia]|].
        rewrite Edel, (total_bytes_delete _ _ _ Hc), <- Hst.
        pose proof (total_bytes_lookup _ _ _ Hc). rewrite i64_small by lia. done.
      * unfold ciphertexts_of at 1. cbn. rewrite lookup_alter_eq. unfold ciphertexts_of in Hc |- *.
        destruct (st_ciphertexts st !! v_ID v) as [m|]; cbn in *; [|done].
        rewrite map_size_delete_Some by eauto. assert (size m ≠ 0)%nat; [|lia].
        intros E0%map_size_empty_inv. by rewrite E0 in Hc.
  - destruct Eo as [-> Eo]. cbn. exfalso. rewrite Eo, total_bytes_empty in Hst. lia.
Qed.

Lemma size_le_total (m : gmap Z bytes) :
  (∀ r c, m !! r = Some c → 16 ≤ Z.of_nat (length c)) → Z.of_nat (size m) ≤ total_bytes m.
Proof.
  induction m as [|r c m Hn IH] using map_ind; intros Hm; [done|].
  rewrite total_bytes_insert, map_size_insert_None by done.
  specialize (Hm r c (lookup_insert_eq _ _ _)) as Hc.
  assert (∀ r c, m !! r = Some c → 16 ≤ Z.of_nat (length c)) as Hm'.
  { intros r' c' Hr. apply (Hm r' c'). rewrite lookup_insert_ne by congruence. done. }
  specialize (IH Hm'). lia.
Qed.

Lemma room_runs s a b :
  0 ≤ incoming ≤ MaxCiphertextBytes → incoming ≤ cfg_ByteBudget cfg →
  loop_runs (iteration room_body) a b → room_at s a →
  (b.1 = Ok tt ∧ trimmed s b.2 ∧ total_bytes (ciphertexts_of b.2 (v_ID v)) + incoming ≤ cfg_ByteBudget cfg) ∨
  (b.1 = Err [ErrQuota] ∧ no_room s).
Proof.
  intros Hin Hfit. induction 1 as [a b Hd|a a' b Hc _ IH]; intros Ha;
    pose proof (room_iteration s a Hin Hfit Ha) as Hx.
  - rewrite Hd in Hx. by destruct b.
  - rewrite Hc in Hx. apply IH, Hx.
Qed.

Lemma makeRoom_loop s :
  makeRoom cfg v incoming s =
    if decide (incoming > cfg_ByteBudget cfg) then (Err [ErrQuota], s)
    else match tx_CiphertextBytes (v_ID v) s with
         | (Ok stored, s') => mloop 64 room_body stored s'
         | (Err e, s') => (Err e, s')
         end.
Proof. unfold makeRoom, mbindM, mfail_if, mfail, mreturn. by case_decide. Qed.

Lemma fits_loop n : Z.of_nat n < 2 ^ 64 → (n < 2 ^ 64)%nat.
Proof. intros Hn. apply Nat2Z.inj_lt. rewrite Nat2Z.inj_pow. exact Hn. Qed.

Lemma room_ends s a hdrs l :
  0 ≤ incoming ≤ MaxCiphertextBytes → incoming ≤ cfg_ByteBudget cfg → room_at s a →
  history_ok cfg (v_CurrentRevision v) hdrs (ciphertexts_of s (v_ID v)) l →
  ∃ b, loop 64 (iteration room_body) a = Done b.
Proof.
  intros Hin Hfit Ha Hh.
  apply (loop_terminates _ (room_at s) (λ a, size (ciphertexts_of a.2 (v_ID v)))).
  - intros x x' Hx Hc. pose proof (room_iteration s x Hin Hfit Hx) as Hy. by rewrite Hc in Hy.
  - done.
  - apply fits_loop. destruct (trimmed_of _ _ (ra_trimmed _ _ Ha)) as (_ & Hsub & _).
    apply map_subseteq_size in Hsub. pose proof (size_le_total (ciphertexts_of s (v_ID v))
      (λ r c Hc, proj1 (hi_size _ _ _ _ _ Hh r c Hc))).
    pose proof (hi_bytes _ _ _ _ _ Hh). pose proof (co_budget_fits cfg Hcfg).
    assert (0 ≤ MaxCiphertextBytes) by done. lia.
Qed.

Lemma makeRoom_spec s r s' hdrs l :
  keyed s → is_Some (st_vaults s !! v_ID v) → 0 ≤ incoming →
  incoming ≤ MaxCiphertextBytes ∨ incoming > cfg_ByteBudget cfg →
  history_ok cfg (v_CurrentRevision v) hdrs (ciphertexts_of s (v_ID v)) l →
  makeRoom cfg v incoming s = (r, s') →
  (r = Ok tt ∧ trimmed s s' ∧ total_bytes (ciphertexts_of s' (v_ID v)) + incoming ≤ cfg_ByteBudget cfg) ∨
  (r = Err [ErrQuota] ∧ (incoming > cfg_ByteBudget cfg ∨ no_room s)).
Proof.
  intros Hk Hv Hin0 Hmax Hh. rewrite makeRoom_loop. intros Hx.
  pose proof (co_budget_fits cfg Hcfg). pose proof (hi_bytes _ _ _ _ _ Hh) as Hbytes.
  assert (0 ≤ MaxCiphertextBytes) by done.
  case_decide as Hbig; [right; injection Hx as <- <-; split; [done|by left]|].
  destruct (tx_CiphertextBytes (v_ID v) s) as [rb sb] eqn:Eb.
  apply CiphertextBytes_inv in Eb as [-> ->]; [|lia].
  assert (room_at s (total_bytes (ciphertexts_of s (v_ID v)), s)) as Hra.
  { split; cbn; try done; [by apply trimmed_refl|]. intros r' [c Hc]. by apply (hi_cipher _ _ _ _ _ Hh r' c). }
  assert (0 ≤ incoming ≤ MaxCiphertextBytes) as Hin by lia.
  destruct (room_ends s _ _ _ Hin ltac:(lia) Hra Hh) as [b Hb].
  apply mloop_done in Hb as Hm. rewrite Hm in Hx. subst b. apply loop_done in Hb.
  apply (room_runs s) in Hb; [|done|lia|done]. cbn in Hb. naive_solver.
Qed.
End MakeRoom.
