(* ===== verification/InvUpload.v ===== *)
(** * Uploading a snapshot keeps the invariant *)

From stdpp Require Import base list gmap strings sorting.
From Stdlib Require Import ZArith Lia Strings.Byte.
From S2P Require Import Prelude GoStd Canonical DeviceList DeviceListFacts DeviceListThms Header Request.
From S2P Require Import SyncTypes MemStore MemStoreFacts Slices NonceKeeper Service VaultInv VaultExtend.
From S2P Require Import LoadList Actors InvPairing InvApprove MakeRoom.
Local Open Scope Z_scope.
Local Open Scope go_scope.

Section Upload.
Context `{Crypto} `{MapRange} (cfg : Config) (clk : nat → time) (Hcfg : cfg_ok cfg).
Implicit Types (s : state) (l : DeviceList).

(** ** The latest header *)
Lemma latest_fold (hs : list StoredHeader) acc :
  match foldl (λ latest header,
                match latest with
                | Some best => if decide (h_Revision (sh_Header header) > h_Revision (sh_Header best))
                               then Some header else latest
                | None => Some header
                end) acc hs with
  | None => acc = None ∧ hs = []
  | Some best => (acc = Some best ∨ best ∈ hs) ∧
      (∀ a, acc = Some a → h_Revision (sh_Header a) ≤ h_Revision (sh_Header best)) ∧
      ∀ h, h ∈ hs → h_Revision (sh_Header h) ≤ h_Revision (sh_Header best)
  end.
Proof.
  revert acc. induction hs as [|h hs IH]; intros acc; cbn.
  - destruct acc as [a|]; [|done]. split_and!; [by left|naive_solver|set_solver].
  - specialize (IH (match acc with
      | Some best => if decide (h_Revision (sh_Header h) > h_Revision (sh_Header best)) then Some h else acc
      | None => Some h end)).
    destruct (foldl _ _ hs) as [best|].
    + destruct IH as (H1 & H2 & H3). destruct acc as [a|]; [case_decide|].
      * specialize (H2 _ eq_refl). split_and!; [right; set_solver|intros ? [= <-]; lia|].
        intros x [->|Hx]%elem_of_cons; auto.
      * specialize (H2 _ eq_refl). split_and!; [set_solver|intros ? [= <-]; lia|].
        intros x [->|Hx]%elem_of_cons; [lia|auto].
      * specialize (H2 _ eq_refl). split_and!; [right; set_solver|done|].
        intros x [->|Hx]%elem_of_cons; auto.
    + destruct IH as [IH _]. destruct acc; [case_decide|]; done.
Qed.

Lemma LatestHeader_inv id s h s' rev cts l :
  history_ok cfg rev (headers_of s id) cts l → tx_LatestHeader id s = (Ok h, s') →
  s' = s ∧ headers_of s id !! rev = Some h ∧ 0 < rev.
Proof.
  intros Hh. cbn. unfold LatestHeader, reading. intros [-> Hr]%found_inv. split; [done|].
  pose proof (latest_fold (range_map (headers_of s id)).*2 None) as Hf.
  destruct (foldl _ _ _) as [best|]; [injection Hr as <-|done].
  destruct Hf as ([?|Hin] & _ & Hmax); [done|].
  apply list_elem_of_fmap in Hin as ([k h'] & -> & Hin). apply elem_of_range_map in Hin. cbn [snd] in *.
  destruct (hi_header _ _ _ _ _ Hh _ _ Hin) as (Hk & _).
  assert (first_kept cfg rev ≤ k ≤ rev) as Hkr by (apply (hi_range _ _ _ _ _ Hh); eauto).
  assert (is_Some (headers_of s id !! rev)) as [top Htop].
  { apply (hi_range _ _ _ _ _ Hh). lia. }
  assert (k = rev) as ->; [|split; [done|unfold first_kept in Hkr; lia]].
  assert (h_Revision (sh_Header top) ≤ h_Revision (sh_Header h')) as Hle.
  { apply Hmax. apply list_elem_of_fmap. exists (rev, top). split; [done|]. by apply elem_of_range_map. }
  destruct (hi_header _ _ _ _ _ Hh _ _ Htop) as (Ht & _). lia.
Qed.

Lemma VerifyHeader_weaken l prev h :
  VerifyHeader l prev h = Ok tt →
  VerifyHeader l None h = Ok tt ∧ ∀ p, prev = Some p → verifyLink p h = Ok tt.
Proof.
  intros Hv. unfold VerifyHeader in *.
  apply rbind_ok in Hv as [[] [-> Hv]]. apply rbind_ok in Hv as [[] [-> Hv]].
  apply rbind_ok in Hv as [[] [-> Hv]]. apply rbind_ok in Hv as [[] [-> Hv]].
  apply rbind_ok in Hv as [[] [-> Hv]]. apply rbind_ok in Hv as [[] [Hl Hv]]. cbn [rbind].
  split; [done|]. intros p ->. done.
Qed.

(** ** The vault's history after an upload *)

(** The snapshots kept when the epoch grew: only the new one. *)
Definition keep_epoch (prev : option Header) (h : Header) (m : gmap Z bytes) : gmap Z bytes :=
  match prev with
  | Some p => if decide (h_VaultEpoch p < h_VaultEpoch h)
              then filter (λ kv, ¬ kv.1 < h_Revision h) m else m
  | None => m
  end.

Definition keep_recent (rev : Z) (m : gmap Z StoredHeader) : gmap Z StoredHeader :=
  if decide (rev > cfg_HeaderRetention cfg)
  then filter (λ kv, ¬ kv.1 < u64 (rev - cfg_HeaderRetention cfg + 1)) m else m.

Lemma keep_epoch_subseteq prev h m : keep_epoch prev h m ⊆ m.
Proof. destruct prev; cbn; [case_decide|]; [apply map_filter_subseteq|done..]. Qed.

Lemma keep_recent_subseteq rev m : keep_recent rev m ⊆ m.
Proof. unfold keep_recent. case_decide; [apply map_filter_subseteq|done]. Qed.

(** The header the new one names, and the snapshots it follows. *)
Record uploads (rev : Z) (hdrs : gmap Z StoredHeader) (cts : gmap Z bytes) (l : DeviceList)
    (prev : option Header) (h : StoredHeader) (c : bytes) : Prop := {
  up_rev : h_Revision (sh_Header h) = rev + 1;
  up_bound : rev + 1 < 2 ^ 64;
  up_digest : sh_Digest h = header_Digest (sh_Header h);
  up_index : 1 ≤ h_DeviceListIndex (sh_Header h);
  up_verified : VerifyHeader l prev (sh_Header h) = Ok tt;
  up_prev : match prev with
            | Some p => ∃ t, hdrs !! rev = Some t ∧ sh_Header t = p
            | None => rev = 0
            end;
  up_cipher : VerifyCiphertext (sh_Header h) c = Ok tt;
  up_size : 16 ≤ Z.of_nat (length c) ≤ MaxCiphertextBytes;
  up_room : total_bytes cts + Z.of_nat (length c) ≤ cfg_ByteBudget cfg;
}.

Lemma keep_recent_range rev hdrs cts l prev h c r :
  history_ok cfg rev hdrs cts l → uploads rev hdrs cts l prev h c →
  is_Some (keep_recent (rev + 1) (<[rev + 1 := h]> hdrs) !! r) ↔ first_kept cfg (rev + 1) ≤ r ≤ rev + 1.
Proof.
  intros Hh Hu. pose proof (hi_rev _ _ _ _ _ Hh). pose proof (up_bound _ _ _ _ _ _ _ Hu).
  pose proof (co_retention cfg Hcfg).
  assert (is_Some (<[rev + 1 := h]> hdrs !! r) ↔ rev + 1 = r ∨ first_kept cfg rev ≤ r ≤ rev) as Hins.
  { rewrite lookup_insert_is_Some', (hi_range _ _ _ _ _ Hh). done. }
  unfold keep_recent, first_kept in *. case_decide.
  - rewrite u64_small by (unfold is_u64; lia).
    assert (is_Some (filter (λ kv, ¬ kv.1 < rev + 1 - cfg_HeaderRetention cfg + 1) (<[rev + 1 := h]> hdrs) !! r)
            ↔ is_Some (<[rev + 1 := h]> hdrs !! r) ∧ ¬ r < rev + 1 - cfg_HeaderRetention cfg + 1) as Hf.
    { split; [intros [x [? ?]%map_lookup_filter_Some]; eauto|].
      intros [[x ?] ?]. exists x. by apply map_lookup_filter_Some. }
    rewrite Hf, Hins. lia.
  - rewrite Hins. lia.
Qed.

Lemma history_ok_upload rev hdrs cts l prev h c :
  history_ok cfg rev hdrs cts l → uploads rev hdrs cts l prev h c →
  history_ok cfg (rev + 1) (keep_recent (rev + 1) (<[rev + 1 := h]> hdrs))
    (keep_epoch prev (sh_Header h) (<[rev + 1 := c]> cts)) l.
Proof.
  intros Hh Hu. pose proof (hi_rev _ _ _ _ _ Hh) as Hrev.
  destruct (VerifyHeader_weaken _ _ _ (up_verified _ _ _ _ _ _ _ Hu)) as [Hv Hlink].
  assert (∀ r x, keep_recent (rev + 1) (<[rev + 1 := h]> hdrs) !! r = Some x →
    (r = rev + 1 ∧ x = h) ∨ (hdrs !! r = Some x ∧ first_kept cfg rev ≤ r ≤ rev)) as Hhdr.
  { intros r x Hx. pose proof (lookup_weaken _ _ _ _ Hx (keep_recent_subseteq _ _)) as Hx'.
    apply lookup_insert_Some in Hx' as [[<- <-]|[_ Hx']]; [by left|right].
    split; [done|]. apply (hi_range _ _ _ _ _ Hh). eauto. }
  assert (∀ r x, keep_epoch prev (sh_Header h) (<[rev + 1 := c]> cts) !! r = Some x →
    (r = rev + 1 ∧ x = c) ∨ (cts !! r = Some x ∧ 1 ≤ r ≤ rev)) as Hct.
  { intros r x Hx. pose proof (lookup_weaken _ _ _ _ Hx (keep_epoch_subseteq _ _ _)) as Hx'.
    apply lookup_insert_Some in Hx' as [[<- <-]|[_ Hx']]; [by left|right].
    split; [done|]. by apply (hi_cipher _ _ _ _ _ Hh _ _ Hx'). }
  assert (cts !! (rev + 1) = None) as Hnone.
  { destruct (cts !! (rev + 1)) eqn:E; [|done]. apply (hi_cipher _ _ _ _ _ Hh) in E. lia. }
  split.
  - pose proof (up_bound _ _ _ _ _ _ _ Hu). lia.
  - intros r. by eapply keep_recent_range.
  - intros r x [[-> ->]|[Hx _]]%Hhdr; [|by apply (hi_header _ _ _ _ _ Hh)].
    destruct Hu. split_and!; done.
  - intros r x x' [[-> ->]|[Hx Hr]]%Hhdr [[Hr' ->]|[Hx' Hr']]%Hhdr; [lia|lia| |by eapply (hi_link _ _ _ _ _ Hh)].
    assert (r = rev) as -> by lia. apply Hlink. pose proof (up_prev _ _ _ _ _ _ _ Hu) as Hp.
    destruct prev as [p|]; [|unfold first_kept in Hr; lia]. destruct Hp as (t & Ht & <-). congruence.
  - intros r x [[-> ->]|[_ ?]]%Hct; lia.
  - intros r x y [[-> ->]|[Hx Hr]]%Hct [[Hr' ->]|[Hy Hr']]%Hhdr; [apply Hu|lia|lia|].
    by eapply (hi_match _ _ _ _ _ Hh).
  - intros r x y top Hx Hy Htop.
    assert (top = h) as -> by (apply Hhdr in Htop as [[_ ?]|[_ ?]]; [done|lia]).
    destruct (Hhdr _ _ Hy) as [[-> ->]|[Hy' Hr]]; [done|].
    destruct (Hct _ _ Hx) as [[-> _]|[Hx' Hr']]; [lia|].
    pose proof (up_prev _ _ _ _ _ _ _ Hu) as Hp. destruct prev as [p|]; [|lia].
    destruct Hp as (t & Ht & Hp). rewrite (hi_epoch _ _ _ _ _ Hh _ _ _ _ Hx' Hy' Ht), Hp.
    unfold keep_epoch in Hx. case_decide as He.
    + apply map_lookup_filter_Some in Hx as [_ Hx]. cbn in Hx. rewrite (up_rev _ _ _ _ _ _ _ Hu) in Hx. lia.
    + specialize (Hlink p eq_refl). unfold verifyLink in Hlink. go_inv Hlink. dstable. lia.
  - intros _. assert (<[rev + 1 := c]> cts !! (rev + 1) = Some c) as Hc by apply lookup_insert_eq.
    exists c. unfold keep_epoch. destruct prev as [p|]; [case_decide|]; [|done..].
    apply map_lookup_filter_Some. split; [done|]. cbn. rewrite (up_rev _ _ _ _ _ _ _ Hu). lia.
  - etrans; [apply total_bytes_subseteq, keep_epoch_subseteq|]. rewrite total_bytes_insert by done. apply Hu.
  - intros r x [[-> ->]|[Hx _]]%Hct; [apply Hu|by apply (hi_size _ _ _ _ _ Hh r x)].
Qed.

(** Making room keeps the history valid. *)
Lemma history_ok_trim rev hdrs cts cts' l :
  history_ok cfg rev hdrs cts l → cts' ⊆ cts → (∀ r, rev ≤ r → cts' !! r = cts !! r) →
  history_ok cfg rev hdrs cts' l.
Proof.
  intros [? ? ? ? Hc Hm He Hcur Hb Hs] Hsub Hkeep.
  assert (∀ r c, cts' !! r = Some c → cts !! r = Some c) as Hw by (intros; by eapply lookup_weaken).
  split; eauto.
  - intros Hr. rewrite Hkeep by lia. auto.
  - etrans; [by apply total_bytes_subseteq|done].
Qed.

(** ** The transaction *)
Lemma effect_InsertHeader id h s u s' :
  keyed s → is_Some (st_vaults s !! id) → h_VaultID (sh_Header h) = id →
  tx_InsertHeader h s = (Ok u, s') →
  effect id (λ v, v) (on_headers <[h_Revision (sh_Header h) := h]>) s s'.
Proof.
  intros Hk Hv Hid [_ ->]%InsertHeader_inv. rewrite Hid. apply effect_headers; [done|done|..].
  - intros id' Hne. by rewrite lookup_insert_ne.
  - by rewrite lookup_insert_eq.
Qed.

Lemma effect_PutCiphertext id r c s u s' :
  keyed s → is_Some (st_vaults s !! id) → tx_PutCiphertext id r c s = (Ok u, s') →
  effect id (λ v, v) (on_ciphertexts <[r := c]>) s s'.
Proof.
  intros Hk Hv ->%updating_inv. apply effect_ciphertexts; [done|done|..].
  - intros id' Hne. by rewrite lookup_insert_ne.
  - by rewrite lookup_insert_eq.
Qed.

Lemma effect_keep_epoch id prev h s u s' :
  keyed s → is_Some (st_vaults s !! id) →
  match prev with
  | Some p => if decide (h_VaultEpoch p < h_VaultEpoch h)
              then tx_DeleteCiphertextsBefore id (h_Revision h) else mreturn tt
  | None => mreturn tt
  end s = (Ok u, s') →
  effect id (λ v, v) (on_ciphertexts (keep_epoch prev h)) s s'.
Proof.
  intros Hk Hv Hx. unfold keep_epoch.
  destruct prev as [p|]; [case_decide|]; [|apply mreturn_ok in Hx as [_ ->]; by apply effect_refl..].
  apply updating_inv in Hx as ->. apply effect_ciphertexts; [done|done|..].
  - intros id' Hne. by rewrite lookup_alter_ne.
  - unfold ciphertexts_of. rewrite lookup_alter_eq.
    destruct (st_ciphertexts s !! id); [done|]. cbn. by rewrite map_filter_empty.
Qed.

Lemma effect_keep_recent id rev s u s' :
  keyed s → is_Some (st_vaults s !! id) →
  (if decide (rev > cfg_HeaderRetention cfg)
   then tx_PruneHeaders id (u64 (rev - cfg_HeaderRetention cfg + 1)) else mreturn tt) s = (Ok u, s') →
  effect id (λ v, v) (on_headers (keep_recent rev)) s s'.
Proof.
  intros Hk Hv Hx. unfold keep_recent.
  case_decide; [|apply mreturn_ok in Hx as [_ ->]; by apply effect_refl].
  apply updating_inv in Hx as ->. apply effect_headers; [done|done|..].
  - intros id' Hne. by rewrite lookup_alter_ne.
  - unfold headers_of. rewrite lookup_alter_eq.
    destruct (st_headers s !! id); [done|]. cbn. by rewrite map_filter_empty.
Qed.

Lemma previous_header_inv v h s p s' cts l :
  history_ok cfg (v_CurrentRevision v) (headers_of s (v_ID v)) cts l →
  previous_header v h s = (Ok p, s') →
  s' = s ∧ match p with
           | Some p => ∃ t, headers_of s (v_ID v) !! v_CurrentRevision v = Some t ∧ sh_Header t = p ∧
                            h_PreviousDigest h = sh_Digest t
           | None => v_CurrentRevision v = 0
           end.
Proof.
  intros Hh Hx. unfold previous_header in Hx. case_decide as Hr.
  - called Hx t s1 as Ht. apply (LatestHeader_inv _ _ _ _ _ _ _ Hh) in Ht as (-> & Ht & _).
    passed Hx as Hp%dec_stable. apply mreturn_ok in Hx as [-> ->]. eauto.
  - apply mreturn_ok in Hx as [-> ->]. pose proof (hi_rev _ _ _ _ _ Hh). split; [done|lia].
Qed.

Lemma ciphertext_size h c :
  header_Validate h = Ok tt → VerifyCiphertext h c = Ok tt → Z.of_nat (length c) < 2 ^ 64 →
  16 ≤ Z.of_nat (length c) ≤ MaxCiphertextBytes.
Proof.
  intros Hv Hc Hl. unfold VerifyCiphertext in Hc. apply rbind_ok in Hc as [[] [Hlen%rfail_if_ok _]].
  apply dec_stable in Hlen. rewrite u64_small in Hlen by (unfold is_u64; lia).
  unfold header_Validate in Hv.
  do 6 (apply rbind_ok in Hv as [[] [_ Hv]]). apply rbind_ok in Hv as [[] [Hb%rfail_if_ok _]]. lia.
Qed.

(** What an accepted upload did. *)
Record upload_result (s : state) (a : Actor) (input : UploadInput) (acc : Accepted) (s' : state)
    (l : DeviceList) (prev : option Header) (cts : gmap Z bytes) : Prop := {
  ur_vault : st_vaults s !! v_ID (a_Vault a) = Some (a_Vault a);
  ur_old : vault_ok cfg (a_Vault a) (slice_of s (v_ID (a_Vault a))) l;
  ur_vaultID : h_VaultID (upi_Header input) = v_ID (a_Vault a);
  ur_deviceID : h_DeviceID (upi_Header input) = d_DeviceID (a_Device a);
  ur_epoch : h_VaultEpoch (upi_Header input) = v_Epoch (a_Vault a);
  ur_head : h_DeviceListIndex (upi_Header input) = v_HeadIndex (a_Vault a);
  ur_trimmed : cts ⊆ sl_ciphertexts (slice_of s (v_ID (a_Vault a)));
  ur_kept : ∀ r, v_CurrentRevision (a_Vault a) ≤ r →
    cts !! r = sl_ciphertexts (slice_of s (v_ID (a_Vault a))) !! r;
  ur_uploads : uploads (v_CurrentRevision (a_Vault a)) (sl_headers (slice_of s (v_ID (a_Vault a)))) cts l prev
    (ac_Header acc) (upi_Ciphertext input);
  ur_stored : sh_Header (ac_Header acc) = upi_Header input;
  ur_receipt : ac_Receipt acc = sh_Receipt (ac_Header acc) ∧ sh_Receipt (ac_Header acc) =
    EncodeToString (receipt_Sign
      {| rc_VaultID := v_ID (a_Vault a); rc_Revision := h_Revision (upi_Header input);
         rc_HeaderDigest := header_Digest (upi_Header input);
         rc_VaultEpoch := h_VaultEpoch (upi_Header input);
         rc_AcceptedAt := u64 (unix_seconds (sh_AcceptedAt (ac_Header acc))) |} (cfg_ReceiptKey cfg));
  ur_returned : ac_Vault acc = set_v_revision (h_Revision (upi_Header input)) (clk 4%nat) (a_Vault a);
  ur_effect : effect (v_ID (a_Vault a)) (λ _, ac_Vault acc)
    (λ sl, on_headers (λ m, keep_recent (h_Revision (upi_Header input))
                              (<[h_Revision (upi_Header input) := ac_Header acc]> m))
             (on_ciphertexts (λ _, keep_epoch prev (upi_Header input)
                                     (<[h_Revision (upi_Header input) := upi_Ciphertext input]> cts)) sl)) s s';
}.

Lemma upload_inv caller q input s acc s' :
  Inv cfg s → Upload_tx cfg clk caller q input s = (Ok acc, s') →
  ∃ nn a l prev cts, acts clk s caller a ∧ d_State (a_Device a) = DeviceApproved ∧ a_Pairing a = None ∧
    Inv cfg (set_nonces nn s) ∧ upload_result (set_nonces nn s) a input acc s' l prev cts.
Proof.
  intros Hi Hx. unfold Upload_tx in Hx.
  called Hx a s1 as Ha. apply signedActor_inv in Ha as (Ha & _ & ->); [|apply Hi].
  set (nn := <[_ := _]> (st_nonces s)) in Hx. exists nn, a. clearbody nn. apply (Inv_nonces _ _ nn) in Hi.
  assert (st_vaults (set_nonces nn s) !! v_ID (a_Vault a) = Some (a_Vault a)) as Hv by apply Ha.
  called Hx ? s2 as Hr. apply requireActivated_inv in Hr as (-> & Hpn & Hst & _).
  assert (acts clk s caller a ∧ d_State (a_Device a) = DeviceApproved ∧ a_Pairing a = None ∧
          Inv cfg (set_nonces nn s)) as Hact by done. clear Ha Hst Hpn.
  set (s1 := set_nonces nn s) in *. clearbody s1.
  cbv zeta in Hx. set (v := a_Vault a) in *. set (id := v_ID v) in *.
  set (h := upi_Header input) in *. set (c := upi_Ciphertext input) in *.
  lifted Hx [] as Hval%wrap_ok. passed Hx as Hg. apply Decidable.not_or in Hg as [Hhv%dec_stable Hhd%dec_stable].
  passed Hx as Hg. apply Decidable.not_or in Hg as [Hnext%dec_stable Hg].
  apply Decidable.not_or in Hg as [Hep%dec_stable Hidx%dec_stable].
  lifted Hx [] as Hvc%wrap_ok. called Hx l s2 as Hload.
  destruct (loadList_inv _ _ _ _ _ _ Hi Hv Hload) as [-> (l0 & [= <-] & Hl)].
  pose proof (vo_history _ _ _ _ Hl) as Hh.
  called Hx prev s2 as Hprev. apply (previous_header_inv _ _ _ _ _ _ _ Hh) in Hprev as [-> Hprev].
  lifted Hx [] as Hver%wrap_ok. exists l, prev.
  apply checkedNext_Some in Hnext as [Hnext Hmax]; [|apply (hi_rev _ _ _ _ _ Hh)].
  called Hx ? s2 as Hroom.
  assert (Z.of_nat (length c) ≤ MaxCiphertextBytes ∨ Z.of_nat (length c) > cfg_ByteBudget cfg) as Hsz.
  { destruct (decide (Z.of_nat (length c) > cfg_ByteBudget cfg)); [by right|left].
    pose proof (co_budget_fits cfg Hcfg). assert (0 ≤ MaxCiphertextBytes) by done.
    eapply ciphertext_size; [done|done|lia]. }
  pose proof (Nat2Z.is_nonneg (length c)) as Hc0.
  apply (makeRoom_spec cfg Hcfg v _ s1 _ _ _ l (proj1 Hi) ltac:(eauto) Hc0 Hsz Hh) in Hroom.
  destruct Hroom as [(_ & (f & E1 & Hsub & Hkeep) & Hfit)|[? _]]; [|done].
  assert (Hv2 := effect_vault _ _ _ _ _ _ E1 Hv).
  assert (ciphertexts_of s2 id = f (ciphertexts_of s1 id)) as Hct.
  { destruct E1 as (_ & _ & _ & E1). by apply (f_equal sl_ciphertexts) in E1. }
  fold id in Hfit, E1, Hsub. rewrite Hct in Hfit. exists (f (ciphertexts_of s1 id)).
  called Hx ? s3 as E2. eapply (effect_InsertHeader id) in E2; [|apply E1|eauto|done].
  pose proof (effect_trans _ _ _ _ _ _ _ _ E1 E2) as E12. pose proof (effect_vault _ _ _ _ _ _ E12 Hv) as Hv3.
  called Hx ? s4 as E3. eapply (effect_PutCiphertext id) in E3; [|apply E2|eauto].
  pose proof (effect_trans _ _ _ _ _ _ _ _ E12 E3) as E13. pose proof (effect_vault _ _ _ _ _ _ E13 Hv) as Hv4.
  called Hx ? s5 as E4. eapply (effect_keep_epoch id prev h) in E4; [|apply E3|eauto].
  pose proof (effect_trans _ _ _ _ _ _ _ _ E13 E4) as E14. pose proof (effect_vault _ _ _ _ _ _ E14 Hv) as Hv5.
  called Hx ? s6 as E5. eapply (effect_UpdateVault_inv id v) in E5; [|apply E4|done|done|done].
  pose proof (effect_trans _ _ _ _ _ _ _ _ E14 E5) as E15. pose proof (effect_vault _ _ _ _ _ _ E15 Hv) as Hv6.
  called Hx ? s7 as E6. eapply (effect_keep_recent id) in E6; [|apply E5|eauto].
  pose proof (effect_trans _ _ _ _ _ _ _ _ E15 E6) as E16.
  apply mreturn_ok in Hx as [-> ->]. split_and!; [apply Hact..|].
  split; cbn [ac_Header ac_Vault ac_Receipt sh_Header sh_Receipt sh_AcceptedAt]; try done.
  split; cbn [sh_Header sh_Digest]; try done.
  - unfold max_uint64 in Hmax. fold v. lia.
  - fold h. rewrite Hidx, (lo_head _ _ _ (vo_list _ _ _ _ Hl)).
    pose proof (list_ok_nonempty _ _ _ (vo_list _ _ _ _ Hl)) as Hne. unfold list_length.
    destruct (l_digests l); [done|cbn; lia].
  - destruct prev as [p|]; [|done]. destruct Hprev as (t & ? & ? & _). eauto.
  - destruct Hsz; [|pose proof (total_bytes_nonneg (f (ciphertexts_of s1 id))); fold c in Hfit; lia].
    assert (0 ≤ MaxCiphertextBytes < 2 ^ 64) by done. eapply ciphertext_size; [done|done|fold c; lia].
Qed.

Lemma preserves_Upload caller q input : preserves cfg clk (cl_OwnerKey caller) (Upload_tx cfg clk caller q input).
Proof.
  intros s acc s' Hi Hx.
  destruct (upload_inv _ _ _ _ _ _ Hi Hx) as (nn & a & l & prev & cts & Ha & _ & _ & Hi1 & Hr).
  rewrite <- (ac_owner _ _ _ _ Ha). change (isolated clk ?o s) with (isolated clk o (set_nonces nn s)).
  destruct Hr as [Hv [Hlo ? ? ? ? Hh] ? ? ? ? Hsub Hkeep Hup Hst _ Hret Heff].
  eapply (Inv_effect cfg clk (v_ID (a_Vault a))); [by apply Inv_except_intro|exact Heff|exact Hv|].
  exists l. rewrite Hret. pose proof (up_rev _ _ _ _ _ _ _ Hup) as Hrev. rewrite Hst in Hrev.
  split; try done; [by destruct Hlo|]. cbn [v_CurrentRevision set_v_revision sl_headers sl_ciphertexts on_headers on_ciphertexts].
  rewrite Hrev, <- Hst. eapply history_ok_upload; [|done]. by eapply history_ok_trim.
Qed.
End Upload.
