(* ===== verification/Steps.v ===== *)
(** * The service as a state machine

    Every public operation of the service on the in-memory store is a step.  A failed operation leaves
    the store as it was, except that the nonce of a verified request stays spent; a read-only
    operation changes nothing; and every store that any sequence of operations can reach from the empty
    one satisfies the invariant. *)

From stdpp Require Import base list gmap strings sorting relations.
From Stdlib Require Import ZArith Lia Strings.Byte.
From S2P Require Import Prelude GoStd Canonical DeviceList DeviceListFacts DeviceListThms Header Request.
From S2P Require Import SyncTypes MemStore MemStoreFacts Slices NonceKeeper Service Erasure VaultInv VaultExtend.
From S2P Require Import LoadList Actors InvPairing InvCreate InvApprove InvRekey MakeRoom InvUpload.
Local Open Scope Z_scope.
Local Open Scope go_scope.

(** ** Read-only bodies *)
Definition readonly {S A} (m : M S A) : Prop := ∀ s, (m s).2 = s.

Section ReadOnly.
Context {S : Type}.

Lemma readonly_return {A} (a : A) : readonly (S := S) (mreturn a).
Proof. done. Qed.
Lemma readonly_fail {A} e : readonly (S := S) (A := A) (mfail e).
Proof. done. Qed.
Lemma readonly_fail_if P `{!Decision P} e : readonly (S := S) (mfail_if P e).
Proof. intros s. unfold mfail_if. by case_decide. Qed.
Lemma readonly_bind {A B} (m : M S A) (k : A → M S B) :
  readonly m → (∀ a, readonly (k a)) → readonly (mbindM m k).
Proof.
  intros Hm Hk s. unfold mbindM. specialize (Hm s). destruct (m s) as [[a|e] s1]; cbn in Hm; subst s1; [apply Hk|done].
Qed.
Lemma readonly_try {A} (m : M S A) : readonly m → readonly (mtry m).
Proof. intros Hm s. unfold mtry. specialize (Hm s). by destruct (m s). Qed.
End ReadOnly.

Lemma readonly_reading {A} (f : MemStore.state → M MemStore.state A) : (∀ s, readonly (f s)) → readonly (reading f).
Proof. intros Hf s. apply Hf. Qed.
Lemma readonly_found {A} (o : option A) : readonly (found o).
Proof. by destruct o. Qed.

Create HintDb readonly discriminated.
#[export] Hint Resolve readonly_return readonly_fail readonly_fail_if readonly_found : readonly.
Ltac readonly_tac :=
  intros;
  repeat first
    [ solve [eauto with readonly nocore]
    | apply readonly_bind; [|intros] | apply readonly_try
    | progress cbn beta iota zeta
    | match goal with
      | |- readonly (match ?x with _ => _ end) => destruct x
      end ].

(** ** The public operations *)
Section Steps.
Context `{Crypto} `{MapRange}.
Implicit Types s : state.

Lemma readonly_tx :
  (∀ o, readonly (tx_VaultByOwner (S := state) o)) ∧ (∀ v t, readonly (tx_DeviceByToken (S := state) v t)) ∧
  (∀ v t, readonly (tx_PairingByToken (S := state) v t)) ∧ (∀ v, readonly (tx_Pairings (S := state) v)) ∧
  (∀ v d, readonly (tx_KeyPackage (S := state) v d)) ∧ (∀ v, readonly (tx_Checkpoints (S := state) v)) ∧
  (∀ v a n, readonly (tx_DeviceListEntries (S := state) v a n)) ∧
  (∀ v a n, readonly (tx_Headers (S := state) v a n)) ∧ (∀ v n, readonly (tx_Header (S := state) v n)) ∧
  (∀ v n, readonly (tx_Ciphertext (S := state) v n)) ∧ (∀ v, readonly (tx_Devices (S := state) v)) ∧
  (∀ v, readonly (tx_CiphertextBytes (S := state) v)).
Proof.
  split_and!; intros; apply readonly_reading; intros; cbv zeta; try case_decide; auto with readonly nocore.
Qed.

Ltac readonly_op := pose proof readonly_tx as (?&?&?&?&?&?&?&?&?&?&?&?); readonly_tac.

Lemma readonly_actorFor clk caller : readonly (actorFor (T := state) clk caller).
Proof. unfold actorFor, not_found_as. readonly_op. Qed.
Lemma readonly_requireApproved a : readonly (requireApproved (T := state) a).
Proof. unfold requireApproved. readonly_tac. Qed.

Lemma readonly_views clk caller after limit owner :
  readonly (PairingStatus_tx (T := state) clk caller) ∧ readonly (PendingPairings_tx (T := state) clk caller) ∧
  readonly (KeyPackage_tx (T := state) clk caller) ∧ readonly (Checkpoints_tx (T := state) clk caller) ∧
  readonly (DeviceList_tx (T := state) clk caller after limit) ∧
  readonly (Headers_tx (T := state) clk caller after limit) ∧ readonly (Snapshot_tx (T := state) clk caller) ∧
  readonly (Devices_tx (T := state) clk caller) ∧ readonly (VaultState_tx (T := state) clk caller) ∧
  readonly (Overview_tx (T := state) owner).
Proof.
  pose proof readonly_actorFor. pose proof readonly_requireApproved.
  split_and!; unfold PairingStatus_tx, PendingPairings_tx, KeyPackage_tx, Checkpoints_tx, DeviceList_tx, Headers_tx,
    Snapshot_tx, Devices_tx, VaultState_tx, Overview_tx; readonly_op.
Qed.

(** What [Service] does with a transaction body, seen from the store. *)
Lemma update_spec {A} (m1 : M (tracked state) A) (m2 : M state A) s :
  erases m1 m2 →
  (update m1 s).1 = (m2 s).1 ∧
  match (m2 s).1 with
  | Ok _ => (update m1 s).2 = (m2 s).2
  | Err _ => ∃ nn, (update m1 s).2 = set_nonces nn s ∧
                   (nn = st_nonces s ∨ ∃ k until, nn = <[k := until]> (st_nonces s))
  end.
Proof.
  intros He. unfold update, keeper_Update, storage_Update, memStorage, mem_Update. cbn.
  assert (clone s = s) as -> by (by destruct s).
  destruct (He s None) as [H1 H2]. destruct (m1 (s, None)) as [r [s1 sp]], (m2 s) as [r2 s2].
  cbn in H1, H2. subst r2 s2. destruct r as [a|e]; [by destruct sp|].
  assert (s = set_nonces (st_nonces s) s) as Hs by (by destruct s).
  destruct sp as [sp|]; cbn; [|by eauto 10]. split; [done|].
  unfold keep_nonce, storage_Update, memStorage, mem_Update. assert (clone s = s) as -> by (by destruct s).
  destruct (tx_RecordNonce (sn_scope sp) (sn_nonce sp) (sn_now sp) (sn_expires sp) s) as [r s2] eqn:En.
  destruct (RecordNonce_inv _ _ _ _ _ _ _ En) as [(-> & -> & _)|(-> & -> & _)]; cbn; [by eauto|].
  eexists. split; [done|]. right. eauto.
Qed.

(** A call of a public operation, with its inputs and the clock readings it gets. *)
Inductive operation :=
| OpCreateVault (clk : nat → time) (caller : Caller) (q : SignedRequest) (input : CreateVaultInput)
| OpBeginPairing (clk : nat → time) (caller : Caller) (q : SignedRequest) (offer : PairingOffer)
| OpPairingStatus (clk : nat → time) (caller : Caller)
| OpPendingPairings (clk : nat → time) (caller : Caller)
| OpAnswerPairing (clk : nat → time) (caller : Caller) (q : SignedRequest) (deviceID : string) (message : bytes)
| OpConfirmPairing (clk : nat → time) (caller : Caller) (q : SignedRequest) (message : bytes)
| OpCancelPairing (clk : nat → time) (caller : Caller) (q : SignedRequest) (deviceID : string)
| OpApprove (clk : nat → time) (caller : Caller) (q : SignedRequest) (input : ApproveInput)
| OpKeyPackage (clk : nat → time) (caller : Caller)
| OpActivate (clk : nat → time) (caller : Caller) (q : SignedRequest) (input : ActivateInput)
| OpRemove (clk : nat → time) (caller : Caller) (q : SignedRequest) (input : RemoveInput)
| OpRotate (clk : nat → time) (caller : Caller) (q : SignedRequest) (input : RotateInput)
| OpUpgradeKey (clk : nat → time) (caller : Caller) (q : SignedRequest) (input : UpgradeKeyInput)
| OpUpload (clk : nat → time) (caller : Caller) (q : SignedRequest) (input : UploadInput)
| OpPutCheckpoint (clk : nat → time) (caller : Caller) (q : SignedRequest) (checkpoint : Checkpoint)
| OpCheckpoints (clk : nat → time) (caller : Caller)
| OpDeviceList (clk : nat → time) (caller : Caller) (after limit : Z)
| OpHeaders (clk : nat → time) (caller : Caller) (after limit : Z)
| OpSnapshot (clk : nat → time) (caller : Caller)
| OpDevices (clk : nat → time) (caller : Caller)
| OpVaultState (clk : nat → time) (caller : Caller)
| OpReset (clk : nat → time) (caller : Caller) (q : SignedRequest) (input : ResetInput)
| OpMaintain (clk : nat → time)
| OpOverview (owner : string)
| OpAdminReset (owner : string).

(** The error a call ends with, if any, and the store it leaves. *)
Definition outcome {A} (rw : result A * state) : option error * state :=
  (match rw.1 with Ok _ => None | Err e => Some e end, rw.2).

Definition exec (cfg : Config) (o : operation) (s : state) : option error * state :=
  match o with
  | OpCreateVault clk caller q input => outcome (CreateVault clk caller q input s)
  | OpBeginPairing clk caller q offer => outcome (BeginPairing clk caller q offer s)
  | OpPairingStatus clk caller => outcome (PairingStatus clk caller s)
  | OpPendingPairings clk caller => outcome (PendingPairings clk caller s)
  | OpAnswerPairing clk caller q d m => outcome (AnswerPairing clk caller q d m s)
  | OpConfirmPairing clk caller q m => outcome (ConfirmPairing clk caller q m s)
  | OpCancelPairing clk caller q d => outcome (CancelPairing clk caller q d s)
  | OpApprove clk caller q input => outcome (Approve clk caller q input s)
  | OpKeyPackage clk caller => outcome (GetKeyPackageOp clk caller s)
  | OpActivate clk caller q input => outcome (Activate clk caller q input s)
  | OpRemove clk caller q input => outcome (Remove clk caller q input s)
  | OpRotate clk caller q input => outcome (Rotate clk caller q input s)
  | OpUpgradeKey clk caller q input => outcome (UpgradeKey clk caller q input s)
  | OpUpload clk caller q input => outcome (Upload cfg clk caller q input s)
  | OpPutCheckpoint clk caller q c => outcome (PutCheckpointOp clk caller q c s)
  | OpCheckpoints clk caller => outcome (CheckpointsOp clk caller s)
  | OpDeviceList clk caller after limit => outcome (DeviceListOp clk caller after limit s)
  | OpHeaders clk caller after limit => outcome (HeadersOp clk caller after limit s)
  | OpSnapshot clk caller => outcome (Snapshot clk caller s)
  | OpDevices clk caller => outcome (DevicesOp clk caller s)
  | OpVaultState clk caller => outcome (VaultState clk caller s)
  | OpReset clk caller q input => outcome (Reset clk caller q input s)
  | OpMaintain clk => outcome (Maintain clk s)
  | OpOverview owner => outcome (Overview owner s)
  | OpAdminReset owner => outcome (AdminReset owner s)
  end.

(** One call, and the stores that calls can lead to from the empty one. *)
Definition sync_step (cfg : Config) (s s' : state) : Prop := ∃ o, s' = (exec cfg o s).2.
Definition reachable (cfg : Config) (s : state) : Prop := rtc (sync_step cfg) newState s.

(** The clock readings a call gets. *)
Definition op_clock (o : operation) : nat → time :=
  match o with
  | OpCreateVault clk _ _ _ | OpBeginPairing clk _ _ _ | OpPairingStatus clk _ | OpPendingPairings clk _
  | OpAnswerPairing clk _ _ _ _ | OpConfirmPairing clk _ _ _ | OpCancelPairing clk _ _ _
  | OpApprove clk _ _ _ | OpKeyPackage clk _ | OpActivate clk _ _ _ | OpRemove clk _ _ _
  | OpRotate clk _ _ _ | OpUpgradeKey clk _ _ _ | OpUpload clk _ _ _ | OpPutCheckpoint clk _ _ _
  | OpCheckpoints clk _ | OpDeviceList clk _ _ _ | OpHeaders clk _ _ _ | OpSnapshot clk _ | OpDevices clk _
  | OpVaultState clk _ | OpReset clk _ _ _ | OpMaintain clk => clk
  | OpOverview _ | OpAdminReset _ => λ _, 0
  end.

(** Whose vault a call works on; [Maintain] works on all of them. *)
Definition op_owner (o : operation) : option string :=
  match o with
  | OpCreateVault _ caller _ _ | OpBeginPairing _ caller _ _ | OpPairingStatus _ caller
  | OpPendingPairings _ caller | OpAnswerPairing _ caller _ _ _ | OpConfirmPairing _ caller _ _
  | OpCancelPairing _ caller _ _ | OpApprove _ caller _ _ | OpKeyPackage _ caller | OpActivate _ caller _ _
  | OpRemove _ caller _ _ | OpRotate _ caller _ _ | OpUpgradeKey _ caller _ _ | OpUpload _ caller _ _
  | OpPutCheckpoint _ caller _ _ | OpCheckpoints _ caller | OpDeviceList _ caller _ _ | OpHeaders _ caller _ _
  | OpSnapshot _ caller | OpDevices _ caller | OpVaultState _ caller | OpReset _ caller _ _ =>
      Some (cl_OwnerKey caller)
  | OpMaintain _ => None
  | OpOverview owner | OpAdminReset owner => Some owner
  end.

(** Every call is a read-only body or the erasure of a tracked body. *)
Inductive described (cfg : Config) (o : operation) : Prop :=
| described_view A (m : M state A) :
    readonly m → (∀ s, exec cfg o s = outcome (view m s)) → described cfg o
| described_update A (m1 : M (tracked state) A) (m2 : M state A) :
    erases m1 m2 → (cfg_ok cfg → ∀ owner, op_owner o = None ∨ op_owner o = Some owner → preserves cfg (op_clock o) owner m2) → (∀ s, exec cfg o s = outcome (update m1 s)) →
    described cfg o.

Local Ltac viewed := eapply described_view; [|done].
Local Ltac updated er pr := eapply described_update; [er|intros Hcfg ? [[=]|[= <-]]; pr|done].

Lemma exec_described cfg o : described cfg o.
Proof.
  pose proof readonly_views as Hv. destruct o.
  - updated ltac:(apply (erases_CreateVault (S := state))) ltac:(by apply preserves_CreateVault).
  - updated ltac:(apply (erases_BeginPairing (S := state))) ltac:(by apply preserves_BeginPairing).
  - viewed. apply (Hv clk caller 0 0 "").
  - viewed. apply (Hv clk caller 0 0 "").
  - updated ltac:(apply (erases_AnswerPairing (S := state))) ltac:(apply preserves_AnswerPairing).
  - updated ltac:(apply (erases_ConfirmPairing (S := state))) ltac:(apply preserves_ConfirmPairing).
  - updated ltac:(apply (erases_CancelPairing (S := state))) ltac:(apply preserves_CancelPairing).
  - updated ltac:(apply (erases_Approve (S := state))) ltac:(apply preserves_Approve).
  - viewed. apply (Hv clk caller 0 0 "").
  - updated ltac:(apply (erases_Activate (S := state))) ltac:(apply preserves_Activate).
  - updated ltac:(apply (erases_rekey (S := state))) ltac:(apply preserves_rekey; by left).
  - updated ltac:(apply (erases_rekey (S := state))) ltac:(apply preserves_rekey; by right).
  - updated ltac:(apply (erases_UpgradeKey (S := state))) ltac:(apply preserves_UpgradeKey).
  - updated ltac:(apply (erases_Upload (S := state))) ltac:(by apply preserves_Upload).
  - updated ltac:(apply (erases_PutCheckpoint (S := state))) ltac:(apply preserves_PutCheckpoint).
  - viewed. apply (Hv clk caller 0 0 "").
  - viewed. apply (Hv clk caller after limit "").
  - viewed. apply (Hv clk caller after limit "").
  - viewed. apply (Hv clk caller 0 0 "").
  - viewed. apply (Hv clk caller 0 0 "").
  - viewed. apply (Hv clk caller 0 0 "").
  - updated ltac:(apply (erases_Reset (S := state))) ltac:(apply preserves_Reset).
  - eapply described_update; [apply (erases_Maintain (S := state))|intros; apply preserves_Maintain|done].
  - viewed. apply (Hv (λ _, 0) {| cl_OwnerKey := ""; cl_TokenDeviceID := ""; cl_Token := "" |} 0 0 owner).
  - updated ltac:(apply (erases_AdminReset (S := state))) ltac:(apply preserves_AdminReset).
Qed.

Lemma update_Inv cfg clk owner {A} (m1 : M (tracked state) A) m2 s :
  erases m1 m2 → preserves cfg clk owner m2 → Inv cfg s →
  Inv cfg (update m1 s).2 ∧ isolated clk owner s (update m1 s).2.
Proof.
  intros He Hp Hi. destruct (update_spec m1 m2 s He) as [_ Hu].
  destruct (m2 s) as [[a|e] s2] eqn:E; cbn in Hu.
  - rewrite Hu. by eapply Hp.
  - destruct Hu as (nn & -> & _). split; [by apply Inv_nonces|by apply isolated_same].
Qed.

Lemma view_state {A} (m : M state A) s : readonly m → (view m s).2 = s.
Proof. intros Hr. apply Hr. Qed.

Lemma exec_Inv cfg o s :
  cfg_ok cfg → Inv cfg s →
  Inv cfg (exec cfg o s).2 ∧
  ∀ owner, op_owner o = None ∨ op_owner o = Some owner → isolated (op_clock o) owner s (exec cfg o s).2.
Proof.
  intros Hcfg Hi. destruct (exec_described cfg o) as [A m Hr He|A m1 m2 He Hp Hx].
  - rewrite He. cbn. rewrite view_state by done. split; [done|]. intros. by apply isolated_same.
  - rewrite Hx. cbn. split.
    + destruct (op_owner o) as [w|] eqn:Ew.
      * by eapply (update_Inv cfg (op_clock o) w); [|apply Hp; rewrite ?Ew; auto|].
      * by eapply (update_Inv cfg (op_clock o) ""); [|apply Hp; rewrite ?Ew; auto|].
    + intros owner Ho. by eapply update_Inv; [|apply Hp|].
Qed.

Lemma sync_step_Inv cfg s s' : cfg_ok cfg → Inv cfg s → sync_step cfg s s' → Inv cfg s'.
Proof. intros Hcfg Hi [o ->]. by apply exec_Inv. Qed.

(** A successful call is a successful run of its body. *)
Lemma update_ok {A} (m1 : M (tracked state) A) m2 s a s' :
  erases m1 m2 → update m1 s = (Ok a, s') → m2 s = (Ok a, s').
Proof.
  intros He Hu. destruct (update_spec m1 m2 s He) as [H1 H2]. rewrite Hu in H1, H2. cbn in H1, H2.
  destruct (m2 s) as [r s2]. cbn in *. subst r. by rewrite H2.
Qed.

Lemma reachable_Inv cfg s : cfg_ok cfg → reachable cfg s → Inv cfg s.
Proof.
  intros Hcfg Hr. unfold reachable in Hr. remember newState as s0 eqn:E0.
  assert (Inv cfg s0) as Hi by (subst; apply Inv_empty). clear E0.
  induction Hr; [done|]. eauto using sync_step_Inv.
Qed.
End Steps.
