(* ===== verification/Fixtures.v ===== *)
(** * A concrete run

    An instance of [Crypto] that can be evaluated, and a scenario on it: a device creates a vault,
    pairs a second device, uploads a snapshot, and removes the second device again.  The witnesses of
    the theorems are taken from here. *)

From stdpp Require Import base list gmap strings sorting.
From Stdlib Require Import ZArith Lia Strings.Byte.
From S2P Require Import Prelude GoStd Canonical DeviceList Header Request.
From S2P Require Import SyncTypes MemStore NonceKeeper Service VaultInv Steps.
Local Open Scope Z_scope.

(** ** Cryptography *)
Definition toy_hash (m : bytes) : bytes :=
  be_bytes 32 (foldl (λ a b, Z.land (a * 33 + byte_Z b + 1) 4294967295) 7 m) [].
Definition toy_pad (key : bytes) : bytes := resize 32 x00 key.

Lemma be_bytes_length n v out : length (be_bytes n v out) = (n + length out)%nat.
Proof. revert v out. induction n as [|n IH]; intros v out; cbn; [done|]. rewrite IH. cbn. lia. Qed.

#[export] Instance toy_crypto : Crypto.
Proof.
  refine {| sha256 := toy_hash;
            ed25519_Public := toy_pad;
            ed25519_Sign := λ key m, toy_pad key ++ toy_hash m;
            ed25519_Verify := λ pub m sig, bool_decide (sig = toy_pad pub ++ toy_hash m) |}.
  - intros m. unfold toy_hash. rewrite be_bytes_length. done.
  - intros key m. rewrite length_app. unfold toy_pad, toy_hash. rewrite length_resize, be_bytes_length. done.
  - intros key _. apply length_resize.
  - intros key m Hk. apply bool_decide_eq_true. f_equal. unfold toy_pad.
    by rewrite resize_resize.
Defined.

(** ** Names *)
Definition cfg0 : Config :=
  {| cfg_ReceiptKey := replicate 64 x2a; cfg_ByteBudget := 40; cfg_HeaderRetention := 2 |}.
Definition keyA : bytes := replicate 64 x61.
Definition keyB : bytes := replicate 64 x62.
Definition vaultID0 : string := "vault-0000000000".
Definition deviceA : string := "device-aaaaaaaaaa".
Definition deviceB : string := "device-bbbbbbbbbb".
Definition callerA : Caller := {| cl_OwnerKey := "alice"; cl_TokenDeviceID := "phone"; cl_Token := "token-a" |}.
Definition callerB : Caller := {| cl_OwnerKey := "alice"; cl_TokenDeviceID := "laptop"; cl_Token := "token-b" |}.
(** The clock stands still at a whole second. *)
Definition at_second (t : Z) : nat → Z := λ _, t * second.
Definition clk0 : nat → Z := at_second 1000.

Definition nonce_of (n : Z) : string := EncodeToString (resize 16 x00 [byte_of_Z n]).
Definition signed (key : bytes) (caller : Caller) (n : Z) : SignedRequest :=
  let q := {| r_Method := "POST"; r_Target := "/v3/sync"; r_Body := [x7b]; r_Token := cl_Token caller;
              r_Timestamp := 1000; r_Nonce := nonce_of n |} in
  {| q_Method := r_Method q; q_Target := r_Target q; q_Body := r_Body q; q_Timestamp := r_Timestamp q;
     q_Nonce := r_Nonce q; q_Signature := EncodeToString (ed25519_Sign key (request_SigningPayload q)) |}.

Definition b64 (n : nat) (b : byte) : string := EncodeToString (replicate n b).
Definition publicA : string := EncodeToString (ed25519_Public keyA).
Definition publicB : string := EncodeToString (ed25519_Public keyB).

(** ** The device list *)
Definition entry1 : DeviceListEntry := SignDeviceListEntry keyA
  {| e_VaultID := vaultID0; e_Index := 1; e_PreviousDigest := ""; e_Kind := EntryCreate;
     e_SignerDeviceID := deviceA; e_SubjectDeviceID := deviceA; e_SubjectSigningKey := publicA;
     e_SubjectPackageKey := b64 32 x0a; e_SealedLabel := b64 40 x0b; e_EpochAfter := 1;
     e_SnapshotFloor := 0; e_Signature := "" |}.
Definition entry2 : DeviceListEntry := SignDeviceListEntry keyA
  {| e_VaultID := vaultID0; e_Index := 2; e_PreviousDigest := entry_Digest entry1; e_Kind := EntryAdd;
     e_SignerDeviceID := deviceA; e_SubjectDeviceID := deviceB; e_SubjectSigningKey := publicB;
     e_SubjectPackageKey := b64 32 x0c; e_SealedLabel := b64 40 x0d; e_EpochAfter := 1;
     e_SnapshotFloor := 0; e_Signature := "" |}.
Definition entry3 : DeviceListEntry := SignDeviceListEntry keyA
  {| e_VaultID := vaultID0; e_Index := 3; e_PreviousDigest := entry_Digest entry2; e_Kind := EntryRemove;
     e_SignerDeviceID := deviceA; e_SubjectDeviceID := deviceB; e_SubjectSigningKey := "";
     e_SubjectPackageKey := ""; e_SealedLabel := ""; e_EpochAfter := 2;
     e_SnapshotFloor := 0; e_Signature := "" |}.

Definition packageB : KeyPackageV3 :=
  let p := {| k_VaultID := vaultID0; k_SenderDeviceID := deviceA; k_RecipientDeviceID := deviceB;
              k_VaultEpoch := 1; k_EntryDigest := entry_Digest entry2; k_Ciphertext := b64 48 x0e;
              k_Signature := "" |} in
  {| k_VaultID := k_VaultID p; k_SenderDeviceID := k_SenderDeviceID p;
     k_RecipientDeviceID := k_RecipientDeviceID p; k_VaultEpoch := k_VaultEpoch p;
     k_EntryDigest := k_EntryDigest p; k_Ciphertext := k_Ciphertext p;
     k_Signature := EncodeToString (ed25519_Sign keyA (package_SigningPayload p)) |}.

(** ** Snapshots *)
Definition snapshot1 : bytes := replicate 20 x31.
Definition header1 : Header := SignHeader keyB
  {| h_Version := 3; h_VaultID := vaultID0; h_DeviceID := deviceB; h_Revision := 1; h_VaultEpoch := 1;
     h_DeviceListIndex := 2; h_DeviceListDigest := entry_Digest entry2; h_PreviousDigest := "";
     h_CiphertextDigest := EncodeToString (sha256 snapshot1); h_CiphertextLength := 20;
     h_Nonce := b64 24 x01; h_Signature := "" |}.
Definition snapshot2 : bytes := replicate 20 x32.
Definition header2 : Header := SignHeader keyA
  {| h_Version := 3; h_VaultID := vaultID0; h_DeviceID := deviceA; h_Revision := 2; h_VaultEpoch := 2;
     h_DeviceListIndex := 3; h_DeviceListDigest := entry_Digest entry3;
     h_PreviousDigest := header_Digest header1;
     h_CiphertextDigest := EncodeToString (sha256 snapshot2); h_CiphertextLength := 20;
     h_Nonce := b64 24 x02; h_Signature := "" |}.

Definition checkpointB : Checkpoint := SignCheckpoint keyB
  {| c_Version := 3; c_VaultID := vaultID0; c_DeviceID := deviceB; c_DeviceListIndex := 2;
     c_DeviceListDigest := entry_Digest entry2; c_HeaderRevision := 1;
     c_HeaderDigest := header_Digest header1; c_ObservedAt := 1000; c_Signature := "" |}.

(** ** The run *)
Definition ops : list operation :=
  [ OpCreateVault clk0 callerA (signed keyA callerA 1) {| cvi_Entry := entry1 |};
    OpBeginPairing clk0 callerB (signed keyB callerB 2)
      {| po_DeviceID := deviceB; po_SigningKey := publicB; po_PackageKey := b64 32 x0c; po_Message := [x01] |};
    OpAnswerPairing clk0 callerA (signed keyA callerA 3) deviceB [x02];
    OpConfirmPairing clk0 callerB (signed keyB callerB 4) [x03];
    OpApprove clk0 callerA (signed keyA callerA 5) {| api_Entry := entry2; api_Package := packageB |};
    OpActivate clk0 callerB (signed keyB callerB 6) {| aci_PackageDigest := package_Digest packageB |};
    OpUpload clk0 callerB (signed keyB callerB 7) {| upi_Header := header1; upi_Ciphertext := snapshot1 |};
    OpPutCheckpoint clk0 callerB (signed keyB callerB 8) checkpointB;
    OpRemove clk0 callerA (signed keyA callerA 9) {| rmi_Entry := entry3; rmi_Packages := [] |};
    OpUpload clk0 callerA (signed keyA callerA 10) {| upi_Header := header2; upi_Ciphertext := snapshot2 |} ].

Definition run_ops (os : list operation) (s : state) : state := foldl (λ s o, (exec cfg0 o s).2) s os.
(** The store after the first [n] calls. *)
Definition after (n : nat) : state := run_ops (take n ops) newState.

Fixpoint outcomes (os : list operation) (s : state) : list (option error) :=
  match os with [] => [] | o :: os => (exec cfg0 o s).1 :: outcomes os (exec cfg0 o s).2 end.

Example scenario_succeeds : outcomes ops newState = replicate 10 None.
Proof. vm_compute. reflexivity. Qed.
