(* ===== verification/Stable.v ===== *)
(** * Predicates that a transaction body keeps

    [stable P m]: running [m] keeps [P], whatever it returns.  A predicate that only reads the nonce
    table and the [spent] field is kept by every operation but [RecordNonce] and [PurgeExpired], so
    it is kept by every body built from the others. *)

From stdpp Require Import base list gmap strings sorting.
From Stdlib Require Import ZArith Lia Strings.Byte.
From S2P Require Import Prelude GoStd Canonical DeviceList Header Request.
From S2P Require Import SyncTypes MemStore MemStoreFacts NonceKeeper Service.
Local Open Scope Z_scope.
Local Open Scope go_scope.

Definition stable {S A} (P : S → Prop) (m : M S A) : Prop := ∀ s, P s → P (m s).2.

Section Stable.
Context {S : Type} (P : S → Prop).

Lemma stable_return {A} (a : A) : stable P (mreturn a).
Proof. by intros s. Qed.
Lemma stable_fail {A} e : stable P (mfail (A := A) e).
Proof. by intros s. Qed.
Lemma stable_lift {A} (r : result A) : stable P (mlift r).
Proof. by intros s. Qed.
Lemma stable_fail_if Q `{!Decision Q} e : stable P (mfail_if Q e).
Proof. intros s Hs. unfold mfail_if. by case_decide. Qed.
Lemma stable_bind {A B} (m : M S A) (k : A → M S B) :
  stable P m → (∀ a, stable P (k a)) → stable P (mbindM m k).
Proof.
  intros Hm Hk s Hs. unfold mbindM. specialize (Hm s Hs).
  destruct (m s) as [[a|e] s1]; [by apply Hk|done].
Qed.
Lemma stable_try {A} (m : M S A) : stable P m → stable P (mtry m).
Proof. intros Hm s Hs. unfold mtry. specialize (Hm s Hs). by destruct (m s). Qed.
Lemma stable_foreach {A B} (f : B → A → M S B) acc xs :
  (∀ acc x, stable P (f acc x)) → stable P (mforeach f acc xs).
Proof.
  intros Hf. revert acc. induction xs as [|x xs IH]; intros acc; cbn; [apply stable_return|].
  by apply stable_bind.
Qed.
Lemma stable_loop {A B} n (body : A → M S (step A B)) a :
  (∀ a, stable P (body a)) → stable P (mloop n body a).
Proof.
  intros Hb s Hs. unfold mloop.
  assert (∀ n a s, P s → match loop n (iteration body) (a, s) with
    | Continue a' => P a'.2 | Done r => P r.2 end) as Hl.
  { clear -Hb. induction n as [|n IH]; intros a s Hs; cbn.
    - unfold iteration. cbn. specialize (Hb a s Hs). by destruct (body a s) as [[[]|] s1].
    - specialize (IH a s Hs) as Hi. destruct (loop n (iteration body) (a, s)) as [[a' s']|r]; [by apply IH|done]. }
  specialize (Hl n a s Hs). by destruct (loop n (iteration body) (a, s)) as [[a' s']|r].
Qed.
End Stable.

(** ** Operations that leave the nonces alone *)
Definition quiet {A} (m : M state A) : Prop := ∀ s, st_nonces (m s).2 = st_nonces s.

(** A predicate on the nonce table and the [spent] field. *)
Definition about_nonces (P : tracked state → Prop) : Prop :=
  ∀ s s' x, st_nonces s' = st_nonces s → P (s, x) → P (s', x).

Lemma stable_quiet {A} P (m : M state A) : about_nonces P → quiet m → stable P (inner m).
Proof. intros HP Hm [s x] Hs. unfold inner. specialize (Hm s). destruct (m s) as [r s1]. by eapply HP. Qed.

Section Quiet.
Context `{MapRange}.


Lemma quiet_bind {A B} (m : M state A) (k : A → M state B) :
  quiet m → (∀ a, quiet (k a)) → quiet (mbindM m k).
Proof.
  intros Hm Hk s. unfold mbindM. specialize (Hm s).
  destruct (m s) as [[a|e] s1]; cbn in *; [|done]. by rewrite Hk.
Qed.
End Quiet.

(** Solves [quiet] for the operations of the in-memory store. *)
Ltac quiet_tac :=
  repeat first
    [ apply quiet_bind; [|intros]
    | match goal with
      | |- quiet (match ?x with _ => _ end) => destruct x
      | |- quiet (if ?x then _ else _) => destruct x
      end
    | solve [ intros ?; unfold reading, updating, found, mtry, mfail_if, mreturn, mfail; cbn; repeat case_match; done ] ].

Section QuietTx.
Context `{MapRange}.

Lemma quiet_tx_vaults :
  (∀ a, quiet (tx_VaultByOwner a)) ∧ (∀ a, quiet (tx_VaultByID a)) ∧ (∀ a, quiet (tx_InsertVault a)) ∧
  (∀ a, quiet (tx_UpdateVault a)) ∧ (∀ a, quiet (tx_DeleteVault a)).
Proof.
  split_and!; intros; cbn; unfold VaultByOwner, VaultByID, InsertVault, UpdateVault, DeleteVault; quiet_tac.
  intros s. unfold mtry, VaultByOwner, reading, found. by destruct (list_find _ _ ≫= _).
Qed.
Lemma quiet_tx_devices :
  (∀ a, quiet (tx_Devices a)) ∧ (∀ a b, quiet (tx_Device a b)) ∧ (∀ a b, quiet (tx_DeviceByToken a b)) ∧
  (∀ a, quiet (tx_PutDevice a)) ∧ (∀ a b c, quiet (tx_DeviceListEntries a b c)) ∧
  (∀ a, quiet (tx_AppendDeviceListEntry a)) ∧ (∀ a, quiet (tx_PutKeyPackage a)) ∧
  (∀ a b, quiet (tx_KeyPackage a b)) ∧ (∀ a, quiet (tx_DeleteKeyPackages a)).
Proof.
  split_and!; intros; cbn; unfold Devices, GetDevice, DeviceByToken, PutDevice, DeviceListEntries,
    AppendDeviceListEntry, PutKeyPackage, GetKeyPackage, DeleteKeyPackages; quiet_tac.
Qed.
Lemma quiet_tx_history :
  (∀ a, quiet (tx_InsertHeader a)) ∧ (∀ a b c, quiet (tx_Headers a b c)) ∧ (∀ a b, quiet (tx_Header a b)) ∧
  (∀ a, quiet (tx_LatestHeader a)) ∧ (∀ a b, quiet (tx_PruneHeaders a b)) ∧
  (∀ a b c, quiet (tx_PutCiphertext a b c)) ∧ (∀ a b, quiet (tx_Ciphertext a b)) ∧
  (∀ a, quiet (tx_CiphertextBytes a)) ∧ (∀ a, quiet (tx_OldestCiphertext a)) ∧
  (∀ a b, quiet (tx_DeleteCiphertext a b)) ∧ (∀ a b, quiet (tx_DeleteCiphertextsBefore a b)).
Proof.
  split_and!; intros; cbn; unfold InsertHeader, Headers, GetHeader, LatestHeader, PruneHeaders, PutCiphertext,
    Ciphertext, CiphertextBytes, OldestCiphertext, DeleteCiphertext, DeleteCiphertextsBefore; quiet_tac.
Qed.
Lemma quiet_tx_others :
  (∀ a, quiet (tx_PutCheckpoint a)) ∧ (∀ a b, quiet (tx_Checkpoint a b)) ∧ (∀ a, quiet (tx_Checkpoints a)) ∧
  (∀ a b, quiet (tx_DeleteCheckpoint a b)) ∧ (∀ a, quiet (tx_PutPairing a)) ∧ (∀ a b, quiet (tx_Pairing a b)) ∧
  (∀ a b, quiet (tx_PairingByToken a b)) ∧ (∀ a, quiet (tx_Pairings a)) ∧ (∀ a b, quiet (tx_DeletePairing a b)).
Proof.
  split_and!; intros; cbn; unfold PutCheckpoint, GetCheckpoint, Checkpoints, DeleteCheckpoint, PutPairing,
    GetPairing, PairingByToken, Pairings, DeletePairing; quiet_tac.
Qed.
End QuietTx.
