(* ===== verification/Replay.v ===== *)
(** * A request is accepted once

    A nonce that was recorded stays recorded until it expires, whatever calls run in between; the
    nonce of an accepted request is recorded even when the call then fails; and by the time the
    record may go, the request's timestamp is no longer accepted. *)

From stdpp Require Import base list gmap strings sorting relations.
From Stdlib Require Import ZArith Lia Strings.Byte.
From S2P Require Import Prelude GoStd Canonical DeviceList DeviceListFacts Header Request.
From S2P Require Import SyncTypes MemStore MemStoreFacts Slices NonceKeeper Service Erasure VaultInv Actors.
From S2P Require Import Steps Stable Fixtures.
Local Open Scope Z_scope.
Local Open Scope go_scope.

(** Walks through a body of the tracked transaction. *)
Ltac stable_op HP :=
  apply stable_quiet; [exact HP|first [apply quiet_tx_vaults | apply quiet_tx_devices | apply quiet_tx_history | apply quiet_tx_others]].
Ltac stable_tac HP :=
  intros;
  repeat first
    [ assumption
    | apply stable_return | apply stable_fail | apply stable_lift | apply stable_fail_if
    | apply stable_bind; [|intros] | apply stable_try | apply stable_foreach; intros
    | apply stable_loop; intros
    | progress cbn beta iota zeta
    | match goal with
      | |- stable _ (match ?x with _ => _ end) => destruct x
      | H : ∀ _, stable _ _ |- _ => apply H
      | H : ∀ _ _, stable _ _ |- _ => apply H
      end
    | stable_op HP ].

Section Bodies.
Context `{Crypto} `{MapRange} (cfg : Config) (clk : nat → time) (P : tracked state → Prop) (HP : about_nonces P).

Lemma stable_actorFor caller : stable P (actorFor (T := tracked state) clk caller).
Proof. unfold actorFor, not_found_as. stable_tac HP. Qed.
Lemma stable_requireApproved a : stable P (requireApproved (T := tracked state) a).
Proof. unfold requireApproved. stable_tac HP. Qed.
Lemma stable_requireActivated a : stable P (requireActivated (T := tracked state) a).
Proof. unfold requireActivated. pose proof stable_requireApproved. stable_tac HP. Qed.
Lemma stable_loadList id : stable P (loadList (T := tracked state) id).
Proof. unfold loadList. stable_tac HP. Qed.
Lemma stable_makeRoom v n : stable P (makeRoom (T := tracked state) cfg v n).
Proof. unfold makeRoom. stable_tac HP. Qed.

(** ** The bodies, when recording a request's nonce keeps [P] *)
Context (Hrec : ∀ scope nonce, stable P (tx_RecordNonce (S := tracked state) scope nonce (clk 3%nat) (request_expires clk)))
  (Hpurge : ∀ i, stable P (tx_PurgeExpired (S := tracked state) (clk i))).

Lemma stable_verifyRequest scope k caller q : stable P (verifyRequest (T := tracked state) clk scope k caller q).
Proof.
  unfold verifyRequest. apply stable_bind; [apply stable_lift|intros]. cbv zeta.
  apply stable_bind; [apply Hrec|intros; apply stable_fail_if].
Qed.
Lemma stable_signedActor caller q : stable P (signedActor (T := tracked state) clk caller q).
Proof.
  unfold signedActor. apply stable_bind; [apply stable_actorFor|intros].
  apply stable_bind; [apply stable_verifyRequest|intros; apply stable_return].
Qed.

Lemma stable_purge now : (∃ i, now = clk i) → stable P (tx_PurgeExpired (S := tracked state) now).
Proof. intros [i ->]. apply Hpurge. Qed.
End Bodies.

(** ** Bodies that start with a signed request *)
Section Signed.
Context `{Crypto} `{MapRange} (cfg : Config) (P : tracked state → Prop) (HP : about_nonces P).
Implicit Types (clk : nat → time) (caller : Caller) (q : SignedRequest).

(** After the request is accepted, the body keeps [P]. *)
Definition signed_then {A} clk caller q (m : M (tracked state) A) : Prop :=
  ∃ k, m = mbindM (signedActor clk caller q) k ∧ ∀ a, stable P (k a).

Local Ltac then_tac :=
  eexists; split; [reflexivity|]; intros a;
  pose proof (stable_requireApproved P); pose proof (stable_requireActivated P);
  pose proof (stable_loadList P HP); pose proof (stable_makeRoom cfg P HP); stable_tac HP.

Lemma then_AnswerPairing clk caller q d m : signed_then clk caller q (AnswerPairing_tx clk caller q d m).
Proof. then_tac. Qed.
Lemma then_ConfirmPairing clk caller q m : signed_then clk caller q (ConfirmPairing_tx clk caller q m).
Proof. then_tac. Qed.
Lemma then_CancelPairing clk caller q d : signed_then clk caller q (CancelPairing_tx clk caller q d).
Proof. then_tac. Qed.
Lemma then_Approve clk caller q input : signed_then clk caller q (Approve_tx clk caller q input).
Proof. then_tac. Qed.
Lemma then_Activate clk caller q input : signed_then clk caller q (Activate_tx clk caller q input).
Proof. then_tac. Qed.
Lemma then_rekey clk caller q kind e ps : signed_then clk caller q (rekey_tx clk caller q kind e ps).
Proof. unfold rekey_tx, store_package, update_device. then_tac. Qed.
Lemma then_UpgradeKey clk caller q input : signed_then clk caller q (UpgradeKey_tx clk caller q input).
Proof. then_tac. Qed.
Lemma then_Upload clk caller q input : signed_then clk caller q (Upload_tx cfg clk caller q input).
Proof. unfold Upload_tx, previous_header. then_tac. Qed.
Lemma then_PutCheckpoint clk caller q c : signed_then clk caller q (PutCheckpoint_tx clk caller q c).
Proof. then_tac. Qed.
Lemma then_Reset clk caller q input : signed_then clk caller q (Reset_tx clk caller q input).
Proof. then_tac. Qed.
End Signed.

(** The calls that find a device of a vault, or one that is pairing, by its token, with the readings, the
    caller and the request.  [CreateVault] and [BeginPairing] find none: they verify their request in the
    owner's scope, and [accepts] below has all of them. *)
Definition device_request (o : operation) : option ((nat → time) * Caller * SignedRequest) :=
  match o with
  | OpAnswerPairing clk caller q _ _ | OpConfirmPairing clk caller q _ | OpCancelPairing clk caller q _
  | OpApprove clk caller q _ | OpActivate clk caller q _ | OpRemove clk caller q _ | OpRotate clk caller q _
  | OpUpgradeKey clk caller q _ | OpUpload clk caller q _ | OpPutCheckpoint clk caller q _
  | OpReset clk caller q _ => Some (clk, caller, q)
  | _ => None
  end.

Section Records.
Context `{Crypto} `{MapRange} (cfg : Config).
Implicit Types s : state.

(** ** A record stays until it expires *)

(** The record [k] lasts until [until], and the nonce noted so far, if any, was recorded earlier. *)
Definition lasts (k : string) (until : time) (t : tracked state) : Prop :=
  st_nonces t.1 !! k = Some until ∧ match t.2 with Some sp => sn_now sp < until | None => True end.

Lemma lasts_about k until : about_nonces (lasts k until).
Proof. intros s s' x E [H1 H2]. split; cbn in *; [by rewrite E|done]. Qed.

Lemma RecordNonce_keeps k until scope nonce now expires s :
  now < until → st_nonces s !! k = Some until →
  st_nonces (tx_RecordNonce scope nonce now expires s).2 !! k = Some until.
Proof.
  intros Hn Hk. destruct (tx_RecordNonce scope nonce now expires s) as [r s'] eqn:E.
  destruct (RecordNonce_inv _ _ _ _ _ _ _ E) as [(_ & -> & _)|(_ & -> & Hu)]; [done|]. cbn [snd].
  unfold set_nonces. cbn [st_nonces]. rewrite lookup_insert_ne; [done|]. intros E'. rewrite E' in Hu.
  apply Hu in Hk. lia.
Qed.

Lemma lasts_RecordNonce k until scope nonce now expires :
  now < until → stable (lasts k until) (tx_RecordNonce (S := tracked state) scope nonce now expires).
Proof.
  intros Hn [s x] [Hk Hx]. cbn in Hk, Hx.
  pose proof (RecordNonce_keeps k until scope nonce now expires s Hn Hk) as Hr.
  change (lasts k until (nonceTx_RecordNonce scope nonce now expires (s, x)).2).
  unfold nonceTx_RecordNonce. destruct (tx_RecordNonce scope nonce now expires s) as [[[]|] s1]; split; done.
Qed.

Lemma lasts_PurgeExpired k until now :
  now < until → stable (lasts k until) (tx_PurgeExpired (S := tracked state) now).
Proof.
  intros Hn [s x] [Hk Hx]. split; [|done]. cbn in *. apply map_lookup_filter_Some. done.
Qed.

Lemma lasts_signed {A} k until clk caller q (m : M (tracked state) A) :
  (∀ i, clk i < until) → signed_then (lasts k until) clk caller q m → stable (lasts k until) m.
Proof.
  intros Hc (kk & -> & Hk). apply stable_bind; [|done].
  apply stable_signedActor; [apply lasts_about|]. intros. by apply lasts_RecordNonce.
Qed.

(** A failed or successful call through the nonce keeper keeps the record. *)
Lemma update_lasts {A} k until (m : M (tracked state) A) s :
  stable (lasts k until) m → st_nonces s !! k = Some until → st_nonces (update m s).2 !! k = Some until.
Proof.
  intros Hm Hk. assert (lasts k until (s, None)) as H0' by done. apply Hm in H0' as [H1 H2].
  unfold update, keeper_Update, storage_Update, memStorage, mem_Update.
  assert (clone s = s) as -> by (by destruct s).
  destruct (m (s, None)) as [[a|e] [s1 sp]]; cbn in *; [by destruct sp|].
  destruct sp as [sp|]; cbn; [|done].
  unfold keep_nonce, storage_Update, memStorage, mem_Update. assert (clone s = s) as -> by (by destruct s).
  pose proof (RecordNonce_keeps k until (sn_scope sp) (sn_nonce sp) (sn_now sp) (sn_expires sp) s H2 Hk) as Hr.
  by destruct (tx_RecordNonce _ _ _ _ s) as [[] s2].
Qed.

Lemma exec_lasts k until o s :
  (∀ i, op_clock o i < until) → st_nonces s !! k = Some until → st_nonces (exec cfg o s).2 !! k = Some until.
Proof.
  intros Hc Hk. pose proof (lasts_about k until) as HP. pose proof readonly_views as Hv.
  assert (∀ scope nonce, stable (lasts k until)
    (tx_RecordNonce (S := tracked state) scope nonce (op_clock o 3%nat) (request_expires (op_clock o)))) as Hrec
    by (intros; by apply lasts_RecordNonce).
  assert (∀ i, stable (lasts k until) (tx_PurgeExpired (S := tracked state) (op_clock o i))) as Hpurge
    by (intros; by apply lasts_PurgeExpired).
  assert (∀ A (m : M state A), readonly m → st_nonces (outcome (view m s)).2 !! k = Some until) as Hview.
  { intros A m Hm. cbn. unfold mem_View. by rewrite Hm. }
  destruct o; cbn [exec op_clock] in *;
    try (apply Hview; first [apply (Hv clk caller 0 0 "") | apply (Hv clk caller after limit "")
           | apply (Hv (λ _, 0) {| cl_OwnerKey := ""; cl_TokenDeviceID := ""; cl_Token := "" |} 0 0 owner)]);
    apply update_lasts; try done.
  - pose proof (stable_verifyRequest clk _ Hrec). unfold CreateVault_tx, expect_absent. stable_tac HP.
  - pose proof (stable_verifyRequest clk _ Hrec). unfold BeginPairing_tx, not_found_as, expect_absent. stable_tac HP.
  - eapply lasts_signed; [done|]. by apply then_AnswerPairing.
  - eapply lasts_signed; [done|]. by apply then_ConfirmPairing.
  - eapply lasts_signed; [done|]. by apply then_CancelPairing.
  - eapply lasts_signed; [done|]. by apply then_Approve.
  - eapply lasts_signed; [done|]. by apply then_Activate.
  - eapply lasts_signed; [done|]. by apply then_rekey.
  - eapply lasts_signed; [done|]. by apply then_rekey.
  - eapply lasts_signed; [done|]. by apply then_UpgradeKey.
  - eapply lasts_signed; [done|]. by apply then_Upload.
  - eapply lasts_signed; [done|]. by apply then_PutCheckpoint.
  - eapply lasts_signed; [done|]. by apply then_Reset.
  - apply Hpurge.
  - unfold AdminReset_tx. stable_tac HP.
Qed.

(** ** An accepted request is spent *)
Definition spent_in (scope : string) (clk : nat → time) (q : SignedRequest) : spentNonce :=
  {| sn_scope := scope; sn_nonce := q_Nonce q; sn_now := clk 3%nat; sn_expires := request_expires clk |}.

Definition is_spent (scope : string) (clk : nat → time) (q : SignedRequest) (t : tracked state) : Prop :=
  st_nonces t.1 !! key [scope; q_Nonce q] = Some (request_expires clk) ∧ t.2 = Some (spent_in scope clk q).

Lemma is_spent_about scope clk q : about_nonces (is_spent scope clk q).
Proof. intros s s' x E [H1 H2]. split; cbn in *; [by rewrite E|done]. Qed.

Lemma verifyRequest_tracked clk scope k caller q s s' :
  verifyRequest clk scope k caller q s = (Ok tt, s') →
  verifyRequest (T := tracked state) clk scope k caller q (s, None) =
    (Ok tt, (s', Some (spent_in scope clk q))).
Proof.
  intros Hx. unfold verifyRequest in *. cbv zeta in *.
  apply mbindM_ok in Hx as ([] & s1 & Hl & Hx). unfold mbindM at 1. unfold mlift in *. injection Hl as Hl ->.
  rewrite Hl. apply mbindM_ok in Hx as (fresh & s2 & Hn & Hx). apply mfail_if_ok in Hx as [Hf ->].
  unfold mbindM. cbn [tx_RecordNonce nonceTx]. unfold nonceTx_RecordNonce. rewrite Hn.
  destruct fresh; [|done]. unfold mfail_if. by rewrite decide_False.
Qed.

Lemma signedActor_tracked clk caller q s a s' :
  signedActor clk caller q s = (Ok a, s') →
  signedActor (T := tracked state) clk caller q (s, None) = (Ok a, (s', Some (spent_in (device_scope a) clk q))).
Proof.
  intros Hx. unfold signedActor in *. apply mbindM_ok in Hx as (a0 & s1 & Ha & Hx).
  apply mbindM_ok in Hx as ([] & s2 & Hv & Hx). apply mreturn_ok in Hx as [-> ->].
  assert (actorFor (T := tracked state) clk caller (s, None) = (Ok a0, (s1, None))) as Ha'.
  { destruct (erases_actorFor clk caller s None) as [H1 H2].
    pose proof (stable_actorFor clk (λ t, t.2 = None) ltac:(by intros ???) caller (s, None) eq_refl) as H3.
    rewrite Ha in H1, H2. destruct (actorFor clk caller (s, None)) as [r [s0 x]]. cbn in *. congruence. }
  unfold mbindM at 1. rewrite Ha'. unfold mbindM. by rewrite (verifyRequest_tracked _ _ _ _ _ _ _ Hv).
Qed.

(** A body that comes to continuing with [k] once the request is verified, where [k] keeps the record. *)
Lemma update_spends_at {A} scope key_ clk caller q s s1 (m k : M (tracked state) A) :
  verifyRequest clk scope key_ caller q s = (Ok tt, s1) →
  m (s, None) = k (s1, Some (spent_in scope clk q)) → stable (is_spent scope clk q) k →
  st_nonces (update m s).2 !! key [scope; q_Nonce q] = Some (request_expires clk).
Proof.
  intros (_ & -> & Hfresh)%verifyRequest_inv Hm Hk.
  unfold update, keeper_Update, storage_Update, memStorage, mem_Update.
  assert (clone s = s) as -> by (by destruct s). rewrite Hm.
  set (s1 := set_nonces _ s). assert (is_spent scope clk q (s1, Some (spent_in scope clk q))) as H1
    by (split; [apply lookup_insert_eq|done]).
  apply Hk in H1 as [H1 H2].
  destruct (k (s1, Some (spent_in scope clk q))) as [[x|e] [s2 sp]]; cbn in H1, H2; subst sp; [done|]. cbn.
  unfold keep_nonce, storage_Update, memStorage, mem_Update. assert (clone s = s) as -> by (by destruct s).
  cbn [sn_scope sn_nonce sn_now sn_expires spent_in].
  destruct (tx_RecordNonce scope (q_Nonce q) (clk 3%nat) (request_expires clk) s) as [r s3] eqn:En.
  destruct (RecordNonce_inv _ _ _ _ _ _ _ En) as [(-> & -> & until & Hu & Hlt)|(-> & -> & _)].
  - apply Hfresh in Hu. lia.
  - cbn. apply lookup_insert_eq.
Qed.

Lemma signedActor_verified clk caller q s a s1 :
  signedActor clk caller q s = (Ok a, s1) →
  verifyRequest clk (device_scope a) (d_SigningKey (a_Device a)) caller q s = (Ok tt, s1).
Proof.
  intros Hx. unfold signedActor in Hx. apply mbindM_ok in Hx as (a0 & s2 & Ha & Hx).
  apply mbindM_ok in Hx as ([] & s3 & Hv & Hx). apply mreturn_ok in Hx as [-> ->].
  pose proof (readonly_actorFor clk caller s) as Hro. rewrite Ha in Hro. cbn in Hro. by subst s2.
Qed.

Lemma update_spends {A} clk caller q a s s1 (m : M (tracked state) A) :
  signed_then (is_spent (device_scope a) clk q) clk caller q m → signedActor clk caller q s = (Ok a, s1) →
  st_nonces (update m s).2 !! key [device_scope a; q_Nonce q] = Some (request_expires clk).
Proof.
  intros (k & -> & Hk) Ha. eapply (update_spends_at _ _ _ _ _ _ _ _ (k a)); [by apply signedActor_verified| |apply Hk].
  unfold mbindM at 1. by rewrite (signedActor_tracked _ _ _ _ _ _ Ha).
Qed.

Lemma exec_spends o clk caller q s a s1 :
  device_request o = Some (clk, caller, q) → signedActor clk caller q s = (Ok a, s1) →
  st_nonces (exec cfg o s).2 !! key [device_scope a; q_Nonce q] = Some (request_expires clk).
Proof.
  intros Hd Ha. pose proof (is_spent_about (device_scope a) clk q) as HP.
  destruct o; cbn in Hd; try done; injection Hd as -> -> ->; cbn [exec];
    (eapply update_spends; [|exact Ha]).
  - by apply then_AnswerPairing.
  - by apply then_ConfirmPairing.
  - by apply then_CancelPairing.
  - by apply then_Approve.
  - by apply then_Activate.
  - by apply then_rekey.
  - by apply then_rekey.
  - by apply then_UpgradeKey.
  - by apply then_Upload.
  - by apply then_PutCheckpoint.
  - by apply then_Reset.
Qed.

(** The scope of the nonces of devices that are not in a vault yet. *)
Definition owner_scope (caller : Caller) : string := "owner/" +:+ cl_OwnerKey caller.

(** The call [o] of a store [s] accepts the request [q]: it comes as far as verifying the request, and the
    signature verifies and the nonce is fresh, in the scope it is recorded under.  Beginning a pairing also
    purges what expired, so it is asked to end before the record it makes expires. *)
Inductive accepts s : operation → (nat → time) → SignedRequest → string → Prop :=
| accepts_device o clk caller q a s1 :
    device_request o = Some (clk, caller, q) → signedActor clk caller q s = (Ok a, s1) →
    accepts s o clk q (device_scope a)
| accepts_create clk caller q input l s1 :
    ¬ anonymous caller → (∀ id v, st_vaults s !! id = Some v → v_OwnerKey v ≠ cl_OwnerKey caller) →
    VerifyDeviceList [cvi_Entry input] = Ok l →
    verifyRequest clk (owner_scope caller) (e_SubjectSigningKey (cvi_Entry input)) caller q s = (Ok tt, s1) →
    accepts s (OpCreateVault clk caller q input) clk q (owner_scope caller)
| accepts_begin clk caller q offer v s1 :
    ¬ anonymous caller → tx_VaultByOwner (cl_OwnerKey caller) s = (Ok v, s) → ¬ bad_message (po_Message offer) →
    entry_Validate (pairing_probe v offer) = Ok tt →
    verifyRequest clk (owner_scope caller) (po_SigningKey offer) caller q s = (Ok tt, s1) →
    clk 4%nat < request_expires clk →
    accepts s (OpBeginPairing clk caller q offer) clk q (owner_scope caller).

Lemma tracked_VaultByOwner owner s :
  tx_VaultByOwner (S := tracked state) owner (s, None) =
  let '(r, s') := tx_VaultByOwner owner s in (r, (s', None)).
Proof. reflexivity. Qed.

Lemma create_spends clk caller q input l s s1 :
  ¬ anonymous caller → (∀ id v, st_vaults s !! id = Some v → v_OwnerKey v ≠ cl_OwnerKey caller) →
  VerifyDeviceList [cvi_Entry input] = Ok l →
  verifyRequest clk (owner_scope caller) (e_SubjectSigningKey (cvi_Entry input)) caller q s = (Ok tt, s1) →
  st_nonces (exec cfg (OpCreateVault clk caller q input) s).2 !! key [owner_scope caller; q_Nonce q] = Some (request_expires clk).
Proof.
  intros Hn Hno Hl Hv. pose proof (is_spent_about (owner_scope caller) clk q) as HP. cbn [exec].
  eapply update_spends_at; [exact Hv| |].
  - unfold CreateVault_tx. cbv zeta.
    erewrite (mbindM_run _ _ _ tt) by (by apply mfail_if_ok).
    erewrite (mbindM_run _ _ _ tt); [|apply expect_absent_ok; exists [ErrNotFound]; split; [|by apply bool_decide_eq_true_2; left];
      rewrite tracked_VaultByOwner; destruct (tx_VaultByOwner (cl_OwnerKey caller) s) as [[v|e] s'] eqn:E;
      apply VaultByOwner_inv in E as [-> E]; [destruct E as (E & id & Hid); by destruct (Hno id v Hid)|by destruct E as [-> _]]].
    erewrite mbindM_run by (apply mlift_ok; split; [rewrite Hl; reflexivity|done]).
    erewrite mbindM_run by (by apply verifyRequest_tracked). reflexivity.
  - stable_tac HP.
Qed.

Lemma begin_spends clk caller q offer v s s1 :
  ¬ anonymous caller → tx_VaultByOwner (cl_OwnerKey caller) s = (Ok v, s) → ¬ bad_message (po_Message offer) →
  entry_Validate (pairing_probe v offer) = Ok tt →
  verifyRequest clk (owner_scope caller) (po_SigningKey offer) caller q s = (Ok tt, s1) →
  clk 4%nat < request_expires clk →
  st_nonces (exec cfg (OpBeginPairing clk caller q offer) s).2 !! key [owner_scope caller; q_Nonce q] = Some (request_expires clk).
Proof.
  intros Hn Hv Hb He Hq Htime. pose proof (is_spent_about (owner_scope caller) clk q) as HP. cbn [exec].
  eapply update_spends_at; [exact Hq| |].
  - unfold BeginPairing_tx.
    erewrite (mbindM_run _ _ _ tt) by (by apply mfail_if_ok).
    erewrite mbindM_run by (apply not_found_as_ok; rewrite tracked_VaultByOwner, Hv; reflexivity).
    erewrite (mbindM_run _ _ _ tt) by (by apply mfail_if_ok).
    erewrite mbindM_run by (apply mlift_ok; split; [rewrite He; reflexivity|done]).
    erewrite mbindM_run by (by apply verifyRequest_tracked). reflexivity.
  - assert (stable (is_spent (owner_scope caller) clk q) (tx_PurgeExpired (S := tracked state) (clk 4%nat))).
    { intros [s2 x] [H1 H2]. split; [|done]. apply map_lookup_filter_Some. done. }
    unfold not_found_as, expect_absent. stable_tac HP.
Qed.

Lemma exec_accepts o clk q scope s :
  accepts s o clk q scope → st_nonces (exec cfg o s).2 !! key [scope; q_Nonce q] = Some (request_expires clk).
Proof.
  intros [o' clk' caller q' a s1 Hd Ha|clk' caller q' input l s1 ? ? ? ?|clk' caller q' offer v s1 ? ? ? ? ? ?].
  - by eapply exec_spends.
  - by eapply create_spends.
  - by eapply begin_spends.
Qed.

(** ** Time *)
Lemma unix_nonneg now : 0 ≤ now < 2 ^ 64 * second → unix now = now / second ∧ is_u64 (unix now).
Proof.
  intros Hn. unfold unix, unix_seconds, is_u64, second in *.
  assert (0 ≤ now / 1000000000 < 2 ^ 64) as Hd.
  { split; [apply Z.div_pos; lia|]. apply Z.div_lt_upper_bound; lia. }
  rewrite decide_False by lia. rewrite u64_small by (unfold is_u64; lia). done.
Qed.

Lemma request_Verify_skew r k sg now : request_Verify r k sg now = Ok tt → withinSkew (r_Timestamp r) now = true.
Proof.
  intros Hx. unfold request_Verify in Hx. apply rbind_ok in Hx as (? & _ & Hx).
  apply rbind_ok in Hx as ([] & Hs%rfail_if_ok & _). by apply not_false_true.
Qed.

(** The two acceptances of one timestamp are at most ten minutes apart. *)
Lemma skew_distance ts now now' :
  is_u64 ts → 0 ≤ now < 2 ^ 64 * second → 0 ≤ now' < 2 ^ 64 * second →
  withinSkew ts (unix now) = true → withinSkew ts (unix now') = true → now' < now + 601 * second.
Proof.
  intros Hts H1 H2 Hs1 Hs2. destruct (unix_nonneg now H1) as [E1 U1], (unix_nonneg now' H2) as [E2 U2].
  apply withinSkew_true in Hs1, Hs2; try done. rewrite E1 in Hs1. rewrite E2 in Hs2.
  unfold RequestTimestampSkew in *.
  pose proof (Z.mul_div_le now second ltac:(done)). pose proof (Z.mul_succ_div_gt now' second ltac:(done)).
  unfold second in *. lia.
Qed.

(** One call whose clock reads at most [T]. *)
Definition step_before (T : time) (s s' : state) : Prop :=
  ∃ o, (∀ i, op_clock o i ≤ T) ∧ s' = (exec cfg o s).2.

Lemma run_lasts k until T s s' :
  T < until → rtc (step_before T) s s' → st_nonces s !! k = Some until → st_nonces s' !! k = Some until.
Proof.
  intros HT. induction 1 as [|s s1 s2 (o & Hc & ->) _ IH]; intros Hk; [done|].
  apply IH, exec_lasts; [|done]. intros i. specialize (Hc i). lia.
Qed.
End Records.

Section Theorems.
Context `{Crypto} `{MapRange} (cfg : Config).

(** C6: the nonce of an accepted request is spent whether or not the call goes on to succeed.  Whenever a
    call, of a device of a vault or of one that creates a vault or begins a pairing, comes as far as
    verifying its request and the signature verifies and the nonce is fresh, the store the call leaves, on
    success, on failure and after the rollback, records the nonce in that device's or owner's scope until
    [RequestNonceRetention] after the call.  (Beginning a pairing must not take as long as that: it purges
    what expired.) *)
Theorem accepted_request_is_spent o clk q scope s :
  accepts s o clk q scope →
  st_nonces (exec cfg o s).2 !! key [scope; q_Nonce q] = Some (clk 2%nat + RequestNonceRetention * second).
Proof. apply exec_accepts. Qed.

(** C5: a request is accepted at most once.  After a device's request was accepted by any of the
    signed operations, no later signed operation accepts a request of that device with the same nonce
    and timestamp, whatever calls ran in between: while the record lasts it is refused, and once the
    record may be purged the timestamp is too old.  The clock is assumed not to run backwards and the
    second call to take less than 59 seconds between its clock readings. *)
Theorem replay_is_refused o clk caller q s a s1 T s2 clk' caller' q' a' s3 :
  device_request o = Some (clk, caller, q) → signedActor clk caller q s = (Ok a, s1) →
  rtc (step_before cfg T) (exec cfg o s).2 s2 →
  0 ≤ clk 1%nat ≤ clk 2%nat → T ≤ clk' 1%nat < 2 ^ 64 * second → clk 2%nat ≤ T →
  clk' 3%nat ≤ clk' 1%nat + 59 * second → is_u64 (q_Timestamp q) →
  q_Nonce q' = q_Nonce q → q_Timestamp q' = q_Timestamp q → device_scope a' = device_scope a →
  signedActor clk' caller' q' s2 ≠ (Ok a', s3).
Proof.
  intros Hd Ha Hrun Hclk HT HT2 Hspan Hts Hn Ht Hscope Ha'.
  pose proof (exec_spends cfg _ _ _ _ _ _ _ Hd Ha) as Hrec.
  unfold signedActor in Ha, Ha'.
  apply mbindM_ok in Ha as (a0 & s0 & Hact & Hx). apply mbindM_ok in Hx as ([] & s0' & Hv & Hx).
  apply mreturn_ok in Hx as [-> ->]. apply verifyRequest_inv in Hv as (Hv%request_Verify_skew & _ & _).
  apply mbindM_ok in Ha' as (a1 & s4 & Hact' & Hx). apply mbindM_ok in Hx as ([] & s5 & Hv' & Hx).
  apply mreturn_ok in Hx as [-> ->].
  pose proof (readonly_actorFor clk' caller' s2) as Hro. rewrite Hact' in Hro. cbn in Hro. subst s4.
  apply verifyRequest_inv in Hv' as (Hv'%request_Verify_skew & _ & Hfresh). cbn in Hv, Hv'. rewrite Ht in Hv'.
  pose proof (skew_distance _ (clk 1%nat) (clk' 1%nat) Hts ltac:(lia) ltac:(lia) Hv Hv') as Hdist.
  unfold request_expires, RequestNonceRetention, RequestTimestampSkew in *.
  destruct (decide (T < clk 2%nat + (2 * (5 * 60) + 60) * second)) as [HTlt|HTge].
  - apply (run_lasts cfg _ _ _ _ _ HTlt Hrun) in Hrec.
    fold (device_scope a1) in Hfresh. rewrite Hscope, Hn in Hfresh. apply Hfresh in Hrec. unfold second in *. lia.
  - unfold second in *. lia.
Qed.
End Theorems.

(** ** Witnesses *)
Lemma accepted_request_is_spent_witness :
  ∃ a s1, signedActor clk0 callerA (signed keyA callerA 3) (after 2) = (Ok a, s1) ∧
    st_nonces (exec cfg0 (OpAnswerPairing clk0 callerA (signed keyA callerA 3) deviceB []) (after 2)).2
      !! key [device_scope a; nonce_of 3] = Some (clk0 2%nat + RequestNonceRetention * second).
Proof.
  destruct (signedActor clk0 callerA (signed keyA callerA 3) (after 2)) as [[a|e] s1] eqn:E;
    [|exfalso; vm_compute in E; discriminate].
  exists a, s1. split; [reflexivity|].
  apply (accepted_request_is_spent cfg0 (OpAnswerPairing clk0 callerA (signed keyA callerA 3) deviceB [])
    clk0 (signed keyA callerA 3)). by apply (accepts_device _ _ _ callerA _ _ s1).
Defined.

Lemma replay_is_refused_witness :
  ∃ a s1, signedActor clk0 callerA (signed keyA callerA 3) (after 2) = (Ok a, s1) ∧
    signedActor (at_second 1100) callerA (signed keyA callerA 3) (after 4) ≠ (Ok a, after 4).
Proof.
  destruct (signedActor clk0 callerA (signed keyA callerA 3) (after 2)) as [[a|e] s1] eqn:E;
    [|exfalso; vm_compute in E; discriminate].
  exists a, s1. split; [reflexivity|].
  apply (replay_is_refused cfg0 (OpAnswerPairing clk0 callerA (signed keyA callerA 3) deviceB [x02]) clk0 callerA
    (signed keyA callerA 3) (after 2) a s1 (clk0 1%nat) (after 4) (at_second 1100) callerA (signed keyA callerA 3) a);
    [reflexivity|exact E| |split; vm_compute; congruence|split; vm_compute; congruence|vm_compute; congruence
    |vm_compute; congruence|split; vm_compute; congruence|reflexivity|reflexivity|reflexivity].
  apply rtc_once. exists (OpConfirmPairing clk0 callerB (signed keyB callerB 4) [x03]).
  split; [intros; vm_compute; congruence|]. vm_compute. reflexivity.
Defined.
