(* ===== verification/SyncSafety.v ===== *)
(** * Safety of the sync service

    What holds of every store the service can reach and of every call on it: the invariant, rollback,
    isolation of owners, the device table as the membership of the verified list, and the authority a
    successful call had. *)

From stdpp Require Import base list gmap strings sorting relations.
From Stdlib Require Import ZArith Lia Strings.Byte.
From S2P Require Import Prelude GoStd Canonical DeviceList DeviceListFacts DeviceListThms Header Request.
From S2P Require Import SyncTypes MemStore MemStoreFacts Slices NonceKeeper Service Erasure VaultInv VaultExtend.
From S2P Require Import LoadList Actors InvPairing InvCreate InvApprove InvRekey MakeRoom InvUpload Steps Fixtures.
Local Open Scope Z_scope.
Local Open Scope go_scope.

(** ** Authority *)
Section Authority.
Context `{Crypto} `{MapRange} (cfg : Config).
Implicit Types (s : state) (clk : nat → time) (caller : Caller) (q : SignedRequest).

(** The request carries a signature of [signingKey] over its method, target, body and the caller's token. *)
Definition signed_with clk caller q (signingKey : string) : Prop :=
  request_Verify (signed_request caller q) signingKey (q_Signature q) (unix (clk 1%nat)) = Ok tt.

(** The caller's token names a device of the owner's vault that is a current member of its verified list,
    [ok] holds of the two, and the member signed the request. *)
Definition by_member s clk caller q (ok : Device → DeviceList → Prop) : Prop :=
  ∃ v d l m, st_vaults s !! v_ID v = Some v ∧ v_OwnerKey v = cl_OwnerKey caller ∧
    st_devices s !! key [v_ID v; d_DeviceID d] = Some d ∧ d_TokenDeviceID d = cl_TokenDeviceID caller ∧
    VerifyDeviceList (entries_of s (v_ID v)) = Ok l ∧ current_member l (d_DeviceID d) m ∧ ok d l ∧
    signed_with clk caller q (m_SigningKey m).

(** The caller's token names a pairing of the owner's vault that has not expired, [ok] holds of it, and the
    device that wants to pair signed the request. *)
Definition by_pairing s clk caller q (ok : Pairing → Prop) : Prop :=
  ∃ v p, st_vaults s !! v_ID v = Some v ∧ v_OwnerKey v = cl_OwnerKey caller ∧
    st_pairings s !! key [v_ID v; p_DeviceID p] = Some p ∧ p_TokenDeviceID p = cl_TokenDeviceID caller ∧
    clk 0%nat < p_ExpiresAt p ∧ ok p ∧ signed_with clk caller q (p_SigningKey p).

Definition activated (d : Device) (l : DeviceList) : Prop := d_ActivatedEpoch d = Epoch l.

(** What a successful call took, call by call.  A call that reads changed nothing; the upkeep and the reset
    of an owner's vault are the host's own, carry no caller, and do what they are for. *)
Definition authority s (o : operation) (s' : state) : Prop :=
  match o with
  | OpAnswerPairing clk caller q _ _ | OpApprove clk caller q _ | OpRemove clk caller q _
  | OpRotate clk caller q _ | OpUpgradeKey clk caller q _ | OpUpload clk caller q _
  | OpPutCheckpoint clk caller q _ => by_member s clk caller q activated
  | OpActivate clk caller q _ => by_member s clk caller q (λ _ _, True)
  | OpReset clk caller q input => by_member s clk caller q (λ _ l, rei_VaultEpoch input = Epoch l)
  | OpConfirmPairing clk caller q _ => by_pairing s clk caller q (λ p, p_State p = PairingAnswered)
  | OpCancelPairing clk caller q _ => by_member s clk caller q (λ _ _, True) ∨ by_pairing s clk caller q (λ _, True)
  | OpCreateVault clk caller q input =>
      (∀ id v, st_vaults s !! id = Some v → v_OwnerKey v ≠ cl_OwnerKey caller) ∧
      is_ok (VerifyDeviceList [cvi_Entry input]) = true ∧ signed_with clk caller q (e_SubjectSigningKey (cvi_Entry input))
  | OpBeginPairing clk caller q offer =>
      ∃ v, st_vaults s !! v_ID v = Some v ∧ v_OwnerKey v = cl_OwnerKey caller ∧
        (∀ k d, st_devices s !! k = Some d → d_VaultID d = v_ID v → d_TokenDeviceID d = cl_TokenDeviceID caller →
           d_State d = DeviceRevoked) ∧
        st_devices s !! key [v_ID v; po_DeviceID offer] = None ∧ signed_with clk caller q (po_SigningKey offer)
  | OpMaintain clk => s' = (PurgeExpired (clk 0%nat) s).2
  | OpAdminReset owner => ∃ v, st_vaults s !! v_ID v = Some v ∧ v_OwnerKey v = owner ∧ s' = (DeleteVault (v_ID v) s).2
  | _ => s' = s
  end.

Lemma outcome_ok {A} (rw : result A * state) s' : outcome rw = (None, s') → ∃ a, rw = (Ok a, s').
Proof. destruct rw as [[a|e] s1]; cbn; [|done]. intros [= ->]. eauto. Qed.

(** The device behind an actor is a current member of the vault's verified list. *)
Lemma actor_member clk caller s a :
  Inv cfg s → acts clk s caller a → a_Pairing a = None → d_State (a_Device a) = DeviceApproved →
  ∃ l m, VerifyDeviceList (entries_of s (v_ID (a_Vault a))) = Ok l ∧
    current_member l (d_DeviceID (a_Device a)) m ∧ m_SigningKey m = d_SigningKey (a_Device a) ∧
    v_Epoch (a_Vault a) = Epoch l.
Proof.
  intros Hi Ha Hp Hst. destruct (Inv_vault _ _ _ _ Hi (ac_vault _ _ _ _ Ha)) as [l Hl].
  pose proof (ac_row _ _ _ _ Ha) as Hrow. rewrite Hp in Hrow.
  destruct (do_member _ _ _ (vo_devices _ _ _ _ Hl) _ _ Hrow) as [m Hm]. exists l, m.
  split_and!; [apply Hl|split; [apply Hm|by eapply device_matches_approved]|by rewrite (dm_signing _ _ _ Hm)|].
  apply (lo_epoch _ _ _ (vo_list _ _ _ _ Hl)).
Qed.

Lemma member_authority clk caller q s a s1 (ok : Device → DeviceList → Prop) :
  Inv cfg s → signedActor clk caller q s = (Ok a, s1) → a_Pairing a = None → d_State (a_Device a) = DeviceApproved →
  (∀ l, v_Epoch (a_Vault a) = Epoch l → ok (a_Device a) l) → by_member s clk caller q ok.
Proof.
  intros Hi (Ha & Hreq & _)%signedActor_inv Hp Hst Hok; [|apply Hi].
  destruct (actor_member _ _ _ _ Hi Ha Hp Hst) as (l & m & Hl & Hm & Hkey & He).
  pose proof (ac_row _ _ _ _ Ha) as Hrow. rewrite Hp in Hrow. apply rows_Some in Hrow as [Hrow _].
  exists (a_Vault a), (a_Device a), l, m. unfold signed_with. rewrite Hkey.
  split_and!; [apply Ha|apply Ha|done|apply Ha|done|apply Hm..|by apply Hok|done].
Qed.

Lemma pairing_authority clk caller q s a s1 p (ok : Pairing → Prop) :
  Inv cfg s → signedActor clk caller q s = (Ok a, s1) → a_Pairing a = Some p → ok p → by_pairing s clk caller q ok.
Proof.
  intros Hi (Ha & Hreq & _)%signedActor_inv Hp Hok; [|apply Hi].
  pose proof (ac_row _ _ _ _ Ha) as Hrow. rewrite Hp in Hrow. destruct Hrow as (Hrow & Hd & Hexp).
  apply rows_Some in Hrow as [Hrow _]. pose proof (ac_token _ _ _ _ Ha) as Ht. rewrite Hd in Ht, Hreq.
  exists (a_Vault a), p. split_and!; [apply Ha|apply Ha|done..].
Qed.

(** Bodies that begin with a signed request. *)
Lemma activated_body {A} clk caller q (k : Actor → M state A) s a s' :
  Inv cfg s → mbindM (signedActor clk caller q) (λ a, run requireActivated a; k a) s = (Ok a, s') →
  by_member s clk caller q activated.
Proof.
  intros Hi Hx. called Hx act s1 as Ha. called Hx ? s2 as Hr. apply requireActivated_inv in Hr as (_ & ? & ? & He).
  eapply member_authority; [done..|]. intros l. unfold activated. congruence.
Qed.
Lemma Activate_authority clk caller q input s u s' :
  Inv cfg s → Activate_tx clk caller q input s = (Ok u, s') → by_member s clk caller q (λ _ _, True).
Proof.
  intros Hi Hx. unfold Activate_tx in Hx. called Hx act s1 as Ha. called Hx ? s2 as Hr.
  apply requireApproved_inv in Hr as (_ & ? & ?). by eapply member_authority.
Qed.
Lemma Reset_authority clk caller q input s u s' :
  Inv cfg s → Reset_tx clk caller q input s = (Ok u, s') → by_member s clk caller q (λ _ l, rei_VaultEpoch input = Epoch l).
Proof.
  intros Hi Hx. unfold Reset_tx in Hx. called Hx act s1 as Ha. called Hx ? s2 as Hr. passed Hx as He%dec_stable.
  apply requireApproved_inv in Hr as (_ & ? & ?). eapply member_authority; [done..|]. intros l. congruence.
Qed.
Lemma Confirm_authority clk caller q message s u s' :
  Inv cfg s → ConfirmPairing_tx clk caller q message s = (Ok u, s') →
  by_pairing s clk caller q (λ p, p_State p = PairingAnswered).
Proof.
  intros Hi Hx. unfold ConfirmPairing_tx in Hx. called Hx act s1 as Ha. destruct (a_Pairing act) as [p|] eqn:Hp; [|done].
  passed Hx as _. passed Hx as Hst%dec_stable. by eapply pairing_authority.
Qed.
Lemma Cancel_authority clk caller q deviceID s u s' :
  Inv cfg s → CancelPairing_tx clk caller q deviceID s = (Ok u, s') →
  by_member s clk caller q (λ _ _, True) ∨ by_pairing s clk caller q (λ _, True).
Proof.
  intros Hi Hx. unfold CancelPairing_tx in Hx. called Hx act s1 as Ha. destruct (a_Pairing act) as [p|] eqn:Hp.
  - right. by eapply pairing_authority.
  - left. called Hx ? s2 as Hr. apply requireApproved_inv in Hr as (_ & ? & ?). by eapply member_authority.
Qed.

(** The two calls of a device that is not in the vault yet. *)
Lemma Create_authority clk caller q input s v s' :
  CreateVault_tx clk caller q input s = (Ok v, s') → authority s (OpCreateVault clk caller q input) s'.
Proof.
  intros Hx. unfold CreateVault_tx in Hx. passed Hx as _. called Hx ? s1 as Habs.
  apply expect_absent_ok in Habs as (e' & Habs & _). apply VaultByOwner_inv in Habs as [-> [_ Hno]].
  lifted Hx l as Hl%wrap_ok. called Hx ? s1 as Hreq. apply verifyRequest_inv in Hreq as (Hreq & _).
  split_and!; [exact Hno|by rewrite Hl|exact Hreq].
Qed.
Lemma Begin_authority clk caller q offer s u s' :
  Inv cfg s → BeginPairing_tx clk caller q offer s = (Ok u, s') → authority s (OpBeginPairing clk caller q offer) s'.
Proof.
  intros Hi Hx. unfold BeginPairing_tx in Hx. passed Hx as _.
  called Hx v s1 as Hv%not_found_as_ok. apply VaultByOwner_inv in Hv as [-> (Ho & id & Hv)].
  destruct (ky_vault s (proj1 Hi) _ _ Hv) as [<- _]. passed Hx as _. lifted Hx [] as _.
  called Hx ? s1 as Hreq. apply verifyRequest_inv in Hreq as (Hreq & -> & _).
  called Hx r s2 as Hr. apply (proj1 (mtry_ok _ _ _ _)) in Hr. pose proof (DeviceByToken_inv _ _ _ _ _ Hr) as [-> _].
  called Hx ? s3 as Hlive.
  assert (∀ d, r = Ok d → d_State d = DeviceRevoked) as Hrev.
  { intros d ->. by apply mfail_if_ok in Hlive as [Hd%dec_stable _]. }
  apply (Inv_nonces _ _ (<[key ["owner/" +:+ cl_OwnerKey caller; q_Nonce q] := request_expires clk]> (st_nonces s))) in Hi.
  pose proof (DeviceByToken_revoked _ _ _ _ _ Hr (device_ids _ _ _ _ Hi Hv) Hrev) as Hall.
  assert (s3 = set_nonces (<[key ["owner/" +:+ cl_OwnerKey caller; q_Nonce q] := request_expires clk]> (st_nonces s)) s) as ->.
  { destruct r as [d|e]; [by apply mfail_if_ok in Hlive as [_ ->]|].
    destruct (is_error e ErrNotFound); [by apply mreturn_ok in Hlive as [_ ->]|by apply mfail_ok in Hlive]. }
  called Hx ? s3 as Habs. apply expect_absent_ok in Habs as (e' & Habs & _). apply Device_inv in Habs as [_ Habs].
  cbn [set_nonces st_devices] in Habs. destruct (st_devices s !! key [v_ID v; po_DeviceID offer]) eqn:Edev; [done|].
  exists v. split_and!; [done|done|exact Hall|done|exact Hreq].
Qed.

Lemma AdminReset_authority owner s u s' :
  Inv cfg s → AdminReset_tx owner s = (Ok u, s') → authority s (OpAdminReset owner) s'.
Proof.
  intros Hi Hx. unfold AdminReset_tx in Hx. called Hx v s1 as Hv. apply VaultByOwner_inv in Hv as [-> (Ho & id & Hv)].
  destruct (ky_vault s (proj1 Hi) _ _ Hv) as [<- _]. exists v. split_and!; [done|done|].
  change (DeleteVault (v_ID v) s = (Ok u, s')) in Hx. by rewrite Hx.
Qed.

(** A call of a body whose erasure is [m] succeeded, so [m] did. *)
Local Ltac succeeded Hx er := apply outcome_ok in Hx as [? Hx]; eapply update_ok in Hx; [|er].

Lemma view_keeps {A} (m : M state A) s s' : readonly m → outcome (view m s) = (None, s') → s' = s.
Proof. intros Hm [a Hx]%outcome_ok. pose proof (view_state m s Hm) as Hv. by rewrite Hx in Hv. Qed.

Lemma exec_authority o s s' : Inv cfg s → exec cfg o s = (None, s') → authority s o s'.
Proof.
  intros Hi Hx. pose proof readonly_views as Hv. destruct o; cbn [exec authority] in *;
    try (eapply view_keeps; [|exact Hx]; first [apply (Hv clk caller 0 0 "") | apply (Hv clk caller after limit "")
           | apply (Hv (λ _, 0) {| cl_OwnerKey := ""; cl_TokenDeviceID := ""; cl_Token := "" |} 0 0 owner)]).
  - succeeded Hx ltac:(apply (erases_CreateVault (S := state))). by eapply Create_authority.
  - succeeded Hx ltac:(apply (erases_BeginPairing (S := state))). by eapply Begin_authority.
  - succeeded Hx ltac:(apply (erases_AnswerPairing (S := state))). exact (activated_body _ _ _ _ _ _ _ Hi Hx).
  - succeeded Hx ltac:(apply (erases_ConfirmPairing (S := state))). by eapply Confirm_authority.
  - succeeded Hx ltac:(apply (erases_CancelPairing (S := state))). by eapply Cancel_authority.
  - succeeded Hx ltac:(apply (erases_Approve (S := state))). exact (activated_body _ _ _ _ _ _ _ Hi Hx).
  - succeeded Hx ltac:(apply (erases_Activate (S := state))). by eapply Activate_authority.
  - succeeded Hx ltac:(apply (erases_rekey (S := state))). exact (activated_body _ _ _ _ _ _ _ Hi Hx).
  - succeeded Hx ltac:(apply (erases_rekey (S := state))). exact (activated_body _ _ _ _ _ _ _ Hi Hx).
  - succeeded Hx ltac:(apply (erases_UpgradeKey (S := state))). exact (activated_body _ _ _ _ _ _ _ Hi Hx).
  - succeeded Hx ltac:(apply (erases_Upload (S := state))). exact (activated_body _ _ _ _ _ _ _ Hi Hx).
  - succeeded Hx ltac:(apply (erases_PutCheckpoint (S := state))). exact (activated_body _ _ _ _ _ _ _ Hi Hx).
  - succeeded Hx ltac:(apply (erases_Reset (S := state))). by eapply Reset_authority.
  - succeeded Hx ltac:(apply (erases_Maintain (S := state))). change (PurgeExpired (clk 0%nat) s = (Ok x, s')) in Hx. by rewrite Hx.
  - succeeded Hx ltac:(apply (erases_AdminReset (S := state))). by eapply AdminReset_authority.
Qed.
End Authority.

(** ** Theorems *)
Section Theorems.
Context `{Crypto} `{MapRange} (cfg : Config) (Hcfg : cfg_ok cfg).
Implicit Types s : state.

(** C1: the invariant of the sync store.  Whatever calls run, in whatever order and with whatever
    inputs and clock, every vault keeps: a stored device list that verifies and agrees with the vault's
    head index and epoch; device rows that mirror its members, with one live device per token; key
    packages only for current members and the current epoch, and one for every current member that is
    not activated yet; at most three pairings, in consistent stages, for identifiers and tokens not in
    use; checkpoints that verify under a current member's key; and a contiguous chain of verified
    headers whose newest snapshot is present, within the byte budget. *)
Theorem reachable_stores_are_valid s : reachable cfg s → Inv cfg s.
Proof. by apply reachable_Inv. Qed.

(** C7: a call that fails changes nothing but, at most, the record of one nonce: every error path is
    rolled back, and read-only calls change nothing at all. *)
Theorem failed_calls_roll_back o s e :
  (exec cfg o s).1 = Some e →
  ∃ nn, (exec cfg o s).2 = set_nonces nn s ∧
        (nn = st_nonces s ∨ ∃ k until, nn = <[k := until]> (st_nonces s)).
Proof.
  destruct (exec_described cfg o) as [A m Hr He|A m1 m2 He _ Hx].
  - rewrite He. cbn. intros _. rewrite view_state by done. exists (st_nonces s).
    split; [by destruct s|by left].
  - rewrite Hx. destruct (update_spec m1 m2 s He) as [H1 H2]. cbn. rewrite H1.
    destruct (m2 s) as [[a|e'] s2]; cbn in *; [done|]. done.
Qed.

(** C8: owners are isolated.  A call made for one owner leaves the vault record, the device list, the
    devices, packages, headers, snapshots and checkpoints of every other owner exactly as they were; of
    their pairings only ones that had expired may be purged. *)
Theorem owners_are_isolated s o owner :
  reachable cfg s → op_owner o = Some owner → isolated (op_clock o) owner s (exec cfg o s).2.
Proof. intros Hr Ho. apply exec_Inv; [done|by apply reachable_Inv|by right]. Qed.

(** C19: the stored device list always loads.  For every vault of a reachable store, [loadList] returns
    the list that [VerifyDeviceList] gives on all stored entries, and the vault's head index and epoch
    are that list's. *)
Theorem stored_list_loads s id v :
  reachable cfg s → st_vaults s !! id = Some v →
  ∃ l, loadList id s = (Ok l, s) ∧ VerifyDeviceList (entries_of s id) = Ok l ∧
    VaultID l = id ∧ Head l = v_HeadIndex v ∧ Epoch l = v_Epoch v.
Proof.
  intros Hr Hv. apply reachable_Inv in Hr as Hi; [|done].
  destruct (loadList id s) as [r s'] eqn:E.
  destruct (loadList_inv cfg _ _ _ _ _ Hi Hv E) as [-> (l & -> & Hl)]. exists l.
  destruct (vo_list _ _ _ _ Hl) as [Hver _ Hvid Hh He]. destruct (ky_vault s (proj1 Hi) _ _ Hv) as [Hid _].
  split_and!; [done|done|unfold VaultID; congruence| |done].
  rewrite Head_bound; [done|]. apply (lw_bound l). by eapply VerifyDeviceList_wf.
Qed.

(** C18: the device table is the membership of the verified list.  In every reachable store a device of
    a vault is approved exactly when it is a current member of the vault's list, is revoked exactly when
    it was removed from it, and its row carries the member's keys and admission index. *)
Theorem devices_mirror_the_list s id v l did :
  reachable cfg s → st_vaults s !! id = Some v → VerifyDeviceList (entries_of s id) = Ok l →
  match st_devices s !! key [id; did] with
  | None => l_members l !! did = None
  | Some d => ∃ m, l_members l !! did = Some m ∧ d_SigningKey d = m_SigningKey m ∧
      d_PackageKey d = m_PackageKey m ∧ d_AddedIndex d = m_AddedIndex m ∧
      d_State d = (if decide (m_RemovedIndex m = 0) then DeviceApproved else DeviceRevoked)
  end.
Proof.
  intros Hr Hv Hver. apply reachable_Inv in Hr as Hi; [|done]. pose proof (proj1 Hi) as Hk.
  destruct (Inv_vault _ _ _ _ Hi Hv) as [l' Hl]. destruct (ky_vault s Hk _ _ Hv) as [Hid _].
  pose proof (lo_verified _ _ _ (vo_list _ _ _ _ Hl)) as Hver'. 
  change (sl_entries (slice_of s id)) with (entries_of s id) in Hver'. rewrite Hver in Hver'.
  injection Hver' as <-. pose proof (keyed_nul_free s Hk) as Hn.
  rewrite <- (rows_lookup d_VaultID d_DeviceID (st_vaults s) id did) by (first [done|apply Hn; eauto|apply Hk]).
  destruct (rows d_VaultID id (st_devices s) !! key [id; did]) as [d|] eqn:E.
  - destruct (do_member _ _ _ (vo_devices _ _ _ _ Hl) _ _ E) as [m [Hm ? ? ? ? _]].
    destruct (sk_devices _ _ (keyed_slice s id Hk) _ _ E) as [Ek%key_same _]. subst did. eauto 10.
  - destruct (l_members l !! did) as [m|] eqn:Em; [|done].
    destruct (do_device _ _ _ (vo_devices _ _ _ _ Hl) _ _ Em) as [d Hd]. rewrite Hid in Hd. cbn -[key] in Hd. congruence.
Qed.

(** C20: no current device is locked out of its epoch.  An approved device that has not activated the
    vault's epoch can fetch a key package, and the package is for that device and for the current
    epoch. *)
Theorem pending_devices_have_a_package s clk caller a s' :
  reachable cfg s → actorFor clk caller s = (Ok a, s') → a_Pairing a = None →
  d_State (a_Device a) = DeviceApproved → d_ActivatedEpoch (a_Device a) ≠ v_Epoch (a_Vault a) →
  ∃ p, GetKeyPackageOp clk caller s = (Ok p, s) ∧ k_VaultEpoch (kp_Package p) = v_Epoch (a_Vault a) ∧
    k_VaultID (kp_Package p) = v_ID (a_Vault a) ∧ k_RecipientDeviceID (kp_Package p) = d_DeviceID (a_Device a).
Proof.
  intros Hr Hact Hp Hst Hne. apply reachable_Inv in Hr as Hi; [|done]. pose proof (proj1 Hi) as Hk.
  destruct (actorFor_inv _ _ _ _ _ Hk Hact) as [-> Ha].
  destruct (Inv_vault _ _ _ _ Hi (ac_vault _ _ _ _ Ha)) as [l Hl].
  pose proof (ac_row _ _ _ _ Ha) as Hrow. rewrite Hp in Hrow. set (id := v_ID (a_Vault a)) in *.
  destruct (ko_reach _ _ _ (vo_packages _ _ _ _ Hl) _ _ Hrow Hst) as [?|[p Hpk]].
  { rewrite (lo_epoch _ _ _ (vo_list _ _ _ _ Hl)) in Hne. done. }
  destruct (ko_current _ _ _ (vo_packages _ _ _ _ Hl) _ _ Hpk) as [He _].
  destruct (sk_packages _ _ (keyed_slice s id Hk) _ _ Hpk) as [Ek%key_same Hv].
  exists p. rewrite (lo_epoch _ _ _ (vo_list _ _ _ _ Hl)). split_and!; [|done|done|done].
  unfold GetKeyPackageOp, view, keeper_View. cbn [storage_View memStorage]. unfold mem_View, KeyPackage_tx.
  unfold mbindM at 1. rewrite Hact. unfold mbindM, requireApproved, mfail_if.
  rewrite decide_False by (rewrite Hp; intros [[? [=]]|]; done). cbv beta iota delta [mreturn].
  apply rows_Some in Hpk as [Hpk _]. cbn [tx_KeyPackage memTx]. unfold GetKeyPackage, reading, found.
  fold id. by rewrite Hpk.
Qed.

(** C4: every change had the authority it takes.  Whatever call succeeds on a reachable store: answering a
    pairing, approving, removing, rotating, upgrading a key, uploading and checkpointing took a current
    member of the vault's verified list that has activated its current epoch and whose key signed the
    request; activating a current member that signed; resetting one that also named the current epoch;
    confirming a pairing the device that offered it, while it had not expired; cancelling one either of the
    two.  A vault is created by a device that signed with the key of the list's first entry, for an owner
    who had none, and a pairing begun by a device that signed with the key it offers and whose token is not
    that of a live device.  Calls that read change nothing.  The host's own two calls, upkeep and the reset
    of an owner's vault, purge what expired and delete that vault. *)
Theorem successful_calls_are_authorised s o s' :
  reachable cfg s → exec cfg o s = (None, s') → authority s o s'.
Proof. intros Hr%reachable_Inv Hx; [|done]. by eapply exec_authority. Qed.
End Theorems.
