(* ===== verification/SyncEffects.v ===== *)
(** * Removal

    What [Remove] leaves of the removed device, and that nothing it could do before works any more. *)

From stdpp Require Import base list gmap strings sorting relations.
From Stdlib Require Import ZArith Lia Strings.Byte.
From S2P Require Import Prelude GoStd Canonical DeviceList DeviceListFacts DeviceListThms Header Request.
From S2P Require Import SyncTypes MemStore MemStoreFacts Slices NonceKeeper Service Erasure VaultInv VaultExtend.
From S2P Require Import LoadList Actors InvPairing InvCreate InvApprove InvRekey MakeRoom InvUpload Steps Fixtures.
Local Open Scope Z_scope.
Local Open Scope go_scope.

Section Effects.
Context `{Crypto} `{MapRange} (cfg : Config) (Hcfg : cfg_ok cfg).
Implicit Types s : state.

(** ** Looking rows up *)
Lemma device_at s id did :
  keyed s → is_Some (st_vaults s !! id) →
  sl_devices (slice_of s id) !! key [id; did] = st_devices s !! key [id; did].
Proof.
  intros Hk Hv. pose proof (keyed_nul_free s Hk) as Hn.
  apply (rows_lookup d_VaultID d_DeviceID (st_vaults s)); [done|auto|apply Hk].
Qed.
Lemma package_at s id did :
  keyed s → is_Some (st_vaults s !! id) →
  sl_packages (slice_of s id) !! key [id; did] = st_packages s !! key [id; did].
Proof.
  intros Hk Hv. pose proof (keyed_nul_free s Hk) as Hn.
  apply (rows_lookup pkg_VaultID pkg_DeviceID (st_vaults s)); [done|auto|apply Hk].
Qed.
Lemma checkpoint_at s id did :
  keyed s → is_Some (st_vaults s !! id) →
  sl_checkpoints (slice_of s id) !! key [id; did] = st_checkpoints s !! key [id; did].
Proof.
  intros Hk Hv. pose proof (keyed_nul_free s Hk) as Hn.
  apply (rows_lookup chk_VaultID chk_DeviceID (st_vaults s)); [done|auto|apply Hk].
Qed.

(** ** Removal *)
Lemma remove_inv clk caller q input s u s' :
  Inv cfg s → Remove clk caller q input s = (Ok u, s') →
  ∃ nn a l l', acts clk s caller a ∧ Inv cfg (set_nonces nn s) ∧
    rekey_result cfg clk (set_nonces nn s) a EntryRemove (rmi_Entry input) s' l l' ∧
    e_VaultID (rmi_Entry input) = v_ID (a_Vault a) ∧ Inv cfg s' ∧
    ∃ subject, current_member l (e_SubjectDeviceID (rmi_Entry input)) subject.
Proof.
  intros Hi Hx. eapply update_ok in Hx; [|apply (erases_rekey (S := state))].
  destruct (preserves_rekey cfg clk caller q EntryRemove (rmi_Entry input) (rmi_Packages input)
    (or_introl eq_refl) _ _ _ Hi Hx) as [Hi' _].
  destruct (rekey_inv _ _ _ _ _ _ _ _ _ _ Hi Hx) as (nn & a & l & l' & Ha & _ & _ & Hi1 & Hr).
  exists nn, a, l, l'. split_and!; try done.
  - destruct (rr_extends _ _ _ _ _ _ _ _ _ Hr) as [Hlo _ _ _ _ _ Hst _].
    rewrite <- (lo_vault _ _ _ Hlo). pose proof (rr_kind _ _ _ _ _ _ _ _ _ Hr) as Hk.
    destruct Hst as [_ _ Hk'|? Hf|? ? Hf|? ? Hf|? Hf]; [by rewrite Hk in Hk'|apply Hf..].
  - destruct (ex_step _ _ _ _ _ (rr_extends _ _ _ _ _ _ _ _ _ Hr)) as [_ _ Hk|? ? Hk|? subj ? ? Hc|? ? ? Hk|? ? Hk];
      rewrite (rr_kind _ _ _ _ _ _ _ _ _ Hr) in *; try done. eauto.
Qed.

(** The rows of the vault after a removal. *)
Record removed (id subject : string) (epoch : Z) (s s' : state) : Prop := {
  rd_epoch : ∃ v', st_vaults s' !! id = Some v' ∧ v_Epoch v' = epoch;
  rd_row : ∀ d, st_devices s !! key [id; subject] = Some d →
    st_devices s' !! key [id; subject] = Some (set_d_State DeviceRevoked d);
  rd_package : st_packages s' !! key [id; subject] = None;
  rd_checkpoint : st_checkpoints s' !! key [id; subject] = None;
  rd_pairings : ∀ k p, st_pairings s' !! k = Some p → p_VaultID p ≠ id;
  rd_others : ∀ did d, st_devices s' !! key [id; did] = Some d → d_State d = DeviceApproved →
    d_ActivatedEpoch d = epoch ∨
    ∃ p, st_packages s' !! key [id; did] = Some p ∧ k_VaultEpoch (kp_Package p) = epoch;
}.

Lemma remove_removed clk caller q input s u s' :
  Inv cfg s → Remove clk caller q input s = (Ok u, s') →
  ∃ v, st_vaults s !! e_VaultID (rmi_Entry input) = Some v ∧ v_OwnerKey v = cl_OwnerKey caller ∧
    removed (e_VaultID (rmi_Entry input)) (e_SubjectDeviceID (rmi_Entry input)) (v_Epoch v + 1) s s'.
Proof.
  intros Hi Hx. destruct (remove_inv _ _ _ _ _ _ _ Hi Hx) as (nn & a & l & l' & Ha & Hi1 & Hr & -> & Hi' & subj & Hsub).
  set (e := rmi_Entry input) in *. set (id := v_ID (a_Vault a)) in *.
  exists (a_Vault a). split_and!; [apply Ha|apply Ha|].
  pose proof (rr_keyed _ _ _ _ _ _ _ _ _ Hr) as Hk'. pose proof (proj1 Hi) as Hk.
  assert (st_vaults s' !! id = Some (set_v_list (e_Index e) (e_EpochAfter e) (clk 4%nat) (a_Vault a))) as Hv'.
  { rewrite (rr_vaults _ _ _ _ _ _ _ _ _ Hr). apply lookup_insert_eq. }
  pose proof (rr_extends _ _ _ _ _ _ _ _ _ Hr) as Hex.
  assert (e_EpochAfter e = v_Epoch (a_Vault a) + 1) as Hep.
  { rewrite <- (list_step_epoch _ _ _ (ex_step _ _ _ _ _ Hex)), (lo_epoch _ _ _ (ex_ok _ _ _ _ _ Hex)).
    rewrite (list_step_epoch_rule l e l') by apply Hex. rewrite (rr_kind _ _ _ _ _ _ _ _ _ Hr). done. }
  destruct (Inv_vault _ _ _ _ Hi' Hv') as [l2 Hl2].
  assert (Epoch l2 = e_EpochAfter e) as He2 by (symmetry; apply (vo_list _ _ _ _ Hl2)).
  rewrite <- Hep. split.
  - eauto.
  - intros d Hd. rewrite <- device_at by eauto. rewrite (rr_devices _ _ _ _ _ _ _ _ _ Hr).
    change (slice_of (set_nonces nn s)) with (slice_of s). rewrite device_at by (done || (eexists; apply Ha)).
    fold id. rewrite Hd. cbn [fmap option_fmap option_map]. unfold rekeyed. rewrite decide_True; [done|]. split; [done|].
    destruct (ky_devices s Hk _ _ Hd) as [E [w Hw]]. pose proof (keyed_nul_free s Hk) as Hn.
    apply key_inj in E as [_ E]; [done|apply Hn; eexists; apply Ha|apply Hn; eauto].
  - rewrite <- package_at by eauto. destruct (sl_packages (slice_of s' id) !! _) as [p|] eqn:E; [|done]. exfalso.
    destruct (sk_packages _ _ (keyed_slice s' id Hk') _ _ E) as [Ek%key_same _].
    destruct (st_origin _ _ _ _ _ _ (rr_packages _ _ _ _ _ _ _ _ _ Hr) _ _ E) as [?|[_ Hin]]; [done|].
    rewrite <- Ek in Hin. apply elem_of_survivors in Hin as [_ (m & Hm & Hrem)]; [|apply Hex].
    destruct (list_step_old l e l' _ subj (ex_wf _ _ _ _ _ Hex) (ex_step _ _ _ _ _ Hex) (proj1 Hsub))
      as (m' & Hm' & _ & _ & Hrem' & _). rewrite decide_True in Hrem' by (by rewrite (rr_kind _ _ _ _ _ _ _ _ _ Hr)).
    pose proof (ev_index e (ex_valid _ _ _ _ _ Hex)). congruence.
  - rewrite <- checkpoint_at by eauto. pose proof (rr_checkpoints _ _ _ _ _ _ _ _ _ Hr) as Hc.
    rewrite decide_True in Hc by done. fold id in Hc. rewrite Hc.
    apply lookup_delete_eq.
  - intros k p Hp E. pose proof (rr_pairings _ _ _ _ _ _ _ _ _ Hr) as Hnone. fold id in Hnone.
    assert (sl_pairings (slice_of s' id) !! k = Some p) as Hsl by (by apply rows_Some). by rewrite Hnone in Hsl.
  - intros did d Hd Hst. rewrite <- device_at in Hd by eauto.
    destruct (ko_reach _ _ _ (vo_packages _ _ _ _ Hl2) _ _ Hd Hst) as [?|[p Hp]]; [left; congruence|right].
    destruct (ko_current _ _ _ (vo_packages _ _ _ _ Hl2) _ _ Hp) as [Hpe _].
    exists p. rewrite <- package_at by eauto. split; [done|]. congruence.
Qed.

(** ** Lock-out *)

(** A token that names no live device and no pairing of the owner's vault. *)
Definition powerless (s : state) (caller : Caller) : Prop :=
  ∀ id v, st_vaults s !! id = Some v → v_OwnerKey v = cl_OwnerKey caller →
    (∀ k d, st_devices s !! k = Some d → d_VaultID d = id → d_TokenDeviceID d = cl_TokenDeviceID caller →
       d_State d = DeviceRevoked) ∧
    (∀ k p, st_pairings s !! k = Some p → p_VaultID p = id → p_TokenDeviceID p ≠ cl_TokenDeviceID caller).

Lemma powerless_actor clk caller s a s' :
  keyed s → powerless s caller → actorFor clk caller s = (Ok a, s') →
  a_Pairing a = None ∧ d_State (a_Device a) = DeviceRevoked.
Proof.
  intros Hk Hp Hx. apply actorFor_inv in Hx as [_ Ha]; [|done].
  destruct (Hp _ _ (ac_vault _ _ _ _ Ha) (ac_owner _ _ _ _ Ha)) as [Hd Hpr].
  pose proof (ac_row _ _ _ _ Ha) as Hrow. destruct (a_Pairing a) as [p|] eqn:Ep.
  - destruct Hrow as ([Hrow Hpv]%rows_Some & Hdev & _). exfalso. eapply Hpr; [done|done|].
    rewrite <- (ac_token _ _ _ _ Ha), Hdev. done.
  - apply rows_Some in Hrow as [Hrow Hdv]. split; [done|]. eapply Hd; [done|done|apply Ha].
Qed.

Lemma powerless_approved {A} clk caller s (k : Actor → M state A) :
  keyed s → powerless s caller →
  ∃ e s', mbindM (actorFor clk caller) (λ a, run requireApproved a; k a) s = (Err e, s').
Proof.
  intros Hk Hp. unfold mbindM at 1. destruct (actorFor clk caller s) as [[a|e] s1] eqn:E; [|eauto].
  destruct (powerless_actor _ _ _ _ _ Hk Hp E) as [_ Hst].
  unfold mbindM, requireApproved, mfail_if. rewrite decide_True by (right; rewrite Hst; done). unfold mfail. eauto.
Qed.

Lemma powerless_signed {A} clk caller q s (k : Actor → M state A) :
  keyed s → powerless s caller →
  (∀ a s1, a_Pairing a = None → d_State (a_Device a) = DeviceRevoked → ∃ e s2, k a s1 = (Err e, s2)) →
  ∃ e s', mbindM (signedActor clk caller q) k s = (Err e, s').
Proof.
  intros Hk Hp Hf. unfold mbindM at 1. destruct (signedActor clk caller q s) as [[a|e] s1] eqn:E; [|eauto].
  unfold signedActor in E. apply mbindM_ok in E as (a0 & s2 & Ha & Hx). called Hx ? s3 as Hv.
  apply mreturn_ok in Hx as [-> ->]. destruct (powerless_actor _ _ _ _ _ Hk Hp Ha). by apply Hf.
Qed.

(** The calls that need a live device or a pairing, with their caller. *)
Definition member_only (o : operation) : option Caller :=
  match o with
  | OpPairingStatus _ caller | OpPendingPairings _ caller | OpAnswerPairing _ caller _ _ _
  | OpConfirmPairing _ caller _ _ | OpCancelPairing _ caller _ _ | OpApprove _ caller _ _
  | OpKeyPackage _ caller | OpActivate _ caller _ _ | OpRemove _ caller _ _ | OpRotate _ caller _ _
  | OpUpgradeKey _ caller _ _ | OpUpload _ caller _ _ | OpPutCheckpoint _ caller _ _
  | OpCheckpoints _ caller | OpDeviceList _ caller _ _ | OpHeaders _ caller _ _ | OpSnapshot _ caller
  | OpReset _ caller _ _ => Some caller
  | _ => None
  end.

Lemma update_fails {A} (m1 : M (tracked state) A) m2 s :
  erases m1 m2 → (∃ e s', m2 s = (Err e, s')) → ∃ e, (outcome (update m1 s)).1 = Some e.
Proof.
  intros He (e & s' & Hx). destruct (update_spec m1 m2 s He) as [H1 _]. rewrite Hx in H1. cbn in *.
  rewrite H1. eauto.
Qed.

Lemma view_fails {A} (m : M state A) s :
  (∃ e s', m s = (Err e, s')) → ∃ e, (outcome (view m s)).1 = Some e.
Proof. intros (e & s' & Hx). cbn. unfold mem_View. rewrite Hx. cbn. eauto. Qed.

Lemma revoked_unapproved {A} a s1 (k : M state A) :
  d_State (a_Device a) = DeviceRevoked → ∃ e s2, mbindM (requireApproved a) (λ _ : unit, k) s1 = (Err e, s2).
Proof.
  intros Hst. unfold mbindM, requireApproved, mfail_if. rewrite decide_True by (right; rewrite Hst; done).
  unfold mfail. eauto.
Qed.

Lemma revoked_inactive {A} a s1 (k : M state A) :
  d_State (a_Device a) = DeviceRevoked → ∃ e s2, mbindM (requireActivated a) (λ _ : unit, k) s1 = (Err e, s2).
Proof.
  intros Hst. unfold requireActivated.
  destruct (revoked_unapproved a s1 (mfail_if (S := state) (d_ActivatedEpoch (a_Device a) ≠ v_Epoch (a_Vault a))
    [ErrNotActivated]) Hst) as (e & s2 & Hx). unfold mbindM at 1. rewrite Hx. eauto.
Qed.

Lemma powerless_refused s caller o :
  keyed s → powerless s caller → member_only o = Some caller → ∃ e, (exec cfg o s).1 = Some e.
Proof.
  intros Hk Hp Ho. destruct o; cbn in Ho; try done; injection Ho as ->; cbn [exec].
  - apply view_fails. unfold PairingStatus_tx, mbindM. destruct (actorFor clk caller s) as [[a|e] s1] eqn:E; [|eauto].
    destruct (powerless_actor _ _ _ _ _ Hk Hp E) as [-> _]. unfold mfail. eauto.
  - apply view_fails, powerless_approved; done.
  - eapply update_fails; [apply (erases_AnswerPairing (S := state))|].
    apply powerless_signed; [done|done|]. intros. by apply revoked_inactive.
  - eapply update_fails; [apply (erases_ConfirmPairing (S := state))|].
    apply powerless_signed; [done|done|]. intros a s1 -> _. unfold mfail. eauto.
  - eapply update_fails; [apply (erases_CancelPairing (S := state))|].
    apply powerless_signed; [done|done|]. intros a s1 -> Hst. by apply revoked_unapproved.
  - eapply update_fails; [apply (erases_Approve (S := state))|].
    apply powerless_signed; [done|done|]. intros. by apply revoked_inactive.
  - apply view_fails, powerless_approved; done.
  - eapply update_fails; [apply (erases_Activate (S := state))|].
    apply powerless_signed; [done|done|]. intros. by apply revoked_unapproved.
  - eapply update_fails; [apply (erases_rekey (S := state))|].
    apply powerless_signed; [done|done|]. intros. by apply revoked_inactive.
  - eapply update_fails; [apply (erases_rekey (S := state))|].
    apply powerless_signed; [done|done|]. intros. by apply revoked_inactive.
  - eapply update_fails; [apply (erases_UpgradeKey (S := state))|].
    apply powerless_signed; [done|done|]. intros. by apply revoked_inactive.
  - eapply update_fails; [apply (erases_Upload (S := state))|].
    apply powerless_signed; [done|done|]. intros. by apply revoked_inactive.
  - eapply update_fails; [apply (erases_PutCheckpoint (S := state))|].
    apply powerless_signed; [done|done|]. intros. by apply revoked_inactive.
  - apply view_fails, powerless_approved; done.
  - apply view_fails. unfold DeviceList_tx, mbindM. destruct (actorFor clk caller s) as [[a|e] s1] eqn:E; [|eauto].
    destruct (powerless_actor _ _ _ _ _ Hk Hp E) as [Hpn Hst]. unfold mfail_if.
    rewrite decide_True by (split; [done|rewrite Hst; done]). unfold mfail. eauto.
  - apply view_fails, powerless_approved; done.
  - apply view_fails, powerless_approved; done.
  - eapply update_fails; [apply (erases_Reset (S := state))|].
    apply powerless_signed; [done|done|]. intros. by apply revoked_unapproved.
Qed.

(** The token of a removed device is powerless afterwards. *)
Lemma removed_powerless clk caller q input s u s' d caller' :
  Inv cfg s → Remove clk caller q input s = (Ok u, s') →
  st_devices s !! key [e_VaultID (rmi_Entry input); e_SubjectDeviceID (rmi_Entry input)] = Some d →
  cl_OwnerKey caller' = cl_OwnerKey caller → cl_TokenDeviceID caller' = d_TokenDeviceID d →
  powerless s' caller'.
Proof.
  intros Hi Hx Hd Ho Ht. destruct (remove_removed _ _ _ _ _ _ _ Hi Hx) as (v & Hv & Hvo & Hrd).
  destruct (remove_inv _ _ _ _ _ _ _ Hi Hx) as (nn & a & l & l' & Ha & Hi1 & Hr & Hid & Hi' & subj & Hsub).
  rewrite Hid in *. set (id := v_ID (a_Vault a)) in *. set (e := rmi_Entry input) in *.
  intros id' v' Hv' Ho'. assert (id' = id) as ->.
  { destruct (rd_epoch _ _ _ _ _ Hrd) as (w & Hw & _). eapply (ky_owner s' (proj1 Hi')); [done|done|].
    rewrite Ho', Ho, <- Hvo. rewrite (rr_vaults _ _ _ _ _ _ _ _ _ Hr) in Hw. fold id in Hw.
    rewrite lookup_insert_eq in Hw. injection Hw as <-. cbn. rewrite (ac_owner _ _ _ _ Ha). done. }
  split; [|intros k p Hp Hpv; by apply (rd_pairings _ _ _ _ _ Hrd) in Hp].
  intros k d' Hd' Hdv Htok.
  assert (sl_devices (slice_of s' id) !! k = Some d') as Hrow by (by apply rows_Some).
  pose proof (rr_devices _ _ _ _ _ _ _ _ _ Hr k) as Hrk. fold id in Hrk. rewrite Hrk in Hrow.
  apply fmap_Some in Hrow as (d0 & Hd0 & ->). change (slice_of (set_nonces nn s) id) with (slice_of s id) in Hd0.
  rewrite <- device_at in Hd by (first [apply Hi|eauto]).
  assert (d_TokenDeviceID d0 = d_TokenDeviceID d) as Etok.
  { rewrite <- Ht, <- Htok. unfold rekeyed. by repeat case_decide. }
  destruct (decide (d_State d0 = DeviceRevoked)) as [Hrev|Hlive].
  { unfold rekeyed. repeat case_decide; try done. }
  pose proof (vo_devices _ _ _ _ (rr_old _ _ _ _ _ _ _ _ _ Hr)) as Hok. fold id in Hok.
  change (slice_of (set_nonces nn s) id) with (slice_of s id) in Hok.
  destruct (sk_devices _ _ (keyed_slice s id (proj1 Hi)) _ _ Hd) as [Ek%key_same _].
  destruct (do_member _ _ _ Hok _ _ Hd) as [m Hm].
  assert (m = subj) as -> by (destruct Hsub as [Hs _], Hm as [Hm _ _ _ _ _]; congruence).
  assert (d_State d = DeviceApproved) as Hap by (eapply device_matches_approved; [done|apply Hsub]).
  assert (k = key [id; e_SubjectDeviceID e]) as ->.
  { eapply (do_token _ _ _ Hok); [done|exact Hd|done|by rewrite Hap|done]. }
  unfold rekeyed. rewrite decide_True; [done|]. split; [done|]. rewrite Hd in Hd0. injection Hd0 as <-. done.
Qed.

(** C2: removing a device takes everything from it at once.  After a successful [Remove] the vault is
    in the next epoch, the subject's row is revoked, no key package and no checkpoint of it is left,
    every pairing of the vault is gone, and every device that is still approved has either activated the
    new epoch (the signer) or has a key package for it waiting. *)
Theorem removal_revokes clk caller q input s u s' :
  reachable cfg s → Remove clk caller q input s = (Ok u, s') →
  ∃ v, st_vaults s !! e_VaultID (rmi_Entry input) = Some v ∧ v_OwnerKey v = cl_OwnerKey caller ∧
    removed (e_VaultID (rmi_Entry input)) (e_SubjectDeviceID (rmi_Entry input)) (v_Epoch v + 1) s s'.
Proof. intros Hr. apply remove_removed. by apply reachable_Inv. Qed.

(** C3: a removed device is locked out.  After a successful [Remove], every call that needs a live
    device or a pairing (reading the list, headers, snapshots, packages or checkpoints, and every signed
    change) fails when it comes with the removed device's token, whatever it signs. *)
Theorem removed_device_is_locked_out clk caller q input s u s' d o caller' :
  reachable cfg s → Remove clk caller q input s = (Ok u, s') →
  st_devices s !! key [e_VaultID (rmi_Entry input); e_SubjectDeviceID (rmi_Entry input)] = Some d →
  cl_OwnerKey caller' = cl_OwnerKey caller → cl_TokenDeviceID caller' = d_TokenDeviceID d →
  member_only o = Some caller' → ∃ e, (exec cfg o s').1 = Some e.
Proof.
  intros Hr Hx Hd Ho Ht Hm. apply reachable_Inv in Hr as Hi; [|done].
  eapply powerless_refused; [|by eapply removed_powerless|done].
  destruct (remove_inv _ _ _ _ _ _ _ Hi Hx) as (? & ? & ? & ? & _ & _ & _ & _ & [? _] & _). done.
Qed.
End Effects.
