(* ===== verification/SyncHistory.v ===== *)
(** * Snapshots, headers and checkpoints that devices read back *)

From stdpp Require Import base list gmap strings sorting relations list_numbers.
From Stdlib Require Import ZArith Lia Strings.Byte.
From S2P Require Import Prelude GoStd Canonical DeviceList DeviceListFacts DeviceListThms Header Request.
From S2P Require Import SyncTypes MemStore MemStoreFacts Slices NonceKeeper Service Erasure VaultInv VaultExtend.
From S2P Require Import LoadList Actors InvPairing InvCreate InvApprove InvRekey MakeRoom InvUpload Steps Fixtures.
Local Open Scope Z_scope.
Local Open Scope go_scope.

Section Lookup.
Context `{Crypto} `{MapRange} (cfg : Config).
Implicit Types s : state.

(** ** The caller's live device is found, whatever order the maps are ranged over in *)
Lemma VaultByOwner_found s id v o :
  keyed s → st_vaults s !! id = Some v → v_OwnerKey v = o → tx_VaultByOwner o s = (Ok v, s).
Proof.
  intros Hk Hv Ho. destruct (tx_VaultByOwner o s) as [r s'] eqn:E.
  destruct (VaultByOwner_inv _ _ _ _ E) as [-> Hr]. destruct r as [w|e].
  - destruct Hr as (Hw & id' & Hid'). assert (id' = id) as -> by (eapply ky_owner; [done..|congruence]). congruence.
  - destruct Hr as [_ Hr]. by destruct (Hr _ _ Hv).
Qed.

Lemma DeviceByToken_found s id v d :
  Inv cfg s → st_vaults s !! id = Some v →
  sl_devices (slice_of s id) !! key [id; d_DeviceID d] = Some d → d_State d ≠ DeviceRevoked →
  tx_DeviceByToken id (d_TokenDeviceID d) s = (Ok d, s).
Proof.
  intros Hi Hv Hd Hst. destruct (tx_DeviceByToken id (d_TokenDeviceID d) s) as [r s'] eqn:E.
  destruct (DeviceByToken_inv _ _ _ _ _ E) as [-> Hr].
  apply rows_Some in Hd as Hd'. destruct Hd' as [Hdk Hdv].
  pose proof (DeviceByToken_revoked _ _ _ _ _ E (device_ids _ _ _ _ Hi Hv)) as Hall.
  destruct r as [x|e]; [|destruct Hst; by eapply Hall].
  destruct (decide (d_State x = DeviceRevoked)) as [Hx|Hx]; [destruct Hst; eapply Hall; [|done..]; by intros ? [= <-]|].
  destruct Hr as (Hxv & Hxt & _ & k & Hk). destruct (Inv_vault _ _ _ _ Hi Hv) as [l Hl].
  assert (k = key [id; d_DeviceID d]) as ->; [|congruence].
  eapply (do_token _ _ _ (vo_devices _ _ _ _ Hl)); [|exact Hd|done|done|done]. by apply rows_Some.
Qed.

Lemma actorFor_live clk caller s id v d :
  Inv cfg s → ¬ anonymous caller → st_vaults s !! id = Some v → v_OwnerKey v = cl_OwnerKey caller →
  sl_devices (slice_of s id) !! key [id; d_DeviceID d] = Some d → d_State d = DeviceApproved →
  d_TokenDeviceID d = cl_TokenDeviceID caller →
  actorFor clk caller s = (Ok {| a_Vault := v; a_Device := d; a_Pairing := None |}, s).
Proof.
  intros Hi Hn Hv Ho Hd Hst Ht. destruct (ky_vault s (proj1 Hi) _ _ Hv) as [Hid _].
  unfold actorFor. unfold mbindM at 1, mfail_if. rewrite decide_False by done. unfold mreturn at 1.
  unfold not_found_as, mbindM at 1 2, mtry at 1. rewrite (VaultByOwner_found s id v) by (done || apply Hi).
  unfold mreturn at 1. rewrite Hid. unfold mbindM at 1, mtry at 1. rewrite <- Ht.
  rewrite (DeviceByToken_found s id v d) by (done || by rewrite Hst).
  rewrite decide_True; [done|]. split; [done|]. by rewrite Hst.
Qed.

(** ** Snapshots *)
Lemma Snapshot_eq clk caller s a :
  actorFor clk caller s = (Ok a, s) → a_Pairing a = None → d_State (a_Device a) = DeviceApproved →
  let v := a_Vault a in
  Snapshot clk caller s =
    (if decide (v_CurrentRevision v = 0) then Err [ErrNotFound]
     else match headers_of s (v_ID v) !! v_CurrentRevision v, ciphertexts_of s (v_ID v) !! v_CurrentRevision v with
          | Some h, Some c => Ok {| sn_Header := h; sn_Ciphertext := c; sn_Vault := v |}
          | _, _ => Err [ErrNotFound]
          end, s).
Proof.
  intros Ha Hp Hst v. unfold Snapshot, view, keeper_View. cbn [storage_View memStorage]. unfold mem_View, Snapshot_tx.
  unfold mbindM at 1. rewrite Ha. unfold mbindM at 1, requireApproved, mfail_if at 1.
  rewrite decide_False by (rewrite Hp; intros [[? [=]]|]; done). unfold mreturn at 1. fold v.
  unfold mbindM at 1, mfail_if. case_decide; [done|]. unfold mreturn at 1.
  unfold mbindM. cbn [tx_Header tx_Ciphertext memTx]. unfold GetHeader, Ciphertext, reading, found.
  destruct (headers_of s (v_ID v) !! v_CurrentRevision v); [|done]. unfold mreturn at 1.
  destruct (ciphertexts_of s (v_ID v) !! v_CurrentRevision v); done.
Qed.

(** The newest header and snapshot of an accepted upload. *)
Lemma uploaded_rows s a input acc s' clk l prev cts :
  cfg_ok cfg → upload_result cfg clk s a input acc s' l prev cts →
  let v := a_Vault a in
  st_vaults s' !! v_ID v = Some (ac_Vault acc) ∧
  headers_of s' (v_ID v) !! h_Revision (upi_Header input) = Some (ac_Header acc) ∧
  ciphertexts_of s' (v_ID v) !! h_Revision (upi_Header input) = Some (upi_Ciphertext input).
Proof.
  intros Hcfg Hr v. pose proof (ur_effect _ _ _ _ _ _ _ _ _ _ Hr) as He. fold v in He.
  pose proof (ur_uploads _ _ _ _ _ _ _ _ _ _ Hr) as Hup. pose proof (up_rev _ _ _ _ _ _ _ _ Hup) as Hrev.
  rewrite (ur_stored _ _ _ _ _ _ _ _ _ _ Hr) in Hrev. fold v in Hrev.
  pose proof (hi_rev _ _ _ _ _ (vo_history _ _ _ _ (ur_old _ _ _ _ _ _ _ _ _ _ Hr))) as Hr0. fold v in Hr0.
  pose proof (up_bound _ _ _ _ _ _ _ _ Hup) as Hb. fold v in Hb. pose proof (co_retention cfg Hcfg).
  split; [eapply (effect_vault _ _ _ _ _ _ He), Hr|]. destruct He as (_ & _ & _ & Hsl). split.
  - apply (f_equal sl_headers) in Hsl. cbn [sl_headers on_headers on_ciphertexts slice_of] in Hsl. rewrite Hsl.
    unfold keep_recent. case_decide; [|apply lookup_insert_eq].
    apply map_lookup_filter_Some. split; [apply lookup_insert_eq|]. cbn [fst].
    rewrite u64_small; [lia|unfold is_u64; lia].
  - apply (f_equal sl_ciphertexts) in Hsl. cbn [sl_ciphertexts on_headers on_ciphertexts slice_of] in Hsl. rewrite Hsl.
    unfold keep_epoch. destruct prev as [p|]; [case_decide|]; [|apply lookup_insert_eq..].
    apply map_lookup_filter_Some. split; [apply lookup_insert_eq|]. cbn [fst]. lia.
Qed.
End Lookup.

Section Theorems.
Context `{Crypto} `{MapRange} (cfg : Config) (Hcfg : cfg_ok cfg).
Implicit Types s : state.

(** C10: what is uploaded is what is read back.  A successful [Upload] advances the vault's revision by
    exactly one, and the device that uploaded then gets from [Snapshot], at any time, the very header,
    ciphertext and vault that [Upload] returned. *)
Theorem upload_then_snapshot clk caller q input s acc s' clk' :
  reachable cfg s → Upload cfg clk caller q input s = (Ok acc, s') →
  (∃ v, st_vaults s !! v_ID (ac_Vault acc) = Some v ∧
     v_CurrentRevision (ac_Vault acc) = v_CurrentRevision v + 1) ∧
  sh_Header (ac_Header acc) = upi_Header input ∧
  Snapshot clk' caller s' =
    (Ok {| sn_Header := ac_Header acc; sn_Ciphertext := upi_Ciphertext input; sn_Vault := ac_Vault acc |}, s').
Proof.
  intros Hr Hx. apply reachable_Inv in Hr as Hi; [|done].
  eapply update_ok in Hx; [|apply (erases_Upload (S := state))].
  destruct (preserves_Upload cfg clk Hcfg caller q input _ _ _ Hi Hx) as [Hi' _].
  destruct (upload_inv cfg clk Hcfg _ _ _ _ _ _ Hi Hx) as (nn & a & l & prev & cts & Ha & Hst & Hp & _ & Hu).
  destruct (uploaded_rows _ _ _ _ _ _ _ _ _ _ Hcfg Hu) as (Hv' & Hh' & Hc').
  pose proof (ur_returned _ _ _ _ _ _ _ _ _ _ Hu) as Hret.
  pose proof (up_rev _ _ _ _ _ _ _ _ (ur_uploads _ _ _ _ _ _ _ _ _ _ Hu)) as Hrev.
  rewrite (ur_stored _ _ _ _ _ _ _ _ _ _ Hu) in Hrev.
  pose proof (hi_rev _ _ _ _ _ (vo_history _ _ _ _ (ur_old _ _ _ _ _ _ _ _ _ _ Hu))) as Hr0.
  split_and!; [exists (a_Vault a); rewrite Hret; split; [apply Ha|exact Hrev]|apply Hu|].
  pose proof (ac_row _ _ _ _ Ha) as Hrow. rewrite Hp in Hrow.
  destruct (ur_effect _ _ _ _ _ _ _ _ _ _ Hu) as (_ & _ & _ & Hsl). apply (f_equal sl_devices) in Hsl.
  change (sl_devices (slice_of s' (v_ID (a_Vault a))) = sl_devices (slice_of s (v_ID (a_Vault a)))) in Hsl.
  cbv zeta in Hrow. rewrite <- Hsl in Hrow.
  assert (v_ID (ac_Vault acc) = v_ID (a_Vault a) ∧ v_OwnerKey (ac_Vault acc) = v_OwnerKey (a_Vault a) ∧
          v_CurrentRevision (ac_Vault acc) = h_Revision (upi_Header input)) as (E1 & E2 & E3) by (by rewrite Hret).
  assert (actorFor clk' caller s' = (Ok {| a_Vault := ac_Vault acc; a_Device := a_Device a; a_Pairing := None |}, s')) as Hact.
  { eapply (actorFor_live cfg); [done|apply Ha|exact Hv'|rewrite E2; apply Ha|done|done|apply Ha]. }
  rewrite (Snapshot_eq _ _ _ _ Hact) by done. cbn [a_Vault]. rewrite E1, E3, Hh', Hc'.
  rewrite decide_False by lia. done.
Qed.

(** C25: the receipt of an upload can be checked.  The receipt a successful [Upload] returns is a
    signature, under the instance's public key, of the vault, the revision, the header's digest, the
    epoch and the time the stored header says it was accepted at. *)
Theorem upload_receipt_verifies clk caller q input s acc s' :
  length (cfg_ReceiptKey cfg) = 64%nat → reachable cfg s → Upload cfg clk caller q input s = (Ok acc, s') →
  ∃ signature, ac_Receipt acc = EncodeToString signature ∧
    receipt_Verify {| rc_VaultID := h_VaultID (upi_Header input); rc_Revision := h_Revision (upi_Header input);
                      rc_HeaderDigest := sh_Digest (ac_Header acc);
                      rc_VaultEpoch := h_VaultEpoch (upi_Header input);
                      rc_AcceptedAt := u64 (unix_seconds (sh_AcceptedAt (ac_Header acc))) |}
      (InstancePublicKey cfg) signature = true.
Proof.
  intros Hlen Hr Hx. apply reachable_Inv in Hr as Hi; [|done].
  eapply update_ok in Hx; [|apply (erases_Upload (S := state))].
  destruct (upload_inv cfg clk Hcfg _ _ _ _ _ _ Hi Hx) as (nn & a & l & prev & cts & _ & _ & _ & _ & Hu).
  destruct (ur_receipt _ _ _ _ _ _ _ _ _ _ Hu) as [-> ->].
  pose proof (up_digest _ _ _ _ _ _ _ _ (ur_uploads _ _ _ _ _ _ _ _ _ _ Hu)) as Hd.
  rewrite (ur_stored _ _ _ _ _ _ _ _ _ _ Hu) in Hd. rewrite (ur_vaultID _ _ _ _ _ _ _ _ _ _ Hu), Hd.
  eexists. split; [reflexivity|]. unfold receipt_Verify, receipt_Sign, InstancePublicKey.
  rewrite bool_decide_eq_true_2 by (rewrite ed25519_Sign_length; done). by apply ed25519_Verify_Sign.
Qed.

(** C24: an approved device can always read the current snapshot.  [Snapshot] answers [ErrNotFound] only
    while nothing was uploaded; otherwise it returns the header of the current revision, which verifies
    against the vault's device list, and a ciphertext that matches it. *)
Theorem snapshot_is_available clk caller s a s1 :
  reachable cfg s → actorFor clk caller s = (Ok a, s1) → a_Pairing a = None →
  d_State (a_Device a) = DeviceApproved →
  let v := a_Vault a in
  (v_CurrentRevision v = 0 ∧ Snapshot clk caller s = (Err [ErrNotFound], s)) ∨
  ∃ out l, Snapshot clk caller s = (Ok out, s) ∧ VerifyDeviceList (entries_of s (v_ID v)) = Ok l ∧
    h_Revision (sh_Header (sn_Header out)) = v_CurrentRevision v ∧
    VerifyHeader l None (sh_Header (sn_Header out)) = Ok tt ∧
    VerifyCiphertext (sh_Header (sn_Header out)) (sn_Ciphertext out) = Ok tt.
Proof.
  intros Hr Hact Hp Hst v. apply reachable_Inv in Hr as Hi; [|done].
  destruct (actorFor_inv _ _ _ _ _ (proj1 Hi) Hact) as [-> Ha].
  destruct (Inv_vault _ _ _ _ Hi (ac_vault _ _ _ _ Ha)) as [l Hl]. fold v in Hl.
  pose proof (vo_history _ _ _ _ Hl) as Hh. pose proof (hi_rev _ _ _ _ _ Hh) as Hrev.
  rewrite (Snapshot_eq _ _ _ _ Hact Hp Hst). fold v.
  destruct (decide (v_CurrentRevision v = 0)) as [E|E]; [by left|right].
  pose proof (co_retention cfg Hcfg).
  assert (is_Some (sl_headers (slice_of s (v_ID v)) !! v_CurrentRevision v)) as [h Hhd].
  { apply (hi_range _ _ _ _ _ Hh). unfold first_kept. lia. }
  destruct (hi_current _ _ _ _ _ Hh) as [c Hc]; [lia|].
  destruct (hi_header _ _ _ _ _ Hh _ _ Hhd) as (Hr1 & _ & _ & Hver).
  pose proof (hi_match _ _ _ _ _ Hh _ _ _ Hc Hhd) as Hm.
  cbn [sl_headers sl_ciphertexts slice_of] in Hhd, Hc. rewrite Hhd, Hc.
  eexists _, l. split_and!; [done|apply Hl|done|done|done].
Qed.
End Theorems.
