(* ===== verification/HeaderPages.v ===== *)
(** * Pages of headers

    [Headers] sorts the revisions it finds and cuts a page.  In a valid store the page is a contiguous
    piece of the chain, and a client that holds the device list verifies it as such. *)

From stdpp Require Import base list gmap strings sorting relations.
From Stdlib Require Import ZArith Lia Strings.Byte.
From S2P Require Import Prelude GoStd Canonical DeviceList DeviceListFacts DeviceListThms Header Request.
From S2P Require Import SyncTypes MemStore MemStoreFacts Slices NonceKeeper Service VaultInv VaultExtend.
From S2P Require Import LoadList Actors InvPairing InvCreate InvApprove InvRekey MakeRoom InvUpload Steps Fixtures.
Local Open Scope Z_scope.
Local Open Scope go_scope.

(** The integers from [a] on. *)
Fixpoint upto (a : Z) (n : nat) : list Z :=
  match n with O => [] | S n => a :: upto (a + 1) n end.

Lemma elem_of_upto a n r : r ∈ upto a n ↔ a ≤ r < a + Z.of_nat n.
Proof.
  revert a. induction n as [|n IH]; intros a; cbn [upto]; [rewrite elem_of_nil; lia|].
  rewrite elem_of_cons, IH. lia.
Qed.

Lemma upto_sorted a n : StronglySorted Z.le (upto a n).
Proof.
  revert a. induction n as [|n IH]; intros a; cbn [upto]; constructor; [done|].
  apply Forall_forall. intros r Hr%elem_of_upto. lia.
Qed.

Lemma upto_NoDup a n : NoDup (upto a n).
Proof.
  revert a. induction n as [|n IH]; intros a; cbn [upto]; constructor; [|done].
  intros Hr%elem_of_upto. lia.
Qed.

Lemma take_upto k a n : take k (upto a n) = upto a (Nat.min k n).
Proof.
  revert a n. induction k as [|k IH]; intros a [|n]; cbn; [done..|]. by rewrite IH.
Qed.

(** A sorted list of exactly the integers of an interval is that interval. *)
Lemma sorted_interval (rs : list Z) a n :
  NoDup rs → (∀ r, r ∈ rs ↔ a ≤ r < a + Z.of_nat n) → merge_sort Z.le rs = upto a n.
Proof.
  intros Hnd Hin. apply (StronglySorted_unique Z.le).
  - apply (StronglySorted_merge_sort Z.le).
  - apply upto_sorted.
  - rewrite merge_sort_Permutation. apply NoDup_Permutation; [done|apply upto_NoDup|].
    intros r. by rewrite Hin, elem_of_upto.
Qed.

Section Pages.
Context `{Crypto} `{MapRange} (cfg : Config).
Implicit Types (s : state) (l : DeviceList).

Lemma VerifyHeader_link l p h :
  VerifyHeader l None h = Ok tt → verifyLink p h = Ok tt → VerifyHeader l (Some p) h = Ok tt.
Proof.
  intros Hv Hl. unfold VerifyHeader in *.
  apply rbind_ok in Hv as [[] [-> Hv]]. apply rbind_ok in Hv as [[] [-> Hv]].
  apply rbind_ok in Hv as [[] [-> Hv]]. apply rbind_ok in Hv as [[] [-> Hv]].
  apply rbind_ok in Hv as [[] [-> Hv]]. cbn [rbind] in *. by rewrite Hl.
Qed.

(** A contiguous piece of the stored chain. *)
Lemma chain_verifies rev hdrs cts l a n prev :
  history_ok cfg rev hdrs cts l → first_kept cfg rev ≤ a → a + Z.of_nat n ≤ rev + 1 →
  match prev with
  | Some p => ∃ h, hdrs !! (a - 1) = Some h ∧ sh_Header h = p
  | None => True
  end →
  let hs := omap (λ r, hdrs !! r) (upto a n) in
  VerifyHeaderChain l prev (sh_Header <$> hs) = Ok tt ∧ (h_Revision ∘ sh_Header) <$> hs = upto a n.
Proof.
  intros Hh. revert a prev. induction n as [|n IH]; intros a prev Ha Hn Hprev; cbn [upto]; [done|].
  assert (is_Some (hdrs !! a)) as [h Hha] by (apply (hi_range _ _ _ _ _ Hh); lia).
  destruct (hi_header _ _ _ _ _ Hh _ _ Hha) as (Hrev & _ & _ & Hver).
  cbn [omap list_omap]. rewrite Hha. cbn [fmap list_fmap VerifyHeaderChain].
  destruct (IH (a + 1) (Some (sh_Header h))) as [IH1 IH2]; [lia|lia| |].
  { exists h. by replace (a + 1 - 1) with a by lia. }
  split; [|unfold compose in *; cbn [fmap list_fmap] in *; f_equal; [done|exact IH2]].
  assert (VerifyHeader l prev (sh_Header h) = Ok tt) as ->; [|exact IH1].
  destruct prev as [p|]; [|done]. destruct Hprev as (h0 & Hh0 & <-). apply VerifyHeader_link; [done|].
  eapply (hi_link _ _ _ _ _ Hh); [exact Hh0|]. by replace (a - 1 + 1) with a by lia.
Qed.

Lemma Headers_page s id after limit rev cts l :
  history_ok cfg rev (headers_of s id) cts l → 0 ≤ limit →
  let a := Z.max (first_kept cfg rev) (after + 1) in
  tx_Headers id after limit s =
    (Ok (omap (λ r, headers_of s id !! r) (upto a (Nat.min (Z.to_nat limit) (Z.to_nat (rev + 1 - a))))), s).
Proof.
  intros Hh Hl a. cbn [tx_Headers memTx]. unfold Headers, reading, mreturn. cbv zeta. f_equal. f_equal. f_equal.
  rewrite <- take_upto. f_equal. apply sorted_interval.
  - apply NoDup_filter, NoDup_range_map.
  - intros r. rewrite list_elem_of_filter, list_elem_of_fmap.
    assert ((∃ y : Z * StoredHeader, r = y.1 ∧ y ∈ range_map (headers_of s id)) ↔ is_Some (headers_of s id !! r)) as ->.
    { split; [intros ([k h] & -> & Hk%elem_of_range_map); eauto|]. intros [h Hr]. exists (r, h).
      split; [done|]. by apply elem_of_range_map. }
    rewrite (hi_range _ _ _ _ _ Hh). lia.
Qed.
End Pages.

Section Theorems.
Context `{Crypto} `{MapRange} (cfg : Config) (Hcfg : cfg_ok cfg).
Implicit Types s : state.

Lemma clamp_range limit maximum : 0 < maximum → 0 < clamp limit maximum ≤ maximum.
Proof. intros. unfold clamp. case_decide; lia. Qed.

(** C23: a page of headers is the next piece of the chain.  What [Headers] returns to an approved device
    are exactly the kept headers after the revision it asked for, in order and without a gap, as many as
    the page holds (at most [MaxHeadersPerPage]), and they verify as a chain ([VerifyHeaderChain]) against
    the vault's device list. *)
Theorem header_pages_verify clk caller after limit s hs s' :
  reachable cfg s → HeadersOp clk caller after limit s = (Ok hs, s') →
  ∃ v l, st_vaults s !! v_ID v = Some v ∧ v_OwnerKey v = cl_OwnerKey caller ∧
    VerifyDeviceList (entries_of s (v_ID v)) = Ok l ∧
    VerifyHeaderChain l None (sh_Header <$> hs) = Ok tt ∧
    let first := Z.max (first_kept cfg (v_CurrentRevision v)) (after + 1) in
    (h_Revision ∘ sh_Header) <$> hs =
      upto first (Nat.min (Z.to_nat (clamp limit MaxHeadersPerPage))
                          (Z.to_nat (v_CurrentRevision v + 1 - first))).
Proof.
  intros Hr Hx. apply reachable_Inv in Hr as Hi; [|done].
  unfold HeadersOp, view, keeper_View in Hx. cbn [storage_View memStorage] in Hx. unfold mem_View, Headers_tx in Hx.
  called Hx act s1 as Ha. apply actorFor_inv in Ha as [-> Ha]; [|apply Hi].
  called Hx ? s1 as Hap. apply requireApproved_inv in Hap as (-> & _ & _).
  destruct (Inv_vault _ _ _ _ Hi (ac_vault _ _ _ _ Ha)) as [l Hl]. set (v := a_Vault act) in *.
  pose proof (vo_history _ _ _ _ Hl) as Hh. pose proof (clamp_range limit MaxHeadersPerPage ltac:(done)) as Hcl.
  cbn [sl_headers slice_of] in Hh.
  rewrite (Headers_page cfg s (v_ID v) after _ _ _ _ Hh) in Hx by lia. injection Hx as <- <-.
  exists v, l. cbv zeta. set (a := Z.max (first_kept cfg (v_CurrentRevision v)) (after + 1)).
  set (n := Nat.min _ _).
  destruct (decide (a + Z.of_nat n ≤ v_CurrentRevision v + 1)) as [Hn|Hn].
  - destruct (chain_verifies cfg _ _ _ _ a n None Hh) as [H1 H2]; [lia|done|done|].
    split_and!; [apply Ha|apply Ha|apply Hl|exact H1|exact H2].
  - assert (n = 0%nat) as -> by lia. split_and!; [apply Ha|apply Ha|apply Hl|done|done].
Qed.
End Theorems.
