(* ===== verification/Wire.v ===== *)
(** * Requests and replies on the wire: internal/syncv3http/wire.go and errors.go

    What [net/http] hands a handler is a record of the parts the code reads.  A handler's writes to
    the [ResponseWriter] are its reply: every path writes once, and an early [return] after a write is
    the [Reply] case of [checked].  The reflection-driven decoder of [encoding/json] is a parameter
    ([Decodes]); the theorems hold for every decoder. *)

From stdpp Require Import base list gmap strings pretty.
From Stdlib Require Import ZArith Lia Ascii Strings.Byte.
From S2P Require Import Prelude GoStd Canonical DeviceList Header Request SyncTypes.
Local Open Scope Z_scope.

(** ** The request *)
Record http_request := {
  hr_Method : string;
  hr_RequestURI : string;                     (** [request.URL.RequestURI()] *)
  hr_Header : gmap string (list string);      (** by canonical header name *)
  hr_Query : gmap string (list string);       (** [request.URL.Query()] *)
  hr_Path : gmap string string;               (** the wildcards of the matched pattern *)
  hr_Body : bytes;                            (** what can be read from the body ... *)
  hr_BodyFails : bool;                        (** ... and whether reading then fails *)
}.

Definition header_Values (request : http_request) (name : string) : list string :=
  default [] (hr_Header request !! name).
Definition query_Get (request : http_request) (name : string) : string :=
  default "" (hr_Query request !! name ≫= head).
Definition PathValue (request : http_request) (name : string) : string :=
  default "" (hr_Path request !! name).

(** [io.ReadAll(http.MaxBytesReader(response, request.Body, limit))]. *)
Definition ReadAll_limited (request : http_request) (limit : Z) : option bytes :=
  if decide (Z.of_nat (length (hr_Body request)) > limit ∨ hr_BodyFails request = true) then None
  else Some (hr_Body request).

(** ** The replies *)
Definition signatureHeader : string := "Sesame-Request-Signature".
Definition smallBodyBytes : Z := Z.shiftl 64 10.
Definition keyChangeBodyBytes : Z := Z.shiftl 1 20.
Definition snapshotBodyBytes : Z := Z.shiftl 15 20.
Definition minIDLength : Z := 16.
Definition maxIDLength : Z := 128.

Record keyPackageJSON := {
  kj_VaultID : string; kj_SenderDeviceID : string; kj_RecipientDeviceID : string;
  kj_VaultEpoch : Z; kj_EntryDigest : string; kj_Ciphertext : string; kj_Signature : string }.

Record createVaultRequest := { cvr_Entry : DeviceListEntry }.
Record beginPairingRequest := {
  bpr_DeviceID : string; bpr_SigningKey : string; bpr_PackageKey : string; bpr_Message : string }.
Record pairingMessageRequest := { pmr_Message : string }.
Record approveRequest := { apr_Entry : DeviceListEntry; apr_Package : keyPackageJSON }.
Record removeRequest := { rmr_Entry : DeviceListEntry; rmr_Packages : list keyPackageJSON }.
Record upgradeKeyRequest := { ukr_Entry : DeviceListEntry }.
Record activateRequest := { acr_PackageDigest : string }.
Record uploadRequest := { upr_Header : Header; upr_Ciphertext : string }.
Record checkpointRequest := { ckr_Checkpoint : Checkpoint }.
Record resetRequest := { rer_VaultEpoch : Z }.

Record vaultResponse := { vr_VaultID : string; vr_VaultEpoch : Z; vr_HeadIndex : Z }.
Record stateResponse := {
  sr_VaultID : string; sr_VaultEpoch : Z; sr_HeadIndex : Z; sr_CurrentRevision : Z;
  sr_InstanceKey : string; sr_DeviceID : string; sr_DeviceState : string; sr_ActivatedEpoch : Z }.
Record deviceListResponse := { dlr_Entries : list DeviceListEntry }.
Record deviceRecord := {
  dr_DeviceID : string; dr_State : string; dr_AddedIndex : Z; dr_ActivatedEpoch : Z }.
Record pairingRecord := {
  pr_DeviceID : string; pr_SigningKey : string; pr_PackageKey : string; pr_State : string;
  pr_Offer : string; pr_Answer : string; pr_Confirm : string; pr_ExpiresAt : string }.
Record devicesResponse := { dsr_Devices : list deviceRecord; dsr_Pairings : list pairingRecord }.
Record pairingStatusResponse := { psr_State : string; psr_Answer : string; psr_ExpiresAt : string }.
Record keyPackageResponse := { kpr_Package : keyPackageJSON }.
Record headerRecord := {
  hrc_Header : Header; hrc_Digest : string; hrc_Receipt : string; hrc_AcceptedAt : string }.
Record headersResponse := { hsr_Headers : list headerRecord }.
Record checkpointRecord := { crc_Checkpoint : Checkpoint; crc_AcceptedAt : string }.
Record checkpointsResponse := { csr_Checkpoints : list checkpointRecord }.
Record snapshotResponse := {
  ssr_Header : Header; ssr_Digest : string; ssr_Receipt : string; ssr_AcceptedAt : string;
  ssr_Ciphertext : string }.
Record uploadResponse := {
  usr_Revision : Z; usr_Digest : string; usr_Receipt : string; usr_AcceptedAt : string }.
Record errorBody := { eb_Code : string; eb_Message : string }.

(** What [writeJSON] encodes. *)
Inductive payload :=
| JVault (v : vaultResponse)
| JState (v : stateResponse)
| JDeviceList (v : deviceListResponse)
| JDevices (v : devicesResponse)
| JPairingStatus (v : pairingStatusResponse)
| JKeyPackage (v : keyPackageResponse)
| JHeaders (v : headersResponse)
| JCheckpoints (v : checkpointsResponse)
| JSnapshot (v : snapshotResponse)
| JUpload (v : uploadResponse)
| JError (v : errorBody).

Record reply := {
  rp_Status : Z;
  rp_ContentType : option string;
  rp_Body : option payload;
}.

Definition StatusOK : Z := 200.
Definition StatusCreated : Z := 201.
Definition StatusNoContent : Z := 204.
Definition StatusBadRequest : Z := 400.
Definition StatusUnauthorized : Z := 401.
Definition StatusForbidden : Z := 403.
Definition StatusNotFound : Z := 404.
Definition StatusConflict : Z := 409.
Definition StatusRequestEntityTooLarge : Z := 413.
Definition StatusServiceUnavailable : Z := 503.

(** [response.WriteHeader(status)] with nothing written after it. *)
Definition writeHeader (status : Z) : reply :=
  {| rp_Status := status; rp_ContentType := None; rp_Body := None |}.
Definition writeJSON (status : Z) (value : payload) : reply :=
  {| rp_Status := status; rp_ContentType := Some "application/json; charset=utf-8";
     rp_Body := Some value |}.

(** ** Errors *)
Definition codeInvalid : string := "sync_invalid".
Definition codeSignatureInvalid : string := "sync_signature_invalid".
Definition codeForbidden : string := "sync_forbidden".
Definition codeNotActivated : string := "sync_not_activated".
Definition codeVaultNotFound : string := "sync_vault_not_found".
Definition codeNotFound : string := "sync_not_found".
Definition codeConflict : string := "sync_conflict".
Definition codeReplayed : string := "sync_replayed".
Definition codeVaultExists : string := "sync_vault_exists".
Definition codeStorageLimit : string := "sync_storage_limit_reached".
Definition codeUnavailable : string := "sync_unavailable".

Record errorSpec := { es_status : Z; es_message : string }.

Definition errorSpecs : gmap string errorSpec := list_to_map
  [ (codeInvalid, {| es_status := StatusBadRequest; es_message := "The sync request is invalid." |});
    (codeSignatureInvalid, {| es_status := StatusUnauthorized;
                              es_message := "The sync request signature is invalid." |});
    (codeForbidden, {| es_status := StatusForbidden; es_message := "This device is not allowed to do that." |});
    (codeNotActivated, {| es_status := StatusForbidden;
                          es_message := "This device has not activated its vault key yet." |});
    (codeVaultNotFound, {| es_status := StatusNotFound; es_message := "This account has no synced vault." |});
    (codeNotFound, {| es_status := StatusNotFound; es_message := "The requested sync record was not found." |});
    (codeConflict, {| es_status := StatusConflict;
                      es_message := "Sync state changed. Fetch it again and retry." |});
    (codeReplayed, {| es_status := StatusConflict; es_message := "This sync request was already used." |});
    (codeVaultExists, {| es_status := StatusConflict; es_message := "This account already has a synced vault." |});
    (codeStorageLimit, {| es_status := StatusRequestEntityTooLarge;
                          es_message := "This vault has reached its Sync storage limit." |});
    (codeUnavailable, {| es_status := StatusServiceUnavailable;
                         es_message := "Sesame Sync is temporarily unavailable." |}) ].

Definition serviceErrorCode (err : error) : string :=
  if is_error err ErrSignature then codeSignatureInvalid
  else if is_error err ErrReplay then codeReplayed
  else if is_error err ErrNoVault then codeVaultNotFound
  else if is_error err ErrVaultExists then codeVaultExists
  else if is_error err ErrNotActivated then codeNotActivated
  else if is_error err ErrForbidden then codeForbidden
  else if is_error err ErrNotFound then codeNotFound
  else if is_error err ErrConflict then codeConflict
  else if is_error err ErrQuota then codeStorageLimit
  else if is_error err ErrInvalid then codeInvalid
  else codeUnavailable.

Definition writeError (code : string) : reply :=
  match errorSpecs !! code with
  | Some spec => writeJSON (es_status spec) (JError {| eb_Code := code; eb_Message := es_message spec |})
  | None =>
      let spec := default {| es_status := 0; es_message := "" |} (errorSpecs !! codeUnavailable) in
      writeJSON (es_status spec) (JError {| eb_Code := codeUnavailable; eb_Message := es_message spec |})
  end.

(** [writeServiceError], without the log line. *)
Definition writeServiceError (err : error) : reply := writeError (serviceErrorCode err).

(** ** Reading the request

    [Accept a]: the helper returned [(a, true)]; [Reply r]: it wrote [r] and returned [false]. *)
Inductive checked (A : Type) : Type :=
| Accept (a : A)
| Reply (r : reply).
Arguments Accept {A} a.
Arguments Reply {A} r.

Definition cbind {A B} (c : checked A) (k : A → checked B) : checked B :=
  match c with Accept a => k a | Reply r => Reply r end.
Declare Scope http_scope.
Delimit Scope http_scope with http.
Notation "'accept' x ':=' c 'in' k" := (cbind c (λ x, k))
  (at level 200, x pattern, c at level 100, k at level 200) : http_scope.
Notation "'refuse_if' P 'with' code ';' k" := (if decide P then Reply (writeError code) else k)
  (at level 200, P at level 100, code at level 100, k at level 200) : http_scope.
Local Open Scope http_scope.

Definition canonicalBase64 (value : string) : option bytes :=
  match DecodeString value with
  | None => None
  | Some decoded => if decide (EncodeToString decoded ≠ value) then None else Some decoded
  end.

Definition canonicalFixedBase64 (value : string) (len : Z) : bool :=
  match canonicalBase64 value with
  | Some decoded => bool_decide (Z.of_nat (length decoded) = len)
  | None => false
  end.

Fixpoint decodeOneOfBase64 (value : string) (lengths : list Z) : checked bytes :=
  match lengths with
  | [] => Reply (writeError codeInvalid)
  | len :: lengths =>
      if canonicalFixedBase64 value len then Accept (default [] (canonicalBase64 value))
      else decodeOneOfBase64 value lengths
  end.

Definition decodeBase64 (value : string) : checked bytes :=
  match canonicalBase64 value with
  | Some decoded => Accept decoded
  | None => Reply (writeError codeInvalid)
  end.

Definition decodeFixedBase64 (value : string) (len : Z) : checked bytes :=
  refuse_if canonicalFixedBase64 value len = false with codeInvalid;
  Accept (default [] (canonicalBase64 value)).

Definition readSignature (request : http_request) : checked SignedRequest :=
  let values := header_Values request signatureHeader in
  refuse_if length values ≠ 1%nat with codeSignatureInvalid;
  match Split "." (default "" (head values)) with
  | [part0; part1; part2] =>
      match ParseUint part0 64 with
      | None => Reply (writeError codeSignatureInvalid)
      | Some timestamp =>
          refuse_if FormatUint timestamp ≠ part0 with codeSignatureInvalid;
          refuse_if canonicalFixedBase64 part1 RequestNonceBytes = false with codeSignatureInvalid;
          refuse_if canonicalFixedBase64 part2 Ed25519SignatureBytes = false with codeSignatureInvalid;
          Accept {| q_Method := hr_Method request; q_Target := hr_RequestURI request; q_Body := [];
                    q_Timestamp := timestamp; q_Nonce := part1; q_Signature := part2 |}
      end
  | _ => Reply (writeError codeSignatureInvalid)
  end.

Definition readBody (request : http_request) (limit : Z) : checked bytes :=
  match ReadAll_limited request limit with
  | Some body => Accept body
  | None => Reply (writeError codeInvalid)
  end.

(** [decoder.Decode] with [DisallowUnknownFields] into a [T]: the value it fills and the input it has
    not read. *)
Class Decodes (T : Type) := Decode : bytes → option (T * bytes).

(** The second [Decode] answers [io.EOF] exactly when only white space is left. *)
Definition json_space (b : byte) : bool :=
  bool_decide (byte_Z b = 32 ∨ byte_Z b = 9 ∨ byte_Z b = 13 ∨ byte_Z b = 10).

Definition decodeJSON {T} `{Decodes T} (body : bytes) : checked T :=
  match Decode body with
  | None => Reply (writeError codeInvalid)
  | Some (input, rest) =>
      refuse_if forallb json_space rest = false with codeInvalid;
      Accept input
  end.

Definition set_q_Body (body : bytes) (q : SignedRequest) : SignedRequest :=
  {| q_Method := q_Method q; q_Target := q_Target q; q_Body := body; q_Timestamp := q_Timestamp q;
     q_Nonce := q_Nonce q; q_Signature := q_Signature q |}.

Definition readSignedJSON {T} `{Decodes T} (request : http_request) (limit : Z)
  : checked (T * SignedRequest) :=
  accept signed := readSignature request in
  accept body := readBody request limit in
  accept input := decodeJSON body in
  Accept (input, set_q_Body body signed).

Definition readSignedEmpty (request : http_request) : checked SignedRequest :=
  accept signed := readSignature request in
  accept body := readBody request smallBodyBytes in
  refuse_if length body ≠ 0%nat with codeInvalid;
  Accept signed.

Definition toService (wire : keyPackageJSON) : checked KeyPackageV3 :=
  accept _ := decodeBase64 (kj_Ciphertext wire) in
  accept _ := decodeFixedBase64 (kj_Signature wire) Ed25519SignatureBytes in
  Accept {| k_VaultID := kj_VaultID wire; k_SenderDeviceID := kj_SenderDeviceID wire;
            k_RecipientDeviceID := kj_RecipientDeviceID wire; k_VaultEpoch := kj_VaultEpoch wire;
            k_EntryDigest := kj_EntryDigest wire; k_Ciphertext := kj_Ciphertext wire;
            k_Signature := kj_Signature wire |}.

Definition keyPackageToWire (pkg : KeyPackageV3) : keyPackageJSON :=
  {| kj_VaultID := k_VaultID pkg; kj_SenderDeviceID := k_SenderDeviceID pkg;
     kj_RecipientDeviceID := k_RecipientDeviceID pkg; kj_VaultEpoch := k_VaultEpoch pkg;
     kj_EntryDigest := k_EntryDigest pkg; kj_Ciphertext := k_Ciphertext pkg;
     kj_Signature := k_Signature pkg |}.

Definition queryUint (request : http_request) (name : string) (bitSize : Z) : checked Z :=
  let value := query_Get request name in
  if decide (value = "") then Accept 0
  else match ParseUint value bitSize with
       | Some parsed => Accept parsed
       | None => Reply (writeError codeInvalid)
       end.

(** The test [validID] makes on each rune of the identifier. *)
Definition id_rune (char : Z) : bool :=
  bool_decide (97 ≤ char ≤ 122 ∨ 65 ≤ char ≤ 90 ∨ 48 ≤ char ≤ 57 ∨ char = 95 ∨ char = 45).

Definition validID (value : string) : bool :=
  if decide (Z.of_nat (String.length value) < minIDLength ∨ Z.of_nat (String.length value) > maxIDLength)
  then false else forallb id_rune (runes value).

Definition pathDeviceID (request : http_request) : checked string :=
  let value := PathValue request "deviceId" in
  refuse_if validID value = false with codeInvalid;
  Accept value.

(** ** Writing replies *)
Definition encodeBase64 (value : bytes) : string := EncodeToString value.
Definition formatTime (value : time) : string := Format_RFC3339 value.

Definition deviceRecords (devices : list Device) : list deviceRecord :=
  (λ device, {| dr_DeviceID := d_DeviceID device; dr_State := d_State device;
                dr_AddedIndex := d_AddedIndex device;
                dr_ActivatedEpoch := d_ActivatedEpoch device |}) <$> devices.

Definition pairingRecords (pairings : list Pairing) : list pairingRecord :=
  (λ pairing, {| pr_DeviceID := p_DeviceID pairing; pr_SigningKey := p_SigningKey pairing;
                 pr_PackageKey := p_PackageKey pairing; pr_State := p_State pairing;
                 pr_Offer := encodeBase64 (p_Offer pairing); pr_Answer := encodeBase64 (p_Answer pairing);
                 pr_Confirm := encodeBase64 (p_Confirm pairing);
                 pr_ExpiresAt := formatTime (p_ExpiresAt pairing) |}) <$> pairings.

Definition headerRecords (stored : list StoredHeader) : list headerRecord :=
  (λ item, {| hrc_Header := sh_Header item; hrc_Digest := sh_Digest item; hrc_Receipt := sh_Receipt item;
              hrc_AcceptedAt := formatTime (sh_AcceptedAt item) |}) <$> stored.

Definition checkpointRecords (stored : list StoredCheckpoint) : list checkpointRecord :=
  (λ item, {| crc_Checkpoint := sc_Checkpoint item;
              crc_AcceptedAt := formatTime (sc_AcceptedAt item) |}) <$> stored.
