(* ===== verification/Handler.v ===== *)
(** * The HTTP handlers of the sync service: internal/syncv3http/handler.go

    A handler runs on the state of the host that authenticates callers and the store of the service.
    The host is an interface ([Host]); the two hosts of the repository implement it.  [clks i] are the
    clock readings of the [i]-th call of the service that the handler makes.  [allowLongTransfer] only
    moves the connection's deadlines and is left out. *)

From stdpp Require Import base list gmap strings.
From Stdlib Require Import ZArith Lia Ascii Strings.Byte.
From S2P Require Import Prelude GoStd Canonical DeviceList Header Request SyncTypes NonceKeeper Service Wire.
Local Open Scope Z_scope.
Local Open Scope http_scope.

Class Host (H : Type) := Authenticate : http_request → string → H → checked Caller * H.
#[export] Hint Mode Host ! : typeclass_instances.

(** The JSON decoder at the types the handlers read. *)
Class Decoders := {
  decodes_createVault :: Decodes createVaultRequest;
  decodes_beginPairing :: Decodes beginPairingRequest;
  decodes_pairingMessage :: Decodes pairingMessageRequest;
  decodes_approve :: Decodes approveRequest;
  decodes_remove :: Decodes removeRequest;
  decodes_upgradeKey :: Decodes upgradeKeyRequest;
  decodes_activate :: Decodes activateRequest;
  decodes_upload :: Decodes uploadRequest;
  decodes_checkpoint :: Decodes checkpointRequest;
  decodes_reset :: Decodes resetRequest;
}.

(** ** Handlers as computations that may have replied already *)
Definition HM (X A : Type) : Type := X → checked A * X.

Definition hbind {X A B} (m : HM X A) (k : A → HM X B) : HM X B :=
  λ x, match m x with (Accept a, x') => k a x' | (Reply r, x') => (Reply r, x') end.
Notation "'await' x ':=' m 'in' k" := (hbind m (λ x, k))
  (at level 200, x pattern, m at level 100, k at level 200) : http_scope.

(** A reader of the request; the last reply; a handler as a whole. *)
Definition parse {X A} (c : checked A) : HM X A := λ x, (c, x).
Definition done {X} (r : reply) : HM X Empty_set := λ x, (Reply r, x).
Definition handle {X} (m : HM X Empty_set) (x : X) : reply * X :=
  match m x with (Reply r, x') => (r, x') | (Accept a, _) => match a with end end.

(** The package loop of [Remove] and [Rotate]. *)
Fixpoint toServices (wires : list keyPackageJSON) : checked (list KeyPackageV3) :=
  match wires with
  | [] => Accept []
  | wire :: wires =>
      accept pkg := toService wire in
      accept pkgs := toServices wires in
      Accept (pkg :: pkgs)
  end.

Definition deviceState (actor : Actor) : string :=
  if decide (is_Some (a_Pairing actor)) then "pairing"
  else if decide (d_State (a_Device actor) = DeviceApproved) then "approved"
  else "none".

Section Handlers.
Context `{Crypto} `{MapRange} `{Decoders} {Ho W S : Type} `{Host Ho} `{Tx S} `{Storage W S}.
Context (cfg : Config) (clks : nat → nat → time).
Implicit Types request : http_request.
Notation clk := (clks 0%nat).

Definition authenticate request (operation : string) : HM (Ho * W) Caller :=
  λ '(h, w), let '(c, h') := Authenticate request operation h in (c, (h', w)).

(** [x, err := service.Op(...); if err != nil { writeServiceError(response, err); return }]. *)
Definition call {A} (op : W → result A * W) : HM (Ho * W) A :=
  λ '(h, w), match op w with
             | (Ok a, w') => (Accept a, (h, w'))
             | (Err e, w') => (Reply (writeServiceError e), (h, w'))
             end.

Definition h_State request : HM (Ho * W) Empty_set :=
  await caller := authenticate request "state" in
  await (vault, actor) := call (VaultState clk caller) in
  done (writeJSON StatusOK (JState
    {| sr_VaultID := v_ID vault; sr_VaultEpoch := v_Epoch vault; sr_HeadIndex := v_HeadIndex vault;
       sr_CurrentRevision := v_CurrentRevision vault;
       sr_InstanceKey := encodeBase64 (InstancePublicKey cfg);
       sr_DeviceID := d_DeviceID (a_Device actor); sr_DeviceState := deviceState actor;
       sr_ActivatedEpoch := d_ActivatedEpoch (a_Device actor) |})).

Definition h_CreateVault request : HM (Ho * W) Empty_set :=
  await caller := authenticate request "vault" in
  await (input, signed) := parse (readSignedJSON (T := createVaultRequest) request smallBodyBytes) in
  await vault := call (CreateVault clk caller signed {| cvi_Entry := cvr_Entry input |}) in
  done (writeJSON StatusCreated (JVault
    {| vr_VaultID := v_ID vault; vr_VaultEpoch := v_Epoch vault; vr_HeadIndex := v_HeadIndex vault |})).

Definition h_DeviceList request : HM (Ho * W) Empty_set :=
  await caller := authenticate request "device-list" in
  await after := parse (queryUint request "after" 64) in
  await entries := call (DeviceListOp clk caller after 0) in
  done (writeJSON StatusOK (JDeviceList {| dlr_Entries := entries |})).

Definition h_Devices request : HM (Ho * W) Empty_set :=
  await caller := authenticate request "devices" in
  await (_, devices) := call (DevicesOp clk caller) in
  await pairings := call (PendingPairings (clks 1%nat) caller) in
  done (writeJSON StatusOK (JDevices
    {| dsr_Devices := deviceRecords devices; dsr_Pairings := pairingRecords pairings |})).

Definition h_BeginPairing request : HM (Ho * W) Empty_set :=
  await caller := authenticate request "pairing-begin" in
  await (input, signed) := parse (readSignedJSON (T := beginPairingRequest) request smallBodyBytes) in
  await _ := parse (decodeFixedBase64 (bpr_SigningKey input) Ed25519PublicKeyBytes) in
  await _ := parse (decodeOneOfBase64 (bpr_PackageKey input) [X25519PublicKeyBytes; XWingPublicKeyBytes]) in
  await message := parse (decodeBase64 (bpr_Message input)) in
  await _ := call (BeginPairing clk caller signed
    {| po_DeviceID := bpr_DeviceID input; po_SigningKey := bpr_SigningKey input;
       po_PackageKey := bpr_PackageKey input; po_Message := message |}) in
  done (writeHeader StatusCreated).

Definition h_PairingStatus request : HM (Ho * W) Empty_set :=
  await caller := authenticate request "pairing-mine" in
  await pairing := call (PairingStatus clk caller) in
  done (writeJSON StatusOK (JPairingStatus
    {| psr_State := p_State pairing; psr_Answer := encodeBase64 (p_Answer pairing);
       psr_ExpiresAt := formatTime (p_ExpiresAt pairing) |})).

Definition h_AnswerPairing request : HM (Ho * W) Empty_set :=
  await caller := authenticate request "pairing-answer" in
  await deviceID := parse (pathDeviceID request) in
  await (input, signed) := parse (readSignedJSON (T := pairingMessageRequest) request smallBodyBytes) in
  await message := parse (decodeBase64 (pmr_Message input)) in
  await _ := call (AnswerPairing clk caller signed deviceID message) in
  done (writeHeader StatusNoContent).

Definition h_ConfirmPairing request : HM (Ho * W) Empty_set :=
  await caller := authenticate request "pairing-confirm" in
  await (input, signed) := parse (readSignedJSON (T := pairingMessageRequest) request smallBodyBytes) in
  await message := parse (decodeBase64 (pmr_Message input)) in
  await _ := call (ConfirmPairing clk caller signed message) in
  done (writeHeader StatusNoContent).

Definition h_CancelPairing request : HM (Ho * W) Empty_set :=
  await caller := authenticate request "pairing-cancel" in
  await deviceID := parse (pathDeviceID request) in
  await signed := parse (readSignedEmpty request) in
  await _ := call (CancelPairing clk caller signed deviceID) in
  done (writeHeader StatusNoContent).

Definition h_Approve request : HM (Ho * W) Empty_set :=
  await caller := authenticate request "approve" in
  await (input, signed) := parse (readSignedJSON (T := approveRequest) request keyChangeBodyBytes) in
  await pkg := parse (toService (apr_Package input)) in
  await _ := call (Approve clk caller signed {| api_Entry := apr_Entry input; api_Package := pkg |}) in
  done (writeHeader StatusCreated).

Definition h_Remove request : HM (Ho * W) Empty_set :=
  await caller := authenticate request "remove" in
  await (input, signed) := parse (readSignedJSON (T := removeRequest) request keyChangeBodyBytes) in
  await packages := parse (toServices (rmr_Packages input)) in
  await _ := call (Remove clk caller signed {| rmi_Entry := rmr_Entry input; rmi_Packages := packages |}) in
  done (writeHeader StatusNoContent).

Definition h_Rotate request : HM (Ho * W) Empty_set :=
  await caller := authenticate request "rotate" in
  await (input, signed) := parse (readSignedJSON (T := removeRequest) request keyChangeBodyBytes) in
  await packages := parse (toServices (rmr_Packages input)) in
  await _ := call (Rotate clk caller signed {| roi_Entry := rmr_Entry input; roi_Packages := packages |}) in
  done (writeHeader StatusNoContent).

Definition h_UpgradeKey request : HM (Ho * W) Empty_set :=
  await caller := authenticate request "device-key" in
  await (input, signed) := parse (readSignedJSON (T := upgradeKeyRequest) request smallBodyBytes) in
  await _ := call (UpgradeKey clk caller signed {| uki_Entry := ukr_Entry input |}) in
  done (writeHeader StatusNoContent).

Definition h_KeyPackage request : HM (Ho * W) Empty_set :=
  await caller := authenticate request "key-package" in
  await pkg := call (GetKeyPackageOp clk caller) in
  done (writeJSON StatusOK (JKeyPackage {| kpr_Package := keyPackageToWire (kp_Package pkg) |})).

Definition h_Activate request : HM (Ho * W) Empty_set :=
  await caller := authenticate request "activate" in
  await (input, signed) := parse (readSignedJSON (T := activateRequest) request smallBodyBytes) in
  await _ := parse (refuse_if canonicalFixedBase64 (acr_PackageDigest input) DigestBytes = false
                      with codeInvalid; Accept tt) in
  await _ := call (Activate clk caller signed {| aci_PackageDigest := acr_PackageDigest input |}) in
  done (writeHeader StatusNoContent).

Definition h_Upload request : HM (Ho * W) Empty_set :=
  await caller := authenticate request "upload" in
  await (input, signed) := parse (readSignedJSON (T := uploadRequest) request snapshotBodyBytes) in
  await ciphertext := parse (decodeBase64 (upr_Ciphertext input)) in
  await accepted := call (Upload cfg clk caller signed
    {| upi_Header := upr_Header input; upi_Ciphertext := ciphertext |}) in
  done (writeJSON StatusCreated (JUpload
    {| usr_Revision := h_Revision (sh_Header (ac_Header accepted)); usr_Digest := sh_Digest (ac_Header accepted);
       usr_Receipt := ac_Receipt accepted; usr_AcceptedAt := formatTime (sh_AcceptedAt (ac_Header accepted)) |})).

Definition h_Headers request : HM (Ho * W) Empty_set :=
  await caller := authenticate request "headers" in
  await after := parse (queryUint request "after" 64) in
  await limit := parse (queryUint request "limit" 31) in
  await stored := call (HeadersOp clk caller after limit) in
  done (writeJSON StatusOK (JHeaders {| hsr_Headers := headerRecords stored |})).

Definition h_Download request : HM (Ho * W) Empty_set :=
  await caller := authenticate request "download" in
  await snapshot := call (Snapshot clk caller) in
  done (writeJSON StatusOK (JSnapshot
    {| ssr_Header := sh_Header (sn_Header snapshot); ssr_Digest := sh_Digest (sn_Header snapshot);
       ssr_Receipt := sh_Receipt (sn_Header snapshot);
       ssr_AcceptedAt := formatTime (sh_AcceptedAt (sn_Header snapshot));
       ssr_Ciphertext := encodeBase64 (sn_Ciphertext snapshot) |})).

Definition h_PutCheckpoint request : HM (Ho * W) Empty_set :=
  await caller := authenticate request "checkpoint-put" in
  await (input, signed) := parse (readSignedJSON (T := checkpointRequest) request smallBodyBytes) in
  await _ := call (PutCheckpointOp clk caller signed (ckr_Checkpoint input)) in
  done (writeHeader StatusNoContent).

Definition h_Checkpoints request : HM (Ho * W) Empty_set :=
  await caller := authenticate request "checkpoints" in
  await stored := call (CheckpointsOp clk caller) in
  done (writeJSON StatusOK (JCheckpoints {| csr_Checkpoints := checkpointRecords stored |})).

Definition h_Reset request : HM (Ho * W) Empty_set :=
  await caller := authenticate request "reset" in
  await (input, signed) := parse (readSignedJSON (T := resetRequest) request smallBodyBytes) in
  await _ := call (Reset clk caller signed {| rei_VaultEpoch := rer_VaultEpoch input |}) in
  done (writeHeader StatusNoContent).
End Handlers.

(** ** Routes *)
Inductive route :=
| RState | RCreateVault | RDeviceList | RDevices | RBeginPairing | RPairingStatus | RAnswerPairing
| RConfirmPairing | RCancelPairing | RApprove | RRemove | RUpgradeKey | RRotate | RKeyPackage | RActivate
| RUpload | RHeaders | RDownload | RPutCheckpoint | RCheckpoints | RReset.

#[export] Instance route_eq_dec : EqDecision route.
Proof. solve_decision. Defined.

Definition Register : list (string * route) :=
  [ ("GET /v1/sync/state", RState);
    ("POST /v1/sync/vault", RCreateVault);
    ("GET /v1/sync/device-list", RDeviceList);
    ("GET /v1/sync/devices", RDevices);
    ("POST /v1/sync/pairings", RBeginPairing);
    ("GET /v1/sync/pairings/mine", RPairingStatus);
    ("POST /v1/sync/pairings/{deviceId}/answer", RAnswerPairing);
    ("POST /v1/sync/pairings/mine/confirm", RConfirmPairing);
    ("DELETE /v1/sync/pairings/{deviceId}", RCancelPairing);
    ("POST /v1/sync/devices", RApprove);
    ("POST /v1/sync/devices/remove", RRemove);
    ("POST /v1/sync/devices/key", RUpgradeKey);
    ("POST /v1/sync/devices/rotate", RRotate);
    ("GET /v1/sync/key-package", RKeyPackage);
    ("POST /v1/sync/activate", RActivate);
    ("POST /v1/sync/snapshots", RUpload);
    ("GET /v1/sync/headers", RHeaders);
    ("GET /v1/sync/snapshot", RDownload);
    ("POST /v1/sync/checkpoints", RPutCheckpoint);
    ("GET /v1/sync/checkpoints", RCheckpoints);
    ("POST /v1/sync/reset", RReset) ].

(** A pattern of [http.ServeMux]: a method and the segments of a path, some of them wildcards. *)
Inductive segment := Literal (s : string) | Wildcard (name : string).
Record pattern := { pt_Method : string; pt_Segments : list segment }.

Definition parse_segment (s : string) : segment :=
  match s with
  | String "{" rest =>
      if decide (String.get (String.length rest - 1) rest = Some ("}"%char))
      then Wildcard (String.substring 0 (String.length rest - 1) rest) else Literal s
  | _ => Literal s
  end.
Definition parse_pattern (text : string) : pattern :=
  match Split " " text with
  | [method; path] => {| pt_Method := method; pt_Segments := parse_segment <$> tail (Split "/" path) |}
  | _ => {| pt_Method := ""; pt_Segments := [] |}
  end.

(** A [GET] pattern also serves [HEAD]; a wildcard stands for one segment that is not empty. *)
Definition matches_method (p : pattern) (method : string) : bool :=
  bool_decide (method = pt_Method p ∨ (pt_Method p = "GET" ∧ method = "HEAD")).
Fixpoint matches_path (segs : list segment) (path : list string) (wild : gmap string string)
  : option (gmap string string) :=
  match segs, path with
  | [], [] => Some wild
  | Literal s :: segs, p :: path => if decide (s = p) then matches_path segs path wild else None
  | Wildcard name :: segs, p :: path =>
      if decide (p = "") then None else matches_path segs path (<[name := p]> wild)
  | _, _ => None
  end.
Definition matches (text method : string) (path : list string) : option (gmap string string) :=
  let p := parse_pattern text in
  if matches_method p method then matches_path (pt_Segments p) path ∅ else None.

(** The handler the mux picks, with the values of the wildcards; [path] are the segments of the
    request's path. *)
Fixpoint dispatch_in (table : list (string * route)) (method : string) (path : list string)
  : option (route * gmap string string) :=
  match table with
  | [] => None
  | (text, r) :: table =>
      match matches text method path with
      | Some wild => Some (r, wild)
      | None => dispatch_in table method path
      end
  end.
Definition dispatch : string → list string → option (route * gmap string string) := dispatch_in Register.

Definition set_hr_Path (wild : gmap string string) (request : http_request) : http_request :=
  {| hr_Method := hr_Method request; hr_RequestURI := hr_RequestURI request; hr_Header := hr_Header request;
     hr_Query := hr_Query request; hr_Path := wild; hr_Body := hr_Body request;
     hr_BodyFails := hr_BodyFails request |}.

Section Serve.
Context `{Crypto} `{MapRange} `{Decoders} {Ho W S : Type} `{Host Ho} `{Tx S} `{Storage W S}.
Context (cfg : Config) (clks : nat → nat → time).

Definition handler_of (r : route) : http_request → HM (Ho * W) Empty_set :=
  match r with
  | RState => h_State cfg clks
  | RCreateVault => h_CreateVault clks
  | RDeviceList => h_DeviceList clks
  | RDevices => h_Devices clks
  | RBeginPairing => h_BeginPairing clks
  | RPairingStatus => h_PairingStatus clks
  | RAnswerPairing => h_AnswerPairing clks
  | RConfirmPairing => h_ConfirmPairing clks
  | RCancelPairing => h_CancelPairing clks
  | RApprove => h_Approve clks
  | RRemove => h_Remove clks
  | RUpgradeKey => h_UpgradeKey clks
  | RRotate => h_Rotate clks
  | RKeyPackage => h_KeyPackage clks
  | RActivate => h_Activate clks
  | RUpload => h_Upload cfg clks
  | RHeaders => h_Headers clks
  | RDownload => h_Download clks
  | RPutCheckpoint => h_PutCheckpoint clks
  | RCheckpoints => h_Checkpoints clks
  | RReset => h_Reset clks
  end.

(** One request through the mux; a request no pattern matches is not the handlers'. *)
Definition ServeHTTP (request : http_request) (path : list string) (x : Ho * W) : option (reply * (Ho * W)) :=
  match dispatch (hr_Method request) path with
  | Some (r, wild) => Some (handle (handler_of r (set_hr_Path wild request)) x)
  | None => None
  end.
End Serve.
