(* ===== verification/GoText.v ===== *)
(** * More of Go's [strings] and [strconv]

    Searching, splitting, cutting and trimming of byte strings, the order of strings, and what the runes of a
    string say about its bytes. *)

From stdpp Require Import base list gmap strings pretty.
From Stdlib Require Import ZArith Lia Ascii Strings.Byte.
From Stdlib Require String.
From S2P Require Import Prelude GoStd.
Local Open Scope Z_scope.

(** [strings.Cut(s, sep)] for a one-byte separator: what comes before and after its first occurrence. *)
Fixpoint Cut (sep : ascii) (s : string) : string * string * bool :=
  match s with
  | "" => ("", "", false)
  | String c s =>
      if decide (c = sep) then ("", s, true)
      else let '(a, b, found) := Cut sep s in (String c a, b, found)
  end.

(** [strings.HasPrefix], giving the rest. *)
Fixpoint strip_prefix (p s : string) : option string :=
  match p, s with
  | "", _ => Some s
  | String a p, String b s => if decide (a = b) then strip_prefix p s else None
  | _, "" => None
  end.

(** [strings.Cut(s, sep)] for a separator of any length. *)
Fixpoint CutString (sep s : string) : string * string * bool :=
  match strip_prefix sep s with
  | Some rest => ("", rest, true)
  | None =>
      match s with
      | "" => ("", "", false)
      | String c s => let '(a, b, found) := CutString sep s in (String c a, b, found)
      end
  end.

(** [strings.Contains(s, sep)] for one byte, [strings.ContainsAny(s, chars)]. *)
Definition contains (sep : ascii) (s : string) : bool := negb (str_forall (λ c, bool_decide (c ≠ sep)) s).

(** [s[0]], for a string that is not empty. *)
Definition first_char (s : string) : option ascii :=
  match s with "" => None | String c _ => Some c end.

(** [strings.TrimSpace] cuts Unicode white space from both ends.  [space_bytes] are the encodings of the
    white space runes, as bytes. *)
Definition space_bytes : list (list Z) :=
  [[9]; [10]; [11]; [12]; [13]; [32]; [194; 133]; [194; 160]; [225; 154; 128]]
  ++ ((λ k, [226; 128; 128 + Z.of_nat k]) <$> seq 0 11)
  ++ [[226; 128; 168]; [226; 128; 169]; [226; 128; 175]; [226; 129; 159]; [227; 128; 128]].

Fixpoint strip_bytes (p : list Z) (s : list Z) : option (list Z) :=
  match p, s with
  | [], _ => Some s
  | a :: p, b :: s => if decide (a = b) then strip_bytes p s else None
  | _, [] => None
  end.
Fixpoint strip_any (ps : list (list Z)) (s : list Z) : option (list Z) :=
  match ps with
  | [] => None
  | p :: ps => match strip_bytes p s with Some rest => Some rest | None => strip_any ps s end
  end.
(** Every step drops a byte, so the length of the string is enough steps. *)
Fixpoint trim_front (fuel : nat) (ps : list (list Z)) (s : list Z) : list Z :=
  match fuel with
  | O => s
  | S fuel => match strip_any ps s with Some rest => trim_front fuel ps rest | None => s end
  end.
Fixpoint codes (s : string) : list Z :=
  match s with "" => [] | String c s => ascii_Z c :: codes s end.
Fixpoint uncodes (l : list Z) : string :=
  match l with [] => "" | z :: l => String (ascii_of_N (Z.to_N z)) (uncodes l) end.
Definition TrimSpace (s : string) : string :=
  let n := String.length s in
  uncodes (reverse (trim_front n (reverse <$> space_bytes) (reverse (trim_front n space_bytes (codes s))))).

(** [strconv.ParseUint(s, 10, 64)] with its error dropped: 0 for a syntax error, the largest value when
    the number does not fit. *)
Definition ParseUint_value (s : string) : Z :=
  if decide (s = "") then 0
  else match parse_digits s 0 with
       | None => 0
       | Some v => if decide (v < 2 ^ 64) then v else max_uint64
       end.

(** [a < b] on strings: byte by byte. *)
Definition string_compare (a b : string) : comparison := String.compare a b.

(** No byte of [s] is [sep]; the words [ws] with [sep] between them. *)
Definition lacks (sep : ascii) (s : string) : bool := str_forall (λ c, bool_decide (c ≠ sep)) s.

Fixpoint join (sep : ascii) (ws : list string) : string :=
  match ws with
  | [] => ""
  | [w] => w
  | w :: ws => w +:+ String sep (join sep ws)
  end.

(** * Facts *)
Lemma uncodes_codes s : uncodes (codes s) = s.
Proof.
  induction s as [|c s IH]; cbn; [done|]. rewrite IH. f_equal. unfold ascii_Z.
  rewrite N2Z.id. apply ascii_N_embedding.
Qed.

Lemma append_assoc (a b c : string) : a +:+ (b +:+ c) = (a +:+ b) +:+ c.
Proof.
  induction a as [|x a IH]; [done|].
  change (String x (a +:+ (b +:+ c)) = String x ((a +:+ b) +:+ c)). by rewrite IH.
Qed.

Lemma append_empty (s : string) : s +:+ "" = s.
Proof. induction s as [|c s IH]; [done|]. change (String c (s +:+ "") = String c s). by rewrite IH. Qed.

Lemma Cut_spec sep s a b found :
  Cut sep s = (a, b, found) →
  str_forall (λ c, bool_decide (c ≠ sep)) a = true ∧
  if found then s = a +:+ String sep b else s = a ∧ b = "".
Proof.
  revert a b found. induction s as [|c s IH]; cbn; intros a b found; [by intros [= <- <- <-]|].
  case_decide as E; [intros [= <- <- <-]; subst; done|].
  destruct (Cut sep s) as [[a' b'] f'] eqn:Ec. intros [= <- <- <-].
  destruct (IH _ _ _ eq_refl) as [Ha Hs]. cbn. rewrite Ha, bool_decide_eq_true_2 by done. split; [done|].
  destruct f'; [by subst|]. by destruct Hs as [-> ->].
Qed.

Lemma string_compare_eq a b : string_compare a b = Eq ↔ a = b.
Proof.
  split; [apply String.compare_eq_iff|intros ->].
  induction b as [|c b IH]; cbn; [done|]. unfold Ascii.compare. by rewrite N.compare_refl.
Qed.

(** ** Splitting *)
Lemma Split_nonempty sep s : Split sep s ≠ [].
Proof. destruct s as [|c s]; cbn; [done|]. case_decide; [done|]. by destruct (Split sep s). Qed.

Lemma join_Split sep s : join sep (Split sep s) = s.
Proof.
  induction s as [|c s IH]; cbn; [done|]. case_decide as E.
  - subst c. pose proof (Split_nonempty sep s). destruct (Split sep s); [done|]. cbn in *. by rewrite IH.
  - pose proof (Split_nonempty sep s). destruct (Split sep s) as [|w [|w' ws]]; [done|..];
      rewrite <- IH; reflexivity.
Qed.

Lemma Split_lacks sep w : lacks sep w = true → Split sep w = [w].
Proof.
  unfold lacks. induction w as [|c w IH]; cbn; [done|]. intros [Hc Hw]%andb_true_iff.
  apply bool_decide_eq_true in Hc. rewrite decide_False by done. by rewrite IH.
Qed.

Lemma Split_app sep w s : lacks sep w = true → Split sep (w +:+ String sep s) = w :: Split sep s.
Proof.
  unfold lacks. induction w as [|c w IH].
  - intros _. change (Split sep (String sep s) = "" :: Split sep s). cbn [Split]. by rewrite decide_True.
  - cbn [str_forall]. intros [Hc Hw]%andb_true_iff. apply bool_decide_eq_true in Hc.
    change (Split sep (String c (w +:+ String sep s)) = String c w :: Split sep s).
    cbn [Split]. rewrite decide_False by done. by rewrite IH.
Qed.

Lemma str_forall_impl (p q : ascii → bool) s :
  (∀ c, p c = true → q c = true) → str_forall p s = true → str_forall q s = true.
Proof. intros Hpq. induction s as [|c s IH]; cbn; [done|]. intros [? ?]%andb_true_iff. rewrite Hpq, IH; done. Qed.

(** ** Runes *)
Lemma land_low z n : 0 ≤ n → Z.land z (2 ^ n - 1) = z mod 2 ^ n.
Proof. intros. rewrite <- Z.land_ones by done. by rewrite Z.ones_equiv, <- Z.sub_1_r. Qed.

(** What begins with a byte that is not ASCII decodes to a rune that is not ASCII. *)
Lemma runes_high c s : 128 ≤ ascii_Z c → ∃ z rs, runes (String c s) = z :: rs ∧ 128 ≤ z.
Proof.
  intros Hc. cbn [runes]. cbv zeta. rewrite decide_False by lia.
  assert (128 ≤ RuneError) as He by (unfold RuneError; lia).
  assert (Z.land (ascii_Z c) 31 = ascii_Z c mod 32) as E5 by (by apply (land_low _ 5)).
  assert (Z.land (ascii_Z c) 15 = ascii_Z c mod 16) as E4 by (by apply (land_low _ 4)).
  assert (Z.land (ascii_Z c) 7 = ascii_Z c mod 8) as E3 by (by apply (land_low _ 3)).
  rewrite E5, E4, E3.
  set (b0 := ascii_Z c) in *. unfold rune_class.
  assert (∀ c1 lo hi, continues lo hi c1 = true → lo ≤ ascii_Z c1 ≤ hi) as Hcont
    by (intros c1 lo hi; unfold continues; by rewrite bool_decide_eq_true).
  assert (∀ c1, Z.land (ascii_Z c1) 63 = ascii_Z c1 mod 64) as E6 by (intros; by apply (land_low _ 6)).
  assert (∀ c1, 0 ≤ Z.land (ascii_Z c1) 63) as Hnn by (intros; rewrite E6; apply Z.mod_pos_bound; lia).
  repeat case_decide; try (eexists _, _; split; [reflexivity|lia]);
    destruct s as [|c1 [|c2 [|c3 s]]]; try (eexists _, _; split; [reflexivity|done]);
    repeat match goal with
    | |- context [continues ?lo ?hi ?x] =>
        let E := fresh "E" in destruct (continues lo hi x) eqn:E; [apply Hcont in E|]; cbn [andb]
    end; try (eexists _, _; split; [reflexivity|done]);
    eexists _, _; (split; [reflexivity|]);
    pose proof (Hnn c1); try pose proof (Hnn c2); try pose proof (Hnn c3);
    rewrite ?E6 in *; Z.to_euclidean_division_equations; lia.
Qed.

(** A test that only ASCII passes can be made on the bytes. *)
Lemma forallb_runes (p : Z → bool) s :
  (∀ z, 128 ≤ z → p z = false) → forallb p (runes s) = str_forall (λ c, p (ascii_Z c)) s.
Proof.
  intros Hp. induction s as [|c s IH]; [done|]. cbn [str_forall].
  destruct (decide (ascii_Z c < 128)) as [Hc|Hc].
  - cbn [runes]. cbv zeta. rewrite decide_True by done. cbn [forallb]. by rewrite IH.
  - destruct (runes_high c s ltac:(lia)) as (z & rs & -> & Hz). cbn [forallb].
    by rewrite (Hp z), (Hp (ascii_Z c)) by lia.
Qed.

(** A test that the ten digits pass holds of every printed number. *)
Lemma str_forall_FormatUint (p : ascii → bool) v :
  forallb (λ d, p (pretty_N_char d)) [0; 1; 2; 3; 4; 5; 6; 7; 8; 9]%N = true → str_forall p (FormatUint v) = true.
Proof.
  intros Hp. unfold FormatUint, pretty, pretty_N. generalize (Z.to_N v). clear v. intros x.
  case_decide. { cbn in Hp |- *. by destruct (p "0"%char). }
  assert (str_forall p "" = true) as Hs by done. revert Hs. generalize "". clear H.
  induction (N.lt_wf_0 x) as [x _ IH]; intros s Hs.
  destruct (decide (x = 0)%N) as [->|Hx]; [by rewrite pretty_N_go_0|].
  rewrite pretty_N_go_step by lia. apply IH; [apply N.div_lt; lia|]. cbn [str_forall]. rewrite Hs, andb_true_r.
  rewrite forallb_forall in Hp. apply Hp. pose proof (N.mod_lt x 10 ltac:(lia)).
  assert (∃ k, (k < 10)%nat ∧ (x `mod` 10)%N = N.of_nat k) as (k & Hk & ->) by (exists (N.to_nat (x `mod` 10)); lia).
  do 10 (destruct k as [|k]; [cbn; tauto|]). lia.
Qed.
