(* ===== verification/WireThms.v ===== *)
(** * Theorems on the wire format *)

From stdpp Require Import base list gmap strings pretty.
From Stdlib Require Import ZArith Lia Ascii Strings.Byte.
From S2P Require Import Prelude GoStd GoText Canonical DeviceList Header Request SyncTypes NonceKeeper Service Wire Handler.
Local Open Scope Z_scope.

(** ** Neither numbers nor encoded bytes hold a dot *)
Lemma enc_char_not_dot v : enc_char v ≠ "."%char.
Proof.
  unfold enc_char. assert (0 ≤ Z.land v 63 < 64) as Hr.
  { change 63 with (Z.ones 6). rewrite Z.land_ones by lia. apply Z.mod_pos_bound. lia. }
  generalize dependent (Z.land v 63). intros w Hr.
  assert (∃ n, (n < 64)%nat ∧ Z.to_nat w = n) as (n & Hn & ->) by (exists (Z.to_nat w); lia).
  do 64 (destruct n as [|n]; [vm_compute; congruence|]). lia.
Qed.

Lemma lacks_dot_encode bs : lacks "." (EncodeToString bs) = true.
Proof.
  unfold lacks. induction bs as [|a|a b|a b c rest IH] using list_ind3; cbn [EncodeToString str_forall]; [done|..];
    rewrite ?bool_decide_eq_true_2 by apply enc_char_not_dot; cbn [andb]; done.
Qed.

Lemma lacks_dot_FormatUint v : lacks "." (FormatUint v) = true.
Proof. by apply str_forall_FormatUint. Qed.

(** ** Base64 fields *)
Lemma canonicalBase64_Some value d : canonicalBase64 value = Some d ↔ value = EncodeToString d.
Proof.
  unfold canonicalBase64. split.
  - destruct (DecodeString value) as [e|]; [|done]. case_decide as E; [done|].
    intros [= <-]. destruct (decide (EncodeToString e = value)); [done|]. by destruct E.
  - intros ->. rewrite DecodeString_encode. by rewrite decide_False by (intros Hn; by apply Hn).
Qed.

Lemma canonicalFixedBase64_true value len :
  canonicalFixedBase64 value len = true ↔ ∃ d, value = EncodeToString d ∧ Z.of_nat (length d) = len.
Proof.
  unfold canonicalFixedBase64. destruct (canonicalBase64 value) as [d|] eqn:E.
  - apply canonicalBase64_Some in E as ->. rewrite bool_decide_eq_true. split; [eauto|].
    intros (d' & ->%(inj EncodeToString) & ?). done.
  - split; [done|]. intros (d & Hv & _). apply canonicalBase64_Some in Hv. congruence.
Qed.

Lemma is_ok_decodeCanonical value len :
  is_ok (decodeCanonical value len) = true ↔ ∃ d, value = EncodeToString d ∧ Z.of_nat (length d) = len.
Proof.
  destruct (decodeCanonical value len) as [d|e] eqn:E; cbn.
  - apply decodeCanonical_ok in E. split; eauto.
  - split; [done|]. intros (d & Hd). apply decodeCanonical_ok in Hd. congruence.
Qed.

Lemma fixed_base64_agrees value len : canonicalFixedBase64 value len = is_ok (decodeCanonical value len).
Proof.
  apply eq_true_iff_eq. by rewrite canonicalFixedBase64_true, is_ok_decodeCanonical.
Qed.

Lemma one_of_base64 value lens d : decodeOneOfBase64 value lens = Accept d ↔ decodeCanonicalOneOf value lens = Ok d.
Proof.
  rewrite decodeCanonicalOneOf_ok. induction lens as [|len lens IH]; cbn.
  - split; [done|]. by intros [_ ?%not_elem_of_nil].
  - rewrite elem_of_cons. destruct (canonicalFixedBase64 value len) eqn:E.
    + apply canonicalFixedBase64_true in E as (d' & -> & <-).
      rewrite (proj2 (canonicalBase64_Some _ _) eq_refl). cbn. split.
      * intros [= <-]. auto.
      * intros [->%(inj EncodeToString) _]. done.
    + rewrite IH. split; [intros [? ?]; auto|]. intros [-> [Hl|?]]; [|auto]. exfalso.
      assert (canonicalFixedBase64 (EncodeToString d) len = true); [|congruence].
      apply canonicalFixedBase64_true. eauto.
Qed.

(** ** Identifiers *)
Lemma id_rune_ascii c : id_rune (ascii_Z c) = id_char c.
Proof.
  unfold id_rune, id_char, ascii_Z. apply bool_decide_ext. lia.
Qed.

Lemma id_rune_high z : 128 ≤ z → id_rune z = false.
Proof. intros. unfold id_rune. apply bool_decide_eq_false. lia. Qed.

Lemma forallb_id_runes s : forallb id_rune (runes s) = str_forall id_char s.
Proof.
  rewrite forallb_runes by (intros; by apply id_rune_high).
  induction s as [|c s IH]; cbn [str_forall]; [done|]. by rewrite id_rune_ascii, IH.
Qed.

Lemma validID_opaqueID s : validID s = opaqueID s.
Proof.
  unfold validID, opaqueID, minIDLength, maxIDLength. rewrite forallb_id_runes.
  case_decide; [rewrite bool_decide_eq_false_2 by lia; done|rewrite bool_decide_eq_true_2 by lia; done].
Qed.

(** ** Routes *)
Definition seg_overlap (a b : segment) : bool :=
  match a, b with
  | Literal s, Literal t => bool_decide (s = t)
  | Literal s, Wildcard _ | Wildcard _, Literal s => bool_decide (s ≠ "")
  | Wildcard _, Wildcard _ => true
  end.
Fixpoint path_overlap (p q : list segment) : bool :=
  match p, q with
  | [], [] => true
  | a :: p, b :: q => seg_overlap a b && path_overlap p q
  | _, _ => false
  end.
Definition method_overlap (a b : string) : bool := bool_decide (a = b).
Definition overlap (s t : string) : bool :=
  let p := parse_pattern s in let q := parse_pattern t in
  method_overlap (pt_Method p) (pt_Method q) && path_overlap (pt_Segments p) (pt_Segments q).

Lemma path_overlap_sound p q path w1 w2 x y :
  matches_path p path w1 = Some x → matches_path q path w2 = Some y → path_overlap p q = true.
Proof.
  revert q path w1 w2. induction p as [|a p IH]; intros [|b q] [|c path] w1 w2; cbn; try done;
    try (by destruct a); try (by destruct b).
  intros H1 H2. apply andb_true_iff.
  destruct a as [s|n], b as [t|m]; cbn; repeat case_decide; subst; try done;
    (split; [first [done|apply bool_decide_eq_true; congruence]|eauto]).
Qed.

Lemma method_overlap_sound p q method :
  pt_Method p ≠ "HEAD" → pt_Method q ≠ "HEAD" →
  matches_method p method = true → matches_method q method = true →
  pt_Method p = pt_Method q.
Proof.
  unfold matches_method. rewrite !bool_decide_eq_true.
  intros ? ? [->|[? ->]] [?|[? ?]]; congruence.
Qed.

Definition named (e : string * route) : bool := bool_decide (pt_Method (parse_pattern e.1) ≠ "HEAD").

(** The patterns of a table in which no two overlap. *)
Fixpoint disjoint_table (table : list (string * route)) : bool :=
  match table with
  | [] => true
  | e :: table => named e && forallb (λ f, negb (overlap e.1 f.1)) table && disjoint_table table
  end.

Lemma matches_overlap e f method path x y :
  named e = true → named f = true →
  matches e.1 method path = Some x → matches f.1 method path = Some y → overlap e.1 f.1 = true.
Proof.
  unfold named, matches, overlap. rewrite !bool_decide_eq_true. intros He Hf. cbv zeta.
  destruct (matches_method (parse_pattern e.1) method) eqn:E1; [|done].
  destruct (matches_method (parse_pattern f.1) method) eqn:E2; [|done]. intros H1 H2. apply andb_true_iff. split.
  - apply bool_decide_eq_true. by eapply method_overlap_sound.
  - by eapply path_overlap_sound.
Qed.

Lemma disjoint_table_named table e : disjoint_table table = true → e ∈ table → named e = true.
Proof.
  induction table as [|f table IH]; cbn; [by intros _ ?%not_elem_of_nil|].
  intros [[Hn _]%andb_true_iff Ht]%andb_true_iff [->|?]%elem_of_cons; auto.
Qed.

Lemma dispatch_in_unique table text r method path wild :
  disjoint_table table = true → (text, r) ∈ table → matches text method path = Some wild →
  dispatch_in table method path = Some (r, wild).
Proof.
  induction table as [|[t q] table IH]; intros Hd; [by intros ?%not_elem_of_nil|].
  pose proof Hd as [[Hn Hall]%andb_true_iff Ht]%andb_true_iff.
  intros [[= <- <-]|Hin]%elem_of_cons Hm; cbn [dispatch_in]; [by rewrite Hm|].
  destruct (matches t method path) as [y|] eqn:E; [|by apply IH].
  exfalso. pose proof (proj1 (forallb_forall _ _) Hall (text, r) (proj1 (list_elem_of_In _ _) Hin)) as Hf.
  cbn -[overlap] in Hf. assert (overlap t text = true) as Ho; [|by rewrite Ho in Hf].
  apply (matches_overlap (t, q) (text, r) method path y wild); [done| |done|done].
  by eapply disjoint_table_named.
Qed.

Lemma dispatch_in_sound table r method path wild :
  dispatch_in table method path = Some (r, wild) → ∃ text, (text, r) ∈ table ∧ matches text method path = Some wild.
Proof.
  induction table as [|[t q] table IH]; cbn; [done|].
  destruct (matches t method path) as [y|] eqn:E.
  - intros [= <- <-]. exists t. split; [apply list_elem_of_here|done].
  - intros (text & ? & ?)%IH. exists text. split; [by apply list_elem_of_further|done].
Qed.

Lemma Register_disjoint : disjoint_table Register = true.
Proof. vm_compute. reflexivity. Qed.

(** ** Theorems *)
Section Theorems.

(** The one header value that carries a timestamp, a nonce and a signature. *)
Definition signature_value (timestamp : Z) (nonce signature : bytes) : string :=
  FormatUint timestamp +:+ "." +:+ EncodeToString nonce +:+ "." +:+ EncodeToString signature.

(** C26: the request signature header has exactly one spelling.  [readSignature] accepts a request
    exactly when it has one signature header and its value is the decimal timestamp, the base64url nonce
    of 16 bytes and the base64url signature of 64 bytes, joined by dots; the signed request then holds
    those values with the request's own method and target. *)
Theorem signature_header_is_canonical request q :
  readSignature request = Accept q ↔
  ∃ timestamp nonce signature,
    header_Values request signatureHeader = [signature_value timestamp nonce signature] ∧
    is_u64 timestamp ∧ length nonce = 16%nat ∧ length signature = 64%nat ∧
    q = {| q_Method := hr_Method request; q_Target := hr_RequestURI request; q_Body := [];
           q_Timestamp := timestamp; q_Nonce := EncodeToString nonce; q_Signature := EncodeToString signature |}.
Proof.
  unfold readSignature. cbv zeta. split.
  - case_decide as Hl; [done|].
    destruct (header_Values request signatureHeader) as [|value [|]]; try done.
    change (default "" (head [value])) with value. intros Hx. pose proof (join_Split "." value) as Hj.
    destruct (Split "." value) as [|p0 [|p1 [|p2 [|]]]]; try done. cbn in Hj.
    destruct (ParseUint p0 64) as [ts|] eqn:Ep; [|done].
    case_decide as Hf; [done|].
    case_decide as Hn; [done|]. apply not_false_iff_true, canonicalFixedBase64_true in Hn as (nonce & -> & Hnl).
    case_decide as Hs; [done|]. apply not_false_iff_true, canonicalFixedBase64_true in Hs as (sig & -> & Hsl).
    injection Hx as <-. exists ts, nonce, sig. unfold signature_value. rewrite Hf, <- Hj.
    unfold RequestNonceBytes, Ed25519SignatureBytes in *.
    split_and!; [done|by apply ParseUint_range in Ep|lia|lia|done].
  - intros (ts & nonce & sig & -> & Hts & Hn & Hs & ->).
    change (default "" (head [?value])) with value.
    rewrite decide_False by (intros Hne; by apply Hne). unfold signature_value.
    change ("." +:+ ?x) with (String "." x).
    rewrite Split_app by apply lacks_dot_FormatUint.
    change ("." +:+ ?x) with (String "." x).
    rewrite Split_app, Split_lacks by apply lacks_dot_encode.
    rewrite ParseUint_FormatUint by done. rewrite decide_False by (intros Hne; by apply Hne).
    rewrite decide_False.
    2: { apply not_false_iff_true, canonicalFixedBase64_true. exists nonce. unfold RequestNonceBytes. split; [done|lia]. }
    rewrite decide_False; [done|].
    apply not_false_iff_true, canonicalFixedBase64_true. exists sig. unfold Ed25519SignatureBytes. split; [done|lia].
Qed.

(** C27: the wire and the protocol agree on what is well formed.  The identifiers the handlers accept in a
    path, rune by rune, are exactly the protocol's opaque identifiers, and the base64 checks of the wire,
    for one length or for one of several, accept exactly the strings the protocol's decoder accepts, with
    the same bytes. *)
Theorem wire_agrees_with_protocol value len lens d :
  validID value = opaqueID value ∧
  canonicalFixedBase64 value len = is_ok (decodeCanonical value len) ∧
  (decodeOneOfBase64 value lens = Accept d ↔ decodeCanonicalOneOf value lens = Ok d).
Proof. split_and!; [apply validID_opaqueID|apply fixed_base64_agrees|apply one_of_base64]. Qed.

(** C28: the routes are unambiguous.  A request reaches a handler exactly when its method and path match
    the handler's registered pattern: no request matches two patterns, so the order of registration does
    not matter. *)
Theorem routes_are_unambiguous r method path wild :
  dispatch method path = Some (r, wild) ↔
  ∃ text, (text, r) ∈ Register ∧ matches text method path = Some wild.
Proof.
  split; [apply dispatch_in_sound|]. intros (text & Hin & Hm).
  by eapply dispatch_in_unique; [apply Register_disjoint|..].
Qed.
End Theorems.
