(* ===== verification/Http.v ===== *)
(** * The HTTP layer refines the service

    Every handler authenticates, decodes its request into calls of the service, runs them until one
    fails, and replies: [calls_of] is that decoding on its own, and [served] says what a reply means. *)

From stdpp Require Import base list gmap strings sorting relations.
From Stdlib Require Import ZArith Lia Ascii Strings.Byte.
From S2P Require Import Prelude GoStd Canonical DeviceList DeviceListFacts DeviceListThms Header Request.
From S2P Require Import SyncTypes MemStore NonceKeeper Service.
From S2P Require Import VaultInv Actors Steps SyncSafety Wire Handler WireThms.
Local Open Scope Z_scope.
Local Open Scope http_scope.

(** The name a handler gives its operation when it asks the host for the caller. *)
Definition route_name (r : route) : string :=
  match r with
  | RState => "state" | RCreateVault => "vault" | RDeviceList => "device-list" | RDevices => "devices"
  | RBeginPairing => "pairing-begin" | RPairingStatus => "pairing-mine" | RAnswerPairing => "pairing-answer"
  | RConfirmPairing => "pairing-confirm" | RCancelPairing => "pairing-cancel" | RApprove => "approve"
  | RRemove => "remove" | RUpgradeKey => "device-key" | RRotate => "rotate" | RKeyPackage => "key-package"
  | RActivate => "activate" | RUpload => "upload" | RHeaders => "headers" | RDownload => "download"
  | RPutCheckpoint => "checkpoint-put" | RCheckpoints => "checkpoints" | RReset => "reset"
  end.

Section Http.
Context `{Crypto} `{MapRange} `{Decoders} {Ho : Type} `{Host Ho} (cfg : Config).
Implicit Types (s : state) (request : http_request) (h : Ho).

(** The service calls a request stands for, once its caller is known. *)
Definition calls_of (r : route) (clks : nat → nat → time) request (caller : Caller) : checked (list operation) :=
  let clk := clks 0%nat in
  match r with
  | RState => Accept [OpVaultState clk caller]
  | RCreateVault =>
      accept (i, q) := readSignedJSON request smallBodyBytes in
      Accept [OpCreateVault clk caller q {| cvi_Entry := cvr_Entry i |}]
  | RDeviceList =>
      accept after := queryUint request "after" 64 in Accept [OpDeviceList clk caller after 0]
  | RDevices => Accept [OpDevices clk caller; OpPendingPairings (clks 1%nat) caller]
  | RBeginPairing =>
      accept (i, q) := readSignedJSON request smallBodyBytes in
      accept _ := decodeFixedBase64 (bpr_SigningKey i) Ed25519PublicKeyBytes in
      accept _ := decodeOneOfBase64 (bpr_PackageKey i) [X25519PublicKeyBytes; XWingPublicKeyBytes] in
      accept message := decodeBase64 (bpr_Message i) in
      Accept [OpBeginPairing clk caller q
        {| po_DeviceID := bpr_DeviceID i; po_SigningKey := bpr_SigningKey i;
           po_PackageKey := bpr_PackageKey i; po_Message := message |}]
  | RPairingStatus => Accept [OpPairingStatus clk caller]
  | RAnswerPairing =>
      accept id := pathDeviceID request in
      accept (i, q) := readSignedJSON request smallBodyBytes in
      accept message := decodeBase64 (pmr_Message i) in
      Accept [OpAnswerPairing clk caller q id message]
  | RConfirmPairing =>
      accept (i, q) := readSignedJSON request smallBodyBytes in
      accept message := decodeBase64 (pmr_Message i) in
      Accept [OpConfirmPairing clk caller q message]
  | RCancelPairing =>
      accept id := pathDeviceID request in
      accept q := readSignedEmpty request in
      Accept [OpCancelPairing clk caller q id]
  | RApprove =>
      accept (i, q) := readSignedJSON request keyChangeBodyBytes in
      accept pkg := toService (apr_Package i) in
      Accept [OpApprove clk caller q {| api_Entry := apr_Entry i; api_Package := pkg |}]
  | RRemove =>
      accept (i, q) := readSignedJSON request keyChangeBodyBytes in
      accept pkgs := toServices (rmr_Packages i) in
      Accept [OpRemove clk caller q {| rmi_Entry := rmr_Entry i; rmi_Packages := pkgs |}]
  | RRotate =>
      accept (i, q) := readSignedJSON request keyChangeBodyBytes in
      accept pkgs := toServices (rmr_Packages i) in
      Accept [OpRotate clk caller q {| roi_Entry := rmr_Entry i; roi_Packages := pkgs |}]
  | RUpgradeKey =>
      accept (i, q) := readSignedJSON request smallBodyBytes in
      Accept [OpUpgradeKey clk caller q {| uki_Entry := ukr_Entry i |}]
  | RKeyPackage => Accept [OpKeyPackage clk caller]
  | RActivate =>
      accept (i, q) := readSignedJSON request smallBodyBytes in
      accept _ := (refuse_if canonicalFixedBase64 (acr_PackageDigest i) DigestBytes = false
                     with codeInvalid; Accept tt) in
      Accept [OpActivate clk caller q {| aci_PackageDigest := acr_PackageDigest i |}]
  | RUpload =>
      accept (i, q) := readSignedJSON request snapshotBodyBytes in
      accept ciphertext := decodeBase64 (upr_Ciphertext i) in
      Accept [OpUpload clk caller q {| upi_Header := upr_Header i; upi_Ciphertext := ciphertext |}]
  | RHeaders =>
      accept after := queryUint request "after" 64 in
      accept limit := queryUint request "limit" 31 in
      Accept [OpHeaders clk caller after limit]
  | RDownload => Accept [OpSnapshot clk caller]
  | RPutCheckpoint =>
      accept (i, q) := readSignedJSON request smallBodyBytes in
      Accept [OpPutCheckpoint clk caller q (ckr_Checkpoint i)]
  | RCheckpoints => Accept [OpCheckpoints clk caller]
  | RReset =>
      accept (i, q) := readSignedJSON request smallBodyBytes in
      Accept [OpReset clk caller q {| rei_VaultEpoch := rer_VaultEpoch i |}]
  end.

(** Calls one after the other, until one fails. *)
Fixpoint run_calls (os : list operation) s : option error * state :=
  match os with
  | [] => (None, s)
  | o :: os => match exec cfg o s with
               | (None, s') => run_calls os s'
               | (Some e, s') => (Some e, s')
               end
  end.

(** What the reply to a request that decoded to [c] means for the store. *)
Definition served (c : checked (list operation)) s (rp : reply) s' : Prop :=
  match c with
  | Reply rp' => rp = rp' ∧ s' = s
  | Accept os => s' = (run_calls os s).2 ∧
      match (run_calls os s).1 with
      | Some e => rp = writeServiceError e
      | None => 200 ≤ rp_Status rp < 300
      end
  end.

Definition serves (c : checked (list operation)) s (m : HM (Ho * state) Empty_set) : Prop :=
  ∀ h, let '(rp, (h', s')) := handle m (h, s) in h' = h ∧ served c s rp s'.

Lemma serves_parse {A} (c : checked A) k (k' : A → checked (list operation)) s :
  (∀ a, serves (k' a) s (k a)) → serves (cbind c k') s (hbind (parse c) k).
Proof. intros Hk h. unfold handle, hbind, parse. destruct c as [a|r]; [apply Hk|done]. Qed.

Lemma serves_call {A} o (op : state → result A * state) k s os :
  (exec cfg o s = outcome (op s)) →
  (∀ a s1, op s = (Ok a, s1) → serves (Accept os) s1 (k a)) →
  serves (Accept (o :: os)) s (hbind (call op) k).
Proof.
  intros He Hk h. unfold handle, hbind, call, served. cbn [run_calls]. rewrite He. unfold outcome.
  destruct (op s) as [[a|e] s1] eqn:E; cbn; [|done]. apply (Hk a s1 eq_refl h).
Qed.

Lemma serves_done s r : 200 ≤ rp_Status r < 300 → serves (Accept []) s (done r).
Proof. intros Hr h. by split. Qed.

Local Ltac serve :=
  repeat first
    [ apply serves_parse; intros ?
    | apply serves_call; [reflexivity|intros ? ? _]
    | apply serves_done; cbv [rp_Status writeJSON writeHeader StatusOK StatusCreated StatusNoContent]; lia
    | match goal with
      | |- serves _ _ (match ?x with _ => _ end) => destruct x
      end ].

(** A handler is the host's authentication followed by [calls_of]. *)
Lemma handler_serves clks r request h s :
  match Authenticate request (route_name r) h with
  | (Reply rp, h') => handle (handler_of cfg clks r request) (h, s) = (rp, (h', s))
  | (Accept caller, h') =>
      ∃ rp s', handle (handler_of cfg clks r request) (h, s) = (rp, (h', s')) ∧
        served (calls_of r clks request caller) s rp s'
  end.
Proof.
  assert (∀ m : Caller → HM (Ho * state) Empty_set,
    (∀ caller, serves (calls_of r clks request caller) s (m caller)) →
    match Authenticate request (route_name r) h with
    | (Reply rp, h') => handle (hbind (authenticate request (route_name r)) m) (h, s) = (rp, (h', s))
    | (Accept caller, h') =>
        ∃ rp s', handle (hbind (authenticate request (route_name r)) m) (h, s) = (rp, (h', s')) ∧
          served (calls_of r clks request caller) s rp s'
    end) as Hm.
  { intros m Hs. unfold handle, hbind, authenticate.
    destruct (Authenticate request (route_name r) h) as [[caller|rp] h']; [|done].
    specialize (Hs caller h'). unfold handle in Hs. destruct (m caller (h', s)) as [[[]|rp] [h2 s2]].
    destruct Hs as [-> Hs]. eauto. }
  destruct r; apply Hm; intros caller; cbn [calls_of]; serve.
Qed.

(** ** What the decoded calls carry *)
Lemma cbind_Accept {A B} (c : checked A) (k : A → checked B) b :
  cbind c k = Accept b ↔ ∃ a, c = Accept a ∧ k a = Accept b.
Proof. destruct c; cbn; naive_solver. Qed.

Lemma readBody_Accept request limit body : readBody request limit = Accept body → body = hr_Body request.
Proof. unfold readBody, ReadAll_limited. case_decide; [done|]. by intros [= <-]. Qed.

(** The signed request is the HTTP request: its method, its target and the very bytes of its body. *)
Definition same_request request (q : SignedRequest) : Prop :=
  q_Method q = hr_Method request ∧ q_Target q = hr_RequestURI request ∧ q_Body q = hr_Body request.

Lemma readSignature_same request q :
  readSignature request = Accept q → q_Method q = hr_Method request ∧ q_Target q = hr_RequestURI request ∧ q_Body q = [].
Proof.
  unfold readSignature. cbv zeta. case_decide; [done|].
  destruct (Split _ _) as [|? [|? [|? [|]]]]; try done. destruct (ParseUint _ _); [|done].
  repeat case_decide; try done. by intros [= <-].
Qed.

Lemma readSignedJSON_same {T} `{Decodes T} request limit (i : T) q :
  readSignedJSON request limit = Accept (i, q) → same_request request q.
Proof.
  unfold readSignedJSON. intros (q0 & (? & ? & _)%readSignature_same & Hx)%cbind_Accept.
  apply cbind_Accept in Hx as (body & ->%readBody_Accept & Hx). apply cbind_Accept in Hx as (j & _ & Hx).
  injection Hx as <- <-. by split_and!.
Qed.

Lemma readSignedEmpty_same request q : readSignedEmpty request = Accept q → same_request request q.
Proof.
  unfold readSignedEmpty. intros (q0 & (? & ? & Hb)%readSignature_same & Hx)%cbind_Accept.
  apply cbind_Accept in Hx as (body & ->%readBody_Accept & Hx). case_decide as Hl; [done|].
  injection Hx as <-. split_and!; [done|done|]. rewrite Hb. symmetry. apply length_zero_iff_nil. lia.
Qed.

(** The caller and the signed request of a call. *)
Definition op_signed (o : operation) : option (Caller * SignedRequest) :=
  match o with
  | OpCreateVault _ caller q _ | OpBeginPairing _ caller q _ | OpAnswerPairing _ caller q _ _
  | OpConfirmPairing _ caller q _ | OpCancelPairing _ caller q _ | OpApprove _ caller q _
  | OpActivate _ caller q _ | OpRemove _ caller q _ | OpRotate _ caller q _ | OpUpgradeKey _ caller q _
  | OpUpload _ caller q _ | OpPutCheckpoint _ caller q _ | OpReset _ caller q _ => Some (caller, q)
  | _ => None
  end.

Local Ltac decoded Hc :=
  repeat lazymatch type of Hc with
  | cbind _ _ = Accept _ => let E := fresh "E" in apply cbind_Accept in Hc as (? & E & Hc)
  | (if decide _ then _ else _) = Accept _ => case_decide; [discriminate Hc|]
  | (let (_, _) := ?x in _) = Accept _ => destruct x
  | (match ?x with _ => _ end) = Accept _ => destruct x
  end; injection Hc as <-.

Lemma calls_carry r clks request caller os o caller' q :
  calls_of r clks request caller = Accept os → o ∈ os → op_signed o = Some (caller', q) →
  caller' = caller ∧ same_request request q.
Proof.
  intros Hc. destruct r; cbn [calls_of] in Hc; decoded Hc; rewrite ?elem_of_cons, elem_of_nil;
    intros Hin; destruct_or? Hin; subst; try done; cbn; intros [= <- <-]; (split; [done|]);
    match goal with
    | E : readSignedJSON _ _ = Accept _ |- _ => apply readSignedJSON_same in E; exact E
    | E : readSignedEmpty _ = Accept _ |- _ => apply readSignedEmpty_same in E; exact E
    end.
Qed.

(** A request stands for one signed call, or for calls that read. *)
Definition reads (o : operation) : Prop := ∀ s, (exec cfg o s).2 = s.
Lemma calls_shape r clks request caller os :
  calls_of r clks request caller = Accept os →
  (∃ o q, os = [o] ∧ op_signed o = Some (caller, q)) ∨ Forall reads os.
Proof.
  pose proof readonly_views as Hv. intros Hc. destruct r; cbn [calls_of] in Hc; decoded Hc;
    first [left; eexists _, _; split; reflexivity
          |right; repeat apply List.Forall_cons; try apply List.Forall_nil; intros s; apply view_state;
           first [apply (Hv (clks 0%nat) caller 0 0 "") | apply (Hv (clks 1%nat) caller 0 0 "")
                 |eapply (Hv (clks 0%nat) caller _ _ "")]].
Qed.
Lemma run_reads os s s' : Forall reads os → run_calls os s = (None, s') → s' = s.
Proof.
  intros Hall. revert s. induction Hall as [|o os Hr _ IH]; intros s; cbn; [by intros [= <-]|].
  specialize (Hr s). destruct (exec cfg o s) as [[e|] s1]; [done|]. cbn in Hr. subst s1. apply IH.
Qed.

Lemma run_calls_success os s s' o :
  run_calls os s = (None, s') → o ∈ os → ∃ s1 s2, exec cfg o s1 = (None, s2).
Proof.
  revert s. induction os as [|o' os IH]; intros s; [by intros _ ?%not_elem_of_nil|]. cbn.
  destruct (exec cfg o' s) as [[e|] s1] eqn:E; [done|]. intros Hr [->|?]%elem_of_cons; eauto.
Qed.

Lemma run_calls_reachable os s : reachable cfg s → reachable cfg (run_calls os s).2.
Proof.
  revert s. induction os as [|o os IH]; intros s Hs; [done|]. cbn.
  assert (reachable cfg (exec cfg o s).2) as Hr by (eapply rtc_r; [exact Hs|by exists o]).
  destruct (exec cfg o s) as [[e|] s1]; [done|]. by apply IH.
Qed.

Lemma writeError_status code : 400 ≤ rp_Status (writeError code).
Proof.
  unfold writeError. destruct (errorSpecs !! code) as [spec|] eqn:E; [|vm_compute; congruence]. cbn.
  assert (Forall (λ e : string * errorSpec, 400 ≤ es_status e.2) (map_to_list errorSpecs)) as Hall
    by (vm_compute; repeat constructor; congruence).
  apply elem_of_map_to_list in E. by apply (proj1 (Forall_forall _ _) Hall (code, spec)).
Qed.

(** A success status means that every call succeeded. *)
Lemma served_success os s rp s' :
  served (Accept os) s rp s' → 200 ≤ rp_Status rp < 300 → ∃ s1, run_calls os s = (None, s1).
Proof.
  cbn. intros [-> Hv] Hst. destruct (run_calls os s) as [[e|] s1]; cbn in *; [|eauto].
  subst rp. pose proof (writeError_status (serviceErrorCode e)). unfold writeServiceError in Hst. lia.
Qed.

(** ** Theorems *)
(** One request, whatever it holds and whatever the host says about it. *)
Definition http_step (x x' : Ho * state) : Prop :=
  ∃ clks request path rp, ServeHTTP cfg clks request path x = Some (rp, x').

Lemma http_step_reachable h s h' s' : reachable cfg s → http_step (h, s) (h', s') → reachable cfg s'.
Proof.
  intros Hs (clks & request & path & rp & Hx). unfold ServeHTTP in Hx.
  destruct (dispatch (hr_Method request) path) as [[r wild]|]; [|done]. injection Hx as Hx.
  pose proof (handler_serves clks r (set_hr_Path wild request) h s) as Hr.
  destruct (Authenticate (set_hr_Path wild request) (route_name r) h) as [[caller|rp1] h1].
  - destruct Hr as (rp2 & s2 & E & Hv). rewrite E in Hx. injection Hx as _ _ <-.
    destruct (calls_of r clks (set_hr_Path wild request) caller) as [os|rp3]; cbn in Hv.
    + destruct Hv as [-> _]. by apply run_calls_reachable.
    + destruct Hv as [_ ->]. done.
  - rewrite Hr in Hx. by injection Hx as _ _ <-.
Qed.

(** C11: the HTTP layer refines the service.  A request that matches a route is answered by the host when
    the host does not authenticate it; it is refused, with the store untouched, when it does not decode;
    and otherwise the store it leaves is that of the calls it decodes to, made for the authenticated
    caller, and the reply is the error of the call that failed, or a success status when none did. *)
Theorem http_refines_service clks request path h s r wild :
  dispatch (hr_Method request) path = Some (r, wild) →
  let request' := set_hr_Path wild request in
  match Authenticate request' (route_name r) h with
  | (Reply rp, h') => ServeHTTP cfg clks request path (h, s) = Some (rp, (h', s))
  | (Accept caller, h') =>
      ∃ rp s', ServeHTTP cfg clks request path (h, s) = Some (rp, (h', s')) ∧
        served (calls_of r clks request' caller) s rp s'
  end.
Proof.
  intros Hd. cbv zeta. unfold ServeHTTP. rewrite Hd.
  pose proof (handler_serves clks r (set_hr_Path wild request) h s) as Hr.
  destruct (Authenticate (set_hr_Path wild request) (route_name r) h) as [[caller|rp] h'].
  - destruct Hr as (rp & s' & -> & Hv). eauto.
  - by rewrite Hr.
Qed.

(** C22: whatever requests arrive over HTTP, in whatever order, the store stays one that the service can
    reach, and so the store invariant holds behind the HTTP interface. *)
Theorem http_preserves_the_invariant h0 h s :
  cfg_ok cfg → rtc http_step (h0, newState) (h, s) → reachable cfg s ∧ Inv cfg s.
Proof.
  intros Hcfg Hr.
  assert (∀ x, rtc http_step (h0, newState) x → reachable cfg x.2) as Hreach.
  { apply rtc_ind_r; [constructor|]. intros [h1 s1] [h2 s2] _ Hst IH. by eapply http_step_reachable. }
  apply Hreach in Hr. cbn in Hr. split; [done|by apply reachable_Inv].
Qed.

(** C12: a change made over HTTP was signed over the request that made it.  When a request is answered with
    success and changed the store, the host had accepted its caller, it stands for one call of the service
    that carries a signed request with its method, its target, the very bytes of its body and its caller's
    token, and that call had the authority it takes: the signature verifies under the key of a current
    member of the vault's device list (one that has activated the current epoch, where the call asks for
    it), of the device that is pairing, or, for a new vault or pairing, under the key it brings. *)
Theorem http_changes_are_signed clks request path h s rp h' s' :
  cfg_ok cfg → reachable cfg s → ServeHTTP cfg clks request path (h, s) = Some (rp, (h', s')) →
  200 ≤ rp_Status rp < 300 → s' ≠ s →
  ∃ r wild caller o q, dispatch (hr_Method request) path = Some (r, wild) ∧
    Authenticate (set_hr_Path wild request) (route_name r) h = (Accept caller, h') ∧
    calls_of r clks (set_hr_Path wild request) caller = Accept [o] ∧ op_signed o = Some (caller, q) ∧
    same_request request q ∧ authority s o s'.
Proof.
  intros Hcfg Hs Hx Hst Hne. unfold ServeHTTP in Hx. destruct (dispatch _ path) as [[r wild]|] eqn:Hd; [|done].
  injection Hx as Hx. pose proof (handler_serves clks r (set_hr_Path wild request) h s) as Hr.
  destruct (Authenticate _ _ h) as [[caller|rp1] h1] eqn:Hau; [|rewrite Hr in Hx; by injection Hx as _ _ <-].
  destruct Hr as (rp2 & s2 & E & Hv). rewrite E in Hx. injection Hx as -> -> ->.
  destruct (calls_of r clks (set_hr_Path wild request) caller) as [os|rp3] eqn:Hc; [|by destruct Hv as [_ ->]].
  destruct (served_success _ _ _ _ Hv Hst) as (s3 & Hrun). destruct Hv as [Es _]. rewrite Hrun in Es. cbn in Es. subst s3.
  destruct (calls_shape _ _ _ _ _ Hc) as [(o & q & -> & Hop)|Hreads]; [|destruct (Hne (run_reads _ _ _ Hreads Hrun))].
  destruct (calls_carry _ _ _ _ _ o _ q Hc (list_elem_of_here _ _) Hop) as [_ Hsame].
  exists r, wild, caller, o, q. split_and!; try done; try apply Hsame.
  cbn [run_calls] in Hrun. destruct (exec cfg o s) as [[e|] s4] eqn:Ex; [done|]. injection Hrun as ->.
  apply (exec_authority cfg); [by apply reachable_Inv|done].
Qed.
End Http.
