(* ===== verification/Available.v ===== *)
(** * The service always knows what went wrong

    On a store the service can reach, no call ends in an error the HTTP layer cannot name: the stored
    device list always loads, the loops end, and every other failure carries one of the service's own
    sentinels. *)

From stdpp Require Import base list gmap strings sorting relations.
From Stdlib Require Import ZArith Lia Strings.Byte.
From S2P Require Import Prelude GoStd Canonical DeviceList DeviceListFacts DeviceListThms Header Request.
From S2P Require Import SyncTypes MemStore MemStoreFacts Slices NonceKeeper Service Erasure VaultInv VaultExtend.
From S2P Require Import LoadList Actors InvPairing InvCreate InvApprove InvRekey MakeRoom InvUpload Steps Wire.
Local Open Scope Z_scope.

(** The sentinels [serviceErrorCode] looks for. *)
Definition service_sentinel (x : sentinel) : bool :=
  match x with
  | ErrNotFound | ErrConflict | ErrForbidden | ErrInvalid | ErrSignature | ErrReplay | ErrQuota | ErrNoVault
  | ErrVaultExists | ErrNotActivated => true
  | _ => false
  end.
Definition known (e : error) : Prop := existsb service_sentinel e = true.

Lemma known_code e : known e → serviceErrorCode e ≠ codeUnavailable.
Proof.
  unfold known. intros (x & Hin%list_elem_of_In & Hx)%existsb_exists. unfold serviceErrorCode, is_error.
  repeat match goal with
  | |- context [bool_decide (?y ∈ e)] => destruct (bool_decide_reflect (y ∈ e)); [vm_compute; congruence|]
  end.
  by destruct x.
Qed.

(** [fine m s]: when [m] fails on [s], the error is known; [tame m]: on every store. *)
Definition fine {S A} (m : M S A) (s : S) : Prop := ∀ e s', m s = (Err e, s') → known e.
Definition tame {S A} (m : M S A) : Prop := ∀ s, fine m s.

Section Tame.
Context {S : Type}.
Implicit Types s : S.

Lemma fine_bind {A B} (m : M S A) (k : A → M S B) s :
  fine m s → (∀ a s1, m s = (Ok a, s1) → fine (k a) s1) → fine (mbindM m k) s.
Proof.
  intros Hm Hk e s'. unfold mbindM. destruct (m s) as [[a|e1] s1] eqn:E.
  - by apply Hk.
  - intros [= <- <-]. by eapply Hm.
Qed.

Lemma tame_return {A} (a : A) : tame (S := S) (mreturn a).
Proof. intros s e s'. done. Qed.
Lemma tame_fail {A} e : known e → tame (S := S) (A := A) (mfail e).
Proof. intros He s e' s' [= <- <-]. done. Qed.
Lemma tame_fail_if P `{!Decision P} e : known e → tame (S := S) (mfail_if P e).
Proof. intros He. unfold mfail_if. case_decide; [by apply tame_fail|apply tame_return]. Qed.
Lemma tame_wrap {A} (r : result A) : tame (S := S) (mlift (wrap ErrInvalid r)).
Proof. intros s e s'. unfold mlift, wrap. destruct r; [done|]. by intros [= <- <-]. Qed.
Lemma tame_orelse {A} e (r : result A) : known e → tame (S := S) (mlift (orelse e r)).
Proof. intros He s e' s'. unfold mlift, orelse. destruct r; [done|]. by intros [= <- <-]. Qed.
Lemma tame_bind {A B} (m : M S A) (k : A → M S B) : tame m → (∀ a, tame (k a)) → tame (mbindM m k).
Proof. intros Hm Hk s. apply fine_bind; [apply Hm|]. intros. apply Hk. Qed.

(** A failure the caller inspects. *)
Lemma tame_try {A B} (m : M S A) (k : result A → M S B) :
  tame m → (∀ a, tame (k (Ok a))) → (∀ e, known e → tame (k (Err e))) → tame (mbindM (mtry m) k).
Proof.
  intros Hm Hok Herr s e s'. unfold mbindM, mtry. destruct (m s) as [[a|e1] s1] eqn:E; [by apply Hok|].
  apply Herr. by eapply Hm.
Qed.

Lemma tame_foreach {A B} (f : B → A → M S B) acc xs : (∀ b a, tame (f b a)) → tame (mforeach f acc xs).
Proof.
  intros Hf. revert acc. induction xs as [|x xs IH]; intros acc; cbn; [apply tame_return|].
  apply tame_bind; auto.
Qed.
End Tame.

Lemma tame_reading {A} (f : state → M state A) : (∀ s, tame (f s)) → tame (reading f).
Proof. intros Hf s. apply Hf. Qed.
Lemma tame_found {A} (o : option A) : tame (found o).
Proof. destruct o; [apply tame_return|by apply tame_fail]. Qed.
Lemma tame_updating f : tame (updating f).
Proof. intros s e s'. done. Qed.

Create HintDb tame discriminated.

(** Takes a body apart by its syntax; what is left are calls with a fact of their own in [tame]. *)
Ltac tame_tac :=
  intros;
  repeat lazymatch goal with
  | |- tame (mbindM (mtry _) _) => apply tame_try; [|intros|intros]
  | |- tame (mbindM _ _) => apply tame_bind; [|intros]
  | |- tame (mforeach _ _ _) => apply tame_foreach; intros
  | |- tame (reading _) => apply tame_reading; intros
  | |- tame (mreturn _) => apply tame_return
  | |- tame (found _) => apply tame_found
  | |- tame (updating _) => apply tame_updating
  | |- tame (mlift (wrap ErrInvalid _)) => apply tame_wrap
  | |- tame (mlift (orelse _ _)) => apply tame_orelse; reflexivity
  | |- tame (mfail _) => apply tame_fail; first [assumption|reflexivity]
  | |- tame (mfail_if _ _) => apply tame_fail_if; reflexivity
  | |- tame (match ?x with _ => _ end) => destruct x
  | |- tame ((λ _, _) _) => cbv beta
  | |- tame (let _ := _ in _) => cbv zeta
  | |- tame _ => solve [eauto with tame nocore]
  end.

Section Available.
Context `{Crypto} `{MapRange} (cfg : Config) (Hcfg : cfg_ok cfg) (clk : nat → time).
Implicit Types s : state.

Lemma tame_vaults :
  (∀ o, tame (VaultByOwner o)) ∧ (∀ v, tame (InsertVault v)) ∧ (∀ v, tame (UpdateVault v)) ∧
  (∀ v, tame (DeleteVault v)) ∧ (∀ v, tame (Devices v)) ∧ (∀ v d, tame (GetDevice v d)) ∧
  (∀ v t, tame (DeviceByToken v t)) ∧ (∀ d, tame (PutDevice d)) ∧ (∀ v a n, tame (DeviceListEntries v a n)) ∧
  (∀ e, tame (AppendDeviceListEntry e)).
Proof.
  assert (∀ o, tame (VaultByOwner o)) by (unfold VaultByOwner; tame_tac).
  split_and!; [done|unfold InsertVault, UpdateVault, DeleteVault, Devices, GetDevice, DeviceByToken, PutDevice,
    DeviceListEntries, AppendDeviceListEntry; tame_tac..].
Qed.

Lemma tame_rows :
  (∀ p, tame (PutKeyPackage p)) ∧ (∀ v d, tame (GetKeyPackage v d)) ∧ (∀ v, tame (DeleteKeyPackages v)) ∧
  (∀ h, tame (InsertHeader h)) ∧ (∀ v a n, tame (Headers v a n)) ∧ (∀ v r, tame (GetHeader v r)) ∧
  (∀ v, tame (LatestHeader v)) ∧ (∀ v r, tame (PruneHeaders v r)) ∧ (∀ v r c, tame (PutCiphertext v r c)) ∧
  (∀ v r, tame (Ciphertext v r)) ∧ (∀ v, tame (CiphertextBytes v)) ∧ (∀ v r, tame (DeleteCiphertextsBefore v r)).
Proof.
  split_and!; unfold PutKeyPackage, GetKeyPackage, DeleteKeyPackages, InsertHeader, Headers, GetHeader, LatestHeader,
    PruneHeaders, PutCiphertext, Ciphertext, CiphertextBytes, DeleteCiphertextsBefore; tame_tac.
Qed.

Lemma tame_others :
  (∀ c, tame (PutCheckpoint c)) ∧ (∀ v d, tame (GetCheckpoint v d)) ∧ (∀ v, tame (Checkpoints v)) ∧
  (∀ v d, tame (DeleteCheckpoint v d)) ∧ (∀ p, tame (PutPairing p)) ∧ (∀ v d, tame (GetPairing v d)) ∧
  (∀ v t, tame (PairingByToken v t)) ∧ (∀ v, tame (Pairings v)) ∧ (∀ v d, tame (DeletePairing v d)) ∧
  (∀ a b c d, tame (RecordNonce a b c d)) ∧ (∀ t, tame (PurgeExpired t)).
Proof.
  split_and!; unfold PutCheckpoint, GetCheckpoint, Checkpoints, DeleteCheckpoint, PutPairing, GetPairing,
    PairingByToken, Pairings, DeletePairing, RecordNonce, PurgeExpired; tame_tac.
Qed.

(** The same facts on the transaction interface. *)
Lemma tame_tx :
  ((∀ o, tame (tx_VaultByOwner (S := state) o)) ∧ (∀ v, tame (tx_InsertVault (S := state) v)) ∧
   (∀ v, tame (tx_UpdateVault (S := state) v)) ∧ (∀ v, tame (tx_DeleteVault (S := state) v)) ∧
   (∀ v, tame (tx_Devices (S := state) v)) ∧ (∀ v d, tame (tx_Device (S := state) v d)) ∧
   (∀ v t, tame (tx_DeviceByToken (S := state) v t)) ∧ (∀ d, tame (tx_PutDevice (S := state) d)) ∧
   (∀ v a n, tame (tx_DeviceListEntries (S := state) v a n)) ∧
   (∀ e, tame (tx_AppendDeviceListEntry (S := state) e))) ∧
  ((∀ p, tame (tx_PutKeyPackage (S := state) p)) ∧ (∀ v d, tame (tx_KeyPackage (S := state) v d)) ∧
   (∀ v, tame (tx_DeleteKeyPackages (S := state) v)) ∧ (∀ h, tame (tx_InsertHeader (S := state) h)) ∧
   (∀ v a n, tame (tx_Headers (S := state) v a n)) ∧ (∀ v r, tame (tx_Header (S := state) v r)) ∧
   (∀ v, tame (tx_LatestHeader (S := state) v)) ∧ (∀ v r, tame (tx_PruneHeaders (S := state) v r)) ∧
   (∀ v r c, tame (tx_PutCiphertext (S := state) v r c)) ∧ (∀ v r, tame (tx_Ciphertext (S := state) v r)) ∧
   (∀ v, tame (tx_CiphertextBytes (S := state) v)) ∧
   (∀ v r, tame (tx_DeleteCiphertextsBefore (S := state) v r))) ∧
  ((∀ c, tame (tx_PutCheckpoint (S := state) c)) ∧ (∀ v d, tame (tx_Checkpoint (S := state) v d)) ∧
   (∀ v, tame (tx_Checkpoints (S := state) v)) ∧ (∀ v d, tame (tx_DeleteCheckpoint (S := state) v d)) ∧
   (∀ p, tame (tx_PutPairing (S := state) p)) ∧ (∀ v d, tame (tx_Pairing (S := state) v d)) ∧
   (∀ v t, tame (tx_PairingByToken (S := state) v t)) ∧ (∀ v, tame (tx_Pairings (S := state) v)) ∧
   (∀ v d, tame (tx_DeletePairing (S := state) v d)) ∧ (∀ a b c d, tame (tx_RecordNonce (S := state) a b c d)) ∧
   (∀ t, tame (tx_PurgeExpired (S := state) t))).
Proof. exact (conj tame_vaults (conj tame_rows tame_others)). Qed.

Local Ltac tame_body :=
  pose proof tame_tx as ((?&?&?&?&?&?&?&?&?&?)&(?&?&?&?&?&?&?&?&?&?&?&?)&(?&?&?&?&?&?&?&?&?&?&?)); tame_tac.

Lemma tame_actorFor caller : tame (actorFor (T := state) clk caller).
Proof. unfold actorFor, not_found_as. tame_body. Qed.
Lemma tame_verifyRequest scope k caller q : tame (verifyRequest (T := state) clk scope k caller q).
Proof. unfold verifyRequest. tame_body. Qed.
Lemma tame_signedActor caller q : tame (signedActor (T := state) clk caller q).
Proof. pose proof tame_actorFor. pose proof tame_verifyRequest. unfold signedActor. tame_tac. Qed.
Lemma tame_requireApproved a : tame (requireApproved (T := state) a).
Proof. unfold requireApproved. tame_tac. Qed.
Lemma tame_requireActivated a : tame (requireActivated (T := state) a).
Proof. pose proof tame_requireApproved. unfold requireActivated. tame_tac. Qed.
#[local] Hint Resolve tame_actorFor tame_verifyRequest tame_signedActor tame_requireApproved
  tame_requireActivated : tame.

(** ** The calls that load no device list *)
Lemma tame_signed_bodies caller q :
  (∀ input, tame (CreateVault_tx (T := state) clk caller q input)) ∧
  (∀ offer, tame (BeginPairing_tx (T := state) clk caller q offer)) ∧
  (∀ dev msg, tame (AnswerPairing_tx (T := state) clk caller q dev msg)) ∧
  (∀ msg, tame (ConfirmPairing_tx (T := state) clk caller q msg)) ∧
  (∀ dev, tame (CancelPairing_tx (T := state) clk caller q dev)) ∧
  (∀ input, tame (Activate_tx (T := state) clk caller q input)) ∧
  (∀ c, tame (PutCheckpoint_tx (T := state) clk caller q c)) ∧
  (∀ input, tame (Reset_tx (T := state) clk caller q input)).
Proof.
  split_and!; unfold CreateVault_tx, BeginPairing_tx, AnswerPairing_tx, ConfirmPairing_tx, CancelPairing_tx,
    Activate_tx, PutCheckpoint_tx, Reset_tx, not_found_as, expect_absent; tame_body.
Qed.

Lemma tame_view_bodies caller :
  tame (PairingStatus_tx (T := state) clk caller) ∧ tame (PendingPairings_tx (T := state) clk caller) ∧
  tame (KeyPackage_tx (T := state) clk caller) ∧ tame (Checkpoints_tx (T := state) clk caller) ∧
  (∀ after limit, tame (DeviceList_tx (T := state) clk caller after limit)) ∧
  (∀ after limit, tame (Headers_tx (T := state) clk caller after limit)) ∧
  tame (Snapshot_tx (T := state) clk caller) ∧ tame (Devices_tx (T := state) clk caller) ∧
  tame (VaultState_tx (T := state) clk caller).
Proof.
  split_and!; unfold PairingStatus_tx, PendingPairings_tx, KeyPackage_tx, Checkpoints_tx, DeviceList_tx, Headers_tx,
    Snapshot_tx, Devices_tx, VaultState_tx; tame_body.
Qed.

Lemma tame_admin_bodies :
  tame (Maintain_tx (T := state) clk) ∧
  (∀ owner, tame (AdminReset_tx (T := state) owner)) ∧ (∀ owner, tame (Overview_tx (T := state) owner)).
Proof. split_and!; unfold Maintain_tx, AdminReset_tx, Overview_tx; tame_body. Qed.

(** ** The calls that load it *)
Lemma fine_signed {A} caller q (k : Actor → M state A) s :
  Inv cfg s →
  (∀ a s1, Inv cfg s1 → st_vaults s1 !! v_ID (a_Vault a) = Some (a_Vault a) → fine (k a) s1) →
  fine (mbindM (signedActor clk caller q) k) s.
Proof.
  intros Hi Hk. apply fine_bind; [apply tame_signedActor|]. intros a s1 Ha.
  apply signedActor_inv in Ha as (Ha & _ & ->); [|apply Hi]. apply Hk; [by apply Inv_nonces|apply Ha].
Qed.

Lemma fine_same {A B} (m : M state A) (k : A → M state B) s :
  readonly m → tame m → (∀ a, fine (k a) s) → fine (mbindM m k) s.
Proof.
  intros Hr Hm Hk. apply fine_bind; [apply Hm|]. intros a s1 E. specialize (Hr s). rewrite E in Hr. cbn in Hr. by subst s1.
Qed.

Lemma fine_load {A} v (k : DeviceList → M state A) s :
  Inv cfg s → st_vaults s !! v_ID v = Some v →
  (∀ l, vault_ok cfg v (slice_of s (v_ID v)) l → fine (k l) s) → fine (mbindM (loadList (v_ID v)) k) s.
Proof.
  intros Hi Hv Hk. destruct (loadList (v_ID v) s) as [r s1] eqn:E.
  destruct (loadList_inv cfg _ _ _ _ _ Hi Hv E) as [-> (l & -> & Hl)].
  apply fine_bind; [intros e s'; by rewrite E|]. intros l' s2 E'. rewrite E in E'. injection E' as <- <-. by apply Hk.
Qed.

Lemma readonly_requireActivated a : readonly (requireActivated (T := state) a).
Proof. pose proof readonly_requireApproved. unfold requireActivated. readonly_tac. Qed.
Lemma readonly_lift {A} (r : result A) : readonly (S := state) (mlift r).
Proof. intros s. done. Qed.
#[local] Hint Resolve readonly_requireActivated readonly_lift : readonly.

(** The guards before [loadList] leave the store alone. *)
Local Ltac one_guard := apply fine_same; [solve [eauto with readonly nocore]|solve [tame_tac]|intros ?].
Local Ltac guards := repeat one_guard.

Lemma fine_Approve caller q input s : Inv cfg s → fine (Approve_tx (T := state) clk caller q input) s.
Proof.
  intros Hi. unfold Approve_tx. apply fine_signed; [done|]. intros a s1 Hi1 Hv. cbv zeta. guards.
  apply fine_same; [apply readonly_reading; intros; apply readonly_found|apply tame_others|intros p]. guards.
  apply fine_load; [done|done|]. intros l _.
  match goal with |- fine ?m s1 => enough (tame m) as Ht by apply Ht end. tame_body.
Qed.

Lemma fine_rekey caller q kind entry packages s :
  Inv cfg s → fine (rekey_tx (T := state) clk caller q kind entry packages) s.
Proof.
  intros Hi. unfold rekey_tx. apply fine_signed; [done|]. intros a s1 Hi1 Hv. cbv zeta. guards.
  apply fine_load; [done|done|]. intros l _.
  match goal with |- fine ?m s1 => enough (tame m) as Ht by apply Ht end.
  assert (∀ e now x y, tame (store_package (T := state) a e now x y)) by (unfold store_package; tame_body).
  assert (∀ e x y, tame (update_device (T := state) a kind e x y)) by (unfold update_device; tame_body).
  tame_body.
Qed.

Lemma fine_UpgradeKey caller q input s : Inv cfg s → fine (UpgradeKey_tx (T := state) clk caller q input) s.
Proof.
  intros Hi. unfold UpgradeKey_tx. apply fine_signed; [done|]. intros a s1 Hi1 Hv. cbv zeta. guards.
  apply fine_load; [done|done|]. intros l _.
  match goal with |- fine ?m s1 => enough (tame m) as Ht by apply Ht end. tame_body.
Qed.

Lemma tame_previous_header v h : tame (previous_header (T := state) v h).
Proof. unfold previous_header. tame_body. Qed.

Lemma fine_makeRoom v l hdrs (c : bytes) s :
  Inv cfg s → st_vaults s !! v_ID v = Some v →
  Z.of_nat (length c) ≤ MaxCiphertextBytes ∨ Z.of_nat (length c) > cfg_ByteBudget cfg →
  history_ok cfg (v_CurrentRevision v) hdrs (ciphertexts_of s (v_ID v)) l →
  fine (makeRoom (T := state) cfg v (Z.of_nat (length c))) s.
Proof.
  intros Hi Hv Hsz Hh e s' Hx. pose proof (Nat2Z.is_nonneg (length c)) as Hc0.
  apply (makeRoom_spec cfg Hcfg v _ s _ _ _ l (proj1 Hi) ltac:(eauto) Hc0 Hsz Hh) in Hx.
  destruct Hx as [[? _]|[[= ->] _]]; done.
Qed.

Lemma fine_Upload caller q input s : Inv cfg s → fine (Upload_tx (T := state) cfg clk caller q input) s.
Proof.
  intros Hi. unfold Upload_tx. apply fine_signed; [done|]. intros a s1 Hi1 Hv. cbv zeta.
  apply fine_same; [eauto with readonly nocore|tame_tac|intros _].
  apply fine_bind; [apply tame_wrap|]. intros [] s2 [Hval%wrap_ok ->]%mlift_ok. one_guard. one_guard.
  apply fine_bind; [apply tame_wrap|]. intros [] s2 [Hvc%wrap_ok ->]%mlift_ok.
  apply fine_load; [done|done|]. intros l Hl. pose proof (vo_history _ _ _ _ Hl) as Hh.
  apply fine_bind; [apply tame_previous_header|]. intros prev s2 Hprev.
  apply (previous_header_inv cfg Hcfg _ _ _ _ _ _ _ Hh) in Hprev as [-> _].
  apply fine_same; [apply readonly_lift|apply tame_wrap|intros _].
  apply fine_bind.
  - eapply fine_makeRoom; [done|done| |exact Hh].
    destruct (decide (Z.of_nat (length (upi_Ciphertext input)) > cfg_ByteBudget cfg)); [by right|left].
    pose proof (co_budget_fits cfg Hcfg). assert (0 ≤ MaxCiphertextBytes) by done.
    eapply ciphertext_size; [done|done|lia].
  - intros _ s2 _. match goal with |- fine ?m s2 => enough (tame m) as Ht by apply Ht end. tame_body.
Qed.
End Available.

Section Named.
Context `{Crypto} `{MapRange} (cfg : Config) (Hcfg : cfg_ok cfg).
Implicit Types s : state.

Lemma update_fine {A} (m1 : M (tracked state) A) m2 s e :
  erases m1 m2 → fine m2 s → (outcome (update m1 s)).1 = Some e → known e.
Proof.
  intros He Hf. destruct (update_spec m1 m2 s He) as [H1 _]. cbn. rewrite H1.
  destruct (m2 s) as [[a|e'] s2] eqn:E; cbn; [done|]. intros [= <-]. by eapply Hf.
Qed.

Lemma view_fine {A} (m : M state A) s e : tame m → (outcome (view m s)).1 = Some e → known e.
Proof.
  intros Ht. unfold view, keeper_View. cbn. unfold mem_View. destruct (m s) as [[a|e'] s2] eqn:E; cbn; [done|].
  intros [= <-]. by eapply Ht.
Qed.

Lemma exec_known o s e : Inv cfg s → (exec cfg o s).1 = Some e → known e.
Proof.
  intros Hi. destruct o; cbn [exec].
  - eapply update_fine; [apply (erases_CreateVault (S := state))|apply tame_signed_bodies].
  - eapply update_fine; [apply (erases_BeginPairing (S := state))|apply tame_signed_bodies].
  - apply view_fine, tame_view_bodies.
  - apply view_fine, tame_view_bodies.
  - eapply update_fine; [apply (erases_AnswerPairing (S := state))|apply tame_signed_bodies].
  - eapply update_fine; [apply (erases_ConfirmPairing (S := state))|apply tame_signed_bodies].
  - eapply update_fine; [apply (erases_CancelPairing (S := state))|apply tame_signed_bodies].
  - eapply update_fine; [apply (erases_Approve (S := state))|by eapply fine_Approve].
  - apply view_fine, tame_view_bodies.
  - eapply update_fine; [apply (erases_Activate (S := state))|apply tame_signed_bodies].
  - eapply update_fine; [apply (erases_rekey (S := state))|by eapply fine_rekey].
  - eapply update_fine; [apply (erases_rekey (S := state))|by eapply fine_rekey].
  - eapply update_fine; [apply (erases_UpgradeKey (S := state))|by eapply fine_UpgradeKey].
  - eapply update_fine; [apply (erases_Upload (S := state))|by eapply fine_Upload].
  - eapply update_fine; [apply (erases_PutCheckpoint (S := state))|apply tame_signed_bodies].
  - apply view_fine, tame_view_bodies.
  - apply view_fine, tame_view_bodies.
  - apply view_fine, tame_view_bodies.
  - apply view_fine, tame_view_bodies.
  - apply view_fine, tame_view_bodies.
  - apply view_fine, tame_view_bodies.
  - eapply update_fine; [apply (erases_Reset (S := state))|apply tame_signed_bodies].
  - eapply update_fine; [apply (erases_Maintain (S := state))|apply tame_admin_bodies].
  - apply view_fine, (tame_admin_bodies (λ _, 0)).
  - eapply update_fine; [apply (erases_AdminReset (S := state))|apply (tame_admin_bodies (λ _, 0))].
Qed.

(** C21: the service is never at a loss.  On every store the service can reach, a call that fails does so
    with one of the errors of its contract, never with one the HTTP layer can only report as unavailable:
    no stored device list fails to load, no loop runs out, and no inner error escapes unwrapped. *)
Theorem failures_are_named o s e :
  reachable cfg s → (exec cfg o s).1 = Some e → serviceErrorCode e ≠ codeUnavailable.
Proof. intros Hr Hx. eapply known_code, exec_known; [by apply reachable_Inv|done]. Qed.
End Named.
