(* ===== verification/SyncApprove.v ===== *)
(** * Approvals, checkpoints, loading and the byte budget

    What a successful [Approve] and [PutCheckpoint] did, that paging through the stored entries is the same
    as verifying them at once, and when an upload runs out of room. *)

From stdpp Require Import base list gmap strings sorting relations.
From Stdlib Require Import ZArith Lia Strings.Byte.
From S2P Require Import Prelude GoStd Canonical DeviceList DeviceListFacts DeviceListThms Header Request.
From S2P Require Import SyncTypes MemStore MemStoreFacts Slices NonceKeeper Service Erasure VaultInv VaultExtend.
From S2P Require Import LoadList Actors InvPairing InvCreate InvApprove InvRekey MakeRoom InvUpload Steps SyncEffects.
Local Open Scope Z_scope.
Local Open Scope go_scope.

Section Approvals.
Context `{Crypto} `{MapRange} (cfg : Config) (Hcfg : cfg_ok cfg).
Implicit Types s : state.

(** A device [e] admits, from the pairing [p]. *)
Record admitted (e : DeviceListEntry) (p : Pairing) (s s' : state) : Prop := {
  ad_confirmed : p_State p = PairingConfirmed ∧ ¬ bad_message (p_Offer p) ∧ ¬ bad_message (p_Answer p) ∧
                 ¬ bad_message (p_Confirm p);
  ad_keys : p_SigningKey p = e_SubjectSigningKey e ∧ p_PackageKey p = e_SubjectPackageKey e;
  ad_entries : entries_of s' (e_VaultID e) = entries_of s (e_VaultID e) ++ [e];
  ad_list : ∃ l l' m, VerifyDeviceList (entries_of s (e_VaultID e)) = Ok l ∧
    VerifyDeviceList (entries_of s' (e_VaultID e)) = Ok l' ∧ l_members l !! e_SubjectDeviceID e = None ∧
    current_member l' (e_SubjectDeviceID e) m ∧ Epoch l' = Epoch l;
  ad_device : ∃ d, st_devices s' !! key [e_VaultID e; e_SubjectDeviceID e] = Some d ∧
    d_TokenDeviceID d = p_TokenDeviceID p ∧ d_SigningKey d = p_SigningKey p ∧ d_State d = DeviceApproved ∧
    d_ActivatedEpoch d = 0;
  ad_pairing : st_pairings s' !! key [e_VaultID e; e_SubjectDeviceID e] = None;
}.

Lemma pairing_at s id did :
  keyed s → is_Some (st_vaults s !! id) →
  sl_pairings (slice_of s id) !! key [id; did] = st_pairings s !! key [id; did].
Proof.
  intros Hk Hv. pose proof (keyed_nul_free s Hk) as Hn.
  apply (rows_lookup p_VaultID p_DeviceID (st_vaults s)); [done|auto|apply Hk].
Qed.

Lemma added_subject v es l e l' :
  extends v es l e l' → e_Kind e = EntryAdd →
  l_members l !! e_SubjectDeviceID e = None ∧ (∃ m, current_member l' (e_SubjectDeviceID e) m) ∧ Epoch l' = Epoch l ∧
  VerifyDeviceList (es ++ [e]) = Ok l'.
Proof.
  intros [Hok Hw Hw' _ _ _ Hst Hx] Hk. pose proof (list_step_epoch_rule _ _ _ Hw Hst) as He.
  rewrite decide_True in He by (by left).
  pose proof (VerifyDeviceList_snoc _ _ _ _ (lo_verified _ _ _ Hok) Hx) as Hver.
  destruct Hst as [_ _ Hk'|? _ _ Hnew|? ? _ Hk'|? ? _ Hk'|? _ Hk']; try (by rewrite Hk in Hk').
  split_and!; [done| |lia|done]. exists (memberFromEntry e). split; [apply lookup_insert_eq|done].
Qed.

Lemma approve_admitted clk caller q input s u s' :
  Inv cfg s → Approve clk caller q input s = (Ok u, s') →
  ∃ p, st_pairings s !! key [e_VaultID (api_Entry input); e_SubjectDeviceID (api_Entry input)] = Some p ∧
    clk 4%nat < p_ExpiresAt p ∧ admitted (api_Entry input) p s s'.
Proof.
  intros Hi Hx. eapply update_ok in Hx; [|apply (erases_Approve (S := state))].
  destruct (approve_inv _ _ _ _ _ _ _ _ Hi Hx) as (nn & a & p & l & l' & Ha & Hi1 & Hr).
  pose proof (ap_vaultID _ _ _ _ _ _ _ _ _ Hr) as Hid. set (e := api_Entry input) in *.
  pose proof (ap_pairing _ _ _ _ _ _ _ _ _ Hr) as Hp. pose proof (ap_vault _ _ _ _ _ _ _ _ _ Hr) as Hv.
  destruct (ap_effect _ _ _ _ _ _ _ _ _ Hr) as (Hk' & Hvs & _ & Hsl).
  assert (is_Some (st_vaults s' !! e_VaultID e)) as Hv'.
  { rewrite Hvs, Hid, lookup_alter, decide_True by done. rewrite Hv. eauto. }
  destruct (pa_stage _ _ _ (vo_pairings _ _ _ _ (ap_old _ _ _ _ _ _ _ _ _ Hr)) _ _ Hp) as [Hoff Hst].
  rewrite (ap_confirmed _ _ _ _ _ _ _ _ _ Hr) in Hst. destruct Hst as [[? _]|[[? _]|(_ & Hans & Hconf)]]; try done.
  destruct (added_subject _ _ _ _ _ (ap_extends _ _ _ _ _ _ _ _ _ Hr) (ap_kind _ _ _ _ _ _ _ _ _ Hr))
    as (Hnew & (m & Hm) & Hep & Hver).
  rewrite (pairing_at (set_nonces nn s)) in Hp by (first [apply Hi1|eauto]). rewrite <- Hid in *.
  assert (entries_of s' (e_VaultID e) = entries_of s (e_VaultID e) ++ [e]) as Hes
    by (by apply (f_equal sl_entries) in Hsl).
  exists p. split_and!; [exact Hp|apply Hr|]. split.
  - split_and!; [apply Hr|done..].
  - apply (ap_keys _ _ _ _ _ _ _ _ _ Hr).
  - exact Hes.
  - exists l, l', m. rewrite Hes. split_and!; [|exact Hver|done|done|done].
    rewrite Hid. apply (lo_verified _ _ _ (vo_list _ _ _ _ (ap_old _ _ _ _ _ _ _ _ _ Hr))).
  - eexists. rewrite <- device_at by done. apply (f_equal sl_devices) in Hsl. cbn -[key slice_of] in Hsl.
    rewrite Hsl. fold e. rewrite lookup_insert_eq. destruct (ap_keys _ _ _ _ _ _ _ _ _ Hr) as [-> _]. done.
  - rewrite <- pairing_at by done. apply (f_equal sl_pairings) in Hsl. cbn -[key slice_of] in Hsl.
    rewrite Hsl. apply lookup_delete_eq.
Qed.

(** ** Checkpoints *)
Lemma put_checkpoint_inv clk caller q c s sc s' :
  Inv cfg s → PutCheckpointOp clk caller q c s = (Ok sc, s') →
  WithinRequestSkew (c_ObservedAt c) (unix (clk 4%nat)) = true ∧ sc_Checkpoint sc = c ∧
  st_checkpoints s' = <[key [c_VaultID c; c_DeviceID c] := sc]> (st_checkpoints s) ∧
  ∀ old, st_checkpoints s !! key [c_VaultID c; c_DeviceID c] = Some old →
    c_ObservedAt (sc_Checkpoint old) < c_ObservedAt c ∧
    c_DeviceListIndex (sc_Checkpoint old) ≤ c_DeviceListIndex c ∧
    c_HeaderRevision (sc_Checkpoint old) ≤ c_HeaderRevision c.
Proof.
  intros Hi Hx. eapply update_ok in Hx; [|apply (erases_PutCheckpoint (S := state))].
  unfold PutCheckpoint_tx in Hx.
  called Hx a s1 as Ha. apply signedActor_inv in Ha as (Ha & _ & ->); [|apply Hi].
  called Hx ? s1 as Hr. apply requireActivated_inv in Hr as (-> & _).
  passed Hx as Hm. apply Decidable.not_or in Hm as [Hcv%dec_stable Hcd%dec_stable].
  lifted Hx [] as _. passed Hx as Hskew%not_false_iff_true.
  called Hx r s1 as Hr. apply (proj1 (mtry_ok _ _ _ _)) in Hr. apply Checkpoint_inv in Hr as [-> Hr].
  cbn [st_checkpoints set_nonces] in Hr. rewrite <- Hcv, <- Hcd in Hr.
  called Hx ? s1 as Hs1. called Hx ? s2 as Hput. apply updating_inv in Hput as ->. apply mreturn_ok in Hx as [-> ->].
  destruct (st_checkpoints s !! key [c_VaultID c; c_DeviceID c]) as [old|]; subst r.
  - apply mfail_if_ok in Hs1 as [Hn ->]. split_and!; [done|done|done|]. intros ? [= <-]. lia.
  - cbn in Hs1. apply mreturn_ok in Hs1 as [_ ->]. split_and!; done.
Qed.

(** ** The byte budget *)
Definition current_size (s : state) (v : Vault) : Z :=
  match ciphertexts_of s (v_ID v) !! v_CurrentRevision v with
  | Some c => Z.of_nat (length c)
  | None => 0
  end.

(** ** Theorems *)

(** C9: a device joins only through a finished pairing.  A successful [Approve] had before it a pairing
    of the new device that was confirmed, not expired, had carried all three messages and had the keys of
    the new entry; after it the vault's stored list is the old one with the entry appended and verifies,
    the device was not a member and now is one, the epoch is the same, its row carries the pairing's token
    and keys and has activated no epoch yet, and the pairing is gone. *)
Theorem approval_completes_a_pairing clk caller q input s u s' :
  reachable cfg s → Approve clk caller q input s = (Ok u, s') →
  ∃ p, st_pairings s !! key [e_VaultID (api_Entry input); e_SubjectDeviceID (api_Entry input)] = Some p ∧
    clk 4%nat < p_ExpiresAt p ∧ admitted (api_Entry input) p s s'.
Proof. intros Hr. apply approve_admitted. by apply reachable_Inv. Qed.

(** C29: a device's checkpoints only move forward.  A successful [PutCheckpoint] stores exactly the
    checkpoint it was given, as the only change to the stored checkpoints; it was observed within the
    request skew of the server's clock, strictly after the device's previous checkpoint, and at no
    earlier list index and header revision. *)
Theorem checkpoints_advance clk caller q c s sc s' :
  reachable cfg s → PutCheckpointOp clk caller q c s = (Ok sc, s') →
  WithinRequestSkew (c_ObservedAt c) (unix (clk 4%nat)) = true ∧ sc_Checkpoint sc = c ∧
  st_checkpoints s' = <[key [c_VaultID c; c_DeviceID c] := sc]> (st_checkpoints s) ∧
  ∀ old, st_checkpoints s !! key [c_VaultID c; c_DeviceID c] = Some old →
    c_ObservedAt (sc_Checkpoint old) < c_ObservedAt c ∧
    c_DeviceListIndex (sc_Checkpoint old) ≤ c_DeviceListIndex c ∧
    c_HeaderRevision (sc_Checkpoint old) ≤ c_HeaderRevision c.
Proof. intros Hr. apply put_checkpoint_inv. by apply reachable_Inv. Qed.

(** C30: loading a device list page by page gives the same answer as verifying all of its entries at
    once, errors included, and it always ends: for every store whose entries carry the indexes 1, 2, ...
    in order, [loadList] returns what [VerifyDeviceList] returns on the stored entries and leaves the
    store alone. *)
Theorem paging_is_verification id s :
  indexed (entries_of s id) → Z.of_nat (length (entries_of s id)) < 2 ^ 64 →
  loadList id s = (VerifyDeviceList (entries_of s id), s).
Proof. apply loadList_verifies. Qed.

(** C31: [makeRoom] ends, and refuses only when it must.  On a store the service can reach, a snapshot
    that fits the byte budget beside the current one is always given room: snapshots older than the
    current one are dropped until it fits, and nothing else changes; otherwise the answer is [ErrQuota]. *)
Theorem room_is_made_when_possible s id v incoming :
  reachable cfg s → st_vaults s !! id = Some v → 0 ≤ incoming ≤ MaxCiphertextBytes →
  if decide (current_size s v + incoming ≤ cfg_ByteBudget cfg)
  then ∃ s', makeRoom cfg v incoming s = (Ok tt, s') ∧ trimmed v s s' ∧
         total_bytes (ciphertexts_of s' (v_ID v)) + incoming ≤ cfg_ByteBudget cfg
  else ∃ s', makeRoom cfg v incoming s = (Err [ErrQuota], s').
Proof.
  intros Hr Hv Hin. apply reachable_Inv in Hr as Hi; [|done].
  destruct (ky_vault s (proj1 Hi) _ _ Hv) as [<- _]. destruct (Inv_vault _ _ _ _ Hi Hv) as [l Hl].
  pose proof (vo_history _ _ _ _ Hl) as Hh. destruct (makeRoom cfg v incoming s) as [r s'] eqn:E.
  pose proof (makeRoom_spec cfg Hcfg v incoming s r s' _ l (proj1 Hi) ltac:(eauto) ltac:(lia) ltac:(lia) Hh E) as Hm.
  unfold current_size in *. case_decide as Hd; destruct Hm as [(-> & Ht & Hfit)|[-> Hno]]; [eauto| | |eauto].
  - exfalso. unfold no_room in Hno. destruct (ciphertexts_of s (v_ID v) !! v_CurrentRevision v); lia.
  - exfalso. pose proof (total_bytes_nonneg (ciphertexts_of s' (v_ID v))).
    destruct (ciphertexts_of s (v_ID v) !! v_CurrentRevision v) as [c|] eqn:Ec; [|lia].
    destruct Ht as (f & (_ & _ & _ & Hsl) & _ & Hkeep). apply (f_equal sl_ciphertexts) in Hsl.
    assert (ciphertexts_of s' (v_ID v) !! v_CurrentRevision v = Some c) as Hc'.
    { rewrite <- Ec, <- Hkeep by lia. by apply (f_equal (lookup (v_CurrentRevision v))) in Hsl. }
    pose proof (total_bytes_lookup _ _ _ Hc'). lia.
Qed.
End Approvals.
