(* ===== verification/Witnesses.v ===== *)
(** * Witnesses

    The hypotheses of the theorems hold on the run of [Fixtures]: each lemma applies one theorem there. *)

From stdpp Require Import base list gmap strings sorting relations.
From Stdlib Require Import ZArith Lia Strings.Byte.
From S2P Require Import Prelude GoStd Canonical DeviceList DeviceListFacts DeviceListThms Agreement Header Request.
From S2P Require Import SyncTypes MemStore MemStoreFacts Slices NonceKeeper Service VaultInv.
From S2P Require Import Actors Steps Fixtures SyncSafety SyncEffects SyncHistory HeaderPages.
Local Open Scope Z_scope.

Lemma cfg0_ok : cfg_ok cfg0.
Proof. split; vm_compute; [reflexivity|reflexivity|split; congruence]. Qed.

Lemma reachable_run os s : reachable cfg0 s → reachable cfg0 (run_ops os s).
Proof.
  revert s. induction os as [|o os IH]; intros s Hs; [done|]. apply IH.
  eapply rtc_r; [exact Hs|]. by exists o.
Qed.
Lemma reachable_after n : reachable cfg0 (after n).
Proof. apply reachable_run. constructor. Qed.

(** [ran E]: the call of the equation [E] does not end this way, by evaluating how it ends. *)
Ltac ends X b E :=
  let F := fresh in assert (X = b) as F by (vm_compute; reflexivity); rewrite E in F; discriminate F.
Ltac ran E :=
  exfalso;
  match type of E with
  | ?X = (Err _, _) => ends (is_ok X.1) true E
  | ?X = (Some _, _) => ends (bool_decide (is_Some X.1)) false E
  | ?X = Err _ => ends (is_ok X) true E
  | ?X = None => ends (bool_decide (is_Some X)) true E
  end.

(** What a call returned, evaluated without the store it left. *)
Definition returned {A B C} (f : A → B) (r : result A * C) : option B :=
  match r.1 with Ok a => Some (f a) | Err _ => None end.

(** ** Device lists *)
Lemma verified_list_invariant_witness : ∃ l, VerifyDeviceList [entry1; entry2; entry3] = Ok l ∧ list_wf l.
Proof.
  destruct (VerifyDeviceList [entry1; entry2; entry3]) as [l|e] eqn:E; [|ran E].
  exists l. split; [reflexivity|]. exact (verified_list_invariant _ l E).
Defined.

Lemma history_is_immutable_witness :
  ∃ l l0, VerifyDeviceList [entry1; entry2; entry3] = Ok l ∧ VerifyDeviceList [entry1; entry2] = Ok l0 ∧
    EpochAt l 2 = (Epoch l0, true) ∧ DigestAt l 2 = (HeadDigest l0, true).
Proof.
  destruct (VerifyDeviceList [entry1; entry2; entry3]) as [l|e] eqn:E; [|ran E].
  destruct (history_is_immutable [entry1; entry2] [entry3] l ltac:(discriminate) E) as (l0 & H0 & Hd & He & _).
  exists l, l0. split_and!; [reflexivity|exact H0|exact He|exact Hd].
Defined.

Lemma extension_is_authorised_witness :
  ∃ l l', VerifyDeviceList [entry1; entry2] = Ok l ∧ Extend l entry3 = Ok l' ∧ Epoch l' = Epoch l + 1.
Proof.
  destruct (VerifyDeviceList [entry1; entry2]) as [l|e] eqn:E; [|ran E].
  destruct (Extend l entry3) as [l'|e] eqn:E'.
  - destruct (extension_is_authorised _ l entry3 l' E E') as [_ He]. exists l, l'.
    split_and!; [reflexivity|exact E'|exact He].
  - exfalso. assert (is_ok (let? l := VerifyDeviceList [entry1; entry2] in Extend l entry3)%go = true) as F
      by (vm_compute; reflexivity).
    rewrite E in F. cbn [rbind] in F. rewrite E' in F. discriminate F.
Defined.

Lemma removal_is_final_witness :
  ∃ l l' m m', VerifyDeviceList [entry1; entry2] = Ok l ∧ ExtendAll l [entry3] = Ok l' ∧
    l_members l !! deviceB = Some m ∧ l_members l' !! deviceB = Some m' ∧ m_SigningKey m' = m_SigningKey m.
Proof.
  destruct (VerifyDeviceList [entry1; entry2]) as [l|e] eqn:E; [|ran E].
  destruct (ExtendAll l [entry3]) as [l'|e] eqn:E'.
  2: { exfalso. assert (is_ok (let? l := VerifyDeviceList [entry1; entry2] in ExtendAll l [entry3])%go = true) as F
         by (vm_compute; reflexivity).
       rewrite E in F. cbn [rbind] in F. rewrite E' in F. discriminate F. }
  destruct (l_members l !! deviceB) as [m|] eqn:Em.
  2: { exfalso. assert (is_ok (let? l := VerifyDeviceList [entry1; entry2] in
           match l_members l !! deviceB with Some _ => Ok tt | None => Err [] end)%go = true) as F
         by (vm_compute; reflexivity).
       rewrite E in F. cbn [rbind] in F. rewrite Em in F. discriminate F. }
  destruct (removal_is_final _ [entry3] l l' deviceB m E E' Em) as (m' & Hm' & Hk & _).
  exists l, l', m, m'. split_and!; [reflexivity|exact E'|exact Em|exact Hm'|exact Hk].
Defined.

Lemma head_digest_commits_witness :
  ∃ l, VerifyDeviceList [entry1; entry2] = Ok l ∧
    (([entry1; entry2] = [entry1; entry2] ∧ l = l) ∨ collision).
Proof.
  destruct (VerifyDeviceList [entry1; entry2]) as [l|e] eqn:E; [|ran E].
  exists l. split; [reflexivity|].
  apply (head_digest_commits [entry1; entry2] [entry1; entry2] l l);
    [repeat constructor; vm_compute; congruence|repeat constructor; vm_compute; congruence
    |discriminate|discriminate|exact E|exact E|reflexivity].
Defined.

(** ** The store *)
Lemma reachable_stores_are_valid_witness : Inv cfg0 (after 10).
Proof. exact (reachable_stores_are_valid cfg0 cfg0_ok (after 10) (reachable_after 10)). Defined.

Lemma failed_calls_roll_back_witness :
  ∃ nn, (exec cfg0 (OpAnswerPairing clk0 callerA (signed keyA callerA 3) deviceB []) (after 2)).2
          = set_nonces nn (after 2).
Proof.
  destruct ((exec cfg0 (OpAnswerPairing clk0 callerA (signed keyA callerA 3) deviceB []) (after 2)).1) as [e|] eqn:E;
    [|ran E].
  destruct (failed_calls_roll_back cfg0 (OpAnswerPairing clk0 callerA (signed keyA callerA 3) deviceB [])
    (after 2) e E) as (nn & Hnn & _).
  exists nn. exact Hnn.
Defined.

Definition opRemove : operation :=
  OpRemove clk0 callerA (signed keyA callerA 9) {| rmi_Entry := entry3; rmi_Packages := [] |}.

Lemma owners_are_isolated_witness : isolated clk0 "alice" (after 8) (exec cfg0 opRemove (after 8)).2.
Proof. exact (owners_are_isolated cfg0 cfg0_ok (after 8) opRemove "alice" (reachable_after 8) eq_refl). Defined.

Lemma stored_list_loads_witness : ∃ l, loadList vaultID0 (after 10) = (Ok l, after 10) ∧ Head l = 3.
Proof.
  destruct (st_vaults (after 10) !! vaultID0) as [v|] eqn:E; [|ran E].
  destruct (stored_list_loads cfg0 cfg0_ok (after 10) vaultID0 v (reachable_after 10) E) as (l & Hl & _ & _ & Hh & _).
  assert (v_HeadIndex <$> st_vaults (after 10) !! vaultID0 = Some 3) as F by (vm_compute; reflexivity).
  rewrite E in F. injection F as F. exists l. split; [exact Hl|]. rewrite Hh. exact F.
Defined.

Lemma devices_mirror_the_list_witness :
  ∃ l d m, VerifyDeviceList (entries_of (after 10) vaultID0) = Ok l ∧
    st_devices (after 10) !! key [vaultID0; deviceB] = Some d ∧ l_members l !! deviceB = Some m ∧
    d_AddedIndex d = m_AddedIndex m.
Proof.
  destruct (st_vaults (after 10) !! vaultID0) as [v|] eqn:E; [|ran E].
  destruct (VerifyDeviceList (entries_of (after 10) vaultID0)) as [l|e] eqn:El; [|ran El].
  pose proof (devices_mirror_the_list cfg0 cfg0_ok (after 10) vaultID0 v l deviceB (reachable_after 10) E El) as Hd.
  destruct (st_devices (after 10) !! key [vaultID0; deviceB]) as [d|] eqn:Ed; [|ran Ed].
  destruct Hd as (m & Hm & _ & _ & Ha & _). exists l, d, m. split_and!; [reflexivity|reflexivity|exact Hm|exact Ha].
Defined.

Lemma pending_devices_have_a_package_witness :
  ∃ p, GetKeyPackageOp clk0 callerB (after 5) = (Ok p, after 5) ∧ k_RecipientDeviceID (kp_Package p) = deviceB.
Proof.
  destruct (actorFor clk0 callerB (after 5)) as [[a|e] s1] eqn:E; [|ran E].
  assert (returned (λ a, (a_Pairing a, d_State (a_Device a), d_DeviceID (a_Device a),
            d_ActivatedEpoch (a_Device a), v_Epoch (a_Vault a))) (actorFor clk0 callerB (after 5))
          = Some (None, DeviceApproved, deviceB, 0, 1)) as F by (vm_compute; reflexivity).
  rewrite E in F. injection F as Hp Hs Hd H0 H1.
  destruct (pending_devices_have_a_package cfg0 cfg0_ok (after 5) clk0 callerB a s1 (reachable_after 5) E Hp Hs)
    as (p & Hg & _ & _ & Hr); [rewrite H0, H1; discriminate|].
  exists p. split; [exact Hg|]. rewrite Hr. exact Hd.
Defined.

Lemma successful_calls_are_authorised_witness :
  ∃ s', exec cfg0 opRemove (after 8) = (None, s') ∧
    by_member (after 8) clk0 callerA (signed keyA callerA 9) activated.
Proof.
  destruct (exec cfg0 opRemove (after 8)) as [[e|] s'] eqn:E; [ran E|].
  exists s'. split; [reflexivity|].
  exact (successful_calls_are_authorised cfg0 cfg0_ok (after 8) opRemove s' (reachable_after 8) E).
Defined.

(** ** Removal *)
Lemma removal_revokes_witness :
  ∃ u s' v, Remove clk0 callerA (signed keyA callerA 9) {| rmi_Entry := entry3; rmi_Packages := [] |} (after 8) = (Ok u, s') ∧
    removed vaultID0 deviceB (v_Epoch v + 1) (after 8) s'.
Proof.
  destruct (Remove clk0 callerA (signed keyA callerA 9) {| rmi_Entry := entry3; rmi_Packages := [] |} (after 8))
    as [[u|e] s'] eqn:E; [|ran E].
  destruct (removal_revokes cfg0 cfg0_ok clk0 callerA (signed keyA callerA 9) {| rmi_Entry := entry3; rmi_Packages := [] |}
    (after 8) u s' (reachable_after 8) E) as (v & _ & _ & Hv).
  exists u, s', v. split; [reflexivity|exact Hv].
Defined.

Lemma removed_device_is_locked_out_witness :
  ∃ u s' e, Remove clk0 callerA (signed keyA callerA 9) {| rmi_Entry := entry3; rmi_Packages := [] |} (after 8) = (Ok u, s') ∧
    (exec cfg0 (OpSnapshot clk0 callerB) s').1 = Some e.
Proof.
  destruct (Remove clk0 callerA (signed keyA callerA 9) {| rmi_Entry := entry3; rmi_Packages := [] |} (after 8))
    as [[u|e] s'] eqn:E; [|ran E].
  destruct (st_devices (after 8) !! key [vaultID0; deviceB]) as [d|] eqn:Ed; [|ran Ed].
  assert (d_TokenDeviceID <$> st_devices (after 8) !! key [vaultID0; deviceB] = Some "laptop") as Ht
    by (vm_compute; reflexivity).
  rewrite Ed in Ht. injection Ht as Ht.
  destruct (removed_device_is_locked_out cfg0 cfg0_ok clk0 callerA (signed keyA callerA 9)
    {| rmi_Entry := entry3; rmi_Packages := [] |} (after 8) u s' d (OpSnapshot clk0 callerB) callerB
    (reachable_after 8) E Ed eq_refl (eq_sym Ht) eq_refl) as [e He].
  exists u, s', e. split; [reflexivity|exact He].
Defined.

(** ** Snapshots *)
Definition upload1 : UploadInput := {| upi_Header := header1; upi_Ciphertext := snapshot1 |}.

Lemma upload_then_snapshot_witness :
  ∃ acc s', Upload cfg0 clk0 callerB (signed keyB callerB 7) upload1 (after 6) = (Ok acc, s') ∧
    Snapshot (at_second 5000) callerB s' =
      (Ok {| sn_Header := ac_Header acc; sn_Ciphertext := snapshot1; sn_Vault := ac_Vault acc |}, s').
Proof.
  destruct (Upload cfg0 clk0 callerB (signed keyB callerB 7) upload1 (after 6)) as [[acc|e] s'] eqn:E; [|ran E].
  destruct (upload_then_snapshot cfg0 cfg0_ok clk0 callerB (signed keyB callerB 7) upload1 (after 6) acc s'
    (at_second 5000) (reachable_after 6) E) as (_ & _ & Hs).
  exists acc, s'. split; [reflexivity|exact Hs].
Defined.

Lemma upload_receipt_verifies_witness :
  ∃ acc s' signature, Upload cfg0 clk0 callerB (signed keyB callerB 7) upload1 (after 6) = (Ok acc, s') ∧
    ac_Receipt acc = EncodeToString signature.
Proof.
  destruct (Upload cfg0 clk0 callerB (signed keyB callerB 7) upload1 (after 6)) as [[acc|e] s'] eqn:E; [|ran E].
  destruct (upload_receipt_verifies cfg0 cfg0_ok clk0 callerB (signed keyB callerB 7) upload1 (after 6) acc s'
    eq_refl (reachable_after 6) E) as (sig & Hs & _).
  exists acc, s', sig. split; [reflexivity|exact Hs].
Defined.

Lemma snapshot_is_available_witness :
  ∃ out, Snapshot clk0 callerA (after 10) = (Ok out, after 10) ∧
    VerifyCiphertext (sh_Header (sn_Header out)) (sn_Ciphertext out) = Ok tt.
Proof.
  destruct (actorFor clk0 callerA (after 10)) as [[a|e] s1] eqn:E; [|ran E].
  assert (returned (λ a, (a_Pairing a, d_State (a_Device a), v_CurrentRevision (a_Vault a)))
            (actorFor clk0 callerA (after 10)) = Some (None, DeviceApproved, 2)) as F by (vm_compute; reflexivity).
  rewrite E in F. injection F as Hp Hs Hr.
  destruct (snapshot_is_available cfg0 cfg0_ok clk0 callerA (after 10) a s1 (reachable_after 10) E Hp Hs)
    as [[H0 _]|(out & l & Hout & _ & _ & _ & Hc)]; [exfalso; rewrite Hr in H0; discriminate H0|].
  exists out. split; [exact Hout|exact Hc].
Defined.

Lemma header_pages_verify_witness :
  ∃ hs s' l, HeadersOp clk0 callerA 0 0 (after 10) = (Ok hs, s') ∧
    VerifyHeaderChain l None (sh_Header <$> hs) = Ok tt ∧ length hs = 2%nat.
Proof.
  destruct (HeadersOp clk0 callerA 0 0 (after 10)) as [[hs|e] s'] eqn:E; [|ran E].
  destruct (header_pages_verify cfg0 cfg0_ok clk0 callerA 0 0 (after 10) hs s' (reachable_after 10) E)
    as (v & l & _ & _ & _ & Hl & _).
  assert (returned length (HeadersOp clk0 callerA 0 0 (after 10)) = Some 2%nat) as F by (vm_compute; reflexivity).
  rewrite E in F. injection F as Hn. exists hs, s', l. split_and!; [reflexivity|exact Hl|exact Hn].
Defined.
