(* ===== verification/HttpWitnesses.v ===== *)
(** * Witnesses for the HTTP layer

    A host that knows two bearer tokens, a decoder that reads one body, and the upload of [Fixtures] as an
    HTTP request. *)

From stdpp Require Import base list gmap strings sorting relations.
From Stdlib Require Import ZArith Lia Strings.Byte.
From S2P Require Import Prelude GoStd Canonical DeviceList DeviceListFacts DeviceListThms Header Request.
From S2P Require Import SyncTypes MemStore MemStoreFacts Slices NonceKeeper Service VaultInv MakeRoom LoadList.
From S2P Require Import Actors Steps Fixtures SyncSafety Wire Handler WireThms Http Available SyncApprove Witnesses.
Local Open Scope Z_scope.

(** ** The host, the decoder and the request *)
#[local] Instance toy_host : Host unit := λ request _ h,
  (if decide (header_Values request "Authorization" = ["token-b"]) then Accept callerB
   else if decide (header_Values request "Authorization" = ["token-a"]) then Accept callerA
   else Reply (writeHeader 401), h).

(** Every decoder reads the one-byte document the requests of [Fixtures] carry. *)
Definition only {T} (value : T) (body : bytes) : option (T * bytes) :=
  match body with x7b :: rest => Some (value, rest) | _ => None end.
#[local] Instance toy_decoders : Decoders := {|
  decodes_createVault := only {| cvr_Entry := entry1 |};
  decodes_beginPairing := only {| bpr_DeviceID := deviceB; bpr_SigningKey := publicB;
                                  bpr_PackageKey := b64 32 x0c; bpr_Message := EncodeToString [x01] |};
  decodes_pairingMessage := only {| pmr_Message := EncodeToString [x02] |};
  decodes_approve := only {| apr_Entry := entry2; apr_Package := keyPackageToWire packageB |};
  decodes_remove := only {| rmr_Entry := entry3; rmr_Packages := [] |};
  decodes_upgradeKey := only {| ukr_Entry := entry3 |};
  decodes_activate := only {| acr_PackageDigest := package_Digest packageB |};
  decodes_upload := only {| upr_Header := header1; upr_Ciphertext := EncodeToString snapshot1 |};
  decodes_checkpoint := only {| ckr_Checkpoint := checkpointB |};
  decodes_reset := only {| rer_VaultEpoch := 1 |};
|}.

Definition http_of (token : string) (q : SignedRequest) : http_request :=
  {| hr_Method := q_Method q; hr_RequestURI := q_Target q;
     hr_Header := list_to_map
       [("Authorization", [token]);
        (signatureHeader, [FormatUint (q_Timestamp q) +:+ "." +:+ q_Nonce q +:+ "." +:+ q_Signature q])];
     hr_Query := ∅; hr_Path := ∅; hr_Body := q_Body q; hr_BodyFails := false |}.
Definition uploadB : http_request := http_of "token-b" (signed keyB callerB 7).
Definition upload_path : list string := ["v1"; "sync"; "snapshots"].
Definition clks0 : nat → nat → Z := λ _, clk0.

Example upload_is_created :
  (λ x : reply * (unit * state), rp_Status x.1) <$> ServeHTTP cfg0 clks0 uploadB upload_path ((), after 6) = Some 201.
Proof. vm_compute. reflexivity. Qed.

Lemma upload_dispatch : dispatch "POST" upload_path = Some (RUpload, ∅).
Proof. vm_compute. reflexivity. Qed.

(** ** The theorems at that request *)
Lemma http_refines_service_witness :
  ∃ rp s', ServeHTTP cfg0 clks0 uploadB upload_path ((), after 6) = Some (rp, ((), s')) ∧
    served cfg0 (calls_of RUpload clks0 (set_hr_Path ∅ uploadB) callerB) (after 6) rp s'.
Proof.
  pose proof (http_refines_service cfg0 clks0 uploadB upload_path () (after 6) RUpload ∅ upload_dispatch) as Hw.
  cbv zeta in Hw. destruct (Authenticate (set_hr_Path ∅ uploadB) (route_name RUpload) ()) as [c h'] eqn:E.
  assert (c = Accept callerB ∧ h' = ()) as [-> ->].
  { assert (Authenticate (set_hr_Path ∅ uploadB) (route_name RUpload) () = (Accept callerB, ())) as F
      by (vm_compute; reflexivity).
    rewrite E in F. by injection F. }
  exact Hw.
Defined.

Lemma http_preserves_the_invariant_witness :
  ∃ s', http_step cfg0 ((), newState) ((), s') ∧ Inv cfg0 s'.
Proof.
  set (request := http_of "token-a" (signed keyA callerA 1)).
  destruct (ServeHTTP cfg0 clks0 request ["v1"; "sync"; "vault"] ((), newState)) as [[rp [[] s']]|] eqn:E.
  - exists s'. assert (http_step cfg0 ((), newState) ((), s')) as Hs
      by (exists clks0, request, ["v1"; "sync"; "vault"], rp; exact E).
    split; [exact Hs|].
    destruct (http_preserves_the_invariant cfg0 () () s' cfg0_ok (rtc_once _ _ Hs)) as [_ Hi]. exact Hi.
  - exfalso. assert (bool_decide (is_Some (ServeHTTP cfg0 clks0 request ["v1"; "sync"; "vault"] ((), newState))) = true) as F
      by (vm_compute; reflexivity).
    rewrite E in F. discriminate F.
Defined.

(** The request stands for an upload, and the upload changes the store. *)
Definition uploaded_q : SignedRequest :=
  set_q_Body [x7b] {| q_Method := "POST"; q_Target := "/v3/sync"; q_Body := []; q_Timestamp := 1000;
                      q_Nonce := nonce_of 7; q_Signature := q_Signature (signed keyB callerB 7) |}.
Definition uploaded : operation := OpUpload clk0 callerB uploaded_q {| upi_Header := header1; upi_Ciphertext := snapshot1 |}.
Lemma upload_calls : calls_of RUpload clks0 (set_hr_Path ∅ uploadB) callerB = Accept [uploaded].
Proof. vm_compute. reflexivity. Qed.
Lemma upload_caller : Authenticate (set_hr_Path ∅ uploadB) (route_name RUpload) () = (Accept callerB, ()).
Proof. vm_compute. reflexivity. Qed.
Definition nonces_after (x : reply * (unit * state)) : nat := size (st_nonces x.2.2).
Lemma upload_changes rp : ServeHTTP cfg0 clks0 uploadB upload_path ((), after 6) ≠ Some (rp, ((), after 6)).
Proof.
  intros E. assert (nonces_after <$> ServeHTTP cfg0 clks0 uploadB upload_path ((), after 6) = Some 7%nat) as F
    by (vm_compute; reflexivity).
  assert (∀ rp, nonces_after (rp, ((), after 6)) = 6%nat) as G by (intros; vm_compute; reflexivity).
  rewrite E in F. assert (Some (nonces_after (rp, ((), after 6))) = Some 7%nat) as F' by exact F.
  rewrite G in F'. discriminate F'.
Qed.

(** What a route, a caller and a call found for the request must be. *)
Lemma upload_only r wild caller h o :
  dispatch "POST" upload_path = Some (r, wild) →
  Authenticate (set_hr_Path wild uploadB) (route_name r) () = (Accept caller, h) →
  calls_of r clks0 (set_hr_Path wild uploadB) caller = Accept [o] → o = uploaded.
Proof.
  rewrite upload_dispatch. intros [= <- <-]. rewrite upload_caller. intros [= <- <-]. rewrite upload_calls. by intros [= <-].
Qed.

Lemma http_changes_are_signed_witness :
  ∃ rp s' q, ServeHTTP cfg0 clks0 uploadB upload_path ((), after 6) = Some (rp, ((), s')) ∧
    same_request uploadB q ∧ by_member (after 6) clk0 callerB q activated.
Proof.
  destruct (ServeHTTP cfg0 clks0 uploadB upload_path ((), after 6)) as [[rp [[] s']]|] eqn:E.
  - assert (200 ≤ rp_Status rp < 300) as Hst.
    { pose proof upload_is_created as F. rewrite E in F. injection F as ->. lia. }
    assert (s' ≠ after 6) as Hne by (intros ->; by apply upload_changes in E).
    destruct (http_changes_are_signed cfg0 clks0 uploadB upload_path () (after 6) rp () s' cfg0_ok (reachable_after 6) E Hst Hne)
      as (r & wild & caller & o & q & Hd & Hau & Hc & Ho & Hq & Ha).
    pose proof (upload_only r wild caller () o Hd Hau Hc) as Eo. rewrite Eo in Ho, Ha. injection Ho as _ Eq.
    exists rp, s', uploaded_q. rewrite <- Eq in Hq. split; [reflexivity|]. split; [exact Hq|exact Ha].
  - exfalso. pose proof upload_is_created as F. rewrite E in F. discriminate F.
Defined.

Lemma failures_are_named_witness :
  ∃ e, (exec cfg0 (OpSnapshot clk0 callerA) (after 1)).1 = Some e ∧ serviceErrorCode e ≠ codeUnavailable.
Proof.
  destruct ((exec cfg0 (OpSnapshot clk0 callerA) (after 1)).1) as [e|] eqn:E; [|ran E].
  exists e. split; [reflexivity|].
  exact (failures_are_named cfg0 cfg0_ok (OpSnapshot clk0 callerA) (after 1) e (reachable_after 1) E).
Defined.

(** ** Approvals, checkpoints and room *)
Lemma approval_completes_a_pairing_witness :
  ∃ u s' p, Approve clk0 callerA (signed keyA callerA 5) {| api_Entry := entry2; api_Package := packageB |} (after 4)
      = (Ok u, s') ∧ admitted entry2 p (after 4) s'.
Proof.
  destruct (Approve clk0 callerA (signed keyA callerA 5) {| api_Entry := entry2; api_Package := packageB |} (after 4))
    as [[u|e] s'] eqn:E; [|ran E].
  destruct (approval_completes_a_pairing cfg0 cfg0_ok clk0 callerA (signed keyA callerA 5)
    {| api_Entry := entry2; api_Package := packageB |} (after 4) u s' (reachable_after 4) E) as (p & _ & _ & Hp).
  exists u, s', p. split; [reflexivity|exact Hp].
Defined.

Lemma checkpoints_advance_witness :
  ∃ sc s', PutCheckpointOp clk0 callerB (signed keyB callerB 8) checkpointB (after 7) = (Ok sc, s') ∧
    sc_Checkpoint sc = checkpointB.
Proof.
  destruct (PutCheckpointOp clk0 callerB (signed keyB callerB 8) checkpointB (after 7)) as [[sc|e] s'] eqn:E; [|ran E].
  destruct (checkpoints_advance cfg0 cfg0_ok clk0 callerB (signed keyB callerB 8) checkpointB (after 7) sc s'
    (reachable_after 7) E) as (_ & Hc & _).
  exists sc, s'. split; [reflexivity|exact Hc].
Defined.

Lemma paging_is_verification_witness :
  loadList vaultID0 (after 10) = (VerifyDeviceList (entries_of (after 10) vaultID0), after 10).
Proof.
  assert (entries_of (after 10) vaultID0 = [entry1; entry2; entry3]) as E by (vm_compute; reflexivity).
  apply paging_is_verification; rewrite E; [|vm_compute; reflexivity].
  assert (∀ x e : DeviceListEntry, Some x = Some e → e = x) as Hinj by congruence.
  intros [|[|[|i]]] e He; [apply Hinj in He as ->; vm_compute; reflexivity..|].
  change ([] !! i = Some e) in He. discriminate He.
Defined.

Lemma room_is_made_when_possible_witness :
  ∃ v s', st_vaults (after 9) !! vaultID0 = Some v ∧ makeRoom cfg0 v 20 (after 9) = (Ok tt, s').
Proof.
  destruct (st_vaults (after 9) !! vaultID0) as [v|] eqn:E; [|ran E].
  pose proof (room_is_made_when_possible cfg0 cfg0_ok (after 9) vaultID0 v 20 (reachable_after 9) E
    ltac:(split; vm_compute; congruence)) as Hm.
  assert (current_size (after 9) <$> st_vaults (after 9) !! vaultID0 = Some 20) as F by (vm_compute; reflexivity).
  assert (∀ x y : Z, Some x = Some y → x = y) as Hinj by congruence.
  rewrite E in F. change (Some (current_size (after 9) v) = Some 20) in F. apply Hinj in F. rewrite F in Hm.
  destruct (decide (20 + 20 ≤ cfg_ByteBudget cfg0)) as [_|Hn]; [|exfalso; apply Hn; vm_compute; congruence].
  destruct Hm as (s' & Hs & _). exists v, s'. split; [reflexivity|exact Hs].
Defined.
