(* ===== verification/SemVer.v ===== *)
(** * Release versions: internal/releases/semver.go, eligibility.go, and
      internal/selfhost/updates/versions.go *)

From stdpp Require Import base list gmap strings pretty.
From Stdlib Require Import ZArith Lia Ascii.
From S2P Require Import Prelude GoStd GoText.
Local Open Scope Z_scope.
Local Open Scope go_scope.

Record identifier := { id_raw : string; id_numeric : bool; id_number : Z }.

Record Version := {
  vn_Major : Z;
  vn_Minor : Z;
  vn_Patch : Z;
  vn_Prerelease : list identifier;
}.

#[export] Instance identifier_eq_dec : EqDecision identifier.
Proof. solve_decision. Defined.
#[export] Instance Version_eq_dec : EqDecision Version.
Proof. solve_decision. Defined.

Definition validIdentifier (value : string) : bool :=
  forallb (λ c, bool_decide (48 ≤ c ≤ 57 ∨ 97 ≤ c ≤ 122 ∨ 65 ≤ c ≤ 90 ∨ c = 45)) (runes value).
Definition allDigits (value : string) : bool :=
  forallb (λ c, negb (bool_decide (c < 48 ∨ c > 57))) (runes value).

(** [len(part) > 1 && part[0] == '0']. *)
Definition leading_zero (part : string) : bool :=
  bool_decide (1 < String.length part)%nat && bool_decide (first_char part = Some "0"%char).

(** The error is always one without a sentinel. *)
Definition parse_number (part : string) : result Z :=
  check rfail_if (part = "" ∨ leading_zero part = true) [];
  match ParseUint part 64 with Some value => Ok value | None => Err [] end.

Definition parse_identifier (part : string) : result identifier :=
  check rfail_if (part = "" ∨ validIdentifier part = false) [];
  if allDigits part then
    check rfail_if (leading_zero part = true) [];
    Ok {| id_raw := part; id_numeric := true; id_number := ParseUint_value part |}
  else Ok {| id_raw := part; id_numeric := false; id_number := 0 |}.

Fixpoint parse_identifiers (parts : list string) : result (list identifier) :=
  match parts with
  | [] => Ok []
  | part :: parts =>
      let? entry := parse_identifier part in
      let? entries := parse_identifiers parts in
      Ok (entry :: entries)
  end.

Definition ParseVersion (raw : string) : result Version :=
  check rfail_if (raw = "" ∨ TrimSpace raw ≠ raw ∨ contains "+" raw = true) [];
  let '(core, prerelease, hasPrerelease) := Cut "-" raw in
  match Split "." core with
  | [p0; p1; p2] =>
      let? major := parse_number p0 in
      let? minor := parse_number p1 in
      let? patch := parse_number p2 in
      if hasPrerelease : bool then
        check rfail_if (prerelease = "") [];
        let? entries := parse_identifiers (Split "." prerelease) in
        Ok {| vn_Major := major; vn_Minor := minor; vn_Patch := patch; vn_Prerelease := entries |}
      else Ok {| vn_Major := major; vn_Minor := minor; vn_Patch := patch; vn_Prerelease := [] |}
  | _ => Err []
  end.

Definition ValidVersion (raw : string) : bool := is_ok (ParseVersion raw).

(** One step of the comparison: [-1] and [1] end it, [0] goes on. *)
Definition order (a b : Z) : Z := if decide (a < b) then -1 else if decide (a > b) then 1 else 0.
Definition order_string (a b : string) : Z :=
  match string_compare a b with Lt => -1 | Gt => 1 | Eq => 0 end.
Definition and_then (a b : Z) : Z := if decide (a = 0) then b else a.

(** The body of the prerelease loop. *)
Definition compare_identifier (left_ right_ : identifier) : Z :=
  if id_numeric left_ && id_numeric right_ then order (id_number left_) (id_number right_)
  else if decide (id_numeric left_ ≠ id_numeric right_) then (if id_numeric left_ then -1 else 1)
  else order_string (id_raw left_) (id_raw right_).

Fixpoint compare_common (left_ right_ : list identifier) : Z :=
  match left_, right_ with
  | l :: left_, r :: right_ => and_then (compare_identifier l r) (compare_common left_ right_)
  | _, _ => 0
  end.

Definition Compare (version other : Version) : Z :=
  and_then (order (vn_Major version) (vn_Major other))
  (and_then (order (vn_Minor version) (vn_Minor other))
  (and_then (order (vn_Patch version) (vn_Patch other))
  (let mine := Z.of_nat (length (vn_Prerelease version)) in
   let theirs := Z.of_nat (length (vn_Prerelease other)) in
   if decide (mine = 0 ∧ theirs > 0) then 1
   else if decide (mine > 0 ∧ theirs = 0) then -1
   else and_then (compare_common (vn_Prerelease version) (vn_Prerelease other)) (order mine theirs)))).

(** ** Eligibility *)
Definition ArtifactEligible (distributionClass : string) (sigstoreVerified authenticodeVerified : bool) : bool :=
  if negb sigstoreVerified then false
  else if decide (distributionClass = "early_access") then negb authenticodeVerified
  else if decide (distributionClass = "production") then authenticodeVerified
  else false.

Definition ChannelStable : string := "stable".
Definition ChannelBeta : string := "beta".

Definition Newer (candidate current : string) : bool :=
  match ParseVersion candidate, ParseVersion current with
  | Ok next, Ok installed => bool_decide (Compare next installed > 0)
  | _, _ => false
  end.

(** [Offered], on the release's version. *)
Definition Offered (version channel : string) : bool :=
  match ParseVersion version with
  | Err _ => false
  | Ok version =>
      negb (bool_decide (channel = ChannelStable ∧ Z.of_nat (length (vn_Prerelease version)) > 0))
  end.
