(* ===== verification/SemVerThms.v ===== *)
(** * The order of versions and their text

    [Compare] is a total preorder and the precedence that SemVer defines, the text of a version is determined
    by what [ParseVersion] makes of it, and the order tells two versions apart whenever their numeric
    identifiers fit 64 bits. *)

From stdpp Require Import base list gmap strings pretty.
From Stdlib Require Import ZArith Lia Ascii.
From S2P Require Import Prelude GoStd GoText SemVer.
Local Open Scope Z_scope.
Local Open Scope go_scope.

(** ** Comparison functions *)

(** A function to [-1], [0] and [1] that orders its type totally. *)
Class Comparator {A} (c : A → A → Z) : Prop := {
  comparator_range a b : -1 ≤ c a b ≤ 1;
  comparator_anti a b : c a b = - c b a;
  comparator_trans a b d : c a b ≤ 0 → c b d ≤ 0 → c a d ≤ 0;
}.

Section comparator.
  Context {A} (c : A → A → Z) {Hc : Comparator c}.

Lemma comparator_refl a : c a a = 0.
Proof. pose proof (comparator_anti (c:=c) a a). lia. Qed.

Lemma comparator_trans_eq a b d : c a b ≤ 0 → c b d ≤ 0 → c a d = 0 → c a b = 0 ∧ c b d = 0.
Proof.
  intros H1 H2 H3. pose proof (comparator_anti (c:=c) a d) as Ha.
  pose proof (comparator_trans (c:=c) b d a H2 ltac:(lia)) as Hba. rewrite (comparator_anti (c:=c) b a) in Hba.
  pose proof (comparator_trans (c:=c) d a b ltac:(lia) H1) as Hdb. rewrite (comparator_anti (c:=c) d b) in Hdb. lia.
Qed.

Lemma comparator_strict a b d : c a b < 0 → c b d ≤ 0 → c a d < 0.
Proof.
  intros H1 H2. pose proof (comparator_trans (c:=c) a b d ltac:(lia) H2).
  destruct (decide (c a d = 0)) as [E|]; [|lia]. destruct (comparator_trans_eq a b d ltac:(lia) H2 E). lia.
Qed.

End comparator.

#[export] Instance comparator_on {A B} (f : A → B) (c : B → B → Z) `{!Comparator c} :
  Comparator (λ a b, c (f a) (f b)).
Proof.
  split; intros; [apply comparator_range|apply comparator_anti|by eapply (comparator_trans (c:=c))].
Qed.

#[export] Instance comparator_lex {A} (c d : A → A → Z) `{!Comparator c} `{!Comparator d} :
  Comparator (λ a b, and_then (c a b) (d a b)).
Proof.
  unfold and_then. split.
  - intros a b. pose proof (comparator_range (c:=c) a b). pose proof (comparator_range (c:=d) a b).
    case_decide; lia.
  - intros a b. rewrite (comparator_anti (c:=c) a b), (comparator_anti (c:=d) a b).
    do 2 case_decide; lia.
  - intros x y z Hxy Hyz.
    assert (c x y ≤ 0) as H1 by (repeat case_decide; lia). assert (c y z ≤ 0) as H2 by (repeat case_decide; lia).
    pose proof (comparator_trans (c:=c) x y z H1 H2). destruct (decide (c x z = 0)) as [E|]; [|lia].
    destruct (comparator_trans_eq c x y z H1 H2 E) as [E1 E2].
    rewrite (decide_True _ _ E1) in Hxy; rewrite (decide_True _ _ E2) in Hyz. by eapply (comparator_trans (c:=d)).
Qed.

#[export] Instance comparator_order : Comparator order.
Proof. unfold order. split; intros; repeat case_decide; lia. Qed.

Lemma order_eq a b : order a b = 0 ↔ a = b.
Proof. unfold order. repeat case_decide; lia. Qed.

Lemma ascii_compare_N a b : Ascii.compare a b = (N_of_ascii a ?= N_of_ascii b)%N.
Proof. done. Qed.

Lemma string_compare_trans a b d : string_compare a b ≠ Gt → string_compare b d ≠ Gt → string_compare a d ≠ Gt.
Proof.
  unfold string_compare. revert b d. induction a as [|x a IH]; intros [|y b] [|z d]; cbn; try done.
  rewrite !ascii_compare_N.
  destruct (N.compare_spec (N_of_ascii x) (N_of_ascii y)) as [E1|E1|E1]; [|intros _|done];
  (destruct (N.compare_spec (N_of_ascii y) (N_of_ascii z)) as [E2|E2|E2]; [|intros ?|done]).
  - rewrite E1, E2, N.compare_refl. apply IH.
  - intros _. by rewrite E1, (proj2 (N.compare_lt_iff _ _) E2).
  - intros _. by rewrite <- E2, (proj2 (N.compare_lt_iff _ _) E1).
  - rewrite (proj2 (N.compare_lt_iff _ _)); [done|lia].
Qed.

#[export] Instance comparator_string : Comparator order_string.
Proof.
  unfold order_string. split.
  - intros a b. destruct (string_compare a b); lia.
  - intros a b. unfold string_compare. rewrite (String.compare_antisym a b).
    by destruct (String.compare b a).
  - intros a b d H1 H2. pose proof (string_compare_trans a b d) as H.
    destruct (string_compare a b), (string_compare b d), (string_compare a d); try lia; by exfalso; apply H.
Qed.

(** ** The order of prereleases *)
#[export] Instance comparator_identifier : Comparator compare_identifier.
Proof.
  pose proof comparator_order as Ho. pose proof comparator_string as Hs. unfold compare_identifier. split.
  - intros [r1 [] n1] [r2 [] n2]; cbn; repeat case_decide; try congruence; try lia;
      apply comparator_range.
  - intros [r1 [] n1] [r2 [] n2]; cbn; repeat case_decide; try congruence; try lia;
      apply comparator_anti.
  - intros [r1 [] n1] [r2 [] n2] [r3 [] n3]; cbn; repeat case_decide; try congruence; try lia;
      apply comparator_trans.
Qed.

(** The loop over the common part and the comparison of the lengths, as one recursion. *)
Fixpoint compare_lists (l r : list identifier) : Z :=
  match l, r with
  | [], [] => 0
  | [], _ :: _ => -1
  | _ :: _, [] => 1
  | x :: l, y :: r => and_then (compare_identifier x y) (compare_lists l r)
  end.

Lemma compare_lists_eq l r :
  and_then (compare_common l r) (order (Z.of_nat (length l)) (Z.of_nat (length r))) = compare_lists l r.
Proof.
  revert r. induction l as [|x l IH]; intros [|y r]; try done. cbn [compare_common compare_lists].
  rewrite <- IH. unfold and_then, order. cbn [length]. repeat case_decide; lia.
Qed.

#[export] Instance comparator_lists : Comparator compare_lists.
Proof.
  split.
  - intros l. induction l as [|x l IH]; intros [|y r]; cbn; try lia. unfold and_then. case_decide; [done|].
    apply comparator_range.
  - intros l. induction l as [|x l IH]; intros [|y r]; cbn; try lia.
    rewrite (comparator_anti (c:=compare_identifier) x y), IH. unfold and_then. do 2 case_decide; lia.
  - intros a. induction a as [|x a IH]; intros [|y b] [|z d]; cbn; try lia. unfold and_then. intros H1 H2.
    assert (compare_identifier x y ≤ 0) as L1 by (repeat case_decide; lia).
    assert (compare_identifier y z ≤ 0) as L2 by (repeat case_decide; lia).
    pose proof (comparator_trans (c:=compare_identifier) x y z L1 L2).
    destruct (decide (compare_identifier x z = 0)) as [E|]; [|lia].
    destruct (comparator_trans_eq compare_identifier x y z L1 L2 E) as [E1 E2].
    rewrite (decide_True _ _ E1) in H1; rewrite (decide_True _ _ E2) in H2. by eapply IH.
Qed.

(** A version without a prerelease comes after those with one. *)
Definition final (v : Version) : Z := if decide (vn_Prerelease v = []) then 1 else 0.

Lemma Compare_eq v w :
  Compare v w =
  and_then (order (vn_Major v) (vn_Major w))
  (and_then (order (vn_Minor v) (vn_Minor w))
  (and_then (order (vn_Patch v) (vn_Patch w))
  (and_then (order (final v) (final w))
            (compare_lists (vn_Prerelease v) (vn_Prerelease w))))).
Proof.
  unfold Compare. do 3 f_equal. rewrite compare_lists_eq. unfold final.
  destruct (vn_Prerelease v), (vn_Prerelease w); cbn [length];
    unfold order, and_then; repeat (rewrite decide_True by (done || lia) || rewrite decide_False by (done || lia)); done.
Qed.

#[export] Instance comparator_Compare : Comparator Compare.
Proof.
  assert (Comparator (λ v w, and_then (order (vn_Major v) (vn_Major w))
    (and_then (order (vn_Minor v) (vn_Minor w)) (and_then (order (vn_Patch v) (vn_Patch w))
    (and_then (order (final v) (final w)) (compare_lists (vn_Prerelease v) (vn_Prerelease w))))))) as H.
  { repeat first [apply (comparator_lex (λ v w, order (_ v) (_ w)))|apply comparator_on]; apply _. }
  split; intros *; rewrite !Compare_eq; apply H.
Qed.

(** ** Precedence

    The order that SemVer gives: numeric identifiers by their number and before the others, the others by
    their bytes, a proper prefix before what it is a prefix of; a prerelease before the release. *)
Inductive id_precedes (x y : identifier) : Prop :=
  | numbers_precede : id_numeric x = true → id_numeric y = true → id_number x < id_number y → id_precedes x y
  | number_precedes_word : id_numeric x = true → id_numeric y = false → id_precedes x y
  | words_precede :
      id_numeric x = false → id_numeric y = false → string_compare (id_raw x) (id_raw y) = Lt → id_precedes x y.

Definition id_same (x y : identifier) : Prop :=
  id_numeric x = id_numeric y ∧ if id_numeric x then id_number x = id_number y else id_raw x = id_raw y.

Inductive ids_precede : list identifier → list identifier → Prop :=
  | prefix_precedes y r : ids_precede [] (y :: r)
  | head_precedes x y l r : id_precedes x y → ids_precede (x :: l) (y :: r)
  | tail_precedes x y l r : id_same x y → ids_precede l r → ids_precede (x :: l) (y :: r).

Inductive precedes (v w : Version) : Prop :=
  | major_precedes : vn_Major v < vn_Major w → precedes v w
  | minor_precedes : vn_Major v = vn_Major w → vn_Minor v < vn_Minor w → precedes v w
  | patch_precedes :
      vn_Major v = vn_Major w → vn_Minor v = vn_Minor w → vn_Patch v < vn_Patch w → precedes v w
  | release_is_last :
      vn_Major v = vn_Major w → vn_Minor v = vn_Minor w → vn_Patch v = vn_Patch w →
      vn_Prerelease v ≠ [] → vn_Prerelease w = [] → precedes v w
  | prerelease_precedes :
      vn_Major v = vn_Major w → vn_Minor v = vn_Minor w → vn_Patch v = vn_Patch w →
      vn_Prerelease v ≠ [] → vn_Prerelease w ≠ [] → ids_precede (vn_Prerelease v) (vn_Prerelease w) →
      precedes v w.

Lemma order_lt a b : order a b < 0 ↔ a < b.
Proof. unfold order. repeat case_decide; lia. Qed.

Lemma and_then_lt a b : and_then a b < 0 ↔ a < 0 ∨ (a = 0 ∧ b < 0).
Proof. unfold and_then. case_decide; lia. Qed.

Lemma id_precedes_spec x y : id_precedes x y ↔ compare_identifier x y < 0.
Proof.
  unfold compare_identifier, order_string. split.
  - intros [H1 H2 H | H1 H2 | H1 H2 H]; rewrite H1, H2; cbn; [by apply order_lt|done|by rewrite H].
  - destruct (id_numeric x) eqn:Ex, (id_numeric y) eqn:Ey; cbn.
    + rewrite order_lt. intros. by apply numbers_precede.
    + intros _. by apply number_precedes_word.
    + done.
    + destruct (string_compare _ _) eqn:E; [done| |done]. intros _. by apply words_precede.
Qed.

Lemma id_same_spec x y : id_same x y ↔ compare_identifier x y = 0.
Proof.
  unfold compare_identifier, id_same, order_string, string_compare.
  destruct (id_numeric x), (id_numeric y); cbn; [by rewrite order_eq; naive_solver|naive_solver..|].
  rewrite decide_False by (intros E; by apply E). rewrite <- string_compare_eq. unfold string_compare.
  destruct (String.compare (id_raw x) (id_raw y)); split; intros; try done; naive_solver.
Qed.

Lemma ids_precede_spec l r : ids_precede l r ↔ compare_lists l r < 0.
Proof.
  split.
  - induction 1; cbn; [done|apply and_then_lt; left; by apply id_precedes_spec|].
    apply and_then_lt. right. split; [by apply id_same_spec|done].
  - revert r. induction l as [|x l IH]; intros [|y r]; cbn; try done; [constructor|].
    intros [H|[H Ht]]%and_then_lt; [apply head_precedes; by apply id_precedes_spec|].
    apply tail_precedes; [by apply id_same_spec|by apply IH].
Qed.

Lemma precedes_spec v w : precedes v w ↔ Compare v w < 0.
Proof.
  rewrite Compare_eq, !and_then_lt, !order_lt, !order_eq, <- ids_precede_spec. unfold final. split.
  - intros [?|? ?|? ? ?|? ? ? Hv Hw|? ? ? Hv Hw ?]; [tauto..| |]; do 3 (right; split; [done|]).
    + left. by rewrite (decide_False _ _ Hv), (decide_True _ _ Hw).
    + right. by rewrite (decide_False _ _ Hv), (decide_False _ _ Hw).
  - intros [?|[? [?|[? [?|[? H]]]]]]; [by apply major_precedes|by apply minor_precedes|by apply patch_precedes|].
    revert H. case_decide as Hv; case_decide as Hw; intros [?|[? Hp]]; try lia.
    + rewrite Hv, Hw in Hp. inversion Hp.
    + by apply release_is_last.
    + by apply prerelease_precedes.
Qed.

(** ** Numbers and their text *)
Lemma digit_value_char c d : digit_value c = Some d → 0 ≤ d < 10 ∧ pretty_N_char (Z.to_N d) = c.
Proof.
  unfold digit_value. case_decide as Hc; [|done]. intros [= <-]. split; [lia|].
  rewrite <- (ascii_N_embedding c) at 2. set (n := N_of_ascii c) in *.
  assert (∃ k, (k < 10)%nat ∧ n = (48 + N.of_nat k)%N) as (k & Hk & ->) by (exists (N.to_nat (n - 48)); lia).
  do 10 (destruct k as [|k]; [reflexivity|]). lia.
Qed.

Lemma parse_digits_mono s acc v : 0 ≤ acc → parse_digits s acc = Some v → acc ≤ v.
Proof.
  revert acc. induction s as [|c s IH]; cbn; intros acc Hacc H; [by simplify_eq|].
  unfold digit_value in H. case_decide; [|done]. cbn in H. apply IH in H; lia.
Qed.

(** The digits that follow a positive number are the ones it is printed with. *)
Lemma pretty_parse_digits s acc v t :
  0 < acc → parse_digits s acc = Some v → pretty_N_go (Z.to_N v) t = pretty_N_go (Z.to_N acc) (s +:+ t).
Proof.
  revert acc. induction s as [|c s IH]; cbn [parse_digits]; intros acc Hacc H; [by simplify_eq|].
  change (String c s +:+ t) with (String c (s +:+ t)).
  destruct (digit_value c) as [d|] eqn:Ed; cbn in H; [|done].
  destruct (digit_value_char _ _ Ed) as [Hd Hc]. rewrite (IH (acc * 10 + d)) by (lia || done).
  rewrite (pretty_N_go_step (Z.to_N (acc * 10 + d))) by lia.
  assert (Z.to_N (acc * 10 + d) `div` 10 = Z.to_N acc)%N as ->
    by (symmetry; apply (N.div_unique _ _ _ (Z.to_N d)); lia).
  assert (Z.to_N (acc * 10 + d) `mod` 10 = Z.to_N d)%N as ->
    by (symmetry; apply (N.mod_unique _ _ (Z.to_N acc)); lia).
  by rewrite Hc.
Qed.

(** A number without leading zeros is the text of its value. *)
Lemma FormatUint_parse s v :
  s ≠ "" → leading_zero s = false → parse_digits s 0 = Some v → FormatUint v = s.
Proof.
  destruct s as [|c s]; [done|]. intros _ Hz. cbn. destruct (digit_value c) as [d|] eqn:Ed; cbn; [|done].
  destruct (digit_value_char _ _ Ed) as [Hd Hc]. intros Hp. unfold FormatUint, pretty, pretty_N.
  destruct (decide (d = 0)) as [->|Hd0].
  - cbn in Hc. subst c. destruct s as [|c' s]; [cbn in Hp; by simplify_eq|].
    unfold leading_zero in Hz. cbn [String.length first_char] in Hz.
    by rewrite !bool_decide_eq_true_2 in Hz by (done || lia).
  - assert (0 < d) as Hpos by lia. pose proof (pretty_parse_digits s d v "" Hpos Hp) as E.
    assert (d ≤ v) by (apply (parse_digits_mono s); [lia|done]).
    rewrite decide_False by lia. rewrite E, (pretty_N_go_step (Z.to_N d)) by lia.
    rewrite (N.div_small (Z.to_N d) 10), (N.mod_small (Z.to_N d) 10), pretty_N_go_0, Hc, append_empty by lia. done.
Qed.

Lemma parse_number_text part v : parse_number part = Ok v → FormatUint v = part ∧ 0 ≤ v < 2 ^ 64.
Proof.
  unfold parse_number, rfail_if. case_decide as H; [done|]. cbn. destruct (ParseUint part 64) as [w|] eqn:E; [|done].
  intros [= ->]. split; [|by eapply ParseUint_range].
  unfold ParseUint in E. case_decide; [done|]. destruct (parse_digits part 0) as [w|] eqn:Ed; [|done].
  cbn in E. case_decide; [|done]. simplify_eq. apply FormatUint_parse; [done| |done].
  apply not_true_iff_false. naive_solver.
Qed.

(** ** The text of a version *)
Definition Text (v : Version) : string :=
  FormatUint (vn_Major v) +:+ "." +:+ FormatUint (vn_Minor v) +:+ "." +:+ FormatUint (vn_Patch v) +:+
  match vn_Prerelease v with [] => "" | ids => "-" +:+ join "." (id_raw <$> ids) end.

Lemma parse_identifier_raw part i : parse_identifier part = Ok i → id_raw i = part.
Proof.
  unfold parse_identifier, rfail_if. case_decide; [done|]. cbn. destruct (allDigits part); [|by intros [= <-]].
  case_decide; [done|]. by intros [= <-].
Qed.

Lemma parse_identifiers_raw parts ids : parse_identifiers parts = Ok ids → id_raw <$> ids = parts.
Proof.
  revert ids. induction parts as [|part parts IH]; cbn; intros ids; [by intros [= <-]|].
  destruct (parse_identifier part) as [i|] eqn:Ei; cbn; [|done].
  destruct (parse_identifiers parts) as [rest|]; cbn; [|done]. intros [= <-]. cbn.
  by rewrite (parse_identifier_raw _ _ Ei), (IH rest).
Qed.

(** What [ParseVersion] accepts, read off its result. *)
Lemma ParseVersion_text raw v :
  ParseVersion raw = Ok v →
  Text v = raw ∧ (0 ≤ vn_Major v < 2 ^ 64 ∧ 0 ≤ vn_Minor v < 2 ^ 64 ∧ 0 ≤ vn_Patch v < 2 ^ 64) ∧
  ∃ parts, parse_identifiers parts = Ok (vn_Prerelease v).
Proof.
  unfold ParseVersion, rfail_if. case_decide; [done|]. cbn [rbind].
  destruct (Cut "-" raw) as [[core pre] found] eqn:Ec. apply Cut_spec in Ec as [_ Hraw].
  pose proof (join_Split "." core) as Hj. destruct (Split "." core) as [|p0 [|p1 [|p2 [|]]]]; try done.
  destruct (parse_number p0) as [major|] eqn:E0; [|done]. destruct (parse_number p1) as [minor|] eqn:E1; [|done].
  destruct (parse_number p2) as [patch|] eqn:E2; [|done]. cbn [rbind].
  apply parse_number_text in E0 as [E0 ?], E1 as [E1 ?], E2 as [E2 ?].
  assert (p0 +:+ "." +:+ p1 +:+ "." +:+ p2 = core) as Hcore by done. clear Hj.
  destruct found.
  - case_decide; [done|]. cbn [rbind]. destruct (parse_identifiers (Split "." pre)) as [ids|] eqn:Ei; [|done].
    intros [= <-]. pose proof (parse_identifiers_raw _ _ Ei) as Hids. unfold Text.
    cbn [vn_Major vn_Minor vn_Patch vn_Prerelease]. split; [|eauto 6].
    destruct ids as [|i ids]; [by destruct (Split_nonempty "." pre)|].
    rewrite E0, E1, E2, Hids, join_Split, Hraw, <- Hcore. by rewrite <- !append_assoc.
  - intros [= <-]. unfold Text. cbn. destruct Hraw as [-> _]. split; [|split; [done|by exists []]].
    by rewrite E0, E1, E2, append_empty.
Qed.

(** The numeric identifiers of [v] fit 64 bits: [ParseUint] reads their text. *)
Definition id_fits (i : identifier) : Prop := id_numeric i = true → is_Some (ParseUint (id_raw i) 64).
Definition fits (v : Version) : Prop := Forall id_fits (vn_Prerelease v).

Lemma allDigits_parse part : allDigits part = true → is_Some (parse_digits part 0).
Proof.
  unfold allDigits. rewrite forallb_runes; [|intros; apply negb_false_iff, bool_decide_eq_true; lia].
  generalize 0. induction part as [|c part IH]; cbn [str_forall parse_digits]; [by eexists|].
  intros acc [Hc Hp]%andb_true_iff. apply negb_true_iff, bool_decide_eq_false in Hc.
  unfold digit_value. fold (ascii_Z c). rewrite decide_True by lia. cbn. by apply IH.
Qed.

Lemma ParseUint_value_Some s v : ParseUint s 64 = Some v → ParseUint_value s = v ∧ parse_digits s 0 = Some v.
Proof.
  unfold ParseUint, ParseUint_value. case_decide; [done|]. intros (w & E & Hw)%bind_Some. rewrite E.
  case_decide; [|done]. naive_solver.
Qed.

Lemma parse_identifier_text part i :
  parse_identifier part = Ok i → id_fits i → id_numeric i = true → FormatUint (id_number i) = part.
Proof.
  unfold parse_identifier, rfail_if. case_decide; [done|]. cbn [rbind].
  destruct (allDigits part) eqn:Ed; [|by intros [= <-]].
  case_decide; [done|]. intros [= <-] Hf _. destruct (Hf eq_refl) as [v Hv]. cbn [id_raw id_number] in *.
  destruct (ParseUint_value_Some _ _ Hv) as [-> Hd]. apply FormatUint_parse; [naive_solver| |done].
  by apply not_true_iff_false.
Qed.

Lemma parse_identifier_eq a b i j :
  parse_identifier a = Ok i → parse_identifier b = Ok j → id_fits i → id_fits j →
  compare_identifier i j = 0 → a = b.
Proof.
  intros Hi Hj Fi Fj. pose proof (parse_identifier_text _ _ Hi Fi). pose proof (parse_identifier_text _ _ Hj Fj).
  pose proof (parse_identifier_raw _ _ Hi). pose proof (parse_identifier_raw _ _ Hj).
  unfold compare_identifier. destruct (id_numeric i), (id_numeric j); cbn [andb].
  - rewrite order_eq. intros E. rewrite E in *. naive_solver congruence.
  - by rewrite decide_True by done.
  - by rewrite decide_True by done.
  - rewrite decide_False by (intros E; by apply E). unfold order_string.
    destruct (string_compare (id_raw i) (id_raw j)) eqn:E; [|done..].
    apply string_compare_eq in E. congruence.
Qed.

Lemma compare_lists_text ps qs l r :
  parse_identifiers ps = Ok l → parse_identifiers qs = Ok r →
  Forall id_fits l → Forall id_fits r →
  compare_lists l r = 0 → ps = qs.
Proof.
  revert qs l r. induction ps as [|p ps IH]; intros [|q qs] l r; cbn.
  - done.
  - intros [= <-] (j & ? & (s & ? & [= <-])%rbind_ok)%rbind_ok. done.
  - intros (j & ? & (s & ? & [= <-])%rbind_ok)%rbind_ok [= <-]. done.
  - intros (i & Hi & (l' & Hl & [= <-])%rbind_ok)%rbind_ok (j & Hj & (r' & Hr & [= <-])%rbind_ok)%rbind_ok.
    intros [Fi Fl]%Forall_cons [Fj Fr]%Forall_cons. cbn. unfold and_then. case_decide as E; [|done].
    intros E'. f_equal; [by eapply parse_identifier_eq|by eapply IH].
Qed.

(** The order separates versions whose numbers fit. *)
Lemma Compare_text a b v w :
  ParseVersion a = Ok v → ParseVersion b = Ok w → fits v → fits w → Compare v w = 0 → a = b.
Proof.
  intros (<- & _ & ps & Hps)%ParseVersion_text (<- & _ & qs & Hqs)%ParseVersion_text Fv Fw.
  rewrite Compare_eq. unfold and_then. 
  case_decide as E1; [|done]. case_decide as E2; [|done]. case_decide as E3; [|done]. case_decide; [|done].
  rewrite order_eq in E1, E2, E3.
  intros E%(compare_lists_text ps qs); [|done..]. subst qs.
  assert (vn_Prerelease v = vn_Prerelease w) as E4 by congruence. unfold Text. by rewrite E1, E2, E3, E4.
Qed.

(** ** Properties *)
Lemma Newer_spec a b :
  Newer a b = true ↔ ∃ v w, ParseVersion a = Ok v ∧ ParseVersion b = Ok w ∧ Compare w v < 0.
Proof.
  unfold Newer. destruct (ParseVersion a) as [v|]; [|naive_solver].
  destruct (ParseVersion b) as [w|]; [|naive_solver].
  rewrite bool_decide_eq_true, (comparator_anti (c:=Compare) v w). split; [intros; exists v, w; split_and!; try done; lia|].
  intros (? & ? & ? & ? & ?). simplify_eq. lia.
Qed.

(** C39: [Newer] is SemVer's order on the numbers that were read: a version is newer than the ones that
    precede it, by the core numbers, then a release after its prereleases, then the identifiers one by one.
    It is a strict order on version texts, and it is total on the versions it accepts: of two canonical
    versions whose numeric prerelease identifiers fit 64 bits, either both are the same text or exactly one
    is newer.  The bound is needed: [ParseVersion] drops the range error of [ParseUint], so two valid versions
    that differ beyond 64 bits compare equal, and neither is newer. *)
Theorem newer_orders_versions :
  (∀ a b, Newer a b = true ↔ ∃ v w, ParseVersion a = Ok v ∧ ParseVersion b = Ok w ∧ precedes w v) ∧
  (∀ a, Newer a a = false) ∧
  (∀ a b c, Newer a b = true → Newer b c = true → Newer a c = true) ∧
  (∀ a b v w, ParseVersion a = Ok v → ParseVersion b = Ok w → fits v → fits w →
     (a = b ∧ Newer a b = false ∧ Newer b a = false) ∨
     (a ≠ b ∧ Newer a b = negb (Newer b a))) ∧
  (let a := "1.0.0-18446744073709551617" in
   let b := "1.0.0-18446744073709551616" in
   ValidVersion a = true ∧ ValidVersion b = true ∧ Newer a b = false ∧ Newer b a = false).
Proof.
  split; [|split; [|split; [|split]]].
  - intros a b. rewrite Newer_spec. by setoid_rewrite precedes_spec.
  - intros a. apply not_true_iff_false. intros (v & w & ? & ? & H)%Newer_spec. assert (v = w) as -> by congruence.
    rewrite (comparator_refl Compare) in H. lia.
  - intros a b c (v & w & Ha & Hb & H1)%Newer_spec (w' & x & Hb' & Hc & H2)%Newer_spec.
    assert (w' = w) as -> by congruence.
    apply Newer_spec. exists v, x. split_and!; [done..|]. eapply (comparator_strict Compare); [done|lia].
  - intros a b v w Ha Hb Fv Fw. unfold Newer. rewrite Ha, Hb, (comparator_anti (c:=Compare) w v).
    destruct (decide (Compare v w = 0)) as [E|E].
    + left. rewrite E. split_and!; [by eapply Compare_text|by rewrite bool_decide_eq_false_2 by lia..].
    + right. split; [intros ->; assert (v = w) as -> by congruence; by rewrite (comparator_refl Compare) in E|].
      pose proof (comparator_range (c:=Compare) v w).
      destruct (decide (Compare v w > 0)).
      * rewrite bool_decide_eq_true_2, bool_decide_eq_false_2 by lia. done.
      * rewrite bool_decide_eq_false_2, bool_decide_eq_true_2 by lia. done.
  - repeat split.
Qed.

(** C40: Parsing keeps everything: printing the numbers and identifiers of a version that [ParseVersion]
    accepted gives the text back byte for byte, so there is one spelling of every version, and the numbers
    are the 64-bit values they stand for. *)
Theorem version_text_roundtrip raw v :
  ParseVersion raw = Ok v →
  Text v = raw ∧ ParseVersion (Text v) = Ok v ∧
  0 ≤ vn_Major v < 2 ^ 64 ∧ 0 ≤ vn_Minor v < 2 ^ 64 ∧ 0 ≤ vn_Patch v < 2 ^ 64.
Proof. intros H. destruct (ParseVersion_text _ _ H) as (E & B & _). rewrite E. naive_solver. Qed.

Lemma version_text_roundtrip_witness :
  ∃ v, ParseVersion "1.20.3-rc.1" = Ok v ∧ Text v = "1.20.3-rc.1".
Proof.
  eexists. assert (ParseVersion "1.20.3-rc.1" = Ok {| vn_Major := 1; vn_Minor := 20; vn_Patch := 3;
    vn_Prerelease := [{| id_raw := "rc"; id_numeric := false; id_number := 0 |};
                      {| id_raw := "1"; id_numeric := true; id_number := 1 |}] |}) as E by reflexivity.
  split; [exact E|]. exact (proj1 (version_text_roundtrip _ _ E)).
Defined.
