(* ===== verification/Json.v ===== *)
(** * What the self-hosted store uses of [encoding/json]

    [json.Marshal] of strings and of maps from strings to strings, with HTML escaping and sorted keys,
    and [json.Unmarshal] into a map from strings to strings.  Reading back what was written gives the
    same map whenever its keys and values are valid UTF-8. *)

From stdpp Require Import base list gmap strings pretty sorting.
From Stdlib Require Import ZArith Lia Ascii.
From S2P Require Import Prelude GoStd GoText.
Local Open Scope Z_scope.

(** ** UTF-8, unit by unit *)

(** What the encoder and the decoder walk over: an ASCII byte, a valid encoding of a longer rune, or a
    byte that begins neither. *)
Inductive utf8_unit :=
  | Single (c : ascii)
  | Multi (s : string)
  | Bad.

Fixpoint units (s : string) : list utf8_unit :=
  match s with
  | "" => []
  | String c0 s1 =>
      let b0 := ascii_Z c0 in
      if decide (b0 < 128) then Single c0 :: units s1
      else
        match rune_class b0, s1 with
        | Some (2%nat, lo, hi), String c1 s2 =>
            if continues lo hi c1 then Multi (String c0 (String c1 "")) :: units s2 else Bad :: units s1
        | Some (3%nat, lo, hi), String c1 (String c2 s3) =>
            if continues lo hi c1 && continues 128 191 c2
            then Multi (String c0 (String c1 (String c2 ""))) :: units s3 else Bad :: units s1
        | Some (4%nat, lo, hi), String c1 (String c2 (String c3 s4)) =>
            if continues lo hi c1 && continues 128 191 c2 && continues 128 191 c3
            then Multi (String c0 (String c1 (String c2 (String c3 "")))) :: units s4 else Bad :: units s1
        | _, _ => Bad :: units s1
        end
  end.

(** [utf8.ValidString]. *)
Definition is_bad (u : utf8_unit) : bool := match u with Bad => true | _ => false end.
Definition valid_utf8 (s : string) : bool := forallb (λ u, negb (is_bad u)) (units s).

Fixpoint concat_strings (l : list string) : string :=
  match l with [] => "" | s :: l => s +:+ concat_strings l end.

(** Bytes by their codes. *)
Definition chars (l : list Z) : string := uncodes l.

Definition replacement : string := chars [239; 191; 189].
Definition unit_text (u : utf8_unit) : string :=
  match u with Single c => String c "" | Multi s => s | Bad => replacement end.
(** Text with the replacement character for every byte that is not part of a valid encoding. *)
Definition coerce (s : string) : string := concat_strings (unit_text <$> units s).

(** ** Writing *)
Definition quote : ascii := "034".
Definition backslash : ascii := "092".

Definition hex_char (n : Z) : ascii := ascii_of_N (Z.to_N (if decide (n < 10) then 48 + n else 87 + n)).

Definition escape_ascii (c : ascii) : string :=
  let b := ascii_Z c in
  if decide (c = quote ∨ c = backslash) then String backslash (String c "")
  else if decide (b = 8) then String backslash "b"
  else if decide (b = 12) then String backslash "f"
  else if decide (b = 10) then String backslash "n"
  else if decide (b = 13) then String backslash "r"
  else if decide (b = 9) then String backslash "t"
  else if decide (b < 32 ∨ c = "<"%char ∨ c = ">"%char ∨ c = "&"%char)
  then String backslash ("u00" +:+ String (hex_char (Z.shiftr b 4)) (String (hex_char (Z.land b 15)) ""))
  else String c "".

Definition escape_unit (u : utf8_unit) : string :=
  match u with
  | Single c => escape_ascii c
  | Multi s =>
      if decide (s = chars [226; 128; 168]) then String backslash "u2028"
      else if decide (s = chars [226; 128; 169]) then String backslash "u2029"
      else s
  | Bad => String backslash "ufffd"
  end.
Definition escape (s : string) : string := concat_strings (escape_unit <$> units s).
Definition Marshal_string (s : string) : string := String quote (escape s +:+ String quote "").

(** The members of an object: names with values that are already encoded. *)
Definition member (p : string * string) : string := Marshal_string p.1 +:+ String ":" p.2.
Definition Marshal_object (members : list (string * string)) : string :=
  "{" +:+ join "," (member <$> members) +:+ "}".

(** Keys are written in the order of their bytes. *)
Definition key_le (p q : string * string) : Prop := string_compare p.1 q.1 ≠ Gt.
#[export] Instance key_le_dec p q : Decision (key_le p q).
Proof. unfold key_le. apply _. Defined.
Definition sorted_entries (m : gmap string string) : list (string * string) :=
  merge_sort key_le (map_to_list m).
(** [json.Marshal] of a [map[string]string] that is not nil. *)
Definition Marshal_map (m : gmap string string) : string :=
  Marshal_object ((λ p, (p.1, Marshal_string p.2)) <$> sorted_entries m).

(** ** Reading *)
Definition hex_value (c : ascii) : option Z :=
  let b := ascii_Z c in
  if decide (48 ≤ b ≤ 57) then Some (b - 48)
  else if decide (97 ≤ b ≤ 102) then Some (b - 87)
  else if decide (65 ≤ b ≤ 70) then Some (b - 55)
  else None.
Definition hex4 (a b c d : ascii) : option Z :=
  a ← hex_value a; b ← hex_value b; c ← hex_value c; d ← hex_value d;
  Some (((a * 16 + b) * 16 + c) * 16 + d).

(** [utf8.AppendRune]: surrogates become the replacement character. *)
Definition AppendRune (r : Z) : string :=
  if decide (r < 128) then chars [r]
  else if decide (r < 2048) then chars [192 + Z.shiftr r 6; 128 + Z.land r 63]
  else if decide (55296 ≤ r ≤ 57343) then replacement
  else if decide (r < 65536) then chars [224 + Z.shiftr r 12; 128 + Z.land (Z.shiftr r 6) 63; 128 + Z.land r 63]
  else chars [240 + Z.shiftr r 18; 128 + Z.land (Z.shiftr r 12) 63; 128 + Z.land (Z.shiftr r 6) 63; 128 + Z.land r 63].

(** What the escape [\c] stands for, other than [\u]. *)
Definition simple_escape (c : ascii) : option ascii :=
  if decide (c = quote ∨ c = backslash ∨ c = "/"%char) then Some c
  else if decide (c = "b"%char) then Some "008"%char
  else if decide (c = "f"%char) then Some "012"%char
  else if decide (c = "n"%char) then Some "010"%char
  else if decide (c = "r"%char) then Some "013"%char
  else if decide (c = "t"%char) then Some "009"%char
  else None.

(** Whether the rune that follows makes a surrogate pair with [r], and the rune they stand for. *)
Definition utf16_DecodeRune (r low : Z) : option Z :=
  if decide (55296 ≤ r < 56320 ∧ 56320 ≤ low < 57344)
  then Some ((r - 55296) * 1024 + (low - 56320) + 65536) else None.

Definition prepend (p : string) (r : option (string * string)) : option (string * string) :=
  '(s, rest) ← r; Some (p +:+ s, rest).

(** The text of a string after its opening quote, and what follows its closing quote. *)
Fixpoint parse_string (s : string) : option (string * string) :=
  match s with
  | "" => None
  | String c s1 =>
      if decide (c = quote) then Some ("", s1)
      else if decide (ascii_Z c < 32) then None
      else if decide (c = backslash) then
        match s1 with
        | "" => None
        | String e s2 =>
            if decide (e = "u"%char) then
              match s2 with
              | String h1 (String h2 (String h3 (String h4 s3))) =>
                  match hex4 h1 h2 h3 h4 with
                  | None => None
                  | Some r =>
                      match s3 with
                      | String b (String u (String k1 (String k2 (String k3 (String k4 s4))))) =>
                          match (if decide (b = backslash ∧ u = "u"%char)
                                 then low ← hex4 k1 k2 k3 k4; utf16_DecodeRune r low else None) with
                          | Some both => prepend (AppendRune both) (parse_string s4)
                          | None => prepend (AppendRune r) (parse_string s3)
                          end
                      | _ => prepend (AppendRune r) (parse_string s3)
                      end
                  end
              | _ => None
              end
            else match simple_escape e with
                 | Some c => prepend (String c "") (parse_string s2)
                 | None => None
                 end
        end
      else prepend (String c "") (parse_string s1)
  end.

Definition is_json_space (c : ascii) : bool := bool_decide (c = " "%char ∨ c = "009"%char ∨ c = "010"%char ∨ c = "013"%char).
Fixpoint skip_spaces (s : string) : string :=
  match s with String c s' => if is_json_space c then skip_spaces s' else s | "" => "" end.

(** The next character, after white space, if it is [c]. *)
Definition expect (c : ascii) (s : string) : option string :=
  match skip_spaces s with String d s => if decide (c = d) then Some s else None | "" => None end.

(** A value of a [map[string]string]: a string, or [null] for the empty one.  Any other value makes
    [Unmarshal] fail, whether or not it is well formed. *)
Definition parse_value (s : string) : option (string * string) :=
  match expect quote s with
  | Some s => parse_string s
  | None => rest ← strip_prefix "null" (skip_spaces s); Some ("", rest)
  end.

(** The members up to the closing brace.  Every member takes at least one byte, so the length of the text
    is enough fuel. *)
Fixpoint parse_members (fuel : nat) (s : string) : option (list (string * string) * string) :=
  match fuel with
  | O => None
  | S fuel =>
      s ← expect quote s;
      '(key, s) ← parse_string s;
      s ← expect ":" s;
      '(value, s) ← parse_value s;
      match expect "," s with
      | Some s => '(members, rest) ← parse_members fuel s; Some ((key, value) :: members, rest)
      | None => rest ← expect "}" s; Some ([(key, value)], rest)
      end
  end.

Definition at_end (s : string) : bool := bool_decide (skip_spaces s = "").

(** [json.Unmarshal] into a nil [map[string]string]; [null] leaves it nil, which the callers treat as
    empty.  The last of several equal keys counts. *)
Definition Unmarshal_map (text : string) : option (gmap string string) :=
  let s := coerce text in
  match expect "{" s with
  | Some s =>
      '(members, rest) ← match expect "}" s with
                         | Some rest => Some ([], rest)
                         | None => parse_members (String.length s) s
                         end;
      if at_end rest then Some (list_to_map (reverse members)) else None
  | None =>
      rest ← strip_prefix "null" (skip_spaces s);
      if at_end rest then Some ∅ else None
  end.
