(* ===== verification/JsonFacts.v ===== *)
(** * Reading back what was written *)

From stdpp Require Import base list gmap strings pretty sorting.
From Stdlib Require Import ZArith Lia Ascii.
From S2P Require Import Prelude GoStd GoText Json.
Local Open Scope Z_scope.

(** ** Units *)

(** A unit that is still there whatever follows it. *)
Definition stable_unit (u : utf8_unit) : Prop := ∀ t, units (unit_text u +:+ t) = u :: units t.

(** The bytes of a longer rune are not ASCII. *)
Definition high (s : string) : bool := str_forall (λ c, bool_decide (128 ≤ ascii_Z c)) s.

Definition unit_ok (u : utf8_unit) : Prop :=
  match u with
  | Single c => ascii_Z c < 128
  | Multi s => stable_unit u ∧ high s = true
  | Bad => True
  end.

Lemma app_cons c (s t : string) : String c s +:+ t = String c (s +:+ t).
Proof. done. Qed.
Lemma app_nil (t : string) : "" +:+ t = t.
Proof. done. Qed.

Lemma units_single c t : ascii_Z c < 128 → units (String c t) = Single c :: units t.
Proof. intros Hc. cbn [units]. cbv zeta. by rewrite decide_True. Qed.

Lemma continues_high lo hi c : 128 ≤ lo → continues lo hi c = true → 128 ≤ ascii_Z c.
Proof. intros ? ?%bool_decide_eq_true. lia. Qed.

Lemma rune_class_lo b n lo hi : rune_class b = Some (n, lo, hi) → 128 ≤ lo.
Proof. unfold rune_class. repeat case_decide; intros; simplify_eq; lia. Qed.

(** Every unit of a string is one, and the units of valid text spell it. *)
Lemma units_spec s :
  Forall unit_ok (units s) ∧ (valid_utf8 s = true → concat_strings (unit_text <$> units s) = s).
Proof.
  unfold valid_utf8. remember (String.length s) as n eqn:Hn. revert s Hn.
  induction (lt_wf n) as [n _ IH]. intros [|c0 s1] ->; [done|]. cbn [units]. cbv zeta.
  case_decide as Hc.
  { destruct (IH (String.length s1) ltac:(cbn; lia) s1 eq_refl) as [IH1 IH2].
    split; [by constructor|]. cbn. intros H. by rewrite IH2. }
  assert (∀ s, (String.length s < String.length (String c0 s1))%nat →
     Forall unit_ok (Bad :: units s) ∧
     (forallb (λ u, negb (is_bad u)) (Bad :: units s) = true →
      concat_strings (unit_text <$> Bad :: units s) = String c0 s1)) as Hbad.
  { intros s Hs. destruct (IH _ Hs s eq_refl) as [IH1 _]. by split; [constructor|]. }
  assert (∀ p s, (String.length s < String.length (String c0 s1))%nat → String c0 s1 = p +:+ s →
     stable_unit (Multi p) → high p = true →
     Forall unit_ok (Multi p :: units s) ∧
     (forallb (λ u, negb (is_bad u)) (Multi p :: units s) = true →
      concat_strings (unit_text <$> Multi p :: units s) = String c0 s1)) as Hmulti.
  { intros p s Hs E Hp Hh. destruct (IH _ Hs s eq_refl) as [IH1 IH2].
    split; [by constructor|]. cbn. intros H. by rewrite IH2. }
  clear IH. assert (bool_decide (128 ≤ ascii_Z c0) = true) as Hc0 by (apply bool_decide_eq_true; lia).
  destruct (rune_class (ascii_Z c0)) as [[[n lo] hi]|] eqn:Ec; [|by apply Hbad; cbn; lia].
  pose proof (rune_class_lo _ _ _ _ Ec) as Hlo.
  assert (∀ c1, continues lo hi c1 = true → bool_decide (128 ≤ ascii_Z c1) = true) as H1
    by (intros; apply bool_decide_eq_true; by eapply continues_high).
  assert (∀ c1, continues 128 191 c1 = true → bool_decide (128 ≤ ascii_Z c1) = true) as H2
    by (intros; apply bool_decide_eq_true; by eapply (continues_high 128)).
  destruct n as [|[|[|[|[|n]]]]]; try (by apply Hbad; cbn; lia).
  - destruct s1 as [|c1 s2]; [by apply Hbad; cbn; lia|]. destruct (continues lo hi c1) eqn:E1; [|by apply Hbad; cbn; lia].
    apply Hmulti; [cbn; lia|done| |unfold high; cbn; by rewrite Hc0, H1].
    intros t. cbn [unit_text]. rewrite !app_cons, app_nil. cbn [units]. cbv zeta.
    rewrite decide_False by done. by rewrite Ec, E1.
  - destruct s1 as [|c1 [|c2 s3]]; try (by apply Hbad; cbn; lia).
    destruct (continues lo hi c1) eqn:E1; cbn [andb]; [|by apply Hbad; cbn; lia].
    destruct (continues 128 191 c2) eqn:E2; cbn [andb]; [|by apply Hbad; cbn; lia].
    apply Hmulti; [cbn; lia|done| |unfold high; cbn; by rewrite Hc0, H1, H2].
    intros t. cbn [unit_text]. rewrite !app_cons, app_nil. cbn [units]. cbv zeta.
    rewrite decide_False by done. by rewrite Ec, E1, E2.
  - destruct s1 as [|c1 [|c2 [|c3 s4]]]; try (by apply Hbad; cbn; lia).
    destruct (continues lo hi c1) eqn:E1; cbn [andb]; [|by apply Hbad; cbn; lia].
    destruct (continues 128 191 c2) eqn:E2; cbn [andb]; [|by apply Hbad; cbn; lia].
    destruct (continues 128 191 c3) eqn:E3; cbn [andb]; [|by apply Hbad; cbn; lia].
    apply Hmulti; [cbn; lia|done| |unfold high; cbn; by rewrite Hc0, H1, !H2].
    intros t. cbn [unit_text]. rewrite !app_cons, app_nil. cbn [units]. cbv zeta.
    rewrite decide_False by done. by rewrite Ec, E1, E2, E3.
Qed.

(** ** Coercion leaves what was written alone *)
Definition ascii_only (s : string) : bool := str_forall (λ c, bool_decide (ascii_Z c < 128)) s.

Lemma coerce_cons c t : ascii_Z c < 128 → coerce (String c t) = String c (coerce t).
Proof. intros Hc. unfold coerce. by rewrite units_single. Qed.

Lemma coerce_ascii s t : ascii_only s = true → coerce (s +:+ t) = s +:+ coerce t.
Proof.
  unfold ascii_only. induction s as [|c s IH]; cbn [str_forall]; [done|].
  intros [Hc%bool_decide_eq_true Hs]%andb_true_iff. by rewrite !app_cons, coerce_cons, IH by done.
Qed.

Lemma escape_ascii_only c : ascii_Z c < 128 → ascii_only (escape_ascii c) = true.
Proof. destruct c as [[] [] [] [] [] [] [] []]; vm_compute; congruence. Qed.

Lemma coerce_escape_unit u t : unit_ok u → coerce (escape_unit u +:+ t) = escape_unit u +:+ coerce t.
Proof.
  destruct u as [c|s|]; cbn [unit_ok escape_unit].
  - intros Hc. apply coerce_ascii. by apply escape_ascii_only.
  - intros [Hu _]. repeat case_decide; [by apply coerce_ascii..|].
    unfold coerce. specialize (Hu t). cbn [unit_text] in Hu. by rewrite Hu.
  - intros _. by apply coerce_ascii.
Qed.

Lemma coerce_escape s t : coerce (escape s +:+ t) = escape s +:+ coerce t.
Proof.
  unfold escape. destruct (units_spec s) as [H _]. induction H as [|u us Hu _ IH]; [done|].
  cbn [fmap list_fmap concat_strings]. rewrite <- !append_assoc, coerce_escape_unit by done. by rewrite IH.
Qed.

Lemma coerce_Marshal_string s t : coerce (Marshal_string s +:+ t) = Marshal_string s +:+ coerce t.
Proof.
  unfold Marshal_string. rewrite !app_cons, <- !append_assoc.
  rewrite coerce_cons by done. by rewrite coerce_escape, coerce_ascii by done.
Qed.

(** ** Strings *)
Lemma prepend_prepend a b r : prepend a (prepend b r) = prepend (a +:+ b) r.
Proof. destruct r as [[s rest]|]; [|done]. cbn. by rewrite append_assoc. Qed.

Lemma prepend_empty r : prepend "" r = r.
Proof. by destruct r as [[s rest]|]. Qed.

Lemma parse_u4 h1 h2 h3 h4 r t :
  hex4 h1 h2 h3 h4 = Some r → (r < 55296 ∨ 56320 ≤ r) →
  parse_string (String backslash (String "u" (String h1 (String h2 (String h3 (String h4 t)))))) =
  prepend (AppendRune r) (parse_string t).
Proof.
  intros Hr Hs. cbn [parse_string]. rewrite (decide_False (P:=backslash = quote)) by done.
  rewrite (decide_False (P:=ascii_Z backslash < 32)) by done. rewrite !decide_True by done. rewrite Hr.
  assert (∀ low, utf16_DecodeRune r low = None) as Hn
    by (intros low; unfold utf16_DecodeRune; rewrite decide_False by lia; done).
  destruct t as [|b [|u [|k1 [|k2 [|k3 [|k4 t]]]]]]; try done.
  case_decide; [|done]. destruct (hex4 k1 k2 k3 k4) as [low|]; cbn [mbind option_bind]; [by rewrite Hn|done].
Qed.

Lemma parse_escape_ascii c t :
  ascii_Z c < 128 → parse_string (escape_ascii c +:+ t) = prepend (String c "") (parse_string t).
Proof.
  intros Hc. destruct c as [[] [] [] [] [] [] [] []];
    first [exfalso; revert Hc; vm_compute; congruence
          |reflexivity
          |match goal with |- _ = prepend (String ?c "") _ =>
             exact (parse_u4 "0" "0" (hex_char (Z.shiftr (ascii_Z c) 4)) (hex_char (Z.land (ascii_Z c) 15))
                      (ascii_Z c) t eq_refl (or_introl eq_refl)) end].
Qed.

Lemma parse_high s t : high s = true → parse_string (s +:+ t) = prepend s (parse_string t).
Proof.
  unfold high. induction s as [|c s IH]; cbn [str_forall]; [by rewrite prepend_empty|].
  intros [Hc%bool_decide_eq_true Hs]%andb_true_iff. rewrite app_cons. cbn [parse_string].
  rewrite !decide_False by (lia || (intros ->; by vm_compute in Hc)).
  by rewrite IH, prepend_prepend.
Qed.

Lemma parse_escape_unit u t :
  unit_ok u → parse_string (escape_unit u +:+ t) = prepend (unit_text u) (parse_string t).
Proof.
  destruct u as [c|s|]; cbn [unit_ok escape_unit unit_text]; [intros; by apply parse_escape_ascii| |].
  - intros [_ Hh]. case_decide as E; [rewrite E; exact (parse_u4 "2" "0" "2" "8" 8232 t eq_refl (or_introl eq_refl))|].
    case_decide as E'; [rewrite E'; exact (parse_u4 "2" "0" "2" "9" 8233 t eq_refl (or_introl eq_refl))|].
    by apply parse_high.
  - intros _. apply (parse_u4 "f" "f" "f" "d" 65533 t eq_refl). by right.
Qed.

(** A string that was written reads back as itself, with the replacement character for invalid bytes. *)
Lemma parse_escape s t : parse_string (escape s +:+ String quote t) = Some (coerce s, t).
Proof.
  destruct (units_spec s) as [Hok _]. unfold escape, coerce. induction Hok as [|u us Hu _ IH]; [done|].
  cbn [fmap list_fmap concat_strings]. rewrite <- append_assoc, parse_escape_unit by done. by rewrite IH.
Qed.

Lemma coerce_valid s : valid_utf8 s = true → coerce s = s.
Proof. apply units_spec. Qed.

(** ** Objects *)
Definition encode_pair (p : string * string) : string * string := (p.1, Marshal_string p.2).
Definition coerce_pair (p : string * string) : string * string := (coerce p.1, coerce p.2).
Definition valid_pair (p : string * string) : Prop := valid_utf8 p.1 = true ∧ valid_utf8 p.2 = true.
Definition valid_map (m : gmap string string) : Prop := ∀ k v, m !! k = Some v → valid_pair (k, v).

Lemma expect_hit c t : is_json_space c = false → expect c (String c t) = Some t.
Proof. intros Hc. unfold expect. cbn [skip_spaces]. rewrite Hc. by rewrite decide_True. Qed.

Lemma expect_miss c d t : is_json_space d = false → c ≠ d → expect c (String d t) = None.
Proof. intros Hd Hc. unfold expect. cbn [skip_spaces]. rewrite Hd. by rewrite decide_False. Qed.

Lemma Marshal_string_app s t : Marshal_string s +:+ t = String quote (escape s +:+ String quote t).
Proof. unfold Marshal_string. by rewrite app_cons, <- append_assoc. Qed.

Lemma parse_value_Marshal v t : parse_value (Marshal_string v +:+ t) = Some (coerce v, t).
Proof.
  unfold parse_value. rewrite Marshal_string_app, expect_hit by done. by apply parse_escape.
Qed.

Lemma member_app p t :
  member (encode_pair p) +:+ t =
  String quote (escape p.1 +:+ String quote (String ":" (Marshal_string p.2 +:+ t))).
Proof. unfold member, encode_pair. cbn [fst snd]. by rewrite <- append_assoc, Marshal_string_app. Qed.

Lemma join_cons2 sep a b ws : join sep (a :: b :: ws) = a +:+ String sep (join sep (b :: ws)).
Proof. done. Qed.

Lemma parse_members_step fuel p t :
  parse_members (S fuel) (member (encode_pair p) +:+ t) =
  match expect "," t with
  | Some s => '(members, rest) ← parse_members fuel s; Some (coerce_pair p :: members, rest)
  | None => rest ← expect "}" t; Some ([coerce_pair p], rest)
  end.
Proof.
  rewrite member_app. cbn [parse_members].
  rewrite expect_hit by done. cbn [mbind option_bind]. rewrite parse_escape. cbn [mbind option_bind].
  rewrite expect_hit by done. cbn [mbind option_bind]. by rewrite parse_value_Marshal.
Qed.

Lemma parse_members_Marshal l t fuel :
  l ≠ [] → (length l ≤ fuel)%nat →
  parse_members fuel (join "," (member <$> (encode_pair <$> l)) +:+ String "}" t) = Some (coerce_pair <$> l, t).
Proof.
  intros Hne. revert fuel. induction l as [|p l IH]; [done|]. intros [|fuel] Hf; [cbn in Hf; lia|].
  destruct l as [|q l].
  - cbn [fmap list_fmap join]. rewrite parse_members_step.
    rewrite expect_miss by done. by rewrite expect_hit.
  - cbn [fmap list_fmap]. rewrite join_cons2, <- append_assoc, parse_members_step, app_cons, expect_hit by done.
    cbn [fmap list_fmap] in IH. rewrite IH; [done|done|cbn [length] in *; lia].
Qed.

Lemma length_app_string (a b : string) : String.length (a +:+ b) = (String.length a + String.length b)%nat.
Proof. induction a as [|c a IH]; [done|]. rewrite app_cons. cbn [String.length]. by rewrite IH. Qed.

Lemma members_length l : (length l ≤ String.length (join "," (member <$> (encode_pair <$> l))))%nat.
Proof.
  induction l as [|p l IH]; [cbn; lia|]. destruct l as [|q l].
  { cbn [fmap list_fmap join]. rewrite <- (append_empty (member _)), member_app. cbn [String.length length]. lia. }
  cbn [fmap list_fmap] in *. rewrite join_cons2, length_app_string. cbn [String.length length] in *. lia.
Qed.

Lemma coerce_members l t :
  coerce (join "," (member <$> (encode_pair <$> l)) +:+ t) =
  join "," (member <$> (encode_pair <$> l)) +:+ coerce t.
Proof.
  assert (∀ p t, coerce (member (encode_pair p) +:+ t) = member (encode_pair p) +:+ coerce t) as Hm.
  { intros p u. unfold member, encode_pair. cbn [fst snd].
    rewrite <- !append_assoc, !app_cons, coerce_Marshal_string, coerce_cons, coerce_Marshal_string by done. done. }
  induction l as [|p [|q l] IH]; [done|apply Hm|]. cbn [fmap list_fmap] in *.
  rewrite join_cons2, <- !append_assoc, Hm, !app_cons, coerce_cons, IH by done. done.
Qed.

Lemma sorted_entries_perm m : sorted_entries m ≡ₚ map_to_list m.
Proof. apply merge_sort_Permutation. Qed.

(** Reading what was written gives the map back. *)
Lemma Unmarshal_Marshal m : valid_map m → Unmarshal_map (Marshal_map m) = Some m.
Proof.
  intros Hm. assert (coerce_pair <$> sorted_entries m = sorted_entries m) as Hl.
  { rewrite <- (list_fmap_id (sorted_entries m)) at 2. apply list_fmap_ext. intros i [k v] Hi.
    assert ((k, v) ∈ map_to_list m) as Hk%elem_of_map_to_list%Hm
      by (rewrite <- sorted_entries_perm; by eapply list_elem_of_lookup_2).
    destruct Hk as [Hk Hv]. unfold coerce_pair. cbn [fst snd] in *. by rewrite !coerce_valid. }
  assert (list_to_map (reverse (sorted_entries m)) = m) as Hmap.
  { rewrite <- (list_to_map_to_list m) at 2. apply list_to_map_proper.
    - rewrite fmap_reverse, reverse_Permutation, sorted_entries_perm. apply NoDup_fst_map_to_list.
    - by rewrite reverse_Permutation, sorted_entries_perm. }
  unfold Unmarshal_map, Marshal_map, Marshal_object. rewrite (app_cons "{"), app_nil, coerce_cons by done.
  change (λ p, (p.1, Marshal_string p.2)) with encode_pair. rewrite coerce_members, expect_hit by done.
  change (coerce "}") with (String "}" ""). destruct (sorted_entries m) as [|p l] eqn:El.
  { cbn [fmap list_fmap join]. rewrite app_nil, expect_hit by done. by rewrite <- Hmap. }
  rewrite (parse_members_Marshal (p :: l) ""), Hl; [|done|rewrite length_app_string; pose proof (members_length (p :: l)); lia].
  cbn [fmap list_fmap].
  assert (∃ w, join "," (member (encode_pair p) :: (member <$> (encode_pair <$> l))) = String quote w) as [w ->].
  { destruct l; eexists; reflexivity. }
  rewrite (app_cons quote), expect_miss by done. cbn [mbind option_bind]. by rewrite Hmap.
Qed.

(** ** What was written can be read in one way only *)
Lemma append_cancel_r (a b t : string) : a +:+ t = b +:+ t → a = b.
Proof.
  revert b. induction a as [|c a IH]; intros [|d b]; rewrite ?app_cons, ?app_nil; [done|..].
  - intros E%(f_equal String.length). cbn [String.length] in E. rewrite length_app_string in E. lia.
  - intros E%(f_equal String.length). cbn [String.length] in E. rewrite length_app_string in E. lia.
  - intros [= -> E]. f_equal. by apply IH.
Qed.

Lemma append_cancel_l (a s t : string) : a +:+ s = a +:+ t → s = t.
Proof. induction a as [|c a IH]; [done|]. rewrite !app_cons. intros [= E]. by apply IH. Qed.

Lemma Marshal_string_unique s s' t t' :
  Marshal_string s +:+ t = Marshal_string s' +:+ t' → coerce s = coerce s' ∧ t = t'.
Proof.
  rewrite !Marshal_string_app. intros [= E]. apply (f_equal parse_string) in E.
  rewrite !parse_escape in E. by simplify_eq.
Qed.

Lemma Marshal_members_unique l l' t t' :
  join "," (member <$> (encode_pair <$> l)) +:+ String "}" t =
  join "," (member <$> (encode_pair <$> l')) +:+ String "}" t' → t = t'.
Proof.
  assert (∀ p l u, ∃ w, join "," (member <$> (encode_pair <$> p :: l)) +:+ u = String quote w) as Hq.
  { intros p k u. destruct k; eexists; reflexivity. }
  destruct l as [|p l], l' as [|p' l']; intros E.
  - by injection E.
  - destruct (Hq p' l' (String "}" t')) as [w Hw]. rewrite Hw in E. discriminate E.
  - destruct (Hq p l (String "}" t)) as [w Hw]. rewrite Hw in E. discriminate E.
  - set (fuel := (length (p :: l) + length (p' :: l'))%nat).
    apply (f_equal (parse_members fuel)) in E. rewrite !parse_members_Marshal in E by (done || subst fuel; lia).
    by simplify_eq.
Qed.

Lemma Marshal_map_unique m m' t t' :
  Marshal_map m +:+ t = Marshal_map m' +:+ t' → Marshal_map m = Marshal_map m' ∧ t = t'.
Proof.
  intros E. assert (t = t') as ->; [|split; [by apply append_cancel_r in E|done]].
  unfold Marshal_map, Marshal_object in E. rewrite <- !append_assoc in E. apply append_cancel_l in E.
  by apply Marshal_members_unique in E.
Qed.

(** ** No line breaks are written *)
Lemma lacks_app sep a b : lacks sep (a +:+ b) = lacks sep a && lacks sep b.
Proof.
  induction a as [|c a IH]; [done|]. rewrite app_cons. unfold lacks in *. cbn [str_forall]. by rewrite IH, andb_assoc.
Qed.

Definition newline : ascii := "010".

Lemma lacks_escape s : lacks newline (escape s) = true.
Proof.
  unfold escape. destruct (units_spec s) as [H _]. induction H as [|u us Hu _ IH]; [done|].
  cbn [fmap list_fmap concat_strings]. rewrite lacks_app, IH, andb_true_r.
  destruct u as [c|m|]; cbn [escape_unit]; [|repeat case_decide; [done..|]|done].
  - destruct c as [[] [] [] [] [] [] [] []]; reflexivity.
  - destruct Hu as [_ Hm]. revert Hm. unfold high, lacks. apply str_forall_impl.
    intros c Hc%bool_decide_eq_true. apply bool_decide_eq_true. intros ->. by vm_compute in Hc.
Qed.

Lemma lacks_Marshal_string s : lacks newline (Marshal_string s) = true.
Proof.
  unfold Marshal_string. unfold lacks. cbn [str_forall]. fold (lacks newline (escape s +:+ String quote "")).
  by rewrite lacks_app, lacks_escape.
Qed.

Lemma lacks_Marshal_object members :
  Forall (λ p, lacks newline p.2 = true) members → lacks newline (Marshal_object members) = true.
Proof.
  intros Hm. unfold Marshal_object. rewrite !lacks_app.
  assert (lacks newline (join "," (member <$> members)) = true) as ->; [|done].
  induction Hm as [|p l Hp _ IH]; [done|].
  assert (lacks newline (member p) = true) as Hmem.
  { unfold member. by rewrite lacks_app, lacks_Marshal_string. }
  destruct l as [|q l]; [done|]. cbn [fmap list_fmap] in *. rewrite join_cons2, lacks_app, Hmem. apply IH.
Qed.

Lemma lacks_Marshal_map m : lacks newline (Marshal_map m) = true.
Proof.
  unfold Marshal_map. apply lacks_Marshal_object, Forall_fmap, Forall_true. intros p. apply lacks_Marshal_string.
Qed.
