(* ===== verification/SelfStore.v ===== *)
(** * The self-hosted store: internal/selfhost/sqlitestore/store.go and audit.go

    The tables the modelled code touches, transactions over them, and the audit log: appending to it,
    listing it, and checking its hash chain from the start or from where the last check ended.  The
    statements are the ones in the source, read as operations on the tables; a statement, [BeginTx] or
    [Commit] that fails is a [fault] of the call, which then returns the error and leaves the tables as
    they were. *)

From stdpp Require Import base list gmap strings pretty.
From Stdlib Require Import ZArith Lia Ascii Strings.Byte.
From S2P Require Import Prelude GoStd GoText Canonical Json.
Local Open Scope Z_scope.
Local Open Scope go_scope.

(** ** Data: internal/selfhost/types.go *)
Definition AuditChainVersion : string := "sesame-selfhost-audit-v1".
Definition MaxAuditDetailEntries : Z := 16.
Definition MaxAuditDetailValueBytes : Z := 512.

Definition ActorOwner : string := "owner".
Definition ActorDevice : string := "device".
Definition ActorSystem : string := "system".

Record Actor := { act_Kind : string; act_ID : string }.
Definition Actor_String (a : Actor) : string :=
  if decide (act_ID a = "") then act_Kind a else act_Kind a +:+ ":" +:+ act_ID a.
Definition SystemActor : Actor := {| act_Kind := ActorSystem; act_ID := "" |}.

Record AuditInput := {
  in_Actor : Actor; in_Action : string; in_Target : string; in_Detail : gmap string string }.

Record AuditEntry := {
  en_Seq : Z; en_Actor : string; en_Action : string; en_Target : string;
  en_Detail : gmap string string; en_At : time; en_PrevHash : string; en_Hash : string }.

Record AuditPage := { pg_Entries : list AuditEntry; pg_NextCursor : Z }.
Record AuditBreak := { br_Seq : Z; br_Reason : string }.
Record AuditReport := {
  rp_OK : bool; rp_Rows : Z; rp_HeadSeq : Z; rp_HeadHash : string; rp_FirstBreak : option AuditBreak }.

(** ** The tables *)
Record audit_row := {
  ar_seq : Z; ar_actor : string; ar_action : string; ar_target : string; ar_detail : string;
  ar_at : Z; ar_prev_hash : bytes; ar_hash : bytes }.

Record update_row := {
  ur_enabled : string; ur_channel : string; ur_last_feed : string; ur_checked_at : option Z;
  ur_last_error : string }.

(** [audit_log] in the order of its primary key; the one row of [update_settings], if it is there. *)
Record database := {
  db_audit_log : list audit_row;
  db_update_settings : option update_row;
  db_update_sequences : gmap string Z }.

(** ** Transactions *)
Definition write {A} (closed : bool) (fault : option error) (fn : M database A) : M database A :=
  λ db,
    if closed then (Err [selfhost_ErrClosed], db)
    else match fault with
         | Some e => (Err e, db)
         | None => match fn db with (Ok a, db') => (Ok a, db') | (Err e, _) => (Err e, db) end
         end.

Definition read (closed : bool) : result unit := rfail_if (closed = true) [selfhost_ErrClosed].

(** [clock] and [unixTime]. *)
Definition clock (now : time) : time := now / second * second.
Definition unixTime (value : Z) : time := value * second.

(** ** Hex *)
Fixpoint hex_EncodeToString (bs : bytes) : string :=
  match bs with
  | [] => ""
  | b :: bs => String (hex_char (Z.shiftr (byte_Z b) 4)) (String (hex_char (Z.land (byte_Z b) 15))
                 (hex_EncodeToString bs))
  end.

(** ** The audit log *)
Definition maxAuditActionLength : Z := 64.
Definition maxAuditTargetLength : Z := 256.
Definition maxAuditKeyLength : Z := 64.
Definition defaultAuditPage : Z := 50.
Definition maxAuditPage : Z := 200.
Definition auditGenesisHash : bytes := replicate 32 x00.

(** The keys of the object in the order they are written; encoding strings cannot fail. *)
Definition auditCanonical (actor action target : string) (detail : gmap string string) (at_ : Z) : string :=
  Marshal_object
    [("action", Marshal_string action); ("actor", Marshal_string actor);
     ("at", Marshal_string (Format_RFC3339 (unixTime at_)));
     ("detail", Marshal_map detail); ("target", Marshal_string target)].

Section Audit.
Context `{Crypto}.

Definition auditHash (previous : bytes) (canonical : string) : bytes :=
  sha256 (bytes_of (AuditChainVersion +:+ String "010" "") ++ previous ++ bytes_of (String "010" "") ++
          bytes_of canonical).

Definition len (s : string) : Z := Z.of_nat (String.length s).

Definition validAuditInput (input : AuditInput) : bool :=
  if decide (act_Kind (in_Actor input) ∉ [ActorOwner; ActorDevice; ActorSystem]) then false
  else if decide (in_Action input = "" ∨ len (in_Action input) > maxAuditActionLength
                  ∨ len (in_Target input) > maxAuditTargetLength
                  ∨ len (act_ID (in_Actor input)) > maxAuditTargetLength) then false
  else if decide (Z.of_nat (size (in_Detail input)) > MaxAuditDetailEntries) then false
  else forallb (λ p, negb (bool_decide (p.1 = "" ∨ len p.1 > maxAuditKeyLength
                                        ∨ len p.2 > MaxAuditDetailValueBytes)))
         (map_to_list (in_Detail input)).

(** [INSERT]: the row takes its place by [seq], which is the primary key. *)
Fixpoint insert_row (row : audit_row) (rows : list audit_row) : option (list audit_row) :=
  match rows with
  | [] => Some [row]
  | r :: rows' =>
      if decide (ar_seq row < ar_seq r) then Some (row :: rows)
      else if decide (ar_seq row = ar_seq r) then None
      else rows'' ← insert_row row rows'; Some (r :: rows'')
  end.

Definition appendAudit (now : time) (input : AuditInput) : M database AuditEntry :=
  run mfail_if (validAuditInput input = false) [selfhost_ErrInvalidInput];
  λ db,
    let '(lastSeq, previous) := match last (db_audit_log db) with
                                | Some row => (ar_seq row, ar_hash row)
                                | None => (0, auditGenesisHash)
                                end in
    let detail := in_Detail input in
    let at_ := unix_seconds (clock now) in
    let actor := Actor_String (in_Actor input) in
    let hash := auditHash previous (auditCanonical actor (in_Action input) (in_Target input) detail at_) in
    let seq := i64 (lastSeq + 1) in
    let row := {| ar_seq := seq; ar_actor := actor; ar_action := in_Action input; ar_target := in_Target input;
                  ar_detail := Marshal_map detail; ar_at := at_; ar_prev_hash := previous; ar_hash := hash |} in
    match insert_row row (db_audit_log db) with
    | None => (Err [], db)
    | Some rows =>
        (Ok {| en_Seq := seq; en_Actor := actor; en_Action := in_Action input; en_Target := in_Target input;
               en_Detail := detail; en_At := unixTime at_; en_PrevHash := hex_EncodeToString previous;
               en_Hash := hex_EncodeToString hash |},
         {| db_audit_log := rows; db_update_settings := db_update_settings db;
            db_update_sequences := db_update_sequences db |})
    end.

Definition audit (now : time) (by_ : Actor) (action target : string) (detail : gmap string string) : M database unit :=
  let! _ := appendAudit now {| in_Actor := by_; in_Action := action; in_Target := target; in_Detail := detail |} in
  mreturn tt.

Definition AppendAudit (closed : bool) (fault : option error) (now : time) (input : AuditInput) : M database AuditEntry :=
  write closed fault (appendAudit now input).

(** ** Checking the chain *)
Record auditState := { as_report : AuditReport; as_head : bytes }.

Record auditScan := {
  sc_report : AuditReport;
  sc_expectedSeq : Z;
  sc_expectedPrevious : bytes;
  sc_head : bytes }.

Definition newAuditScan : auditScan :=
  {| sc_report := {| rp_OK := true; rp_Rows := 0; rp_HeadSeq := 0; rp_HeadHash := ""; rp_FirstBreak := None |};
     sc_expectedSeq := 1; sc_expectedPrevious := auditGenesisHash; sc_head := auditGenesisHash |}.

Definition resume (state : auditState) : auditScan :=
  let r := as_report state in
  {| sc_report := {| rp_OK := true; rp_Rows := rp_Rows r; rp_HeadSeq := rp_HeadSeq r;
                     rp_HeadHash := rp_HeadHash r; rp_FirstBreak := None |};
     sc_expectedSeq := i64 (rp_HeadSeq r + 1);
     sc_expectedPrevious := as_head state;
     sc_head := as_head state |}.

(** [fail]: only the first break is kept. *)
Definition scan_fail (seq : Z) (reason : string) (a : auditScan) : auditScan :=
  let r := sc_report a in
  match rp_FirstBreak r with
  | Some _ => a
  | None =>
      {| sc_report := {| rp_OK := false; rp_Rows := rp_Rows r; rp_HeadSeq := rp_HeadSeq r;
                         rp_HeadHash := rp_HeadHash r;
                         rp_FirstBreak := Some {| br_Seq := seq; br_Reason := reason |} |};
         sc_expectedSeq := sc_expectedSeq a; sc_expectedPrevious := sc_expectedPrevious a; sc_head := sc_head a |}
  end.

Definition auditRowBreak (expectedSeq : Z) (expectedPrevious : bytes) (row : audit_row) : string :=
  if decide (ar_seq row ≠ expectedSeq) then "sequence gap or reorder"
  else if decide (ar_prev_hash row ≠ expectedPrevious) then "previous hash does not match the preceding row"
  else match Unmarshal_map (ar_detail row) with
       | None => "detail is not valid"
       | Some detail =>
           if decide (auditHash (ar_prev_hash row)
                        (auditCanonical (ar_actor row) (ar_action row) (ar_target row) detail (ar_at row))
                      ≠ ar_hash row)
           then "row hash does not match its content"
           else ""
       end.

Definition consume (row : audit_row) (a : auditScan) : auditScan :=
  let r := sc_report a in
  let a := {| sc_report := {| rp_OK := rp_OK r; rp_Rows := i64 (rp_Rows r + 1); rp_HeadSeq := ar_seq row;
                              rp_HeadHash := rp_HeadHash r; rp_FirstBreak := rp_FirstBreak r |};
              sc_expectedSeq := sc_expectedSeq a; sc_expectedPrevious := sc_expectedPrevious a;
              sc_head := ar_hash row |} in
  match rp_FirstBreak r with
  | Some _ => a
  | None =>
      let reason := auditRowBreak (sc_expectedSeq a) (sc_expectedPrevious a) row in
      if decide (reason ≠ "") then scan_fail (ar_seq row) reason a
      else {| sc_report := sc_report a; sc_expectedSeq := i64 (sc_expectedSeq a + 1);
              sc_expectedPrevious := ar_hash row; sc_head := sc_head a |}
  end.

(** [result]. *)
Definition scan_result (a : auditScan) : AuditReport :=
  let r := sc_report a in
  {| rp_OK := rp_OK r; rp_Rows := rp_Rows r; rp_HeadSeq := rp_HeadSeq r;
     rp_HeadHash := hex_EncodeToString (sc_head a); rp_FirstBreak := rp_FirstBreak r |}.

Definition missing_or_changed : string := "the last verified row is missing or changed".

(** The rows the query gives, scanned; [verifiedHash] is the hash the first of them must have, when there
    is one. *)
Definition scanAudit (fault : option error) (log : list audit_row) (scan : auditScan) (fromSeq : Z)
    (verifiedHash : option bytes) : result auditScan :=
  match fault with
  | Some e => Err e
  | None =>
      let rows := filter (λ row, Z.max fromSeq 1 ≤ ar_seq row) log in
      let consume_all := foldl (λ a row, consume row a) in
      Ok match verifiedHash with
         | None => consume_all scan rows
         | Some verified =>
             match rows with
             | [] => scan_fail fromSeq missing_or_changed scan
             | row :: rows =>
                 consume_all
                   (if decide (ar_seq row ≠ fromSeq ∨ ar_hash row ≠ verified)
                    then consume row (scan_fail fromSeq missing_or_changed scan)
                    else let reason := auditRowBreak (ar_seq row) (ar_prev_hash row) row in
                         if decide (reason ≠ "") then scan_fail (ar_seq row) reason scan else scan)
                   rows
             end
         end
  end.

(** The store: its tables and the outcome of the last check. *)
Record store := { st_closed : bool; st_db : database; st_auditState : option auditState }.

Definition remember (scan : auditScan) : option auditState :=
  Some {| as_report := scan_result scan; as_head := sc_head scan |}.

Definition set_auditState (state : option auditState) (s : store) : store :=
  {| st_closed := st_closed s; st_db := st_db s; st_auditState := state |}.

Definition verifyAuditFull (fault : option error) : M store AuditReport :=
  λ s,
    match scanAudit fault (db_audit_log (st_db s)) newAuditScan 0 None with
    | Err e => (Err e, set_auditState None s)
    | Ok scan => (Ok (scan_result scan), set_auditState (remember scan) s)
    end.

Definition VerifyAudit (fault : option error) : M store AuditReport :=
  λ s,
    match read (st_closed s) with
    | Err e => (Err e, s)
    | Ok _ => verifyAuditFull fault s
    end.

Definition VerifyAuditIncremental (fault : option error) : M store AuditReport :=
  λ s,
    match read (st_closed s) with
    | Err e => (Err e, s)
    | Ok _ =>
        match st_auditState s with
        | None => verifyAuditFull fault s
        | Some state =>
            if negb (rp_OK (as_report state)) then (Ok (as_report state), s)
            else
              let verifiedHead := if decide (rp_HeadSeq (as_report state) > 0) then Some (as_head state) else None in
              match scanAudit fault (db_audit_log (st_db s)) (resume state) (rp_HeadSeq (as_report state)) verifiedHead with
              | Err e => (Err e, s)
              | Ok scan => (Ok (scan_result scan), set_auditState (remember scan) s)
              end
        end
    end.

(** [verifyAudit]: the check a backup or an export runs, which remembers nothing. *)
Definition verifyAudit (fault : option error) (log : list audit_row) : result AuditReport :=
  let? scan := scanAudit fault log newAuditScan 0 None in Ok (scan_result scan).

(** ** Listing *)
Definition entry_of (row : audit_row) : AuditEntry :=
  {| en_Seq := ar_seq row; en_Actor := ar_actor row; en_Action := ar_action row; en_Target := ar_target row;
     en_Detail := default ∅ (Unmarshal_map (ar_detail row)); en_At := unixTime (ar_at row);
     en_PrevHash := hex_EncodeToString (ar_prev_hash row); en_Hash := hex_EncodeToString (ar_hash row) |}.

Definition ListAudit (closed : bool) (fault : option error) (log : list audit_row) (cursor limit : Z) : result AuditPage :=
  let? _ := read closed in
  match fault with
  | Some e => Err e
  | None =>
      let limit := if decide (limit ≤ 0) then defaultAuditPage else limit in
      let limit := if decide (limit > maxAuditPage) then maxAuditPage else limit in
      let cursor := if decide (cursor ≤ 0) then 2 ^ 62 - 1 else cursor in
      let entries := entry_of <$> take (Z.to_nat (limit + 1)) (reverse (filter (λ row, ar_seq row < cursor) log)) in
      if decide (Z.of_nat (length entries) > limit)
      then let kept := take (Z.to_nat limit) entries in
           Ok {| pg_Entries := kept; pg_NextCursor := default 0 (en_Seq <$> last kept) |}
      else Ok {| pg_Entries := entries; pg_NextCursor := 0 |}
  end.

End Audit.
