(* ===== verification/AuditFacts.v ===== *)
(** * The audit chain

    What a check of the chain establishes, that appending keeps the chain whole, and what a chain commits to. *)

From stdpp Require Import base list gmap strings pretty.
From Stdlib Require Import ZArith Lia Ascii Strings.Byte.
From S2P Require Import Prelude GoStd GoText Canonical Json JsonFacts SelfStore.
Local Open Scope Z_scope.
Local Open Scope go_scope.

Lemma filter_all {A} (P : A → Prop) `{!∀ x, Decision (P x)} (l : list A) : (∀ x, x ∈ l → P x) → filter P l = l.
Proof.
  induction l as [|x l IH]; intros Hl; [done|]. rewrite filter_cons_True by (apply Hl; by left).
  f_equal. apply IH. intros y ?. apply Hl. by right.
Qed.

Lemma filter_none {A} (P : A → Prop) `{!∀ x, Decision (P x)} (l : list A) : (∀ x, x ∈ l → ¬ P x) → filter P l = [].
Proof.
  induction l as [|x l IH]; intros Hl; [done|]. rewrite filter_cons_False by (apply Hl; by left).
  apply IH. intros y ?. apply Hl. by right.
Qed.

Lemma length_filter_impl {A} (P Q : A → Prop) `{!∀ x, Decision (P x), !∀ x, Decision (Q x)} (l : list A) :
  (∀ x, P x → Q x) → (length (filter P l) ≤ length (filter Q l))%nat.
Proof.
  intros HPQ. induction l as [|x l IH]; [done|]. rewrite !filter_cons. repeat case_decide; cbn; naive_solver lia.
Qed.

Section Chain.
Context `{Crypto}.

(** ** The chain, independently of the scan *)
Definition head_of (log : list audit_row) : bytes :=
  match last log with Some row => ar_hash row | None => auditGenesisHash end.

(** The text whose hash a row carries. *)
Definition content (row : audit_row) : option string :=
  detail ← Unmarshal_map (ar_detail row);
  Some (auditCanonical (ar_actor row) (ar_action row) (ar_target row) detail (ar_at row)).

Inductive chained : list audit_row → Prop :=
| chained_nil : chained []
| chained_snoc log row text :
    chained log →
    ar_seq row = Z.of_nat (length log) + 1 →
    ar_prev_hash row = head_of log →
    content row = Some text →
    ar_hash row = auditHash (ar_prev_hash row) text →
    chained (log ++ [row]).

Lemma chained_inv log row :
  chained (log ++ [row]) →
  chained log ∧ ar_seq row = Z.of_nat (length log) + 1 ∧ ar_prev_hash row = head_of log ∧
  ∃ text, content row = Some text ∧ ar_hash row = auditHash (ar_prev_hash row) text.
Proof.
  intros Hc. inversion Hc as [E|log' row' text ? ? ? ? ? E]; [by destruct log|].
  apply app_inj_tail in E as [-> ->]. eauto 8.
Qed.

Lemma chained_prefix log more : chained (log ++ more) → chained log.
Proof.
  induction more as [|row more IH] using rev_ind; [by rewrite app_nil_r|].
  rewrite app_assoc. intros [? _]%chained_inv. by apply IH.
Qed.

Lemma chained_seq log i row : chained log → log !! i = Some row → ar_seq row = Z.of_nat i + 1.
Proof.
  intros Hc. revert i. induction Hc as [|log r text Hc IH Hs _ _ _]; intros i; [done|].
  intros [Hi|[Hi Hr]]%lookup_app_Some; [by apply IH|].
  apply list_lookup_singleton_Some in Hr as [? ->]. lia.
Qed.

Lemma head_of_snoc log row : head_of (log ++ [row]) = ar_hash row.
Proof. unfold head_of. by rewrite last_snoc. Qed.

(** ** The scan *)
Lemma auditRowBreak_none seq previous row :
  auditRowBreak seq previous row = "" ↔
  ar_seq row = seq ∧ ar_prev_hash row = previous ∧
  ∃ text, content row = Some text ∧ ar_hash row = auditHash (ar_prev_hash row) text.
Proof.
  unfold auditRowBreak, content. case_decide; [naive_solver|]. case_decide; [naive_solver|].
  destruct (Unmarshal_map (ar_detail row)) as [d|]; cbn; [|naive_solver].
  case_decide as E; [naive_solver|]. split; [|done]. eauto 8.
Qed.

(** The state of a scan after rows without a break. *)
Definition clean (n : nat) (hash : string) (head : bytes) : auditScan :=
  {| sc_report := {| rp_OK := true; rp_Rows := Z.of_nat n; rp_HeadSeq := Z.of_nat n; rp_HeadHash := hash;
                     rp_FirstBreak := None |};
     sc_expectedSeq := Z.of_nat n + 1; sc_expectedPrevious := head; sc_head := head |}.

Notation consume_all := (foldl (λ a row, consume row a)).

Lemma consume_broken row a b :
  rp_FirstBreak (sc_report a) = Some b →
  rp_FirstBreak (sc_report (consume row a)) = Some b ∧
  rp_OK (sc_report (consume row a)) = rp_OK (sc_report a).
Proof. intros E. unfold consume. by rewrite E. Qed.

Lemma consume_all_broken rows a b :
  rp_FirstBreak (sc_report a) = Some b →
  rp_FirstBreak (sc_report (consume_all a rows)) = Some b ∧
  rp_OK (sc_report (consume_all a rows)) = rp_OK (sc_report a).
Proof.
  revert a. induction rows as [|row rows IH]; intros a E; [done|]. cbn.
  destruct (consume_broken row a b E) as [E1 E2]. rewrite <- E2. by apply IH.
Qed.

Lemma consume_clean n hash head row :
  Z.of_nat n + 2 < 2 ^ 63 →
  (auditRowBreak (Z.of_nat n + 1) head row = "" ∧ consume row (clean n hash head) = clean (S n) hash (ar_hash row)) ∨
  (auditRowBreak (Z.of_nat n + 1) head row ≠ "" ∧
   rp_OK (sc_report (consume row (clean n hash head))) = false ∧
   is_Some (rp_FirstBreak (sc_report (consume row (clean n hash head))))).
Proof.
  intros Hn. unfold consume, clean. cbn. case_decide as E.
  - right. split; [done|]. unfold scan_fail. cbn. eauto.
  - left. split; [done|]. apply auditRowBreak_none in E as (-> & _).
    rewrite !i64_small by lia. f_equal; [f_equal; lia|lia].
Qed.

(** Scanning a log that is not longer than 64-bit numbers finds no break exactly when it is chained. *)
Lemma consume_all_clean log hash :
  Z.of_nat (length log) + 2 < 2 ^ 63 →
  (chained log ∧ consume_all (clean 0 hash auditGenesisHash) log = clean (length log) hash (head_of log)) ∨
  (¬ chained log ∧ rp_OK (sc_report (consume_all (clean 0 hash auditGenesisHash) log)) = false ∧
   is_Some (rp_FirstBreak (sc_report (consume_all (clean 0 hash auditGenesisHash) log)))).
Proof.
  induction log as [|row log IH] using rev_ind; intros Hn; [left; split; [constructor|done]|].
  rewrite length_app in *. cbn [length] in *. rewrite foldl_app. cbn [foldl].
  destruct IH as [[Hc ->]|(Hc & Ho & b & Hb)]; [lia| |].
  - destruct (consume_clean (length log) hash (head_of log) row ltac:(lia)) as [[Hr ->]|(Hr & Ho & Hb)].
    + left. apply auditRowBreak_none in Hr as (? & ? & text & ? & ?). rewrite head_of_snoc.
      split; [by econstructor|]. f_equal. lia.
    + right. split; [|done]. intros (_ & ? & ? & ?)%chained_inv. apply Hr. by apply auditRowBreak_none.
  - right. split; [by intros [? _]%chained_inv|]. destruct (consume_broken row _ b Hb) as [-> ->]. eauto.
Qed.

(** ** The report of a check *)
(** The rows the check reads: [WHERE seq >= max(fromSeq, 1)], whatever [ListAudit] shows. *)
Definition visible (log : list audit_row) : list audit_row := filter (λ row, 1 ≤ ar_seq row) log.

Definition whole_report (log : list audit_row) : AuditReport :=
  {| rp_OK := true; rp_Rows := Z.of_nat (length log); rp_HeadSeq := Z.of_nat (length log);
     rp_HeadHash := hex_EncodeToString (head_of log); rp_FirstBreak := None |}.
Definition whole_state (log : list audit_row) : auditState :=
  {| as_report := whole_report log; as_head := head_of log |}.

(** Log lengths for which the 64-bit counters of a scan do not wrap. *)
Definition countable_log (log : list audit_row) : Prop := Z.of_nat (length log) + 2 < 2 ^ 63.

Lemma scanAudit_full log :
  scanAudit None log newAuditScan 0 None = Ok (consume_all newAuditScan (visible log)).
Proof. done. Qed.

Lemma newAuditScan_clean : newAuditScan = clean 0 "" auditGenesisHash.
Proof. done. Qed.

Lemma scan_result_clean n hash head :
  scan_result (clean n hash head) =
  {| rp_OK := true; rp_Rows := Z.of_nat n; rp_HeadSeq := Z.of_nat n; rp_HeadHash := hex_EncodeToString head;
     rp_FirstBreak := None |}.
Proof. done. Qed.

(** A full check succeeds exactly on a chain, and then reports its length and its head. *)
Lemma verify_full_spec log :
  countable_log (visible log) →
  (chained (visible log) ∧ scan_result (consume_all newAuditScan (visible log)) = whole_report (visible log)
     ∧ sc_head (consume_all newAuditScan (visible log)) = head_of (visible log)) ∨
  (¬ chained (visible log) ∧ rp_OK (scan_result (consume_all newAuditScan (visible log))) = false
     ∧ is_Some (rp_FirstBreak (scan_result (consume_all newAuditScan (visible log))))).
Proof.
  intros Hl. rewrite newAuditScan_clean.
  destruct (consume_all_clean (visible log) "" Hl) as [[Hc ->]|(Hc & Ho & Hb)]; [left|right]; done.
Qed.

(** Rows of a chain are all visible. *)
Lemma visible_chained log more : chained log → visible (log ++ more) = log ++ visible more.
Proof.
  intros Hc. unfold visible. rewrite filter_app. f_equal. apply filter_all.
  intros row [i Hi]%list_elem_of_lookup. rewrite (chained_seq _ _ _ Hc Hi). lia.
Qed.

(** ** Scans do not look at the hash of an earlier report *)
Definition set_hash (h : string) (a : auditScan) : auditScan :=
  let r := sc_report a in
  {| sc_report := {| rp_OK := rp_OK r; rp_Rows := rp_Rows r; rp_HeadSeq := rp_HeadSeq r; rp_HeadHash := h;
                     rp_FirstBreak := rp_FirstBreak r |};
     sc_expectedSeq := sc_expectedSeq a; sc_expectedPrevious := sc_expectedPrevious a; sc_head := sc_head a |}.

Lemma consume_set_hash h row a : consume row (set_hash h a) = set_hash h (consume row a).
Proof.
  unfold consume, set_hash, scan_fail. cbn. destruct (rp_FirstBreak (sc_report a)); [done|]. cbn.
  by case_decide.
Qed.

Lemma consume_all_set_hash h rows a : consume_all (set_hash h a) rows = set_hash h (consume_all a rows).
Proof. revert a. induction rows as [|row rows IH]; intros a; [done|]. cbn. by rewrite consume_set_hash, IH. Qed.

Lemma scan_result_set_hash h a : scan_result (set_hash h a) = scan_result a.
Proof. done. Qed.

Lemma resume_whole log : countable_log log → resume (whole_state log) = clean (length log) (hex_EncodeToString (head_of log)) (head_of log).
Proof. intros Hl. unfold resume, whole_state, clean, countable_log in *. cbn. by rewrite i64_small by lia. Qed.

Lemma clean_set_hash n h h' head : clean n h head = set_hash h (clean n h' head).
Proof. done. Qed.

(** ** Appending *)
Lemma insert_row_last row rows :
  (∀ r, r ∈ rows → ar_seq r < ar_seq row) → insert_row row rows = Some (rows ++ [row]).
Proof.
  induction rows as [|r rows IH]; intros Hr; [done|]. cbn. pose proof (Hr r ltac:(by left)).
  rewrite !decide_False by lia. rewrite IH by (intros; apply Hr; by right). done.
Qed.

Lemma head_of_last log :
  chained log →
  match last log with Some row => (ar_seq row, ar_hash row) | None => (0, auditGenesisHash) end =
  (Z.of_nat (length log), head_of log).
Proof.
  intros [|log' row text Hc Hs _ _ _]; [done|]. rewrite last_snoc, head_of_snoc, length_app. cbn. f_equal. lia.
Qed.

(** An entry with a valid detail makes the chain one row longer. *)
Lemma appendAudit_chained now input db entry db' :
  chained (db_audit_log db) → countable_log (db_audit_log db) → valid_map (in_Detail input) →
  appendAudit now input db = (Ok entry, db') →
  ∃ row, db_audit_log db' = db_audit_log db ++ [row] ∧ chained (db_audit_log db ++ [row]) ∧
    entry = entry_of row ∧ in_Detail input = en_Detail entry ∧
    db_update_settings db' = db_update_settings db ∧ db_update_sequences db' = db_update_sequences db.
Proof.
  intros Hc Hl Hv Happ. unfold appendAudit in Happ. apply mbindM_ok in Happ as (? & ? & [_ ->]%mfail_if_ok & Happ).
  rewrite head_of_last in Happ by done. cbv beta iota zeta in Happ.
  unfold countable_log in Hl. rewrite i64_small in Happ by lia.
  rewrite insert_row_last in Happ.
  2: { intros r [i Hi]%list_elem_of_lookup. rewrite (chained_seq _ _ _ Hc Hi). cbn. apply lookup_lt_Some in Hi. lia. }
  injection Happ as <- <-. cbn [db_audit_log db_update_settings db_update_sequences].
  eexists. split; [done|]. split.
  - econstructor; [done|done|done|unfold content; cbn; by rewrite Unmarshal_Marshal|done].
  - split; [|done]. unfold entry_of. cbn. by rewrite Unmarshal_Marshal.
Qed.

(** ** What a hash commits to *)
Lemma list_split_first {A} (x : A) s s' q q' :
  x ∉ s → x ∉ s' → s ++ x :: q = s' ++ x :: q' → s = s' ∧ q = q'.
Proof.
  revert s'. induction s as [|y s IH]; intros [|y' s'] Hs Hs' E; cbn in E; simplify_eq; [done|set_solver..|].
  destruct (IH s') as [-> ->]; [set_solver..|done|done].
Qed.

Lemma list_split_last {A} (x : A) p p' s s' :
  x ∉ s → x ∉ s' → p ++ x :: s = p' ++ x :: s' → p = p' ∧ s = s'.
Proof.
  intros Hs Hs' E%(f_equal reverse). rewrite !reverse_app, !reverse_cons, <- !(assoc_L (++)) in E. cbn in E.
  apply list_split_first in E as [E1%(inj reverse) E2%(inj reverse)]; [done|by rewrite elem_of_reverse..].
Qed.

Lemma lacks_newline_bytes s : lacks newline s = true → x0a ∉ bytes_of s.
Proof.
  unfold lacks. induction s as [|c s IH]; cbn [str_forall]; [set_solver|].
  intros [Hc%bool_decide_eq_true Hs]%andb_true_iff. unfold String.list_byte_of_string. cbn.
  fold (String.list_byte_of_string s). intros [E|Hin]%elem_of_cons; [|by apply IH]. apply Hc.
  by rewrite <- (ascii_of_byte_of_ascii c), <- E.
Qed.

Lemma auditHash_commits p p' c c' :
  lacks newline c = true → lacks newline c' = true → auditHash p c = auditHash p' c' →
  (p = p' ∧ c = c') ∨ collision.
Proof.
  intros Hc%lacks_newline_bytes Hc'%lacks_newline_bytes E. unfold auditHash in E.
  match type of E with sha256 ?x = sha256 ?y => destruct (decide (x = y)) as [Exy|]; [left|right; by exists x, y] end.
  apply app_inv_head in Exy. apply list_split_last in Exy as [-> E']; [|done..]. split; [done|].
  by apply bytes_of_inj.
Qed.

Lemma auditCanonical_lacks actor action target detail at_ :
  lacks newline (auditCanonical actor action target detail at_) = true.
Proof.
  unfold auditCanonical. apply lacks_Marshal_object.
  repeat constructor; cbn [snd]; (apply lacks_Marshal_string || apply lacks_Marshal_map).
Qed.

Lemma content_lacks row text : content row = Some text → lacks newline text = true.
Proof.
  unfold content. destruct (Unmarshal_map (ar_detail row)); cbn; [|done]. intros [= <-]. apply auditCanonical_lacks.
Qed.

Lemma String_tail c s t : String c s = String c t → s = t.
Proof. by intros [=]. Qed.

(** The fields of an entry can be read off its canonical text. *)
Lemma auditCanonical_commits actor action target detail at_ actor' action' target' detail' at_' :
  auditCanonical actor action target detail at_ = auditCanonical actor' action' target' detail' at_' →
  coerce actor = coerce actor' ∧ coerce action = coerce action' ∧ coerce target = coerce target' ∧
  Marshal_map detail = Marshal_map detail' ∧
  coerce (Format_RFC3339 (unixTime at_)) = coerce (Format_RFC3339 (unixTime at_')).
Proof.
  unfold auditCanonical, Marshal_object. cbn [fmap list_fmap]. rewrite !join_cons2. cbn [join].
  unfold member. cbn [fst snd]. intros E%append_cancel_l.
  repeat (rewrite <- !append_assoc in E || rewrite !app_cons in E).
  apply Marshal_string_unique in E as [_ E%String_tail]. apply Marshal_string_unique in E as [Ha E%String_tail].
  apply Marshal_string_unique in E as [_ E%String_tail]. apply Marshal_string_unique in E as [Hb E%String_tail].
  apply Marshal_string_unique in E as [_ E%String_tail]. apply Marshal_string_unique in E as [Ht E%String_tail].
  apply Marshal_string_unique in E as [_ E%String_tail]. apply Marshal_map_unique in E as [Hd E%String_tail].
  apply Marshal_string_unique in E as [_ E%String_tail]. apply Marshal_string_unique in E as [Hc _].
  done.
Qed.

Lemma ascii_only_app a b : ascii_only (a +:+ b) = ascii_only a && ascii_only b.
Proof.
  unfold ascii_only. induction a as [|c a IH]; [done|]. rewrite app_cons. cbn [str_forall]. by rewrite IH, andb_assoc.
Qed.

Lemma ascii_only_padded width v : ascii_only (padded width v) = true.
Proof.
  unfold padded. rewrite !ascii_only_app. unfold ascii_only.
  rewrite (str_forall_FormatUint _ (Z.abs v)) by done. rewrite andb_true_r. apply andb_true_iff. split; [by case_decide|].
  generalize (width - String.length (FormatUint (Z.abs v)))%nat. intros n. by induction n.
Qed.

Lemma coerce_Format t : coerce (Format_RFC3339 t) = Format_RFC3339 t.
Proof.
  assert (ascii_only (Format_RFC3339 t) = true) as Ha.
  { unfold Format_RFC3339. destruct (civil _) as [[year month] day].
    by rewrite !ascii_only_app, !ascii_only_padded. }
  rewrite <- (append_empty (Format_RFC3339 t)) at 1. rewrite coerce_ascii by done.
  apply append_empty.
Qed.

(** ** Chains with the same head *)
Definition same_entry (r r' : audit_row) : Prop :=
  ar_seq r = ar_seq r' ∧ ar_prev_hash r = ar_prev_hash r' ∧ ar_hash r = ar_hash r' ∧ content r = content r'.

(** What the two rows say: their fields with invalid UTF-8 replaced, the detail as it is written, the time
    as it is written. *)
Definition reads_same (r r' : audit_row) : Prop :=
  ar_seq r = ar_seq r' ∧ coerce (ar_actor r) = coerce (ar_actor r') ∧ coerce (ar_action r) = coerce (ar_action r') ∧
  coerce (ar_target r) = coerce (ar_target r') ∧
  Marshal_map <$> Unmarshal_map (ar_detail r) = Marshal_map <$> Unmarshal_map (ar_detail r') ∧
  Format_RFC3339 (unixTime (ar_at r)) = Format_RFC3339 (unixTime (ar_at r')).

Lemma same_entry_reads r r' : is_Some (content r) → same_entry r r' → reads_same r r'.
Proof.
  intros [text Ht] (Hs & _ & _ & Hc). rewrite Ht in Hc. symmetry in Hc. unfold content in Ht, Hc.
  destruct (Unmarshal_map (ar_detail r)) as [d|] eqn:Ed; [|done]. cbn in Ht.
  destruct (Unmarshal_map (ar_detail r')) as [d'|] eqn:Ed'; [|done]. cbn in Hc.
  apply (inj Some) in Ht. subst text. apply (inj Some) in Hc. apply auditCanonical_commits in Hc as (? & ? & ? & ? & Ha).
  rewrite !coerce_Format in Ha. unfold reads_same. rewrite Ed, Ed'. cbn [fmap option_fmap option_map].
  split_and!; first [congruence|f_equal; congruence].
Qed.

Lemma same_hash_entry r r' text text' :
  content r = Some text → content r' = Some text' →
  ar_hash r = auditHash (ar_prev_hash r) text → ar_hash r' = auditHash (ar_prev_hash r') text' →
  ar_seq r = ar_seq r' → ar_hash r = ar_hash r' → same_entry r r' ∨ collision.
Proof.
  intros Hc Hc' Hh Hh' Hs E. rewrite Hh, Hh' in E.
  apply auditHash_commits in E as [[Ep Et]|]; [left|by right|by eapply content_lacks..].
  unfold same_entry. subst text'. split_and!; congruence.
Qed.

Lemma chained_commits l l' :
  chained l → chained l' → length l = length l' → head_of l = head_of l' →
  Forall2 same_entry l l' ∨ collision.
Proof.
  intros Hc. revert l'. induction Hc as [|l r text Hc IH Hs Hp Ht Hh]; intros l' Hc' Hlen E.
  { left. destruct l'; [constructor|done]. }
  destruct Hc' as [|l' r' text' Hc' Hs' Hp' Ht' Hh']; [rewrite length_app in Hlen; cbn in Hlen; lia|].
  rewrite !length_app in Hlen. cbn in Hlen. rewrite !head_of_snoc in E.
  destruct (same_hash_entry r r' text text') as [Hr|]; [try done; lia..| |by right].
  destruct (IH l') as [Hl|]; [done|lia|destruct Hr as (_ & ? & _); congruence| |by right].
  left. by apply Forall2_app; [|constructor].
Qed.

Lemma chained_content l r : chained l → r ∈ l → is_Some (content r).
Proof.
  induction 1 as [|l r' text _ IH _ _ Ht _]; intros Hr; [set_solver|].
  apply elem_of_app in Hr as [Hr| ->%list_elem_of_singleton]; eauto.
Qed.

(** ** Hex *)
Lemma hex_char_inj n m : 0 ≤ n < 16 → 0 ≤ m < 16 → hex_char n = hex_char m → n = m.
Proof.
  assert (∀ k, 0 ≤ k < 16 → hex_value (hex_char k) = Some k) as Hv.
  { intros k Hk. assert (∃ i, (i < 16)%nat ∧ k = Z.of_nat i) as (i & Hi & ->) by (exists (Z.to_nat k); lia).
    do 16 (destruct i as [|i]; [reflexivity|]). lia. }
  intros Hn Hm E%(f_equal hex_value). rewrite !Hv in E by done. by simplify_eq.
Qed.

Lemma hex_inj a b : hex_EncodeToString a = hex_EncodeToString b → a = b.
Proof.
  revert b. induction a as [|x a IH]; intros [|y b]; cbn [hex_EncodeToString]; [done..|].
  intros E. injection E as E1 E2 E3. apply IH in E3 as ->. f_equal. apply byte_Z_inj.
  pose proof (byte_Z_range x). pose proof (byte_Z_range y).
  change 15 with (Z.ones 4) in E2. rewrite !Z.land_ones, !Z.shiftr_div_pow2 in * by lia.
  apply hex_char_inj in E1, E2; Z.to_euclidean_division_equations; lia.
Qed.

(** ** Checking from where the last check ended *)
Lemma consume_all_from log more hash :
  chained log → countable_log log →
  consume_all (clean (length log) hash (head_of log)) more =
  set_hash hash (consume_all newAuditScan (log ++ more)).
Proof.
  intros Hc Hl. rewrite newAuditScan_clean, foldl_app.
  destruct (consume_all_clean log "" Hl) as [[_ ->]|[? _]]; [|done].
  by rewrite (clean_set_hash _ hash ""), consume_all_set_hash.
Qed.

Lemma tail_rows log r more :
  chained (log ++ [r]) → (∀ x, x ∈ more → Z.of_nat (length (log ++ [r])) < ar_seq x) →
  filter (λ row, Z.max (Z.of_nat (length (log ++ [r]))) 1 ≤ ar_seq row) ((log ++ [r]) ++ more) = r :: more.
Proof.
  intros Hc Hm. apply chained_inv in Hc as (Hc & Hs & _). rewrite length_app in *. cbn [length] in *.
  rewrite !filter_app, (filter_none _ log), (filter_all _ [r]), (filter_all _ more); [done|..].
  - intros x Hx. specialize (Hm x Hx). lia.
  - intros x ->%list_elem_of_singleton. lia.
  - intros x [i Hi]%list_elem_of_lookup. rewrite (chained_seq _ _ _ Hc Hi). apply lookup_lt_Some in Hi. lia.
Qed.

Definition head_to_check (log : list audit_row) : option bytes :=
  if decide (Z.of_nat (length log) > 0) then Some (head_of log) else None.

Lemma incremental_scan log more :
  chained log → countable_log (log ++ more) → (∀ x, x ∈ more → Z.of_nat (length log) < ar_seq x) →
  ∃ hash, scanAudit None (log ++ more) (resume (whole_state log)) (Z.of_nat (length log)) (head_to_check log) =
          Ok (set_hash hash (consume_all newAuditScan (visible (log ++ more)))).
Proof.
  intros Hc Hl Hm. assert (countable_log log) as Hl'.
  { unfold countable_log in *. rewrite length_app in Hl. lia. }
  exists (hex_EncodeToString (head_of log)). rewrite visible_chained by done.
  assert (visible more = more) as Hv. { apply filter_all. intros x Hx. specialize (Hm x Hx). lia. }
  rewrite Hv, <- consume_all_from, resume_whole by done. unfold scanAudit, head_to_check.
  destruct log as [|r log _] using rev_ind.
  - cbn [length]. rewrite decide_False by (cbn; lia). do 2 f_equal. exact Hv.
  - rewrite decide_True by (rewrite length_app; cbn; lia). rewrite tail_rows by done.
    apply chained_inv in Hc as (_ & Hs & _ & text & Ht & Hh). rewrite head_of_snoc.
    assert (ar_seq r = Z.of_nat (length (log ++ [r]))) as Hr by (rewrite length_app; cbn; lia).
    rewrite decide_False by (rewrite Hr; naive_solver).
    rewrite decide_False; [done|]. intros Hn. apply Hn, auditRowBreak_none. eauto.
Qed.

Lemma scan_fail_broken seq reason a :
  rp_FirstBreak (sc_report a) = None →
  is_Some (rp_FirstBreak (sc_report (scan_fail seq reason a))) ∧ rp_OK (sc_report (scan_fail seq reason a)) = false.
Proof. intros E. unfold scan_fail. rewrite E. cbn. eauto. Qed.

Lemma broken_not_ok rows a :
  is_Some (rp_FirstBreak (sc_report a)) ∧ rp_OK (sc_report a) = false → rp_OK (sc_report (consume_all a rows)) = false.
Proof. intros [[b Hb] Ho]. destruct (consume_all_broken rows a b Hb) as [_ ->]. done. Qed.

(** Whatever became of the table, a check from the head of a chain succeeds only when that row is still
    there and what follows it continues the chain. *)
Lemma incremental_sound table log r scan :
  chained (log ++ [r]) → countable_log (log ++ [r] ++ visible table) →
  scanAudit None table (resume (whole_state (log ++ [r]))) (Z.of_nat (length (log ++ [r]))) (head_to_check (log ++ [r])) = Ok scan →
  rp_OK (sc_report scan) = true →
  ∃ row more, filter (λ x, Z.of_nat (length (log ++ [r])) ≤ ar_seq x) table = row :: more ∧
    (same_entry row r ∨ collision) ∧ chained ((log ++ [r]) ++ more).
Proof.
  intros Hc Hl. assert (countable_log (log ++ [r])) as Hl'.
  { unfold countable_log in *. rewrite !length_app in *. cbn [length] in *. lia. }
  rewrite resume_whole by done. unfold scanAudit, head_to_check.
  assert (Z.of_nat (length (log ++ [r])) > 0) as Hn by (rewrite length_app; cbn; lia).
  rewrite decide_True by done. rewrite Z.max_l by lia.
  assert (length (filter (λ x, (Z.of_nat (length (log ++ [r])) ≤ ar_seq x)%Z) table) ≤ length (visible table))%nat as Hlen.
  { apply length_filter_impl. intros x Hx. lia. }
  intros [= <-]. destruct (filter _ table) as [|row more]; [intros Ho|].
  { discriminate Ho. }
  case_decide as Hrow; [intros Ho|].
  { rewrite broken_not_ok in Ho; [done|]. destruct (scan_fail_broken (Z.of_nat (length (log ++ [r]))) missing_or_changed
      (clean (length (log ++ [r])) (hex_EncodeToString (head_of (log ++ [r]))) (head_of (log ++ [r]))) eq_refl) as [[b Hb] Hf].
    destruct (consume_broken row _ b Hb) as [Hb' ->]. eauto. }
  cbv zeta. case_decide as Hbreak; [intros Ho; by rewrite broken_not_ok in Ho by (by apply scan_fail_broken)|].
  rewrite consume_all_from by done. intros Ho. exists row, more. split; [done|].
  pose proof (chained_inv _ _ Hc) as (_ & Hs & _ & text & Ht & Hh). rewrite length_app in Hrow. cbn in Hrow. split.
  - apply auditRowBreak_none in Hbreak as (_ & _ & text' & Ht' & Hh'). rewrite head_of_snoc in Hrow.
    assert (ar_seq row = ar_seq r) as Es
      by (destruct (decide (ar_seq row = Z.of_nat (length log + 1))); [lia|naive_solver]).
    assert (ar_hash row = ar_hash r) as Eh by (destruct (decide (ar_hash row = ar_hash r)); naive_solver).
    by eapply same_hash_entry.
  - destruct (consume_all_clean ((log ++ [r]) ++ more) "") as [[? _]|(_ & Hf & _)]; [|done|].
    + unfold countable_log in *. rewrite !length_app in *. cbn [length] in *. lia.
    + rewrite newAuditScan_clean in Ho. cbn in Ho, Hf. congruence.
Qed.

End Chain.
