(* ===== verification/UpdateStore.v ===== *)
(** * The update settings: internal/selfhost/updates.go and internal/selfhost/sqlitestore/updates.go

    The owner's choice, the channel, the last feed that was accepted and, for every signing key, the
    highest sequence number seen.  Changes an owner makes, and rollbacks that were refused, go to the
    audit log in the same transaction. *)

From stdpp Require Import base list gmap strings pretty.
From Stdlib Require Import ZArith Lia Ascii Strings.Byte.
From S2P Require Import Prelude GoStd GoText Canonical Json SelfStore.
Local Open Scope Z_scope.
Local Open Scope go_scope.

Definition UpdatesUnset : string := "unset".
Definition UpdatesOn : string := "on".
Definition UpdatesOff : string := "off".

Definition UpdateErrorUnreachable : string := "feed_unreachable".
Definition UpdateErrorInvalid : string := "feed_invalid".
Definition UpdateErrorRollback : string := "feed_rollback".
Definition UpdateErrorExpired : string := "feed_expired".
Definition maxUpdateChannel : Z := 32.

Definition lower_or_digit_or_dash (c : ascii) : bool :=
  bool_decide (97 ≤ ascii_Z c ≤ 122 ∨ 48 ≤ ascii_Z c ≤ 57 ∨ c = "-"%char).

Definition ValidUpdateChannel (value : string) : bool :=
  if decide (len value > maxUpdateChannel) then false
  else match value with
       | "" => false
       | String c _ =>
           if decide (ascii_Z c < 97 ∨ ascii_Z c > 122) then false
           else str_forall lower_or_digit_or_dash value
       end.

Definition ValidUpdateError (code : string) : bool :=
  bool_decide (code ∈ [UpdateErrorUnreachable; UpdateErrorInvalid; UpdateErrorRollback; UpdateErrorExpired]).

Record UpdateSettings := {
  us_Choice : string; us_Channel : string; us_Sequences : gmap string Z; us_Feed : bytes;
  us_CheckedAt : option time; us_LastError : string }.

Record UpdateChange := { uc_Enabled : option bool; uc_Channel : option string }.
Record UpdateFeed := { uf_Raw : bytes; uf_KeyID : string; uf_Sequence : Z; uf_CheckedAt : time }.

Definition updatesTarget : string := "instance".

Definition readUpdateSettings : M database UpdateSettings :=
  λ db,
    match db_update_settings db with
    | None => (Err [selfhost_ErrNotFound], db)
    | Some row =>
        (Ok {| us_Choice := ur_enabled row; us_Channel := ur_channel row;
               us_Sequences := db_update_sequences db; us_Feed := bytes_of (ur_last_feed row);
               us_CheckedAt := unixTime <$> ur_checked_at row; us_LastError := ur_last_error row |}, db)
    end.

(** [UPDATE update_settings SET ... WHERE singleton = 1]. *)
Definition update_settings (f : update_row → update_row) : M database unit :=
  λ db, (Ok tt, {| db_audit_log := db_audit_log db; db_update_settings := f <$> db_update_settings db;
                   db_update_sequences := db_update_sequences db |}).
Definition set_sequences (m : gmap string Z) : M database unit :=
  λ db, (Ok tt, {| db_audit_log := db_audit_log db; db_update_settings := db_update_settings db;
                   db_update_sequences := m |}).

Definition set_choice (enabled channel : string) (r : update_row) : update_row :=
  {| ur_enabled := enabled; ur_channel := channel; ur_last_feed := ur_last_feed r;
     ur_checked_at := ur_checked_at r; ur_last_error := ur_last_error r |}.
Definition set_feed (feed : string) (at_ : Z) (r : update_row) : update_row :=
  {| ur_enabled := ur_enabled r; ur_channel := ur_channel r; ur_last_feed := feed;
     ur_checked_at := Some at_; ur_last_error := "" |}.
Definition set_last_error (code : string) (r : update_row) : update_row :=
  {| ur_enabled := ur_enabled r; ur_channel := ur_channel r; ur_last_feed := ur_last_feed r;
     ur_checked_at := ur_checked_at r; ur_last_error := code |}.
Definition clear_error (code : string) (r : update_row) : update_row :=
  if decide (ur_last_error r = code) then set_last_error "" r else r.

Definition choiceOf (enabled : bool) : string := if enabled then UpdatesOn else UpdatesOff.

Section UpdateStore.
Context `{Crypto} `{MapRange}.

Definition store_UpdateSettings (closed : bool) (fault : option error) : M database UpdateSettings :=
  λ db,
    match read closed, fault with
    | Err e, _ | Ok _, Some e => (Err e, db)
    | Ok _, None => readUpdateSettings db
    end.

(** The transaction of [ConfigureUpdates]. *)
Definition configure_tx (now : time) (by_ : Actor) (change : UpdateChange) : M database UpdateSettings :=
  let! current := readUpdateSettings in
  let choice := default (us_Choice current) (choiceOf <$> uc_Enabled change) in
  let detail : gmap string string :=
    if decide (choice ≠ us_Choice current) then {["enabled" := choice]} else ∅ in
  run mfail_if (ValidUpdateChannel <$> uc_Channel change = Some false) [selfhost_ErrInvalidInput];
  let channel := default (us_Channel current) (uc_Channel change) in
  let detail := if decide (channel ≠ us_Channel current) then <["channel" := channel]> detail else detail in
  let result := {| us_Choice := choice; us_Channel := channel; us_Sequences := us_Sequences current;
                   us_Feed := us_Feed current; us_CheckedAt := us_CheckedAt current;
                   us_LastError := us_LastError current |} in
  if decide (size detail = 0%nat) then mreturn result
  else
    run update_settings (set_choice choice channel);
    run audit now by_ "updates.updated" updatesTarget detail;
    mreturn result.

Definition store_ConfigureUpdates (closed : bool) (fault : option error) (now : time) (by_ : Actor)
    (change : UpdateChange) : M database UpdateSettings :=
  write closed fault (configure_tx now by_ change).

(** [chooseUpdatesAtSetup]: part of the transaction that sets the instance up. *)
Definition chooseUpdatesAtSetup (now : time) (by_ : Actor) (enabled : bool) : M database unit :=
  run update_settings (λ r, set_choice (choiceOf enabled) (ur_channel r) r);
  audit now by_ "updates.updated" updatesTarget
    (<["enabled" := choiceOf enabled]> {["source" := "setup"]}).

(** [INSERT ... ON CONFLICT ... DO UPDATE ... WHERE sequence <= excluded.sequence]: the number of rows
    affected. *)
Definition upsert_sequence (keyID : string) (sequence : Z) : M database Z :=
  λ db,
    match db_update_sequences db !! keyID with
    | Some old =>
        if decide (old ≤ sequence)
        then (Ok 1, (set_sequences (<[keyID := sequence]> (db_update_sequences db)) db).2)
        else (Ok 0, db)
    | None => (Ok 1, (set_sequences (<[keyID := sequence]> (db_update_sequences db)) db).2)
    end.

Definition record_feed_tx (feed : UpdateFeed) : M database unit :=
  let! changed := upsert_sequence (uf_KeyID feed) (uf_Sequence feed) in
  run mfail_if (changed ≠ 1) [selfhost_ErrConflict];
  update_settings (set_feed (string_of (uf_Raw feed)) (unix_seconds (uf_CheckedAt feed))).

Definition store_RecordUpdateFeed (closed : bool) (fault : option error) (feed : UpdateFeed) : M database unit :=
  run mfail_if (uf_Sequence feed < 1 ∨ uf_Raw feed = [] ∨ uf_KeyID feed = "" ∨ len (uf_KeyID feed) > 64)
    [selfhost_ErrInvalidInput];
  write closed fault (record_feed_tx feed).

Definition record_failure_tx (now : time) (code : string) : M database unit :=
  let! current := readUpdateSettings in
  run update_settings (set_last_error code);
  if decide (code ≠ UpdateErrorRollback ∨ us_LastError current = code) then mreturn tt
  else
    let highest := foldl (λ highest p, Z.max highest p.2) 0 (range_map (us_Sequences current)) in
    audit now SystemActor "updates.rollback_rejected" updatesTarget {["highestSequence" := FormatUint highest]}.

(** [now] is when the audit entry is written; the code ignores the time of the failure. *)
Definition store_RecordUpdateFailure (closed : bool) (fault : option error) (now : time) (code : string) : M database unit :=
  run mfail_if (ValidUpdateError code = false) [selfhost_ErrInvalidInput];
  write closed fault (record_failure_tx now code).

Definition reset_sequences_tx (now : time) (by_ : Actor) : M database Z :=
  λ db,
    let cleared := Z.of_nat (size (db_update_sequences db)) in
    (run set_sequences ∅;
     run update_settings (clear_error UpdateErrorRollback);
     run audit now by_ "updates.sequences_reset" updatesTarget {["keys" := FormatUint cleared]};
     mreturn cleared) db.

Definition store_ResetUpdateSequences (closed : bool) (fault : option error) (now : time) (by_ : Actor) : M database Z :=
  write closed fault (reset_sequences_tx now by_).

End UpdateStore.
