(* ===== verification/AuditThms.v ===== *)
(** * The audit log of the self-hosted store

    Every log the store's operations produce passes both checks; a log that passes commits to what was
    logged; and checking only what is new finds what checking everything finds. *)

From stdpp Require Import base list gmap strings pretty.
From Stdlib Require Import ZArith Lia Ascii Strings.Byte.
From S2P Require Import Prelude GoStd GoText Canonical Json JsonFacts SelfStore AuditFacts UpdateStore.
Local Open Scope Z_scope.
Local Open Scope go_scope.

(** ** The store's operations *)
Inductive store_call :=
| CallAppend (fault : option error) (now : time) (input : AuditInput)
| CallVerify (fault : option error)
| CallVerifyIncremental (fault : option error)
| CallConfigure (fault : option error) (now : time) (by_ : Actor) (change : UpdateChange)
| CallSetup (fault : option error) (now : time) (by_ : Actor) (enabled : bool)
| CallRecordFeed (fault : option error) (feed : UpdateFeed)
| CallRecordFailure (fault : option error) (now : time) (code : string)
| CallReset (fault : option error) (now : time) (by_ : Actor)
| CallClose.

Section Store.
Context `{Crypto} `{MapRange}.

Definition on_db {A} (m : bool → M database A) (s : store) : store :=
  {| st_closed := st_closed s; st_db := (m (st_closed s) (st_db s)).2; st_auditState := st_auditState s |}.

Definition store_exec (c : store_call) (s : store) : store :=
  match c with
  | CallAppend fault now input => on_db (λ closed, AppendAudit closed fault now input) s
  | CallVerify fault => (VerifyAudit fault s).2
  | CallVerifyIncremental fault => (VerifyAuditIncremental fault s).2
  | CallConfigure fault now by_ change => on_db (λ closed, store_ConfigureUpdates closed fault now by_ change) s
  | CallSetup fault now by_ enabled => on_db (λ closed, write closed fault (chooseUpdatesAtSetup now by_ enabled)) s
  | CallRecordFeed fault feed => on_db (λ closed, store_RecordUpdateFeed closed fault feed) s
  | CallRecordFailure fault now code => on_db (λ closed, store_RecordUpdateFailure closed fault now code) s
  | CallReset fault now by_ => on_db (λ closed, store_ResetUpdateSequences closed fault now by_) s
  | CallClose => {| st_closed := true; st_db := st_db s; st_auditState := st_auditState s |}
  end.

(** Entries with a detail of valid UTF-8, which is what the decoder of the requests produces. *)
Definition call_ok (c : store_call) : Prop :=
  match c with CallAppend _ _ input => valid_map (in_Detail input) | _ => True end.

Definition fresh_row : update_row :=
  {| ur_enabled := UpdatesUnset; ur_channel := "stable"; ur_last_feed := ""; ur_checked_at := None; ur_last_error := "" |}.
Definition new_store : store :=
  {| st_closed := false;
     st_db := {| db_audit_log := []; db_update_settings := Some fresh_row; db_update_sequences := ∅ |};
     st_auditState := None |}.

Inductive store_reachable : store → Prop :=
| store_new : store_reachable new_store
| store_step s c : store_reachable s → call_ok c → store_reachable (store_exec c s).

Definition log_of (s : store) : list audit_row := db_audit_log (st_db s).

(** ** Transactions keep the chain *)
Definition quiet_tx {A} (m : M database A) : Prop := ∀ db, db_audit_log (m db).2 = db_audit_log db.
Definition extends_chain (log log' : list audit_row) : Prop :=
  (length log ≤ length log')%nat ∧
  (chained log → countable_log log → chained log' ∧ ∃ more, log' = log ++ more).
Definition keeps_chain {A} (m : M database A) : Prop :=
  ∀ db, extends_chain (db_audit_log db) (db_audit_log (m db).2).

#[local] Instance extends_chain_refl : Reflexive extends_chain.
Proof. intros log. split; [done|]. intros Hc _. split; [done|]. exists []. by rewrite app_nil_r. Qed.

Lemma quiet_keeps {A} (m : M database A) : quiet_tx m → keeps_chain m.
Proof. intros Hm db. by rewrite (Hm db). Qed.

Lemma keeps_after_quiet {A B} (m : M database A) (k : A → M database B) :
  quiet_tx m → (∀ a, keeps_chain (k a)) → keeps_chain (mbindM m k).
Proof.
  intros Hm Hk db. unfold mbindM. specialize (Hm db). destruct (m db) as [[a|e] db1]; cbn in Hm |- *.
  - rewrite <- Hm. apply Hk.
  - by rewrite Hm.
Qed.

Lemma keeps_before_quiet {A B} (m : M database A) (k : A → M database B) :
  keeps_chain m → (∀ a, quiet_tx (k a)) → keeps_chain (mbindM m k).
Proof.
  intros Hm Hk db. unfold mbindM. specialize (Hm db). destruct (m db) as [[a|e] db1]; cbn in Hm |- *; [|done].
  by rewrite (Hk a db1).
Qed.

Lemma keeps_write {A} closed fault (m : M database A) : keeps_chain m → keeps_chain (write closed fault m).
Proof.
  intros Hm db. unfold write. specialize (Hm db). destruct closed; [done|]. destruct fault; [done|].
  by destruct (m db) as [[a|e] db1].
Qed.

Lemma quiet_fail_if P `{!Decision P} e : quiet_tx (mfail_if P e).
Proof. intros db. unfold mfail_if. by case_decide. Qed.
Lemma quiet_return {A} (a : A) : quiet_tx (mreturn a).
Proof. done. Qed.
Lemma quiet_readSettings : quiet_tx readUpdateSettings.
Proof. intros db. unfold readUpdateSettings. by destruct (db_update_settings db). Qed.
Lemma quiet_update f : quiet_tx (update_settings f).
Proof. done. Qed.
Lemma quiet_set_sequences m : quiet_tx (set_sequences m).
Proof. done. Qed.
Lemma quiet_upsert k v : quiet_tx (upsert_sequence k v).
Proof. intros db. unfold upsert_sequence. destruct (_ !! k); [by case_decide|done]. Qed.

Lemma insert_row_length row rows rows' : insert_row row rows = Some rows' → length rows' = S (length rows).
Proof.
  revert rows'. induction rows as [|r rows IH]; cbn; intros rows'; [by intros [= <-]|].
  case_decide; [by intros [= <-]|]. case_decide; [done|].
  destruct (insert_row row rows) as [l|]; cbn; [|done]. intros [= <-]. cbn. by rewrite (IH l).
Qed.

Lemma appendAudit_cases now input db :
  (∃ e, appendAudit now input db = (Err e, db)) ∨
  (∃ entry db' row, appendAudit now input db = (Ok entry, db') ∧
     insert_row row (db_audit_log db) = Some (db_audit_log db')).
Proof.
  unfold appendAudit, mbindM, mfail_if. case_decide; [left; by eexists|]. cbn [mreturn].
  destruct (match last _ with Some _ => _ | None => _ end) as [lastSeq previous].
  match goal with |- context [insert_row ?r _] => destruct (insert_row r (db_audit_log db)) as [rows|] eqn:Ei end.
  - right. eexists _, _, _. split; [done|]. exact Ei.
  - left. by eexists.
Qed.

Lemma keeps_append now input : valid_map (in_Detail input) → keeps_chain (appendAudit now input).
Proof.
  intros Hv db. destruct (appendAudit_cases now input db) as [[e ->]|(entry & db' & row & E & Ei)]; [done|].
  rewrite E. cbn. split; [rewrite (insert_row_length _ _ _ Ei); lia|].
  intros Hc Hl. destruct (appendAudit_chained _ _ _ _ _ Hc Hl Hv E) as (row' & -> & ? & _). eauto.
Qed.

Lemma keeps_audit now by_ action target detail : valid_map detail → keeps_chain (audit now by_ action target detail).
Proof. intros Hv. apply keeps_before_quiet; [by apply keeps_append|done]. Qed.

(** ** The details the store itself writes *)
Lemma ascii_valid s : ascii_only s = true → valid_utf8 s = true.
Proof.
  unfold ascii_only, valid_utf8. induction s as [|c s IH]; cbn [str_forall]; [done|].
  intros [Hc%bool_decide_eq_true Hs]%andb_true_iff. rewrite units_single by done. cbn. by apply IH.
Qed.

Lemma valid_map_empty : valid_map ∅.
Proof. intros k v. by rewrite lookup_empty. Qed.

Lemma valid_map_insert k v m : valid_utf8 k = true → valid_utf8 v = true → valid_map m → valid_map (<[k:=v]> m).
Proof. intros Hk Hv Hm k' v' [[<- <-]|[_ ?]]%lookup_insert_Some; [done|by apply Hm]. Qed.

Lemma valid_map_singleton k v : valid_utf8 k = true → valid_utf8 v = true → valid_map {[k := v]}.
Proof. intros Hk Hv. apply valid_map_insert; [done..|apply valid_map_empty]. Qed.

Lemma choiceOf_valid b : valid_utf8 (choiceOf b) = true.
Proof. by destruct b. Qed.

Lemma ValidUpdateChannel_valid c : ValidUpdateChannel c = true → valid_utf8 c = true.
Proof.
  intros Hc. apply ascii_valid. unfold ValidUpdateChannel in Hc. case_decide; [done|]. destruct c as [|x c]; [done|].
  case_decide; [done|]. revert Hc. apply str_forall_impl. intros y Hy%bool_decide_eq_true. apply bool_decide_eq_true.
  destruct Hy as [?|[?| ->]]; [lia..|]. by vm_compute.
Qed.

Lemma FormatUint_valid v : valid_utf8 (FormatUint v) = true.
Proof. apply ascii_valid. by apply str_forall_FormatUint. Qed.

(** ** Every operation keeps the chain *)
Lemma keeps_after_check {A} P `{!Decision P} e (k : unit → M database A) :
  (¬ P → keeps_chain (k tt)) → keeps_chain (mbindM (mfail_if P e) k).
Proof. intros Hk db. unfold mbindM, mfail_if. case_decide; [done|]. by apply Hk. Qed.

Lemma keeps_configure now by_ change : keeps_chain (configure_tx now by_ change).
Proof.
  apply keeps_after_quiet; [apply quiet_readSettings|]. intros current. cbv zeta.
  apply keeps_after_check. intros Hch. case_decide as Hz; [by apply quiet_keeps|clear Hz].
  apply keeps_after_quiet; [apply quiet_update|]. intros _.
  apply keeps_before_quiet; [apply keeps_audit|done].
  assert (valid_map (if decide (default (us_Choice current) (choiceOf <$> uc_Enabled change) ≠ us_Choice current)
     then {["enabled" := default (us_Choice current) (choiceOf <$> uc_Enabled change)]} else ∅)) as Hd.
  { case_decide as Hne; [|apply valid_map_empty]. destruct (uc_Enabled change) as [b|]; [|done].
    apply valid_map_singleton; [done|apply choiceOf_valid]. }
  match type of Hd with valid_map ?d => generalize dependent d; intros detail Hd end.
  case_decide as Hne; [|done]. destruct (uc_Channel change) as [c|]; [|done]. cbn in *.
  apply valid_map_insert; [done| |done]. apply ValidUpdateChannel_valid.
  destruct (ValidUpdateChannel c); [done|]. by destruct Hch.
Qed.

Lemma keeps_setup now by_ enabled : keeps_chain (chooseUpdatesAtSetup now by_ enabled).
Proof.
  apply keeps_after_quiet; [apply quiet_update|]. intros _. apply keeps_audit.
  apply valid_map_insert; [done|apply choiceOf_valid|by apply valid_map_singleton].
Qed.

Lemma keeps_record_feed feed : keeps_chain (record_feed_tx feed).
Proof.
  apply keeps_after_quiet; [apply quiet_upsert|]. intros n. apply keeps_after_check. intros _.
  apply quiet_keeps, quiet_update.
Qed.

Lemma keeps_record_failure now code : keeps_chain (record_failure_tx now code).
Proof.
  apply keeps_after_quiet; [apply quiet_readSettings|]. intros current.
  apply keeps_after_quiet; [apply quiet_update|]. intros _. case_decide; [by apply quiet_keeps|].
  apply keeps_audit, valid_map_singleton; [done|apply FormatUint_valid].
Qed.

Lemma keeps_reset now by_ : keeps_chain (reset_sequences_tx now by_).
Proof.
  intros db. unfold reset_sequences_tx. cbv zeta. generalize (Z.of_nat (size (db_update_sequences db))). intros n.
  revert db. apply keeps_after_quiet; [apply quiet_set_sequences|]. intros _.
  apply keeps_after_quiet; [apply quiet_update|]. intros _.
  apply keeps_before_quiet; [apply keeps_audit, valid_map_singleton; [done|apply FormatUint_valid]|done].
Qed.

(** ** The store *)

(** The last check, if there was one, was of a part of the log that is still there. *)
Definition store_ok (s : store) : Prop :=
  chained (log_of s) ∧
  ∀ state, st_auditState s = Some state → ∃ pre more, log_of s = pre ++ more ∧ state = whole_state pre.

Lemma on_db_ok {A} (m : bool → M database A) s :
  keeps_chain (m (st_closed s)) →
  (length (log_of s) ≤ length (log_of (on_db m s)))%nat ∧
  (countable_log (log_of s) → store_ok s → store_ok (on_db m s)).
Proof.
  intros Hm. specialize (Hm (st_db s)) as [Hl Hc]. split; [done|]. intros Hn [Hch Hst].
  destruct (Hc Hch Hn) as [Hch' [more Hmore]]. split; [done|]. intros state Hs.
  destruct (Hst state Hs) as (pre & more' & Hpre & ->). exists pre, (more' ++ more).
  unfold log_of in *. cbn. by rewrite Hmore, Hpre, app_assoc.
Qed.

Lemma countable_prefix pre more : countable_log (pre ++ more) → countable_log pre.
Proof. unfold countable_log. rewrite length_app. lia. Qed.

Lemma visible_whole log : chained log → visible log = log.
Proof. intros Hc. pose proof (visible_chained log [] Hc) as E. by rewrite !app_nil_r in E. Qed.

(** A full check of a whole log. *)
Lemma scan_whole log :
  chained log → countable_log log →
  scan_result (foldl (λ a row, consume row a) newAuditScan (visible log)) = whole_report log ∧
  sc_head (foldl (λ a row, consume row a) newAuditScan (visible log)) = head_of log.
Proof.
  intros Hc Hl. destruct (verify_full_spec log) as [(_ & ? & ?)|[Hn _]]; rewrite ?visible_whole in * by done; done.
Qed.

Lemma verifyAuditFull_whole s :
  chained (log_of s) → countable_log (log_of s) →
  verifyAuditFull None s = (Ok (whole_report (log_of s)), set_auditState (Some (whole_state (log_of s))) s).
Proof.
  intros Hc Hl. destruct (scan_whole _ Hc Hl) as [Hr Hh]. unfold verifyAuditFull, remember, whole_state.
  fold (log_of s). rewrite scanAudit_full. by rewrite Hr, Hh.
Qed.

Lemma chained_tail pre more x : chained (pre ++ more) → x ∈ more → Z.of_nat (length pre) < ar_seq x.
Proof.
  intros Hc [i Hi]%list_elem_of_lookup. rewrite (chained_seq (pre ++ more) (length pre + i) x Hc); [lia|].
  by rewrite lookup_app_r, Nat.add_sub_swap, Nat.sub_diag by lia.
Qed.

Lemma VerifyAuditIncremental_whole s :
  st_closed s = false → store_ok s → countable_log (log_of s) →
  VerifyAuditIncremental None s = (Ok (whole_report (log_of s)), set_auditState (Some (whole_state (log_of s))) s).
Proof.
  intros Hcl [Hc Hst] Hl. unfold VerifyAuditIncremental. rewrite Hcl.
  destruct (st_auditState s) as [state|] eqn:Es; [|by apply verifyAuditFull_whole].
  destruct (Hst state eq_refl) as (pre & more & Hlog & ->).
  change (match scanAudit None (log_of s) (resume (whole_state pre)) (Z.of_nat (length pre)) (head_to_check pre) with
          | Err e => (Err e, s)
          | Ok scan => (Ok (scan_result scan), set_auditState (remember scan) s)
          end = (Ok (whole_report (log_of s)), set_auditState (Some (whole_state (log_of s))) s)).
  destruct (incremental_scan pre more) as [hash E].
  { apply (chained_prefix _ more). by rewrite <- Hlog. }
  { by rewrite <- Hlog. }
  { intros x Hx. apply (chained_tail _ more); [by rewrite <- Hlog|done]. }
  rewrite <- Hlog in E. rewrite E. unfold remember, whole_state.
  rewrite scan_result_set_hash. destruct (scan_whole _ Hc Hl) as [-> Hh]. cbn [set_hash sc_head]. by rewrite Hh.
Qed.

Lemma store_exec_ok c s :
  call_ok c →
  (length (log_of s) ≤ length (log_of (store_exec c s)))%nat ∧
  (countable_log (log_of s) → store_ok s → store_ok (store_exec c s)).
Proof.
  assert (∀ st, log_of (set_auditState st s) = log_of s) as Hlog by done.
  assert (store_ok s → store_ok (set_auditState None s)) as Hnone by (intros [? _]; split; [done|intros ? [=]]).
  assert (store_ok s → store_ok (set_auditState (Some (whole_state (log_of s))) s)) as Hsome.
  { intros [? _]. split; [done|]. intros state [= <-]. exists (log_of s), []. rewrite Hlog. by rewrite app_nil_r. }
  destruct c as [fault now input|fault|fault|fault now by_ change|fault now by_ enabled|fault feed|fault now code|fault now by_|];
    intros Hc; cbn [store_exec].
  - apply on_db_ok, keeps_write, keeps_append, Hc.
  - unfold VerifyAudit. destruct (read (st_closed s)); [|done].
    destruct fault; [by split; [|intros _; apply Hnone]|].
    split; [done|]. intros Hl Hok. rewrite verifyAuditFull_whole by (done || apply Hok). by apply Hsome.
  - unfold VerifyAuditIncremental. destruct (st_closed s) eqn:Ecl; [done|]. cbn [read].
    destruct fault as [e|].
    + destruct (st_auditState s) as [state|] eqn:Es; [|by split; [|intros _; apply Hnone]].
      cbn. by destruct (negb _).
    + split.
      * destruct (st_auditState s) as [state|]; [|done]. cbn. by destruct (negb _).
      * intros Hl Hok. pose proof (VerifyAuditIncremental_whole s Ecl Hok Hl) as E.
        unfold VerifyAuditIncremental in E. rewrite Ecl in E. cbn [read] in E. rewrite E. by apply Hsome.
  - apply on_db_ok, keeps_write, keeps_configure.
  - apply on_db_ok, keeps_write, keeps_setup.
  - apply on_db_ok, keeps_after_check. intros _. apply keeps_write, keeps_record_feed.
  - apply on_db_ok, keeps_after_check. intros _. apply keeps_write, keeps_record_failure.
  - apply on_db_ok, keeps_write, keeps_reset.
  - done.
Qed.

Lemma reachable_ok s : store_reachable s → countable_log (log_of s) → store_ok s.
Proof.
  induction 1 as [|s c _ IH Hc]; intros Hl; [split; [constructor|done]|].
  destruct (store_exec_ok c s Hc) as [Hlen Hok].
  assert (countable_log (log_of s)) by (unfold countable_log in *; lia). auto.
Qed.

Lemma visible_visible table : visible (visible table) = visible table.
Proof. apply filter_all. intros x [? _]%list_elem_of_filter. done. Qed.

(** Rows the check does not see do not matter to it. *)
Lemma scanAudit_visible fault table scan from verified :
  scanAudit fault table scan from verified = scanAudit fault (visible table) scan from verified.
Proof.
  unfold scanAudit. destruct fault; [done|]. unfold visible.
  by rewrite (list_filter_filter_l (λ row, Z.max from 1 ≤ ar_seq row) (λ row, 1 ≤ ar_seq row)) by (intros; lia).
Qed.

(** ** Properties *)

(** C32: whatever the owners, the devices and the background jobs do to the store, and whichever of its
    operations fail half-way, the audit log that results passes the full check and the incremental check,
    with one report: no break, one row per entry, and the hash of the last row as the head. *)
Theorem audit_log_always_verifies s :
  store_reachable s → st_closed s = false → countable_log (log_of s) →
  (VerifyAudit None s).1 = Ok (whole_report (log_of s)) ∧
  (VerifyAuditIncremental None s).1 = Ok (whole_report (log_of s)) ∧
  verifyAudit None (log_of s) = Ok (whole_report (log_of s)).
Proof.
  intros Hr Hcl Hl. pose proof (reachable_ok s Hr Hl) as Hok. pose proof (proj1 Hok) as Hc. split_and!.
  - unfold VerifyAudit. rewrite Hcl. cbn [read]. change (rfail_if _ _) with (@Ok unit tt). by rewrite verifyAuditFull_whole.
  - by rewrite VerifyAuditIncremental_whole.
  - unfold verifyAudit. rewrite scanAudit_full. cbn [rbind]. by rewrite (proj1 (scan_whole _ Hc Hl)).
Qed.

(** C33: the report of a check commits to the rows it read.  Two tables that both pass the check, with as many
    rows and the same head hash, say the same in every row that the check reads, which are the rows numbered
    from one: the same actor, action, target, detail and time in the same order, or there is a collision of
    SHA-256.  A row numbered below one is outside the check and so outside this property
    ([rows_below_one_are_not_checked]). *)
Theorem audit_report_commits table table' report report' :
  verifyAudit None table = Ok report → verifyAudit None table' = Ok report' →
  countable_log (visible table) → countable_log (visible table') →
  rp_OK report = true → rp_OK report' = true →
  rp_Rows report = rp_Rows report' → rp_HeadHash report = rp_HeadHash report' →
  Forall2 reads_same (visible table) (visible table') ∨ collision.
Proof.
  unfold verifyAudit. rewrite !scanAudit_full. cbn [rbind]. intros [= <-] [= <-] Hl Hl' Ho Ho' Hrows Hhead.
  destruct (verify_full_spec table Hl) as [(Hc & E & _)|(_ & E & _)]; [|congruence].
  destruct (verify_full_spec table' Hl') as [(Hc' & E' & _)|(_ & E' & _)]; [|congruence].
  rewrite E, E' in Hrows, Hhead. cbn in Hrows, Hhead. apply hex_inj in Hhead.
  destruct (chained_commits _ _ Hc Hc' ltac:(lia) Hhead) as [Hall|]; [left|by right].
  apply Forall2_same_length_lookup in Hall as [Hlen Hall]. apply Forall2_same_length_lookup. split; [done|].
  intros i x y Hx Hy. apply same_entry_reads; [|by eapply Hall]. apply (chained_content (visible table)); [done|].
  by eapply list_elem_of_lookup_2.
Qed.

(** C34: checking from where the last check ended is as good as checking everything.  After a check that
    found the log whole, whatever becomes of the table: if the checked rows are still there, the incremental
    check gives the very report of a full check, breaks in the new rows included; and whenever the
    incremental check succeeds, its first row says what the last checked row said (or there is a collision of
    SHA-256) and the rows after it continue the chain that was checked. *)
Theorem incremental_check_is_enough s0 report s1 s :
  VerifyAudit None s0 = (Ok report, s1) → rp_OK report = true → visible (log_of s0) ≠ [] →
  st_closed s = false → st_auditState s = st_auditState s1 →
  countable_log (visible (log_of s0)) → countable_log (visible (log_of s0) ++ visible (log_of s)) →
  (∀ more, visible (log_of s) = visible (log_of s0) ++ more → (∀ x, x ∈ more → rp_HeadSeq report < ar_seq x) →
     (VerifyAuditIncremental None s).1 = (VerifyAudit None s).1) ∧
  (∀ report', (VerifyAuditIncremental None s).1 = Ok report' → rp_OK report' = true →
     ∃ row last_checked more,
       last (visible (log_of s0)) = Some last_checked ∧
       filter (λ x, rp_HeadSeq report ≤ ar_seq x) (visible (log_of s)) = row :: more ∧
       (reads_same row last_checked ∨ collision) ∧ chained (visible (log_of s0) ++ more)).
Proof.
  intros Hv Ho Hne Hcl Hst Hl0 Hl. destruct (st_closed s0) eqn:Ecl0.
  { unfold VerifyAudit in Hv. rewrite Ecl0 in Hv. discriminate Hv. }
  unfold VerifyAudit, verifyAuditFull in Hv. rewrite Ecl0 in Hv. fold (log_of s0) in Hv. rewrite scanAudit_full in Hv.
  change (read false) with (@Ok unit tt) in Hv. injection Hv as <- <-. cbn [st_auditState set_auditState] in Hst.
  destruct (verify_full_spec (log_of s0) Hl0) as [(Hc & E & Eh)|(_ & E & _)]; [|congruence].
  unfold remember in Hst. rewrite E, Eh in *. fold (whole_state (visible (log_of s0))) in Hst.
  set (log := visible (log_of s0)) in *. cbn [whole_report rp_HeadSeq].
  assert ((VerifyAuditIncremental None s).1 =
    match scanAudit None (visible (log_of s)) (resume (whole_state log)) (Z.of_nat (length log)) (head_to_check log) with
    | Err e => Err e | Ok scan => Ok (scan_result scan) end) as Hinc.
  { rewrite <- scanAudit_visible. unfold VerifyAuditIncremental. rewrite Hcl, Hst. by destruct (scanAudit _ _ _ _ _). }
  rewrite Hinc. clear Hinc. split.
  - intros more Hmore Hseq. rewrite Hmore. destruct (incremental_scan log more Hc) as [hash ->]; [|done|].
    + unfold countable_log in *. rewrite <- Hmore. rewrite length_app in Hl. lia.
    + unfold VerifyAudit, verifyAuditFull. rewrite Hcl. fold (log_of s). rewrite scanAudit_full.
      change (read false) with (@Ok unit tt). cbn [fst]. rewrite scan_result_set_hash. do 3 f_equal.
      rewrite <- Hmore. apply visible_visible.
  - intros report' Hr Hok. destruct log as [|r log' _] eqn:Elog using rev_ind; [done|].
    destruct (scanAudit None (visible (log_of s)) _ _ _) as [scan|] eqn:Es; [|done]. injection Hr as <-.
    destruct (incremental_sound (visible (log_of s)) log' r scan) as (row & more & Hf & Hsame & Hch);
      [done| |done|done|].
    + unfold countable_log in *. rewrite visible_visible. rewrite !length_app in *. cbn [length] in *. lia.
    + exists row, r, more. rewrite last_snoc. split_and!; [done|exact Hf| |done].
      destruct Hsame as [Hsame|]; [left|by right]. apply same_entry_reads; [|done].
      destruct Hsame as (_ & _ & _ & ->). apply (chained_content (log' ++ [r])); [done|set_solver].
Qed.

(** A row numbered below one is outside of every check, yet the listing shows it. *)
Theorem rows_below_one_are_not_checked row table fault :
  ar_seq row < 1 → (length table < 50)%nat → Forall (λ r, ar_seq r < 2 ^ 62 - 1) table →
  verifyAudit fault (row :: table) = verifyAudit fault table ∧
  ∃ page, ListAudit false None (row :: table) 0 0 = Ok page ∧ entry_of row ∈ pg_Entries page.
Proof.
  intros Hs Hn Ht. split.
  - unfold verifyAudit. rewrite (scanAudit_visible fault (row :: table)), (scanAudit_visible fault table).
    unfold visible. by rewrite filter_cons_False by lia.
  - unfold ListAudit. change (read false) with (@Ok unit tt). cbn [rbind]. cbv zeta.
    rewrite !(decide_True (P := 0 ≤ 0)) by done. rewrite (decide_False (P := defaultAuditPage > maxAuditPage)) by (vm_compute; congruence).
    assert (filter (λ r, ar_seq r < 2 ^ 62 - 1) (row :: table) = row :: table) as ->.
    { apply filter_all. intros x [->|Hx]%elem_of_cons; [lia|]. by eapply (proj1 (Forall_forall _ _) Ht). }
    rewrite take_ge by (rewrite length_reverse; cbn [length]; unfold defaultAuditPage; lia).
    rewrite decide_False by (rewrite length_fmap, length_reverse; cbn [length]; unfold defaultAuditPage; lia).
    eexists. split; [done|]. cbn [pg_Entries]. apply list_elem_of_fmap_2. rewrite elem_of_reverse. by left.
Qed.

End Store.
