(* ===== verification/Feed.v ===== *)
(** * The signed update feed: internal/selfhost/updates/feed.go, keys.go, registry.go and the URL rules of
      fetch.go

    A feed is an envelope with a payload, a signature and the name of the key.  It is accepted when the
    key is pinned, the signature is over the payload with the feed's context in front, and the payload
    passes every rule.  The reflection-driven codec of [encoding/json] and [net/url] are parameters; a
    map of keys is a finite map. *)

From stdpp Require Import base list gmap strings pretty.
From Stdlib Require Import ZArith Lia Ascii Strings.Byte.
From S2P Require Import Prelude GoStd GoText Canonical Wire SemVer Json SelfStore UpdateStore.
Local Open Scope Z_scope.
Local Open Scope go_scope.

(** ** Keys: keys.go *)
Notation Keys := (gmap string bytes).

Definition key_id_char (c : ascii) : bool :=
  bool_decide (97 ≤ ascii_Z c ≤ 122 ∨ 65 ≤ ascii_Z c ≤ 90 ∨ 48 ≤ ascii_Z c ≤ 57
               ∨ c = "-"%char ∨ c = "_"%char ∨ c = "."%char).
Definition ValidKeyID (value : string) : bool :=
  if decide (value = "" ∨ len value > 64) then false else str_forall key_id_char value.

Fixpoint parse_keys_loop (entries : list string) (keys : Keys) : result Keys :=
  match entries with
  | [] => Ok keys
  | entry :: entries =>
      let '(id, encoded, found) := Cut ":" (TrimSpace entry) in
      check rfail_if (found = false ∨ ValidKeyID id = false) [];
      match DecodeString encoded with
      | None => Err []
      | Some raw =>
          check rfail_if (Z.of_nat (length raw) ≠ Ed25519PublicKeyBytes) [];
          check rfail_if (is_Some (keys !! id)) [];
          parse_keys_loop entries (<[id := raw]> keys)
      end
  end.

Definition ParseKeys (list : string) : result Keys :=
  let list := TrimSpace list in
  if decide (list = "") then Ok ∅
  else
    check rfail_if (contains_newline list = true) [];
    parse_keys_loop (Split "," list) ∅.

Definition FormatKey (id : string) (key : bytes) : string := id +:+ ":" +:+ EncodeToString key.

(** ** Products: registry.go *)
Definition ServerProductID : string := "sesame-server".

Record ProductSpec := { ps_ID : string; ps_Channels : list string }.
Definition HasChannel (p : ProductSpec) (channel : string) : bool := bool_decide (channel ∈ ps_Channels p).

Notation Registry := (gmap string ProductSpec).

Definition validProductID (value : string) : bool :=
  if decide (value = "" ∨ len value > 64 ∨ first_char value = Some "-"%char) then false
  else str_forall lower_or_digit_or_dash value.

Definition Register (r : Registry) (spec : ProductSpec) : result Registry :=
  check rfail_if (validProductID (ps_ID spec) = false) [];
  check rfail_if (ps_Channels spec = []) [];
  check rfail_if (forallb ValidUpdateChannel (ps_Channels spec) = false) [];
  check rfail_if (is_Some (r !! ps_ID spec)) [];
  Ok (<[ps_ID spec := spec]> r).

(** [DefaultRegistry]: registering the server's own product cannot fail. *)
Definition server_spec : ProductSpec := {| ps_ID := ServerProductID; ps_Channels := [ChannelStable; ChannelBeta] |}.
Definition DefaultRegistry : Registry :=
  match Register ∅ server_spec with Ok r => r | Err _ => ∅ end.

(** [IDs], in the order of their bytes. *)
Definition string_le (a b : string) : Prop := string_compare a b ≠ Gt.
#[export] Instance string_le_dec a b : Decision (string_le a b).
Proof. unfold string_le. apply _. Defined.
Definition registry_IDs (r : Registry) : list string := sorting.merge_sort string_le ((map_to_list r).*1).

(** ** The feed *)
Definition FeedSchemaVersion : Z := 1.
Definition MaxFeedBytes : Z := Z.shiftl 256 10.
Definition MaxFeedLifetime : Z := 45 * 24 * 3600 * second.
Definition MaxIssuedSkew : Z := 10 * 60 * second.
Definition MaxSequence : Z := 1000000000.
Definition maxURLBytes : Z := 2048.
Definition maxImagesPerRelease : Z := 8.
Definition maxBinariesPerRelease : Z := 32.
Definition maxProducts : Z := 32.
Definition signingContext : string := "sesame-update-feed-v1" +:+ String "010" "".

Record Envelope := { ev_Payload : string; ev_Signature : string; ev_KeyID : string }.
Record Image := { im_Ref : string }.
Record Binary := { bi_OS : string; bi_Arch : string; bi_URL : string; bi_SHA256 : string }.
Record Release := {
  re_Version : string; re_PublishedAt : time; re_NotesURL : string; re_Security : bool;
  re_MinimumFrom : string; re_Images : list Image; re_Binaries : list Binary }.
Record Product := { pr_ID : string; pr_Channels : gmap string Release }.
Record Payload := {
  pl_SchemaVersion : Z; pl_Sequence : Z; pl_IssuedAt : time; pl_ExpiresAt : time; pl_Products : list Product }.
Record Document := { do_Payload : Payload; do_Envelope : Envelope; do_Raw : bytes }.

(** [^[0-9a-f]{64}$], [^[a-z0-9][a-z0-9._/:-]{0,254}$] and [^[a-z0-9]{2,16}$]. *)
Definition lower_or_digit (c : ascii) : bool := bool_decide (97 ≤ ascii_Z c ≤ 122 ∨ 48 ≤ ascii_Z c ≤ 57).
Definition hex_digit (c : ascii) : bool := bool_decide (48 ≤ ascii_Z c ≤ 57 ∨ 97 ≤ ascii_Z c ≤ 102).
Definition sha256Pattern (s : string) : bool := bool_decide (len s = 64) && str_forall hex_digit s.
Definition image_name_char (c : ascii) : bool :=
  lower_or_digit c || bool_decide (c ∈ ["."; "_"; "/"; ":"; "-"]%char).
Definition imageNamePattern (s : string) : bool :=
  match s with
  | "" => false
  | String c rest => lower_or_digit c && bool_decide (len rest ≤ 254) && str_forall image_name_char rest
  end.
Definition platformPattern (s : string) : bool := bool_decide (2 ≤ len s ≤ 16) && str_forall lower_or_digit s.

Definition ValidImageRef (ref : string) : bool :=
  let '(name, digest, found) := CutString "@sha256:" ref in
  found && imageNamePattern name && sha256Pattern digest.

(** What the code reads of a parsed URL. *)
Record URL := {
  url_Scheme : string; url_Host : string; url_Hostname : string; url_has_User : bool; url_Opaque : string;
  url_Fragment : string; url_RawQuery : string; url_ForceQuery : bool }.

(** Characters a URL in the feed must not hold, beside spaces, control characters and what is not ASCII. *)
Definition url_forbidden : list ascii :=
  ["'"; "034"; "`"; "\"; "<"; ">"; "{"; "}"; "["; "]"; "|"; "^"]%char.
Definition url_char (c : ascii) : bool :=
  negb (bool_decide (ascii_Z c ≤ 32 ∨ 127 ≤ ascii_Z c ∨ c ∈ url_forbidden)).

(** [net/url]'s [Parse], and the codec of [encoding/json] for the payload. *)
Class FeedHost := {
  url_Parse : string → option URL;
  envelope_decodes :: Decodes Envelope;
  payload_decodes :: Decodes Payload;
  Marshal_payload : Payload → option bytes;
}.

Section Feed.
Context `{Crypto} `{FeedHost} `{MapRange}.

Definition invalid_feed : error := [updates_ErrInvalid].

Definition validateURL (raw : string) : result unit :=
  check rfail_if (raw = "" ∨ len raw > maxURLBytes) [];
  check rfail_if (str_forall url_char raw = false) [];
  match url_Parse raw with
  | None => Err []
  | Some parsed =>
      rfail_if (url_Scheme parsed ≠ "https" ∨ url_Host parsed = "" ∨ url_Hostname parsed = ""
                ∨ url_has_User parsed = true ∨ url_Opaque parsed ≠ "" ∨ url_Fragment parsed ≠ "") []
  end.

(** The loop over the binaries, with the platforms seen so far. *)
Fixpoint validate_binaries (binaries : list Binary) (platforms : gset string) : result unit :=
  match binaries with
  | [] => Ok tt
  | binary :: binaries =>
      check rfail_if (platformPattern (bi_OS binary) = false ∨ platformPattern (bi_Arch binary) = false) [];
      check rfail_if (bi_OS binary +:+ "/" +:+ bi_Arch binary ∈ platforms) [];
      check validateURL (bi_URL binary);
      check rfail_if (sha256Pattern (bi_SHA256 binary) = false) [];
      validate_binaries binaries ({[ bi_OS binary +:+ "/" +:+ bi_Arch binary ]} ∪ platforms)
  end.

Definition validateRelease (release : Release) : result unit :=
  let? _ := ParseVersion (re_Version release) in
  check rfail_if (re_PublishedAt release = zero_time) [];
  check validateURL (re_NotesURL release);
  check rfail_if (re_MinimumFrom release ≠ "" ∧ ValidVersion (re_MinimumFrom release) = false) [];
  check rfail_if (Z.of_nat (length (re_Images release)) > maxImagesPerRelease) [];
  check rfail_if (forallb (λ image, ValidImageRef (im_Ref image)) (re_Images release) = false) [];
  check rfail_if (Z.of_nat (length (re_Binaries release)) > maxBinariesPerRelease) [];
  validate_binaries (re_Binaries release) ∅.

(** The channels of a product that its registration names. *)
Fixpoint validate_channels (spec : ProductSpec) (channels : list (string * Release)) : result unit :=
  match channels with
  | [] => Ok tt
  | (channel, release) :: channels =>
      check (if HasChannel spec channel then orelse invalid_feed (validateRelease release) else Ok tt);
      validate_channels spec channels
  end.

Fixpoint validate_products (registry : Registry) (products : list Product) (seen : gset string) : result (gset string) :=
  match products with
  | [] => Ok seen
  | product :: products =>
      check rfail_if (validProductID (pr_ID product) = false) invalid_feed;
      check rfail_if (pr_ID product ∈ seen) invalid_feed;
      let seen := {[ pr_ID product ]} ∪ seen in
      check (match registry !! pr_ID product with
             | None => Ok tt
             | Some spec => validate_channels spec (range_map (pr_Channels product))
             end);
      validate_products registry products seen
  end.

Definition ValidatePayload (payload : Payload) (registry : Registry) : result unit :=
  check rfail_if (pl_SchemaVersion payload ≠ FeedSchemaVersion) invalid_feed;
  check rfail_if (pl_Sequence payload < 1 ∨ pl_Sequence payload > MaxSequence) invalid_feed;
  check rfail_if (pl_IssuedAt payload = zero_time ∨ pl_ExpiresAt payload = zero_time) invalid_feed;
  check rfail_if (¬ (pl_ExpiresAt payload > pl_IssuedAt payload)
                  ∨ pl_ExpiresAt payload - pl_IssuedAt payload > MaxFeedLifetime) invalid_feed;
  check rfail_if (pl_Products payload = [] ∨ Z.of_nat (length (pl_Products payload)) > maxProducts) invalid_feed;
  let? seen := validate_products registry (pl_Products payload) ∅ in
  rfail_if (forallb (λ id, bool_decide (id ∈ seen)) (registry_IDs registry) = false) invalid_feed.

Definition signedMessage (payload : bytes) : bytes := bytes_of signingContext ++ payload.

(** [json.Marshal(envelope)]. *)
Definition Marshal_envelope (e : Envelope) : bytes :=
  bytes_of (Marshal_object [("payload", Marshal_string (ev_Payload e));
                            ("signature", Marshal_string (ev_Signature e));
                            ("keyId", Marshal_string (ev_KeyID e))]).

(** One JSON value and nothing after it. *)
Definition decode_only {T} `{Decodes T} (body : bytes) : result T :=
  match Decode body with
  | None => Err invalid_feed
  | Some (value, rest) => check rfail_if (forallb json_space rest = false) invalid_feed; Ok value
  end.

(** [Verifier.Open]. *)
Definition Open (keys : Keys) (registry : Registry) (body : bytes) : result Document :=
  check rfail_if (Z.of_nat (length body) > MaxFeedBytes) invalid_feed;
  let? envelope := decode_only body in
  match keys !! ev_KeyID envelope with
  | None => Err invalid_feed
  | Some key =>
      check rfail_if (contains_newline (ev_Payload envelope) = true
                      ∨ contains_newline (ev_Signature envelope) = true) invalid_feed;
      match DecodeString (ev_Payload envelope), DecodeString (ev_Signature envelope) with
      | Some payloadBytes, Some signature =>
          check rfail_if (payloadBytes = []) invalid_feed;
          check rfail_if (Z.of_nat (length signature) ≠ Ed25519SignatureBytes) invalid_feed;
          check rfail_if (ed25519_Verify key (signedMessage payloadBytes) signature = false) invalid_feed;
          let? payload := decode_only payloadBytes in
          check ValidatePayload payload registry;
          Ok {| do_Payload := payload; do_Envelope := envelope; do_Raw := Marshal_envelope envelope |}
      | _, _ => Err invalid_feed
      end
  end.

Definition CheckFresh (payload : Payload) (now : time) : result unit :=
  check rfail_if (pl_IssuedAt payload > now + MaxIssuedSkew) invalid_feed;
  rfail_if (now > pl_ExpiresAt payload) [updates_ErrExpired].

(** [Verifier.Verify]. *)
Definition Verify (keys : Keys) (registry : Registry) (body : bytes) (now : time) : result Document :=
  let? document := Open keys registry body in
  check CheckFresh (do_Payload document) now;
  Ok document.

Definition Sign (payload : Payload) (keyID : string) (key : bytes) : result bytes :=
  check rfail_if (ValidKeyID keyID = false) [];
  check rfail_if (Z.of_nat (length key) ≠ 64) [];
  match Marshal_payload payload with
  | None => Err []
  | Some payloadBytes =>
      Ok (Marshal_envelope {| ev_Payload := EncodeToString payloadBytes;
                              ev_Signature := EncodeToString (ed25519_Sign key (signedMessage payloadBytes));
                              ev_KeyID := keyID |})
  end.

(** [Payload.Release]: the first product with the id decides. *)
Fixpoint find_release (products : list Product) (productID channel : string) : option Release :=
  match products with
  | [] => None
  | product :: products =>
      if decide (pr_ID product = productID) then pr_Channels product !! channel
      else find_release products productID channel
  end.
Definition Payload_Release (p : Payload) (productID channel : string) : option Release :=
  find_release (pl_Products p) productID channel.

(** ** The feed's address: fetch.go *)
Definition ParseFeedURL (raw : string) : result URL :=
  let raw := TrimSpace raw in
  check rfail_if (raw = "" ∨ len raw > maxURLBytes) [];
  check rfail_if (str_forall (λ c, negb (bool_decide (ascii_Z c ≤ 32 ∨ 127 ≤ ascii_Z c))) raw = false) [];
  match url_Parse raw with
  | None => Err []
  | Some parsed =>
      check rfail_if (url_Scheme parsed ≠ "https" ∨ url_Hostname parsed = "" ∨ url_Opaque parsed ≠ "") [];
      check rfail_if (url_has_User parsed = true) [];
      check rfail_if (url_RawQuery parsed ≠ "" ∨ url_ForceQuery parsed = true ∨ url_Fragment parsed ≠ "") [];
      Ok parsed
  end.

(** What [Fetch] makes of the answer of the HTTP client: [None] when the request failed. *)
Record feed_response := {
  fr_StatusCode : Z; fr_ContentLength : Z; fr_Body : bytes; fr_BodyFails : bool }.
Definition Fetch (answer : option feed_response) : result bytes :=
  match answer with
  | None => Err []
  | Some response =>
      check rfail_if (fr_StatusCode response ≠ 200) [];
      check rfail_if (fr_ContentLength response > MaxFeedBytes) invalid_feed;
      (* [io.LimitReader] stops reading after [MaxFeedBytes+1] bytes *)
      let body := take (Z.to_nat (MaxFeedBytes + 1)) (fr_Body response) in
      check rfail_if (fr_BodyFails response = true ∧ Z.of_nat (length (fr_Body response)) ≤ MaxFeedBytes) [];
      check rfail_if (Z.of_nat (length body) > MaxFeedBytes) invalid_feed;
      Ok body
  end.

End Feed.
