(* ===== verification/UpdateService.v ===== *)
(** * The update service: internal/selfhost/updates/service.go and install.go

    What the owner is told about updates, how a check of the feed runs and what it leaves in the store,
    and the commands an update is installed with.  A call gets the instant its clock shows, the answer of
    the feed's server, the error of its context if that has ended, and the faults its calls of the store
    run into, in order. *)

From stdpp Require Import base list gmap strings pretty.
From Stdlib Require Import ZArith Lia Ascii Strings.Byte.
From S2P Require Import Prelude GoStd GoText Canonical Wire SemVer Json SelfStore UpdateStore Feed.
Local Open Scope Z_scope.
Local Open Scope go_scope.

(** ** Commands: install.go *)
Inductive InstallKind := InstallContainer | InstallBinary.
#[export] Instance InstallKind_eq_dec : EqDecision InstallKind.
Proof. solve_decision. Defined.

Definition dockerEnvPath : string := "/.dockerenv".
Definition defaultExecutable : string := "/usr/local/bin/sesame-server".
Definition defaultServiceName : string := "sesame-server".
Definition downloadName : string := "sesame-server.new".
Definition imageTagVariable : string := "SESAME_IMAGE_TAG".
Definition dquote : string := String quote "".
Definition pulledDigestCommand : string :=
  "docker image inspect --format '{{range .RepoDigests}}{{println .}}{{end}}' " +:+ dquote +:+
  "$(docker compose config --images)" +:+ dquote.

(** [unicode.ToLower], on the runes whose lower case is ASCII; the others stay outside of ASCII. *)
Definition lower_rune (r : Z) : Z :=
  if decide (65 ≤ r ≤ 90) then r + 32
  else if decide (r = 304) then 105
  else if decide (r = 8490) then 107
  else r.

Definition ParseInstallKind (value : string) : option InstallKind :=
  let lowered := lower_rune <$> runes (TrimSpace value) in
  if decide (lowered = runes "container") then Some InstallContainer
  else if decide (lowered = runes "binary") then Some InstallBinary
  else None.

Definition DetectInstallKind (setting : string) (exists_ : string → bool) : InstallKind :=
  match ParseInstallKind setting with
  | Some kind => kind
  | None => if exists_ dockerEnvPath then InstallContainer else InstallBinary
  end.

Record Command := { cm_Label : string; cm_Text : string }.
Record Platform := { pf_OS : string; pf_Arch : string; pf_Executable : string }.

(** [strings.ReplaceAll(value, "'", `'\''`)]. *)
Fixpoint replace_quotes (s : string) : string :=
  match s with
  | "" => ""
  | String c s => (if decide (c = "'"%char) then "'\''" else String c "") +:+ replace_quotes s
  end.
Definition shellQuote (value : string) : string := "'" +:+ replace_quotes value +:+ "'".

Definition containerCommands (release : Release) : list Command :=
  [{| cm_Label := "Set the new version in the settings your compose file reads";
      cm_Text := imageTagVariable +:+ "=" +:+ re_Version release |};
   {| cm_Label := "Pull the image, in the directory that holds your compose file"; cm_Text := "docker compose pull" |};
   {| cm_Label := "Print the digest of the image you pulled"; cm_Text := pulledDigestCommand |}]
  ++ (match re_Images release with
      | [] => []
      | image :: _ => [{| cm_Label := "Image named in the signed feed, to compare with the digest above";
                          cm_Text := im_Ref image |}]
      end)
  ++ [{| cm_Label := "Start the server on the new image, in the same directory"; cm_Text := "docker compose up -d" |}].

Fixpoint match_binary (binaries : list Binary) (platform : Platform) : option Binary :=
  match binaries with
  | [] => None
  | b :: binaries =>
      if decide (bi_OS b = pf_OS platform ∧ bi_Arch b = pf_Arch platform) then Some b
      else match_binary binaries platform
  end.

Definition binaryCommands (release : Release) (platform : Platform) : list Command :=
  match match_binary (re_Binaries release) platform with
  | None => []
  | Some found =>
      let executable := if decide (pf_Executable platform = "") then defaultExecutable else pf_Executable platform in
      let compare := if decide (pf_OS platform = "darwin") then "shasum -a 256 -c -" else "sha256sum -c -" in
      [{| cm_Label := "Download the program";
          cm_Text := "curl -fsSLo " +:+ downloadName +:+ " --proto '=https' --proto-redir '=https' " +:+
                     shellQuote (bi_URL found) |};
       {| cm_Label := "Compare it with the SHA-256 in the signed feed";
          cm_Text := "echo '" +:+ bi_SHA256 found +:+ "  " +:+ downloadName +:+ "' | " +:+ compare |};
       {| cm_Label := "Replace the installed program";
          cm_Text := "sudo install -m 0755 " +:+ downloadName +:+ " " +:+ shellQuote executable |};
       {| cm_Label := "Restart the service"; cm_Text := "sudo systemctl restart " +:+ defaultServiceName |}]
  end.

Definition Commands (kind : InstallKind) (release : Release) (platform : Platform) : list Command :=
  match kind with
  | InstallContainer => containerCommands release
  | InstallBinary => binaryCommands release platform
  end.

(** ** The service: service.go *)
Definition CodeNotConfigured : string := "not_configured".
Definition DefaultInterval : Z := 24 * 3600 * second.
Definition DefaultRetryInterval : Z := 3600 * second.
Definition startupJitter : Z := 10 * 60 * second.

Record Options := {
  op_Registry : option Registry; op_Product : string; op_Version : string; op_Keys : Keys; op_FeedURL : string;
  op_InstallKind : option InstallKind; op_Platform : Platform; op_Interval : Z; op_Retry : Z }.

Record Service := {
  sv_registry : Registry; sv_product : string; sv_version : string; sv_keys : Keys; sv_url : URL;
  sv_kind : InstallKind; sv_platform : Platform; sv_interval : Z; sv_retry : Z; sv_configured : bool }.

Record Latest := {
  la_Version : string; la_PublishedAt : time; la_NotesURL : string; la_Security : bool; la_MinimumFrom : string;
  la_Images : list Image; la_Binaries : list Binary }.

Record Status := {
  su_Configured : bool; su_Enabled : option bool; su_Channel : string; su_InstallKind : InstallKind;
  su_Product : string; su_Version : string; su_Latest : option Latest; su_Available : bool;
  su_CheckedAt : option time; su_Error : string; su_Commands : list Command }.

(** What one call of the service meets: the clock, the feed's answer, and [cl_fault n], the fault of its
    [n]-th call of the store. *)
Record surroundings := {
  cl_now : time; cl_answer : option feed_response; cl_ctx : option error; cl_fault : nat → option error }.

(** The same call at its next reading of the clock. *)
Definition at_reading (now : time) (c : surroundings) : surroundings :=
  {| cl_now := now; cl_answer := cl_answer c; cl_ctx := cl_ctx c; cl_fault := cl_fault c |}.

Definition DefaultFeedURL : string := "https://api.usesesame.app/v1/updates/selfhost.json".

Section Service.
Context `{Crypto} `{FeedHost} `{MapRange}.

(** [New]; [goos] and [goarch] are the platform the program was built for and [executable] its path, if
    the system knows it. *)
Definition New (goos goarch : string) (executable : option string) (options : Options) : result Service :=
  let registry := default DefaultRegistry (op_Registry options) in
  let product := if decide (op_Product options = "") then ServerProductID else op_Product options in
  check rfail_if (registry !! product = None) [];
  let feedURL := if decide (op_FeedURL options = "") then DefaultFeedURL else op_FeedURL options in
  let? parsed := ParseFeedURL feedURL in
  let given := op_Platform options in
  let '(os, arch) := if decide (pf_OS given = "") then (goos, goarch) else (pf_OS given, pf_Arch given) in
  let path := if decide (pf_Executable given = "") then default "" executable else pf_Executable given in
  Ok {| sv_registry := registry; sv_product := product; sv_version := op_Version options; sv_keys := op_Keys options;
        sv_url := parsed; sv_kind := default InstallBinary (op_InstallKind options);
        sv_platform := {| pf_OS := os; pf_Arch := arch; pf_Executable := path |};
        sv_interval := if decide (op_Interval options ≤ 0) then DefaultInterval else op_Interval options;
        sv_retry := if decide (op_Retry options ≤ 0) then DefaultRetryInterval else op_Retry options;
        sv_configured := bool_decide (op_Keys options ≠ ∅) |}.

Definition Service_HasChannel (s : Service) (channel : string) : bool :=
  match sv_registry s !! sv_product s with Some spec => HasChannel spec channel | None => false end.

Definition codeOf (e : error) : string :=
  if is_error e updates_ErrExpired then UpdateErrorExpired
  else if is_error e updates_ErrRollback then UpdateErrorRollback
  else if is_error e updates_ErrInvalid then UpdateErrorInvalid
  else UpdateErrorUnreachable.

(** The status without anything of the feed. *)
Definition base_status (s : Service) (settings : UpdateSettings) : Status :=
  {| su_Configured := sv_configured s;
     su_Enabled := if decide (us_Choice settings = UpdatesOn) then Some true
                   else if decide (us_Choice settings = UpdatesOff) then Some false else None;
     su_Channel := us_Channel settings; su_InstallKind := sv_kind s; su_Product := sv_product s;
     su_Version := sv_version s; su_Latest := None; su_Available := false; su_CheckedAt := None; su_Error := "";
     su_Commands := [] |}.

Definition with_check (error : string) (checkedAt : option time) (st : Status) : Status :=
  {| su_Configured := su_Configured st; su_Enabled := su_Enabled st; su_Channel := su_Channel st;
     su_InstallKind := su_InstallKind st; su_Product := su_Product st; su_Version := su_Version st;
     su_Latest := su_Latest st; su_Available := su_Available st; su_CheckedAt := checkedAt; su_Error := error;
     su_Commands := su_Commands st |}.

Definition with_release (latest : Latest) (available : bool) (commands : list Command) (st : Status) : Status :=
  {| su_Configured := su_Configured st; su_Enabled := su_Enabled st; su_Channel := su_Channel st;
     su_InstallKind := su_InstallKind st; su_Product := su_Product st; su_Version := su_Version st;
     su_Latest := Some latest; su_Available := available; su_CheckedAt := su_CheckedAt st; su_Error := su_Error st;
     su_Commands := commands |}.

(** [Status], once the settings were read. *)
Definition status_of (s : Service) (now : time) (settings : UpdateSettings) : Status :=
  let st := base_status s settings in
  if negb (sv_configured s) then with_check CodeNotConfigured None st
  else if decide (us_Choice settings ≠ UpdatesOn) then st
  else
    let st := with_check (us_LastError settings) (us_CheckedAt settings) st in
    if decide (us_Feed settings = []) then st
    else match Open (sv_keys s) (sv_registry s) (us_Feed settings) with
         | Err _ => st
         | Ok document =>
             match Payload_Release (do_Payload document) (sv_product s) (us_Channel settings) with
             | None => st
             | Some release =>
                 if negb (Offered (re_Version release) (us_Channel settings)) then st
                 else
                   let '(fresh, st) := match CheckFresh (do_Payload document) now with
                                       | Ok _ => (true, st)
                                       | Err e => (false, with_check (codeOf e) (su_CheckedAt st) st)
                                       end in
                   let latest := {| la_Version := re_Version release; la_PublishedAt := clock (re_PublishedAt release);
                                    la_NotesURL := re_NotesURL release; la_Security := re_Security release;
                                    la_MinimumFrom := re_MinimumFrom release; la_Images := re_Images release;
                                    la_Binaries := re_Binaries release |} in
                   let available := fresh && Newer (re_Version release) (sv_version s) in
                   with_release latest available
                     (if available then Commands (sv_kind s) release (sv_platform s) else []) st
             end
         end.

(** The calls of the store, on the service's database. *)
Definition svc_settings (closed : bool) (c : surroundings) (n : nat) : M database UpdateSettings :=
  store_UpdateSettings closed (cl_fault c n).

Definition Service_Status (s : Service) (closed : bool) (c : surroundings) (n : nat) : M database Status :=
  let! settings := svc_settings closed c n in
  mreturn (status_of s (cl_now c) settings).

Definition Service_Available (s : Service) (closed : bool) (c : surroundings) (n : nat) : M database bool :=
  λ db, match Service_Status s closed c n db with
        | (Ok status, db') => (Ok (su_Available status), db')
        | (Err _, db') => (Ok false, db')
        end.

(** [fail]: the code is returned beside the error, if there is one. *)
Definition check_fail (closed : bool) (c : surroundings) (n : nat) (code : string) : M database string :=
  match cl_ctx c with
  | Some e => mfail e
  | None =>
      run store_RecordUpdateFailure closed (cl_fault c n) (cl_now c) code;
      mreturn code
  end.

(** [runCheck], whose calls of the store are numbered from [n]. *)
Definition runCheck (s : Service) (closed : bool) (c : surroundings) (n : nat) : M database string :=
  let! settings := svc_settings closed c n in
  run mfail_if (us_Choice settings ≠ UpdatesOn) [updates_ErrOff];
  let now := cl_now c in
  match Fetch (cl_answer c) with
  | Err e => check_fail closed c (S n) (codeOf e)
  | Ok body =>
      match Verify (sv_keys s) (sv_registry s) body now with
      | Err e => check_fail closed c (S n) (codeOf e)
      | Ok document =>
          let keyID := ev_KeyID (do_Envelope document) in
          let sequence := pl_Sequence (do_Payload document) in
          if decide (sequence < default 0 (us_Sequences settings !! keyID))
          then check_fail closed c (S n) UpdateErrorRollback
          else
            let! recorded := mtry (store_RecordUpdateFeed closed (cl_fault c (S n))
                                     {| uf_Raw := do_Raw document; uf_KeyID := keyID; uf_Sequence := sequence;
                                        uf_CheckedAt := now |}) in
            match recorded with
            | Ok _ => mreturn ""
            | Err e =>
                if is_error e selfhost_ErrConflict
                then check_fail closed c (S (S n)) UpdateErrorRollback
                else mfail e
            end
      end
  end.

(** The store, the check and the status read the clock one after the other: [stored], [cl_now c], [shown]. *)
Definition Service_Configure (s : Service) (closed : bool) (c : surroundings) (stored shown : time) (by_ : Actor)
    (change : UpdateChange) : M database Status :=
  run mfail_if (Service_HasChannel s <$> uc_Channel change = Some false) [selfhost_ErrInvalidInput];
  let! before := svc_settings closed c 0 in
  let! after := store_ConfigureUpdates closed (cl_fault c 1%nat) stored by_ change in
  run (if decide (sv_configured s = true ∧ us_Choice after = UpdatesOn ∧ us_Choice before ≠ UpdatesOn)
       then let! checked := mtry (runCheck s closed c 2) in
            match checked with
            | Ok _ => mreturn tt
            | Err e => if is_error e updates_ErrOff then mreturn tt else mfail e
            end
       else mreturn tt);
  Service_Status s closed (at_reading shown c) 5.

Definition Service_Check (s : Service) (closed : bool) (c : surroundings) (shown : time) : M database Status :=
  run (if sv_configured s then let! _ := runCheck s closed c 0 in mreturn tt else mreturn tt);
  Service_Status s closed (at_reading shown c) 3.

(** [startupWait], with what the jitter gives for a maximum. *)
Definition startupWait (s : Service) (jitter : Z → Z) (now : time) (settings : result UpdateSettings) : Z :=
  match settings with
  | Err _ => jitter startupJitter
  | Ok settings =>
      if decide (us_Choice settings ≠ UpdatesOn) then sv_interval s + jitter (sv_interval s / 24)
      else match us_CheckedAt settings with
           | None => jitter startupJitter
           | Some checkedAt =>
               let elapsed := now - checkedAt in
               if decide (0 ≤ elapsed ∧ elapsed < sv_interval s)
               then sv_interval s - elapsed + jitter (sv_interval s / 24)
               else jitter startupJitter
           end
  end.

(** How long [Run] waits after a check. *)
Definition next_wait (s : Service) (jitter : Z → Z) (checked : result string) : Z :=
  match checked with
  | Err e => if is_error e updates_ErrOff then sv_interval s + jitter (sv_interval s / 24) else sv_retry s
  | Ok code =>
      if decide (code = UpdateErrorUnreachable) then sv_retry s + jitter (sv_retry s / 4)
      else sv_interval s + jitter (sv_interval s / 24)
  end.

End Service.
