(* ===== verification/UpdateThms.v ===== *)
(** * Properties of the update service

    A feed older than one already accepted is refused whatever happens in between, and an update is announced
    only when a pinned key signed it, it is fresh and it is newer. *)

From stdpp Require Import base list gmap strings pretty.
From Stdlib Require Import ZArith Lia Ascii Strings.Byte.
From S2P Require Import Prelude GoStd GoText Canonical Wire SemVer Json JsonFacts SelfStore AuditFacts UpdateStore.
From S2P Require Import AuditThms Feed UpdateService.
Local Open Scope Z_scope.
Local Open Scope go_scope.

(** ** What a transaction does to the update tables *)
Section Sequences.
Context `{Crypto} `{FeedHost} `{MapRange}.

(** [m] lowers no sequence number. *)
Definition seqs_le (a b : gmap string Z) : Prop := ∀ k v, a !! k = Some v → ∃ w, b !! k = Some w ∧ v ≤ w.
#[export] Instance seqs_le_preorder : PreOrder seqs_le.
Proof.
  split; [intros a k v Hv; eauto with lia|]. intros a b c Hab Hbc k v Hv.
  destruct (Hab k v Hv) as (w & Hw & ?). destruct (Hbc k w Hw) as (x & Hx & ?). eauto with lia.
Qed.

Definition raises {A} (m : M database A) : Prop :=
  ∀ db, seqs_le (db_update_sequences db) (db_update_sequences (m db).2).

Lemma raises_same {A} (m : M database A) :
  (∀ db, db_update_sequences (m db).2 = db_update_sequences db) → raises m.
Proof. intros Hm db. by rewrite Hm. Qed.

Lemma raises_bind {A B} (m : M database A) (k : A → M database B) : raises m → (∀ a, raises (k a)) → raises (mbindM m k).
Proof.
  intros Hm Hk db. unfold mbindM. specialize (Hm db). destruct (m db) as [[a|e] db1]; [|done].
  etrans; [exact Hm|apply Hk].
Qed.

Lemma raises_try {A} (m : M database A) : raises m → raises (mtry m).
Proof. intros Hm db. unfold mtry. specialize (Hm db). by destruct (m db). Qed.

Lemma raises_fail_if P `{!Decision P} e : raises (mfail_if P e).
Proof. intros db. unfold mfail_if. by case_decide. Qed.
Lemma raises_return {A} (a : A) : raises (mreturn a).
Proof. by intros db. Qed.
Lemma raises_fail {A} e : raises (@mfail database A e).
Proof. by intros db. Qed.

Lemma raises_write {A} closed fault (m : M database A) : raises m → raises (write closed fault m).
Proof.
  intros Hm db. unfold write. specialize (Hm db). destruct closed; [done|]. destruct fault; [done|].
  by destruct (m db) as [[a|e] db1].
Qed.

Lemma raises_append now input : raises (appendAudit now input).
Proof.
  apply raises_bind; [apply raises_fail_if|]. intros _ db.
  destruct (match last _ with Some _ => _ | None => _ end). cbv zeta. match goal with |- context [insert_row ?r ?l] => by destruct (insert_row r l) end.
Qed.

Lemma raises_audit now by_ action target detail : raises (audit now by_ action target detail).
Proof. apply raises_bind; [apply raises_append|intros; apply raises_return]. Qed.

Lemma raises_readSettings : raises readUpdateSettings.
Proof. intros db. unfold readUpdateSettings. by destruct (db_update_settings db). Qed.

Lemma raises_upsert k v : raises (upsert_sequence k v).
Proof.
  intros db k' w Hw. unfold upsert_sequence.
  destruct (decide (k = k')) as [<-|Hne].
  - rewrite Hw. case_decide; cbn; [rewrite lookup_insert_eq|]; eauto with lia.
  - destruct (db_update_sequences db !! k); [case_decide|]; cbn; rewrite ?lookup_insert_ne by done; eauto with lia.
Qed.
End Sequences.

#[export] Hint Resolve raises_bind raises_try raises_fail_if raises_return raises_fail raises_write raises_append
  raises_audit raises_readSettings raises_upsert : raises.

(** Transactions are taken apart statement by statement. *)
Ltac raises_tac :=
  repeat first
    [ progress intros
    | apply raises_audit | apply raises_bind | apply raises_try | apply raises_write
    | solve [auto with raises | apply raises_same; done]
    | case_decide
    | match goal with |- raises (match ?x with _ => _ end) => destruct x end ].

Section Operations.
Context `{Crypto} `{FeedHost} `{MapRange}.

Lemma raises_settings closed fault : raises (store_UpdateSettings closed fault).
Proof.
  intros db. unfold store_UpdateSettings. destruct (read closed), fault; try done. apply raises_readSettings.
Qed.

Lemma raises_configure closed fault now by_ change : raises (store_ConfigureUpdates closed fault now by_ change).
Proof. unfold store_ConfigureUpdates, configure_tx. raises_tac. Qed.

Lemma raises_setup now by_ enabled : raises (chooseUpdatesAtSetup now by_ enabled).
Proof. unfold chooseUpdatesAtSetup. raises_tac. Qed.

Lemma raises_record_feed closed fault feed : raises (store_RecordUpdateFeed closed fault feed).
Proof. unfold store_RecordUpdateFeed, record_feed_tx. raises_tac. Qed.

Lemma raises_record_failure closed fault now code : raises (store_RecordUpdateFailure closed fault now code).
Proof. unfold store_RecordUpdateFailure, record_failure_tx. raises_tac. Qed.

Lemma raises_check_fail closed c n code : raises (check_fail closed c n code).
Proof. unfold check_fail. destruct (cl_ctx c); [auto with raises|]. apply raises_bind; [apply raises_record_failure|auto with raises]. Qed.

Lemma raises_runCheck s closed c n : raises (runCheck s closed c n).
Proof.
  unfold runCheck, svc_settings. apply raises_bind; [apply raises_settings|]. intros settings.
  apply raises_bind; [auto with raises|]. intros _. cbv zeta.
  destruct (Fetch _) as [body|e]; [|apply raises_check_fail]. destruct (Verify _ _ _ _); [|apply raises_check_fail].
  case_decide; [apply raises_check_fail|]. apply raises_bind; [apply raises_try, raises_record_feed|].
  intros [|e]; [auto with raises|]. destruct (is_error _ _); [apply raises_check_fail|auto with raises].
Qed.

Lemma raises_status s closed c n : raises (Service_Status s closed c n).
Proof. unfold Service_Status. apply raises_bind; [apply raises_settings|auto with raises]. Qed.

Lemma raises_service_configure s closed c stored shown by_ change :
  raises (Service_Configure s closed c stored shown by_ change).
Proof.
  unfold Service_Configure. apply raises_bind; [auto with raises|]. intros _.
  apply raises_bind; [apply raises_settings|]. intros before. apply raises_bind; [apply raises_configure|]. intros after.
  apply raises_bind; [|intros; apply raises_status]. case_decide; [|auto with raises].
  apply raises_bind; [apply raises_try, raises_runCheck|]. intros [|e]; [auto with raises|].
  destruct (is_error _ _); auto with raises.
Qed.

Lemma raises_service_check s closed c shown : raises (Service_Check s closed c shown).
Proof.
  unfold Service_Check. apply raises_bind; [|intros; apply raises_status]. destruct (sv_configured s); [|auto with raises].
  apply raises_bind; [apply raises_runCheck|auto with raises].
Qed.

(** One operation of the running server on its database, other than the owner's reset of the sequences:
    service calls, the background check, setup, audit entries, and direct calls of the store by another
    instance. *)
Inductive db_step : database → database → Prop :=
| step_append closed fault now input db : db_step db (AppendAudit closed fault now input db).2
| step_setup closed fault now by_ enabled db : db_step db (write closed fault (chooseUpdatesAtSetup now by_ enabled) db).2
| step_configure s closed c stored shown by_ change db :
    db_step db (Service_Configure s closed c stored shown by_ change db).2
| step_check s closed c shown db : db_step db (Service_Check s closed c shown db).2
| step_run s closed c n db : db_step db (runCheck s closed c n db).2
| step_store_configure closed fault now by_ change db :
    db_step db (store_ConfigureUpdates closed fault now by_ change db).2
| step_store_feed closed fault feed db : db_step db (store_RecordUpdateFeed closed fault feed db).2
| step_store_failure closed fault now code db : db_step db (store_RecordUpdateFailure closed fault now code db).2.

Lemma db_step_raises db db' : db_step db db' → seqs_le (db_update_sequences db) (db_update_sequences db').
Proof.
  intros [closed fault now input d|closed fault now by_ enabled d|s closed c stored shown by_ change d|s closed c shown d
         |s closed c n d|closed fault now by_ change d|closed fault feed d|closed fault now code d]; revert d.
  - apply raises_write, raises_append.
  - apply raises_write, raises_setup.
  - apply raises_service_configure.
  - apply raises_service_check.
  - apply raises_runCheck.
  - apply raises_configure.
  - apply raises_record_feed.
  - apply raises_record_failure.
Qed.

Lemma db_steps_raise db db' : rtc db_step db db' → seqs_le (db_update_sequences db) (db_update_sequences db').
Proof. induction 1 as [db|db db1 db2 Hs _ IH]; [done|]. etrans; [by apply db_step_raises|done]. Qed.
End Operations.

Section Checks.
Context `{Crypto} `{FeedHost} `{MapRange}.

(** ** One check *)
Lemma store_UpdateSettings_ok closed fault db settings db' :
  store_UpdateSettings closed fault db = (Ok settings, db') →
  closed = false ∧ fault = None ∧ db' = db ∧ ∃ row, db_update_settings db = Some row ∧
  settings = {| us_Choice := ur_enabled row; us_Channel := ur_channel row;
                us_Sequences := db_update_sequences db; us_Feed := bytes_of (ur_last_feed row);
                us_CheckedAt := unixTime <$> ur_checked_at row; us_LastError := ur_last_error row |}.
Proof.
  unfold store_UpdateSettings, read, rfail_if, readUpdateSettings. case_decide as Hc; [done|].
  destruct fault; [done|]. destruct (db_update_settings db) as [row|]; [|done]. intros [= <- <-].
  split_and!; [by destruct closed|done..|eauto].
Qed.

Lemma write_ok {A} closed fault (m : M database A) db a db' :
  write closed fault m db = (Ok a, db') → closed = false ∧ fault = None ∧ m db = (Ok a, db').
Proof. unfold write. destruct closed; [done|]. destruct fault; [done|]. destruct (m db) as [[|] ?]; naive_solver. Qed.

Lemma write_err {A} closed fault (m : M database A) db e db' : write closed fault m db = (Err e, db') → db' = db.
Proof. unfold write. destruct closed; [naive_solver|]. destruct fault; [naive_solver|]. destruct (m db) as [[|] ?]; naive_solver. Qed.

Lemma store_RecordUpdateFeed_ok closed fault feed db u db' :
  store_RecordUpdateFeed closed fault feed db = (Ok u, db') →
  db' = {| db_audit_log := db_audit_log db;
           db_update_settings := set_feed (string_of (uf_Raw feed)) (unix_seconds (uf_CheckedAt feed)) <$> db_update_settings db;
           db_update_sequences := <[uf_KeyID feed := uf_Sequence feed]> (db_update_sequences db) |} ∧
  (∀ old, db_update_sequences db !! uf_KeyID feed = Some old → old ≤ uf_Sequence feed).
Proof.
  intros Hr. apply mbindM_ok in Hr as (? & ? & [_ ->]%mfail_if_ok & (_ & _ & Hr)%write_ok).
  unfold record_feed_tx in Hr. apply mbindM_ok in Hr as (n & db1 & Hu & Hr).
  apply mbindM_ok in Hr as (? & ? & [Hn ->]%mfail_if_ok & Hr). unfold upsert_sequence in Hu.
  destruct (db_update_sequences db !! uf_KeyID feed) as [old|]; [case_decide|]; injection Hu as <- <-;
    try (by destruct Hn); injection Hr as <- <-; split; naive_solver lia.
Qed.

(** A failed check touches neither the feed nor the sequences. *)
Definition feed_of (db : database) : option string := ur_last_feed <$> db_update_settings db.
Definition keeps_feed {A} (m : M database A) : Prop :=
  ∀ db, feed_of (m db).2 = feed_of db ∧ db_update_sequences (m db).2 = db_update_sequences db.

Lemma keeps_feed_bind {A B} (m : M database A) (k : A → M database B) :
  keeps_feed m → (∀ a, keeps_feed (k a)) → keeps_feed (mbindM m k).
Proof.
  intros Hm Hk db. unfold mbindM. specialize (Hm db). destruct (m db) as [[a|e] db1]; [|done].
  destruct Hm as [<- <-]. apply Hk.
Qed.

Lemma keeps_feed_write {A} closed fault (m : M database A) : keeps_feed m → keeps_feed (write closed fault m).
Proof.
  intros Hm db. unfold write. specialize (Hm db). destruct closed; [done|]. destruct fault; [done|].
  by destruct (m db) as [[a|e] db1].
Qed.

Lemma keeps_feed_audit now by_ action target detail : keeps_feed (audit now by_ action target detail).
Proof.
  apply keeps_feed_bind; [|done]. apply keeps_feed_bind; [intros db; unfold mfail_if; by case_decide|]. intros _ db.
  destruct (match last _ with Some _ => _ | None => _ end). cbv zeta.
  match goal with |- context [insert_row ?r ?l] => by destruct (insert_row r l) end.
Qed.

Lemma keeps_feed_failure closed fault now code : keeps_feed (store_RecordUpdateFailure closed fault now code).
Proof.
  apply keeps_feed_bind; [intros db; unfold mfail_if; by case_decide|]. intros _. apply keeps_feed_write.
  apply keeps_feed_bind; [intros db; unfold readUpdateSettings; by destruct (db_update_settings db)|]. intros current.
  apply keeps_feed_bind; [intros db; unfold feed_of; cbn; by destruct (db_update_settings db)|]. intros _.
  case_decide; [done|]. apply keeps_feed_audit.
Qed.

Lemma check_fail_spec closed c n code db :
  code ≠ "" →
  (check_fail closed c n code db).1 ≠ Ok "" ∧ feed_of (check_fail closed c n code db).2 = feed_of db ∧
  db_update_sequences (check_fail closed c n code db).2 = db_update_sequences db.
Proof.
  intros Hcode. unfold check_fail. destruct (cl_ctx c); [done|]. unfold mbindM.
  pose proof (keeps_feed_failure closed (cl_fault c n) (cl_now c) code db) as [Hf Hs].
  destruct (store_RecordUpdateFailure _ _ _ _ db) as [[u|e] db']; [|done]. cbn in *. split; [congruence|done].
Qed.

Lemma codeOf_nonempty e : codeOf e ≠ "".
Proof. unfold codeOf. repeat case_match; done. Qed.

Lemma store_UpdateSettings_err closed fault db e db' : store_UpdateSettings closed fault db = (Err e, db') → db' = db.
Proof.
  unfold store_UpdateSettings, readUpdateSettings. destruct (read closed); [|naive_solver].
  destruct fault; [naive_solver|]. destruct (db_update_settings db); naive_solver.
Qed.

Lemma store_RecordUpdateFeed_err closed fault feed db e db' :
  store_RecordUpdateFeed closed fault feed db = (Err e, db') → db' = db.
Proof. unfold store_RecordUpdateFeed, mbindM, mfail_if. case_decide; [naive_solver|]. by intros ->%write_err. Qed.

(** The two ways a check can end. *)
Definition check_refused (db : database) (r : result string) (db' : database) : Prop :=
  r ≠ Ok "" ∧ feed_of db' = feed_of db ∧ db_update_sequences db' = db_update_sequences db.

Definition check_accepted (s : Service) (c : surroundings) (db db' : database) : Prop :=
  ∃ row body document,
    db_update_settings db = Some row ∧ ur_enabled row = UpdatesOn ∧
    Fetch (cl_answer c) = Ok body ∧ Verify (sv_keys s) (sv_registry s) body (cl_now c) = Ok document ∧
    default 0 (db_update_sequences db !! ev_KeyID (do_Envelope document)) ≤ pl_Sequence (do_Payload document) ∧
    db' = {| db_audit_log := db_audit_log db;
             db_update_settings := Some (set_feed (string_of (do_Raw document)) (unix_seconds (cl_now c)) row);
             db_update_sequences := <[ev_KeyID (do_Envelope document) := pl_Sequence (do_Payload document)]>
                                      (db_update_sequences db) |}.

Lemma check_fail_refused closed c n code db r db' :
  code ≠ "" → check_fail closed c n code db = (r, db') → check_refused db r db'.
Proof. intros Hc E. pose proof (check_fail_spec closed c n code db Hc) as Hs. by rewrite E in Hs. Qed.

Lemma runCheck_cases s closed c n db r db' :
  runCheck s closed c n db = (r, db') →
  check_refused db r db' ∨ (r = Ok "" ∧ check_accepted s c db db').
Proof.
  unfold runCheck, svc_settings. intros Hr. unfold mbindM at 1 in Hr.
  destruct (store_UpdateSettings closed (cl_fault c n) db) as [[settings|e] db0] eqn:Es.
  2: { apply store_UpdateSettings_err in Es as ->. injection Hr as <- <-. left. done. }
  apply store_UpdateSettings_ok in Es as (_ & _ & -> & row & Hrow & ->).
  unfold mbindM at 1, mfail_if in Hr. cbn [us_Choice us_Sequences] in Hr.
  case_decide as Hon; [injection Hr as <- <-; left; done|]. cbn [mreturn] in Hr. cbv zeta in Hr.
  destruct (Fetch (cl_answer c)) as [body|e] eqn:Ef; [|left; by eapply check_fail_refused, Hr; apply codeOf_nonempty].
  destruct (Verify _ _ body (cl_now c)) as [document|e] eqn:Ev;
    [|left; by eapply check_fail_refused, Hr; apply codeOf_nonempty].
  case_decide as Hseq; [left; by eapply check_fail_refused, Hr|].
  unfold mbindM, mtry in Hr.
  destruct (store_RecordUpdateFeed _ _ _ db) as [[u|e] db1] eqn:Erec.
  - injection Hr as <- <-. right. split; [done|]. apply store_RecordUpdateFeed_ok in Erec as [-> _].
    exists row, body, document. cbn [uf_Raw uf_CheckedAt uf_KeyID uf_Sequence]. rewrite Hrow. split_and!; try done. lia.
  - apply store_RecordUpdateFeed_err in Erec as ->.
    destruct (is_error e selfhost_ErrConflict); [left; by eapply check_fail_refused, Hr|].
    injection Hr as <- <-. left. done.
Qed.

(** ** Opening a feed *)
Lemma Open_ok keys registry body document :
  Open keys registry body = Ok document →
  Z.of_nat (length body) ≤ MaxFeedBytes ∧ decode_only body = Ok (do_Envelope document) ∧
  ∃ key payloadBytes signature,
    keys !! ev_KeyID (do_Envelope document) = Some key ∧
    DecodeString (ev_Payload (do_Envelope document)) = Some payloadBytes ∧
    DecodeString (ev_Signature (do_Envelope document)) = Some signature ∧
    ed25519_Verify key (bytes_of signingContext ++ payloadBytes) signature = true ∧
    decode_only payloadBytes = Ok (do_Payload document) ∧
    ValidatePayload (do_Payload document) registry = Ok tt ∧
    do_Raw document = Marshal_envelope (do_Envelope document).
Proof.
  unfold Open. intros Ho. apply rbind_ok in Ho as (? & Hlen%rfail_if_ok & Ho).
  apply rbind_ok in Ho as (envelope & Henv & Ho). destruct (keys !! ev_KeyID envelope) as [key|] eqn:Ek; [|done].
  apply rbind_ok in Ho as (? & _ & Ho). destruct (DecodeString (ev_Payload envelope)) as [pb|] eqn:Ep; [|done].
  destruct (DecodeString (ev_Signature envelope)) as [sig|] eqn:Esig; [|done].
  apply rbind_ok in Ho as (? & _ & Ho). apply rbind_ok in Ho as (? & _ & Ho).
  apply rbind_ok in Ho as (? & Hver%rfail_if_ok & Ho). apply rbind_ok in Ho as (payload & Hp & Ho).
  apply rbind_ok in Ho as ([] & Hval & [= <-]). cbn. apply not_false_iff_true in Hver.
  split; [lia|]. split; [done|]. eauto 12.
Qed.

Lemma CheckFresh_ok payload now u :
  CheckFresh payload now = Ok u → pl_IssuedAt payload ≤ now + MaxIssuedSkew ∧ now ≤ pl_ExpiresAt payload.
Proof. intros (? & ?%rfail_if_ok & ?%rfail_if_ok)%rbind_ok. lia. Qed.

Lemma Offered_stable version v :
  ParseVersion version = Ok v → Offered version ChannelStable = true → vn_Prerelease v = [].
Proof.
  unfold Offered. intros -> Ho%negb_true_iff%bool_decide_eq_false. destruct (vn_Prerelease v) as [|i l]; [done|].
  destruct Ho. split; [done|]. cbn. lia.
Qed.

(** What a status that announces an update was made from. *)
Lemma available_spec s closed c n db st db' :
  Service_Status s closed c n db = (Ok st, db') → su_Available st = true →
  ∃ row document release,
    db_update_settings db = Some row ∧ ur_enabled row = UpdatesOn ∧
    Open (sv_keys s) (sv_registry s) (bytes_of (ur_last_feed row)) = Ok document ∧
    Payload_Release (do_Payload document) (sv_product s) (ur_channel row) = Some release ∧
    Offered (re_Version release) (ur_channel row) = true ∧
    CheckFresh (do_Payload document) (cl_now c) = Ok tt ∧
    Newer (re_Version release) (sv_version s) = true ∧
    su_Commands st = Commands (sv_kind s) release (sv_platform s) ∧
    su_Channel st = ur_channel row ∧ la_Version <$> su_Latest st = Some (re_Version release).
Proof.
  intros Hst Hav. unfold Service_Status, svc_settings in Hst. apply mbindM_ok in Hst as (settings & ? & Hs & Hst).
  apply store_UpdateSettings_ok in Hs as (_ & _ & -> & row & Hrow & ->). injection Hst as <- <-.
  unfold status_of in Hav |- *. cbn [us_Choice us_Channel us_Feed us_LastError us_CheckedAt] in *.
  destruct (sv_configured s); cbn [negb] in *; [|done]. case_decide as Hon; [done|]. case_decide; [done|].
  destruct (Open _ _ _) as [document|] eqn:Eo; [|done].
  destruct (Payload_Release _ _ _) as [release|] eqn:Er; [|done].
  destruct (Offered _ _) eqn:Eoff; cbn [negb] in *; [|done].
  destruct (CheckFresh _ _) as [[]|] eqn:Efresh; [|done]. cbn in Hav |- *. rewrite Hav.
  exists row, document, release. done.
Qed.

(** ** Properties *)

(** C35: a feed older than one that was accepted is never accepted again.  Once a check accepted a feed, and
    whatever the server, its owners and other instances do to the database except for the owner's reset,
    a check that gets a feed of the same key with a smaller sequence number is refused: it does not report
    success, and the feed and the sequence numbers stay as they are. *)
Theorem rollbacks_are_refused s closed c n db db1 db2 body document s' closed' c' n' body' document' r db3 :
  runCheck s closed c n db = (Ok "", db1) →
  Fetch (cl_answer c) = Ok body → Verify (sv_keys s) (sv_registry s) body (cl_now c) = Ok document →
  rtc db_step db1 db2 →
  Fetch (cl_answer c') = Ok body' → Verify (sv_keys s') (sv_registry s') body' (cl_now c') = Ok document' →
  ev_KeyID (do_Envelope document') = ev_KeyID (do_Envelope document) →
  pl_Sequence (do_Payload document') < pl_Sequence (do_Payload document) →
  runCheck s' closed' c' n' db2 = (r, db3) →
  r ≠ Ok "" ∧ feed_of db3 = feed_of db2 ∧ db_update_sequences db3 = db_update_sequences db2.
Proof.
  intros Hr1 Hf Hv Hsteps Hf' Hv' Hkey Hlt Hr2.
  destruct (runCheck_cases _ _ _ _ _ _ _ Hr2) as [?|[-> (row & b & d & _ & _ & Hb & Hd & Hle & _)]]; [done|].
  assert (b = body') as -> by congruence. assert (d = document') as -> by congruence.
  destruct (runCheck_cases _ _ _ _ _ _ _ Hr1) as [[? _]|[_ (row1 & b1 & d1 & _ & _ & Hb1 & Hd1 & _ & Hdb1)]]; [done|].
  assert (b1 = body) as -> by congruence. assert (d1 = document) as -> by congruence.
  destruct (db_steps_raise _ _ Hsteps (ev_KeyID (do_Envelope document)) (pl_Sequence (do_Payload document))) as (w & Hw & ?).
  { rewrite Hdb1. cbn. by rewrite lookup_insert_eq. }
  rewrite Hkey, Hw in Hle. cbn in Hle. lia.
Qed.

(** C36: an update is announced only when it is authentic.  A status that says an update is available was made
    while checks were on, from a stored feed whose payload a pinned key signed under the feed's context, that
    passes every rule of the payload and is fresh now; the release is the one of the product and channel in
    use, strictly newer than the running version, no prerelease on the stable channel; and the commands are
    the ones of that very release. *)
Theorem announced_update_is_authentic s closed c n db st db' :
  Service_Status s closed c n db = (Ok st, db') → su_Available st = true →
  ∃ row document key payloadBytes signature release,
    db_update_settings db = Some row ∧ ur_enabled row = UpdatesOn ∧
    Open (sv_keys s) (sv_registry s) (bytes_of (ur_last_feed row)) = Ok document ∧
    sv_keys s !! ev_KeyID (do_Envelope document) = Some key ∧
    DecodeString (ev_Payload (do_Envelope document)) = Some payloadBytes ∧
    DecodeString (ev_Signature (do_Envelope document)) = Some signature ∧
    ed25519_Verify key (bytes_of signingContext ++ payloadBytes) signature = true ∧
    decode_only payloadBytes = Ok (do_Payload document) ∧
    ValidatePayload (do_Payload document) (sv_registry s) = Ok tt ∧
    pl_IssuedAt (do_Payload document) ≤ cl_now c + MaxIssuedSkew ∧ cl_now c ≤ pl_ExpiresAt (do_Payload document) ∧
    Payload_Release (do_Payload document) (sv_product s) (ur_channel row) = Some release ∧
    Newer (re_Version release) (sv_version s) = true ∧
    (ur_channel row = ChannelStable → ∀ v, ParseVersion (re_Version release) = Ok v → vn_Prerelease v = []) ∧
    su_Commands st = Commands (sv_kind s) release (sv_platform s).
Proof.
  intros Hst Hav. destruct (available_spec _ _ _ _ _ _ _ Hst Hav)
    as (row & document & release & Hrow & Hon & Eo & Er & Eoff & [? ?]%CheckFresh_ok & Hnew & Hcmd & _).
  destruct (Open_ok _ _ _ _ Eo) as (_ & _ & key & payloadBytes & signature & ? & ? & ? & ? & ? & ? & _).
  exists row, document, key, payloadBytes, signature, release. split_and!; try done.
  intros Hstable v Hp. by eapply Offered_stable; [|rewrite Hstable in Eoff].
Qed.
End Checks.
