(* ===== verification/UpdateShell.v ===== *)
(** * The commands an owner is shown

    A reference for how a POSIX shell splits a command line into words, and the proof that every command
    the service shows is split into exactly the words it means, with the release's own text as one word. *)

From stdpp Require Import base list gmap strings pretty.
From Stdlib Require Import ZArith Lia Ascii Strings.Byte.
From S2P Require Import Prelude GoStd GoText Canonical Wire SemVer SemVerThms Json JsonFacts SelfStore AuditFacts.
From S2P Require Import UpdateStore AuditThms Feed UpdateService UpdateThms.
Local Open Scope Z_scope.
Local Open Scope go_scope.

(** ** Words of a command line *)

(** A word, a pipe, or a word that is the output of a command of these words. *)
Inductive sh_token := Word (w : string) | Pipe | Output (command : list string).

(** Outside of quotes, between single quotes, and in a command between double quotes, with its words so
    far, last first. *)
Inductive sh_mode := Bare | Single | Substituted (words : list string).

(** Characters that stand for themselves outside of quotes. *)
Definition sh_plain (c : ascii) : bool :=
  lower_or_digit c || bool_decide (65 ≤ ascii_Z c ≤ 90) || bool_decide (c ∈ ["-"; "_"; "."; "/"; "="; ":"; "@"]%char).

Definition push (cur : option string) (acc : list sh_token) : list sh_token :=
  match cur with Some w => Word w :: acc | None => acc end.
Definition grow (cur : option string) (c : ascii) : option string := Some (default "" cur +:+ String c "").
Definition word_ends (s : string) : bool := match s with "" => true | String c _ => bool_decide (c = " "%char) end.

(** Single quotes, backslashes, blanks, pipes, and a whole word between double quotes that is the output of
    one plain command; any other character with a meaning for the shell is refused, so a result says that
    the line has no expansion beside those outputs, no redirection and no second command beside the pipe.
    [acc] holds the tokens so far, last first, and [cur] the word that is being read. *)
Fixpoint sh_lex (acc : list sh_token) (mode : sh_mode) (cur : option string) (s : string) : option (list sh_token) :=
  match s with
  | "" => match mode with Bare => Some (reverse (push cur acc)) | _ => None end
  | String c s =>
      match mode with
      | Single => if decide (c = "'"%char) then sh_lex acc Bare cur s else sh_lex acc Single (grow cur c) s
      | Substituted words =>
          let words' := option_list cur ++ words in
          if decide (c = " "%char) then sh_lex acc (Substituted words') None s
          else if decide (c = ")"%char) then
            match s with
            | String d s => if decide (d = quote) then
                              if word_ends s then sh_lex (Output (reverse words') :: acc) Bare None s else None
                            else None
            | "" => None
            end
          else if sh_plain c then sh_lex acc (Substituted words) (grow cur c) s
          else None
      | Bare =>
          if decide (c = "'"%char) then sh_lex acc Single (Some (default "" cur)) s
          else if decide (c = " "%char) then sh_lex (push cur acc) Bare None s
          else if decide (c = "|"%char) then sh_lex (Pipe :: push cur acc) Bare None s
          else if decide (c = "\"%char) then
            match s with
            | "" => None
            | String d s => if decide (d = "010"%char) then None else sh_lex acc Bare (grow cur d) s
            end
          else if decide (c = quote) then
            match cur, s with
            | None, String d (String e s) => if decide (d = "$"%char ∧ e = "("%char) then sh_lex acc (Substituted []) None s else None
            | _, _ => None
            end
          else if sh_plain c then sh_lex acc Bare (grow cur c) s
          else None
      end
  end.
Definition sh_words (line : string) : option (list sh_token) := sh_lex [] Bare None line.

(** ** Quoting *)
Lemma grow_some w c : grow (Some w) c = Some (w +:+ String c "").
Proof. done. Qed.

Lemma lex_quoted acc w v t :
  lacks "'" v = true → sh_lex acc Single (Some w) (v +:+ String "'" t) = sh_lex acc Bare (Some (w +:+ v)) t.
Proof.
  unfold lacks. revert w. induction v as [|c v IH]; intros w Hv.
  - rewrite app_nil, append_empty. cbn [sh_lex]. by rewrite decide_True.
  - cbn [str_forall] in Hv. apply andb_true_iff in Hv as [Hc%bool_decide_eq_true Hv]. rewrite app_cons. cbn [sh_lex].
    rewrite decide_False by done. rewrite grow_some, IH by done. by rewrite <- append_assoc.
Qed.

Lemma lex_replaced acc w v t :
  sh_lex acc Single (Some w) (replace_quotes v +:+ String "'" t) = sh_lex acc Bare (Some (w +:+ v)) t.
Proof.
  revert w. induction v as [|c v IH]; intros w.
  - cbn [replace_quotes]. rewrite app_nil, append_empty. cbn [sh_lex]. by rewrite decide_True.
  - cbn [replace_quotes]. rewrite <- append_assoc. case_decide as Hc.
    + subst c. transitivity (sh_lex acc Single (Some (w +:+ "'")) (replace_quotes v +:+ String "'" t)); [reflexivity|].
      rewrite IH. by rewrite <- append_assoc.
    + rewrite app_cons, app_nil. cbn [sh_lex]. rewrite decide_False by done. rewrite grow_some, IH.
      by rewrite <- append_assoc.
Qed.

(** A quoted string is one word, whatever it holds. *)
Lemma lex_shellQuote acc v t : sh_lex acc Bare None (shellQuote v +:+ t) = sh_lex acc Bare (Some v) t.
Proof.
  unfold shellQuote. rewrite <- !append_assoc, app_cons, app_nil.
  transitivity (sh_lex acc Single (Some "") (replace_quotes v +:+ String "'" t)); [reflexivity|]. apply lex_replaced.
Qed.

Lemma lex_plain acc w v t :
  str_forall sh_plain v = true → sh_lex acc Bare (Some w) (v +:+ t) = sh_lex acc Bare (Some (w +:+ v)) t.
Proof.
  revert w. induction v as [|c v IH]; intros w Hv; [by rewrite app_nil, append_empty|].
  cbn [str_forall] in Hv. apply andb_true_iff in Hv as [Hc Hv]. rewrite app_cons. cbn [sh_lex]. rewrite Hc.
  rewrite !decide_False by (intros ->; by vm_compute in Hc). rewrite grow_some, IH by done. by rewrite <- append_assoc.
Qed.

(** ** The text of the commands *)
Section Shell.
Context `{Crypto} `{FeedHost} `{MapRange}.

Definition checksum_tool (platform : Platform) : list sh_token :=
  if decide (pf_OS platform = "darwin") then [Word "shasum"; Word "-a"; Word "256"; Word "-c"; Word "-"]
  else [Word "sha256sum"; Word "-c"; Word "-"].
Definition installed_path (platform : Platform) : string :=
  if decide (pf_Executable platform = "") then defaultExecutable else pf_Executable platform.

(** What the commands for a binary are meant to run. *)
Definition intended (found : Binary) (platform : Platform) : list (list sh_token) :=
  [[Word "curl"; Word "-fsSLo"; Word "sesame-server.new"; Word "--proto"; Word "=https"; Word "--proto-redir";
    Word "=https"; Word (bi_URL found)];
   [Word "echo"; Word (bi_SHA256 found +:+ "  sesame-server.new"); Pipe] ++ checksum_tool platform;
   [Word "sudo"; Word "install"; Word "-m"; Word "0755"; Word "sesame-server.new"; Word (installed_path platform)];
   [Word "sudo"; Word "systemctl"; Word "restart"; Word "sesame-server"]].

Lemma hex_lacks_quote s : sha256Pattern s = true → lacks "'" s = true.
Proof.
  intros [_ Hs]%andb_true_iff. revert Hs. apply str_forall_impl. intros c Hc%bool_decide_eq_true.
  apply bool_decide_eq_true. intros ->. vm_compute in Hc. intuition congruence.
Qed.

Lemma binary_words release platform found :
  match_binary (re_Binaries release) platform = Some found → sha256Pattern (bi_SHA256 found) = true →
  sh_words <$> (cm_Text <$> binaryCommands release platform) = Some <$> intended found platform.
Proof.
  intros Hm Hsha. unfold binaryCommands. rewrite Hm. cbn [fmap list_fmap cm_Text]. unfold intended. cbn [fmap list_fmap].
  apply (f_equal2 cons); [|apply (f_equal2 cons); [|apply (f_equal2 cons); [|done]]].
  - unfold sh_words. rewrite <- (append_empty (shellQuote (bi_URL found))).
    transitivity (sh_lex [Word "=https"; Word "--proto-redir"; Word "=https"; Word "--proto"; Word "sesame-server.new";
                          Word "-fsSLo"; Word "curl"] Bare None (shellQuote (bi_URL found) +:+ "")); [reflexivity|].
    by rewrite lex_shellQuote.
  - unfold sh_words. set (tool := if decide _ then _ else _).
    transitivity (sh_lex [Word "echo"] Single (Some "") ((bi_SHA256 found +:+ "  sesame-server.new") +:+ String "'" (" | " +:+ tool))).
    { rewrite <- !append_assoc. reflexivity. }
    rewrite lex_quoted; [|by rewrite lacks_app, (hex_lacks_quote _ Hsha)]. rewrite app_nil.
    unfold tool, checksum_tool. by case_decide.
  - unfold sh_words. fold (installed_path platform). rewrite <- (append_empty (shellQuote (installed_path platform))).
    transitivity (sh_lex [Word "sesame-server.new"; Word "0755"; Word "-m"; Word "install"; Word "sudo"] Bare None
                    (shellQuote (installed_path platform) +:+ "")); [reflexivity|]. by rewrite lex_shellQuote.
Qed.

(** ** What a valid feed puts into them *)
Lemma str_forall_app p a b : str_forall p (a +:+ b) = str_forall p a && str_forall p b.
Proof. induction a as [|c a IH]; [done|]. rewrite app_cons. cbn [str_forall]. by rewrite IH, andb_assoc. Qed.

Lemma parse_identifiers_plain parts ids :
  parse_identifiers parts = Ok ids → Forall (λ i, str_forall sh_plain (id_raw i) = true) ids.
Proof.
  revert ids. induction parts as [|part parts IH]; cbn; intros ids; [by intros [= <-]|].
  intros (i & Hi & (rest & Hrest & [= <-])%rbind_ok)%rbind_ok. constructor; [|by apply IH].
  rewrite (parse_identifier_raw _ _ Hi). unfold parse_identifier in Hi.
  apply rbind_ok in Hi as (? & Hv%rfail_if_ok & _). apply Decidable.not_or in Hv as [_ Hv%not_false_iff_true].
  unfold validIdentifier in Hv. rewrite forallb_runes in Hv by (intros; apply bool_decide_eq_false; lia).
  revert Hv. apply str_forall_impl. intros c Hc%bool_decide_eq_true. unfold sh_plain, lower_or_digit.
  destruct (decide (ascii_Z c = 45)) as [E|].
  { assert (c = "-"%char) as -> by (rewrite <- (ascii_N_embedding c); unfold ascii_Z in E;
      replace (N_of_ascii c) with 45%N by lia; reflexivity). reflexivity. }
  destruct (decide (65 ≤ ascii_Z c ≤ 90)).
  - by rewrite (bool_decide_eq_true_2 (65 ≤ ascii_Z c ≤ 90)), orb_true_r.
  - rewrite (bool_decide_eq_true_2 (97 ≤ ascii_Z c ≤ 122 ∨ 48 ≤ ascii_Z c ≤ 57)) by lia. done.
Qed.

Lemma plain_join l : Forall (λ s, str_forall sh_plain s = true) l → str_forall sh_plain (join "." l) = true.
Proof.
  induction 1 as [|s [|t l] Hs _ IH]; [done|done|]. rewrite join_cons2, str_forall_app, Hs. exact IH.
Qed.

(** A version holds nothing that means something to a shell. *)
Lemma version_plain raw v : ParseVersion raw = Ok v → str_forall sh_plain raw = true.
Proof.
  intros (<- & _ & parts & Hp)%ParseVersion_text. unfold Text.
  assert (∀ n, str_forall sh_plain (FormatUint n) = true) as Hn by (intros; by apply str_forall_FormatUint).
  rewrite !str_forall_app, !Hn.
  cbn [andb]. assert (str_forall sh_plain "." = true) as -> by done. cbn [andb].
  destruct (vn_Prerelease v) as [|i l]; [done|]. rewrite str_forall_app. apply andb_true_iff. split; [done|].
  apply plain_join, Forall_fmap. by eapply parse_identifiers_plain.
Qed.

Lemma strip_prefix_spec p s rest : strip_prefix p s = Some rest → s = p +:+ rest.
Proof.
  revert s. induction p as [|a p IH]; intros [|b s]; cbn;
    [by intros [= <-]|by intros [= <-]|done|].
  case_decide as E; [|done]. intros ->%IH. by subst.
Qed.

Lemma CutString_spec sep s a b : CutString sep s = (a, b, true) → s = a +:+ sep +:+ b.
Proof.
  revert a b. induction s as [|c s IH]; intros a b; cbn [CutString].
  - destruct (strip_prefix sep "") as [rest|] eqn:E; [|done]. intros [= <- <-]. by apply strip_prefix_spec in E.
  - destruct (strip_prefix sep (String c s)) as [rest|] eqn:E; [intros [= <- <-]; by apply strip_prefix_spec in E|].
    destruct (CutString sep s) as [[a' b'] f]. intros [= <- <- ->]. rewrite app_cons. f_equal. by apply IH.
Qed.

Lemma image_plain ref : ValidImageRef ref = true → str_forall sh_plain ref = true.
Proof.
  unfold ValidImageRef. destruct (CutString "@sha256:" ref) as [[name digest] found] eqn:E.
  intros [[-> Hn]%andb_true_iff Hd]%andb_true_iff. apply CutString_spec in E as ->.
  rewrite !str_forall_app. assert (str_forall sh_plain digest = true) as ->.
  { apply andb_true_iff in Hd as [_ Hd]. revert Hd. apply str_forall_impl. intros c Hc%bool_decide_eq_true.
    unfold sh_plain, lower_or_digit. by rewrite (bool_decide_eq_true_2 (97 ≤ ascii_Z c ≤ 122 ∨ 48 ≤ ascii_Z c ≤ 57)) by lia. }
  rewrite andb_true_r. destruct name as [|c name]; [done|].
  apply andb_true_iff in Hn as [[Hc _]%andb_true_iff Hn]. cbn [str_forall]. unfold sh_plain at 1. rewrite Hc.
  revert Hn. apply str_forall_impl. intros d Hd'. unfold sh_plain. apply orb_true_iff in Hd' as [->|Hd'%bool_decide_eq_true]; [done|].
  rewrite !orb_true_iff. right. apply bool_decide_eq_true. set_solver.
Qed.

Lemma plain_word w : str_forall sh_plain w = true → w ≠ "" → sh_words w = Some [Word w].
Proof.
  destruct w as [|c w]; [done|]. intros Hw _. cbn [str_forall] in Hw. apply andb_true_iff in Hw as [Hc Hw].
  unfold sh_words. cbn [sh_lex]. rewrite Hc. rewrite !decide_False by (intros ->; by vm_compute in Hc).
  change (grow None c) with (Some (String c "")). rewrite <- (append_empty w) at 1. by rewrite lex_plain.
Qed.

(** ** The release of a valid payload is valid *)
Lemma validate_channels_ok spec l channel release u :
  validate_channels spec l = Ok u → (channel, release) ∈ l → HasChannel spec channel = true →
  validateRelease release = Ok tt.
Proof.
  induction l as [|[ch re] l IH]; cbn; intros Hv Hin Hch; [set_solver|].
  apply rbind_ok in Hv as ([] & Hre & Hv). apply elem_of_cons in Hin as [[= <- <-]|Hin]; [|by apply IH].
  rewrite Hch in Hre. by apply orelse_ok in Hre.
Qed.

Lemma find_release_valid registry products seen seen' id channel release spec :
  validate_products registry products seen = Ok seen' → find_release products id channel = Some release →
  registry !! id = Some spec → HasChannel spec channel = true → validateRelease release = Ok tt.
Proof.
  intros Hv Hf Hspec Hch. revert seen Hv. induction products as [|p products IH]; cbn in *; intros seen Hv; [done|].
  apply rbind_ok in Hv as (? & _ & Hv). apply rbind_ok in Hv as (? & _ & Hv). apply rbind_ok in Hv as ([] & Hc & Hv).
  case_decide as Hid; [|by eapply IH]. subst id. rewrite Hspec in Hc.
  eapply validate_channels_ok; [exact Hc| |done]. rewrite range_map_perm. by apply elem_of_map_to_list.
Qed.

Lemma ValidatePayload_release payload registry id channel release spec :
  ValidatePayload payload registry = Ok tt → Payload_Release payload id channel = Some release →
  registry !! id = Some spec → HasChannel spec channel = true → validateRelease release = Ok tt.
Proof.
  intros Hv. unfold ValidatePayload in Hv. do 5 (apply rbind_ok in Hv as (? & _ & Hv)).
  apply rbind_ok in Hv as (seen & Hv & _). by eapply find_release_valid.
Qed.

Lemma validate_binaries_ok l platforms b u :
  validate_binaries l platforms = Ok u → b ∈ l → sha256Pattern (bi_SHA256 b) = true ∧ validateURL (bi_URL b) = Ok tt.
Proof.
  revert platforms. induction l as [|x l IH]; cbn; intros platforms Hv Hin; [set_solver|].
  do 2 (apply rbind_ok in Hv as (? & _ & Hv)). apply rbind_ok in Hv as ([] & Hu & Hv).
  apply rbind_ok in Hv as (? & Hs%rfail_if_ok%not_false_iff_true & Hv).
  apply elem_of_cons in Hin as [->|Hin]; [done|by eapply IH].
Qed.

Lemma match_binary_elem l platform b : match_binary l platform = Some b → b ∈ l.
Proof. induction l as [|x l IH]; cbn; [done|]. case_decide; [intros [= ->]; by left|]. intros ?. right. by apply IH. Qed.

Lemma validateRelease_ok release u :
  validateRelease release = Ok u →
  (∃ v, ParseVersion (re_Version release) = Ok v) ∧
  (∀ image, image ∈ re_Images release → ValidImageRef (im_Ref image) = true) ∧
  (∀ b, b ∈ re_Binaries release → sha256Pattern (bi_SHA256 b) = true ∧ validateURL (bi_URL b) = Ok tt).
Proof.
  intros Hv. unfold validateRelease in Hv. apply rbind_ok in Hv as (v & Hver & Hv).
  do 4 (apply rbind_ok in Hv as (? & _ & Hv)). apply rbind_ok in Hv as (? & Hi%rfail_if_ok%not_false_iff_true & Hv).
  apply rbind_ok in Hv as (? & _ & Hv). split_and!; [eauto| |].
  - intros image Hin%list_elem_of_In. rewrite forallb_forall in Hi. by apply Hi.
  - intros b Hb. by eapply validate_binaries_ok.
Qed.

(** What the lines for a container are meant to be: the settings line and the reference are one word each,
    and the image that is inspected is the one the compose file names. *)
Definition intended_container (release : Release) : list (list sh_token) :=
  [[Word ("SESAME_IMAGE_TAG=" +:+ re_Version release)];
   [Word "docker"; Word "compose"; Word "pull"];
   [Word "docker"; Word "image"; Word "inspect"; Word "--format"; Word "{{range .RepoDigests}}{{println .}}{{end}}";
    Output ["docker"; "compose"; "config"; "--images"]]]
  ++ (match re_Images release with [] => [] | image :: _ => [[Word (im_Ref image)]] end)
  ++ [[Word "docker"; Word "compose"; Word "up"; Word "-d"]].

Lemma container_words release :
  validateRelease release = Ok tt →
  sh_words <$> (cm_Text <$> containerCommands release) = Some <$> intended_container release.
Proof.
  intros ((v & Hv) & Hi & _)%validateRelease_ok. unfold containerCommands, intended_container.
  rewrite !fmap_app. apply (f_equal2 app); [|apply (f_equal2 app); [|done]].
  - cbn [fmap list_fmap cm_Text]. apply (f_equal2 cons); [|done]. apply plain_word; [|done].
    rewrite !str_forall_app, (version_plain _ _ Hv). done.
  - destruct (re_Images release) as [|image l]; [done|]. cbn [fmap list_fmap cm_Text].
    apply (f_equal2 cons); [|done]. specialize (Hi image ltac:(by left)). apply plain_word; [by apply image_plain|].
    intros E. by rewrite E in Hi.
Qed.

(** C38: the commands an owner is shown are the ones that are meant, whatever the feed holds.  When a status
    announces an update on a channel the product has, the stored feed opens under a pinned key to a payload
    with a release for that product and channel, and a shell reads each of the commands as exactly the words
    intended for that release: the download address, the checksum and the path of the program are one word
    each, however they are spelled, and nothing in them is expanded, redirected or run; the only expansion
    is the one command that prints the digest is meant to have. *)
Theorem shown_commands_are_exact s closed c n db st db' spec :
  Service_Status s closed c n db = (Ok st, db') → su_Available st = true →
  sv_registry s !! sv_product s = Some spec → HasChannel spec (su_Channel st) = true →
  ∃ row document release, db_update_settings db = Some row ∧
  Open (sv_keys s) (sv_registry s) (bytes_of (ur_last_feed row)) = Ok document ∧
  Payload_Release (do_Payload document) (sv_product s) (su_Channel st) = Some release ∧
  la_Version <$> su_Latest st = Some (re_Version release) ∧
  match sv_kind s with
  | InstallContainer => sh_words <$> (cm_Text <$> su_Commands st) = Some <$> intended_container release
  | InstallBinary =>
      match match_binary (re_Binaries release) (sv_platform s) with
      | None => su_Commands st = []
      | Some found => sh_words <$> (cm_Text <$> su_Commands st) = Some <$> intended found (sv_platform s)
      end
  end.
Proof.
  intros Hst Hav Hspec Hch.
  destruct (available_spec _ _ _ _ _ _ _ Hst Hav)
    as (row & document & release & Hrow & _ & Ho & Hr & _ & _ & _ & Hc & Hchan & Hlat).
  exists row, document, release. rewrite Hchan in *. split_and!; [done..|].
  destruct (Open_ok _ _ _ _ Ho) as (_ & _ & ? & ? & ? & _ & _ & _ & _ & _ & Hval & _).
  pose proof (ValidatePayload_release _ _ _ _ _ _ Hval Hr Hspec Hch) as Hvr.
  rewrite Hc. unfold Commands. destruct (sv_kind s); [by apply container_words|].
  destruct (match_binary _ _) as [found|] eqn:Em; [|unfold binaryCommands; by rewrite Em].
  apply binary_words; [done|]. apply validateRelease_ok in Hvr as (_ & _ & Hb). by eapply Hb, match_binary_elem.
Qed.
End Shell.
