(* ===== verification/UpdateSign.v ===== *)
(** * What the release tool signs, the server accepts *)

From stdpp Require Import base list gmap strings pretty.
From Stdlib Require Import ZArith Lia Ascii Strings.Byte.
From S2P Require Import Prelude GoStd GoText Canonical Wire WireThms SemVer Json JsonFacts SelfStore AuditFacts.
From S2P Require Import UpdateStore AuditThms Feed UpdateService UpdateThms UpdateShell.
Local Open Scope Z_scope.
Local Open Scope go_scope.

(** ** Trimming *)
Definition graphic (c : ascii) : bool := bool_decide (33 ≤ ascii_Z c ≤ 126).

(** Patterns that no graphic character begins. *)
Definition outside (p : list Z) : bool :=
  match p with [] => false | h :: _ => negb (bool_decide (33 ≤ h ≤ 126)) end.

Lemma strip_any_none ps z l : forallb outside ps = true → 33 ≤ z ≤ 126 → strip_any ps (z :: l) = None.
Proof.
  intros Hps Hz. induction ps as [|p ps IH]; [done|]. cbn [forallb] in Hps. apply andb_true_iff in Hps as [Hp Hps].
  cbn [strip_any]. destruct p as [|h p]; [done|]. cbn [strip_bytes].
  apply negb_true_iff, bool_decide_eq_false in Hp. rewrite decide_False by lia. by apply IH.
Qed.

Lemma trim_front_none n ps l :
  forallb outside ps = true → Forall (λ z, 33 ≤ z ≤ 126) l → trim_front n ps l = l.
Proof.
  intros Hps Hl. destruct n as [|n]; [done|]. cbn. destruct Hl as [|z l Hz Hl].
  - assert (strip_any ps [] = None) as ->; [|done].
    induction ps as [|p ps IH]; [done|]. cbn [forallb] in Hps. apply andb_true_iff in Hps as [Hp Hps].
    cbn [strip_any]. destruct p as [|h p]; [done|]. by apply IH.
  - by rewrite strip_any_none.
Qed.

Lemma codes_graphic s : str_forall graphic s = true → Forall (λ z, 33 ≤ z ≤ 126) (codes s).
Proof.
  induction s as [|c s IH]; cbn [str_forall codes]; [constructor|].
  intros [Hc%bool_decide_eq_true Hs]%andb_true_iff. constructor; auto.
Qed.

Lemma TrimSpace_graphic s : str_forall graphic s = true → TrimSpace s = s.
Proof.
  intros Hs%codes_graphic. unfold TrimSpace. rewrite (trim_front_none _ space_bytes) by done.
  rewrite trim_front_none; [by rewrite reverse_involutive, uncodes_codes|done|]. by apply Forall_reverse.
Qed.

(** ** Keys *)
Definition key_entry_char (c : ascii) : bool := graphic c && negb (bool_decide (c = ","%char)).

Lemma enc_char_plain v : key_entry_char (enc_char v) = true.
Proof.
  unfold enc_char. assert (0 ≤ Z.land v 63 < 64) as Hr.
  { change 63 with (Z.ones 6). rewrite Z.land_ones by lia. apply Z.mod_pos_bound. lia. }
  generalize dependent (Z.land v 63). intros w Hr.
  assert (∃ n, (n < 64)%nat ∧ Z.to_nat w = n) as (n & Hn & ->) by (exists (Z.to_nat w); lia).
  do 64 (destruct n as [|n]; [reflexivity|]). lia.
Qed.

Lemma encode_plain bs : str_forall key_entry_char (EncodeToString bs) = true.
Proof.
  induction bs as [|a|a b|a b c rest IH] using list_ind3; cbn [EncodeToString str_forall]; rewrite ?enc_char_plain; done.
Qed.

Lemma key_id_plain id : ValidKeyID id = true → str_forall key_entry_char id = true ∧ lacks ":" id = true.
Proof.
  unfold ValidKeyID. case_decide; [done|]. intros Hid. split; revert Hid; apply str_forall_impl;
    intros c Hc%bool_decide_eq_true; [unfold key_entry_char, graphic; apply andb_true_iff; split|].
  - apply bool_decide_eq_true. destruct Hc as [?|[?|[?|[->|[->| ->]]]]]; try lia; vm_compute; intuition congruence.
  - apply negb_true_iff, bool_decide_eq_false. intros ->. vm_compute in Hc. intuition congruence.
  - apply bool_decide_eq_true. intros ->. vm_compute in Hc. intuition congruence.
Qed.

Lemma Cut_app sep a b : lacks sep a = true → Cut sep (a +:+ String sep b) = (a, b, true).
Proof.
  unfold lacks. induction a as [|c a IH]; intros Ha; [rewrite app_nil; cbn; by rewrite decide_True|].
  cbn [str_forall] in Ha. apply andb_true_iff in Ha as [Hc%bool_decide_eq_true Ha]. rewrite app_cons. cbn [Cut].
  rewrite decide_False by done. by rewrite IH.
Qed.

Definition pin_ok (p : string * bytes) : Prop := ValidKeyID p.1 = true ∧ Z.of_nat (length p.2) = Ed25519PublicKeyBytes.
Definition format_pin (p : string * bytes) : string := FormatKey p.1 p.2.

Lemma format_pin_plain p : pin_ok p → str_forall key_entry_char (format_pin p) = true.
Proof.
  intros [Hid _]. unfold format_pin, FormatKey. rewrite !str_forall_app, encode_plain, andb_true_r.
  by rewrite (proj1 (key_id_plain _ Hid)).
Qed.

Lemma key_entry_graphic s : str_forall key_entry_char s = true → str_forall graphic s = true ∧ lacks "," s = true.
Proof.
  intros Hs. split; revert Hs; apply str_forall_impl; intros c [Hc Hn%negb_true_iff%bool_decide_eq_false]%andb_true_iff;
    [done|]. by apply bool_decide_eq_true.
Qed.

Lemma parse_keys_loop_pins pins keys :
  Forall pin_ok pins → NoDup pins.*1 → (∀ id, id ∈ pins.*1 → keys !! id = None) →
  parse_keys_loop (format_pin <$> pins) keys = Ok (list_to_map pins ∪ keys).
Proof.
  intros Hok. revert keys. induction Hok as [|[id key] pins [Hid Hlen] Hok IH]; intros keys Hnd Hfresh.
  { cbn. by rewrite map_empty_union. }
  cbn [fmap list_fmap parse_keys_loop]. cbn [fst snd] in *. apply NoDup_cons in Hnd as [Hni Hnd].
  pose proof (format_pin_plain (id, key) (conj Hid Hlen)) as [Hg _]%key_entry_graphic.
  rewrite (TrimSpace_graphic _ Hg). unfold format_pin at 1, FormatKey. cbn [fst snd].
  change (":" +:+ EncodeToString key) with (String ":" (EncodeToString key)). rewrite Cut_app by (by apply key_id_plain).
  unfold rfail_if at 1. rewrite decide_False by (rewrite Hid; naive_solver). cbn [rbind].
  rewrite DecodeString_encode. unfold rfail_if at 1. rewrite decide_False by (intros Hn; by apply Hn). cbn [rbind].
  assert (keys !! id = None) as Hnone by (apply Hfresh; cbn; by left).
  unfold rfail_if at 1. rewrite decide_False by (rewrite Hnone; by intros [? [=]]). cbn [rbind]. rewrite IH.
  - cbn [list_to_map foldr]. f_equal. rewrite <- insert_union_r; [by rewrite insert_union_l|]. by apply not_elem_of_list_to_map.
  - done.
  - intros id' Hin. rewrite lookup_insert_ne by (intros ->; done). apply Hfresh. cbn. by right.
Qed.

Lemma plain_join_keys l :
  Forall (λ s, str_forall key_entry_char s = true) l → str_forall graphic (join "," l) = true.
Proof.
  induction 1 as [|s [|t l] Hs _ IH]; [done|by apply key_entry_graphic|].
  rewrite join_cons2, str_forall_app. apply andb_true_iff. split; [by apply key_entry_graphic|exact IH].
Qed.

Lemma Split_join sep l : l ≠ [] → Forall (λ s, lacks sep s = true) l → Split sep (join sep l) = l.
Proof.
  intros Hne Hl. induction Hl as [|s [|t l] Hs _ IH]; [done|by apply Split_lacks|].
  rewrite join_cons2, Split_app by done. by rewrite IH.
Qed.

Lemma graphic_no_newline s : str_forall graphic s = true → contains_newline s = false.
Proof.
  induction s as [|c s IH]; cbn [str_forall contains_newline]; [done|].
  intros [Hc%bool_decide_eq_true Hs]%andb_true_iff. rewrite (IH Hs), orb_false_r.
  apply bool_decide_eq_false. unfold ascii_Z in Hc. lia.
Qed.

(** The list of pinned keys a server is configured with reads back as those keys. *)
Lemma ParseKeys_format pins :
  Forall pin_ok pins → NoDup pins.*1 →
  ParseKeys (join "," (format_pin <$> pins)) = Ok (list_to_map pins).
Proof.
  intros Hok Hnd. destruct pins as [|p pins]; [done|].
  assert (Forall (λ s, str_forall key_entry_char s = true) (format_pin <$> p :: pins)) as Hp.
  { apply Forall_fmap. eapply Forall_impl; [exact Hok|]. intros q Hq. by apply format_pin_plain. }
  pose proof (plain_join_keys _ Hp) as Hg. unfold ParseKeys. rewrite (TrimSpace_graphic _ Hg). rewrite decide_False.
  2: { intros E. apply (f_equal (Split ",")) in E. rewrite Split_join in E; [|done|].
       - cbn in E. destruct pins; [|done]. injection E as E. unfold format_pin, FormatKey in E. by destruct p as [[|] ?].
       - eapply Forall_impl; [exact Hp|]. intros s Hs. by apply key_entry_graphic. }
  rewrite (graphic_no_newline _ Hg). cbn [rfail_if]. unfold rfail_if. rewrite decide_False by done. cbn [rbind].
  rewrite Split_join; [|done|eapply Forall_impl; [exact Hp|]; intros s Hs; by apply key_entry_graphic].
  rewrite parse_keys_loop_pins by done. by rewrite map_union_empty.
Qed.

(** ** Signing *)
Section Sign.
Context `{Crypto} `{FeedHost} `{MapRange}.

(** The codec reads back what it wrote: an envelope of valid UTF-8, and the payload at hand. *)
Definition codec_ok (payload : Payload) : Prop :=
  (∀ e : Envelope, valid_utf8 (ev_Payload e) = true → valid_utf8 (ev_Signature e) = true →
     valid_utf8 (ev_KeyID e) = true → Decode (Marshal_envelope e) = Some (e, [])) ∧
  (∀ b, Marshal_payload payload = Some b → b ≠ [] ∧ Decode b = Some (payload, [])).

Lemma key_entry_valid s : str_forall key_entry_char s = true → valid_utf8 s = true.
Proof.
  intros [Hg _]%key_entry_graphic. apply ascii_valid. revert Hg. apply str_forall_impl.
  intros c Hc%bool_decide_eq_true. apply bool_decide_eq_true. lia.
Qed.

Lemma decode_only_all {T} `{Decodes T} b (v : T) : Decode b = Some (v, []) → decode_only b = Ok v.
Proof. intros E. unfold decode_only. rewrite E. done. Qed.

Lemma Sign_ok payload keyID key body :
  Sign payload keyID key = Ok body →
  ValidKeyID keyID = true ∧ length key = 64%nat ∧ ∃ payloadBytes,
    Marshal_payload payload = Some payloadBytes ∧
    body = Marshal_envelope {| ev_Payload := EncodeToString payloadBytes;
                               ev_Signature := EncodeToString (ed25519_Sign key (signedMessage payloadBytes));
                               ev_KeyID := keyID |}.
Proof.
  unfold Sign. intros (? & Hid%rfail_if_ok & Hs)%rbind_ok. apply rbind_ok in Hs as (? & Hk%rfail_if_ok & Hs).
  apply not_false_iff_true in Hid. destruct (Marshal_payload payload) as [pb|]; [|done]. injection Hs as <-.
  split; [done|]. split; [lia|]. eauto.
Qed.

(** C37: what the release tool signs, a server accepts.  A feed that [Sign] made for a payload that follows the
    rules, within the size limit, opens on every server whose key list, as [FormatKey] prints it, holds the
    signer's public key under the id that was used: while the payload is fresh the server gets this payload
    and would keep the very bytes that were signed. *)
Theorem signed_feed_is_accepted payload keyID key pins registry now body :
  codec_ok payload → Sign payload keyID key = Ok body →
  Forall pin_ok pins → NoDup pins.*1 → (keyID, ed25519_Public key) ∈ pins →
  Z.of_nat (length body) ≤ MaxFeedBytes →
  ValidatePayload payload registry = Ok tt → CheckFresh payload now = Ok tt →
  ∃ keys document, ParseKeys (join "," (format_pin <$> pins)) = Ok keys ∧
    Verify keys registry body now = Ok document ∧ do_Payload document = payload ∧ do_Raw document = body.
Proof.
  intros [He Hp] (Hid & Hk & pb & Hm & ->)%Sign_ok Hpins Hnd Hin Hlen Hval Hfresh.
  destruct (Hp pb Hm) as [Hne Hd]. set (e := {| ev_Payload := _; ev_Signature := _; ev_KeyID := _ |}) in *.
  exists (list_to_map pins), {| do_Payload := payload; do_Envelope := e; do_Raw := Marshal_envelope e |}.
  split; [by apply ParseKeys_format|]. split; [|done].
  assert (decode_only (Marshal_envelope e) = Ok e) as Hde.
  { apply decode_only_all, He; [apply key_entry_valid, encode_plain..|]. by apply key_entry_valid, key_id_plain. }
  unfold Verify, Open. unfold rfail_if at 1. rewrite decide_False by lia. cbn [rbind]. rewrite Hde. cbn [rbind].
  cbn [e ev_KeyID ev_Payload ev_Signature]. erewrite elem_of_list_to_map_1 by done.
  rewrite !contains_newline_encode, !DecodeString_encode. unfold rfail_if at 1. rewrite decide_False by naive_solver.
  cbn [rbind]. unfold rfail_if at 1. rewrite decide_False by done. cbn [rbind].
  unfold rfail_if at 1. rewrite ed25519_Sign_length, decide_False by (intros Hn; by apply Hn). cbn [rbind].
  unfold rfail_if at 1. rewrite ed25519_Verify_Sign, decide_False by done. cbn [rbind].
  rewrite (decode_only_all _ _ Hd). cbn [rbind]. rewrite Hval. cbn [rbind do_Payload]. by rewrite Hfresh.
Qed.
End Sign.
