(* ===== verification/SelfWitnesses.v ===== *)
(** * The hypotheses of the self-hosting theorems hold: concrete runs

    The cryptography is the toy instance of the fixtures; the codec of the feed is a small one of its own,
    which reads an envelope the way [encoding/json] does and numbers the payloads it knows. *)

From stdpp Require Import base list gmap strings pretty.
From Stdlib Require Import ZArith Lia Ascii Strings.Byte.
From S2P Require Import Prelude GoStd GoText Canonical Wire Fixtures SemVer Json JsonFacts SelfStore AuditFacts.
From S2P Require Import UpdateStore AuditThms Feed UpdateService UpdateThms UpdateShell UpdateSign.
Local Open Scope Z_scope.

(** ** The audit log *)
Definition owner_entry : AuditInput :=
  {| in_Actor := {| act_Kind := ActorOwner; act_ID := "o1" |}; in_Action := "owner.created"; in_Target := "o1";
     in_Detail := {["name" := "Ada <ada>"]} |}.
Definition calls1 : list store_call :=
  [CallAppend None (1700000000 * second) owner_entry;
   CallVerifyIncremental None;
   CallConfigure None (1700000100 * second) (in_Actor owner_entry) {| uc_Enabled := Some true; uc_Channel := Some "beta" |};
   CallAppend (Some []) 0 owner_entry].
Definition store1 : store := foldl (λ s c, store_exec c s) new_store calls1.

Lemma owner_entry_valid : valid_map (in_Detail owner_entry).
Proof. apply valid_map_singleton; reflexivity. Qed.

Lemma store1_reachable : store_reachable store1.
Proof.
  unfold store1, calls1. cbn [foldl].
  repeat (apply store_step; [|first [exact owner_entry_valid|exact I]]). apply store_new.
Qed.

Lemma audit_log_always_verifies_witness :
  length (log_of store1) = 2%nat ∧ (VerifyAuditIncremental None store1).1 = Ok (whole_report (log_of store1)).
Proof.
  split; [vm_compute; reflexivity|].
  apply (audit_log_always_verifies store1 store1_reachable); vm_compute; reflexivity.
Defined.

Lemma audit_report_commits_witness :
  Forall2 reads_same (visible (log_of store1)) (visible (log_of store1)) ∨ collision.
Proof.
  eapply (audit_report_commits (log_of store1) (log_of store1));
    [vm_compute; reflexivity|vm_compute; reflexivity|vm_compute; reflexivity|vm_compute; reflexivity|reflexivity..].
Defined.

(** The store as it was checked, and a table to which a row was added that does not continue the chain. *)
Definition checked1 : store := (VerifyAudit None store1).2.
Definition forged : audit_row :=
  {| ar_seq := 7; ar_actor := "owner"; ar_action := "x"; ar_target := ""; ar_detail := "{}"; ar_at := 0;
     ar_prev_hash := []; ar_hash := [] |}.
Definition tampered : store :=
  {| st_closed := false;
     st_db := {| db_audit_log := log_of store1 ++ [forged]; db_update_settings := None; db_update_sequences := ∅ |};
     st_auditState := st_auditState checked1 |}.

Lemma incremental_check_is_enough_witness :
  ∃ report, (VerifyAuditIncremental None tampered).1 = Ok report ∧ rp_OK report = false ∧
            (VerifyAudit None tampered).1 = Ok report.
Proof.
  assert (∃ r, VerifyAudit None store1 = (Ok r, checked1) ∧ rp_OK r = true ∧ rp_HeadSeq r = 2) as (r & Hr & Ho & Hs).
  { eexists. split; [vm_compute; reflexivity|]. split; reflexivity. }
  destruct (incremental_check_is_enough store1 r checked1 tampered Hr Ho) as [Hsame _];
    [vm_compute; congruence|reflexivity|reflexivity|vm_compute; reflexivity|vm_compute; reflexivity|].
  assert ((VerifyAuditIncremental None tampered).1 = (VerifyAudit None tampered).1) as E.
  { apply (Hsame [forged]); [vm_compute; reflexivity|]. intros x ->%list_elem_of_singleton. rewrite Hs. reflexivity. }
  rewrite E. eexists. split; [vm_compute; reflexivity|]. split; reflexivity.
Defined.

(** ** The feed *)
Definition release1 : Release :=
  {| re_Version := "1.3.0"; re_PublishedAt := 1699990000 * second; re_NotesURL := "https://example.test/notes";
     re_Security := true; re_MinimumFrom := ""; re_Images := [];
     re_Binaries := [{| bi_OS := "linux"; bi_Arch := "amd64"; bi_URL := "https://example.test/sesame-server";
                        bi_SHA256 := "0123456789abcdef0123456789abcdef0123456789abcdef0123456789abcdef" |}] |}.
Definition payload_no (sequence : Z) : Payload :=
  {| pl_SchemaVersion := 1; pl_Sequence := sequence; pl_IssuedAt := 1700000000 * second;
     pl_ExpiresAt := 1701000000 * second;
     pl_Products := [{| pr_ID := ServerProductID; pr_Channels := {["stable" := release1]} |}] |}.

Definition read_envelope (b : bytes) : option (Envelope * bytes) :=
  s ← strip_prefix "{" (string_of b);
  '(members, rest) ← parse_members (String.length s) s;
  match members with
  | [(_, payload); (_, signature); (_, keyId)] =>
      Some ({| ev_Payload := payload; ev_Signature := signature; ev_KeyID := keyId |}, bytes_of rest)
  | _ => None
  end.

#[export] Instance toy_feed_host : FeedHost :=
  {| url_Parse := λ _, Some {| url_Scheme := "https"; url_Host := "example.test"; url_Hostname := "example.test";
                               url_has_User := false; url_Opaque := ""; url_Fragment := ""; url_RawQuery := "";
                               url_ForceQuery := false |};
     envelope_decodes := read_envelope;
     payload_decodes := λ b, match b with [x] => Some (payload_no (byte_Z x), []) | _ => None end;
     Marshal_payload := λ p, Some [byte_of_Z (pl_Sequence p)] |}.

Lemma read_envelope_Marshal e :
  valid_utf8 (ev_Payload e) = true → valid_utf8 (ev_Signature e) = true → valid_utf8 (ev_KeyID e) = true →
  read_envelope (Marshal_envelope e) = Some (e, []).
Proof.
  intros Hp Hs Hk. unfold read_envelope, Marshal_envelope. rewrite String.string_of_list_byte_of_string.
  set (l := [("payload", ev_Payload e); ("signature", ev_Signature e); ("keyId", ev_KeyID e)]).
  change (Marshal_object _) with ("{" +:+ join "," (member <$> (encode_pair <$> l)) +:+ String "}" "").
  rewrite app_cons, app_nil. cbn [strip_prefix]. rewrite decide_True by done. cbn [strip_prefix mbind option_bind].
  rewrite (parse_members_Marshal l "");
    [|done|rewrite length_app_string; pose proof (members_length l); lia].
  unfold l. cbn [fmap list_fmap coerce_pair fst snd mbind option_bind]. rewrite !coerce_valid by done. by destruct e.
Qed.

Lemma toy_codec n : codec_ok (payload_no (byte_Z n)).
Proof.
  split; [exact read_envelope_Marshal|]. intros b [= <-]. split; [done|].
  cbn. by rewrite byte_of_byte_Z.
Qed.

Definition feed_key : bytes := replicate 64 x2b.
Definition feed_body (sequence : Z) : bytes :=
  match Sign (payload_no sequence) "k1" feed_key with Ok body => body | Err _ => [] end.
Definition pins1 : list (string * bytes) := [("k1", ed25519_Public feed_key); ("k2", replicate 32 x07)].
Definition feed_now : time := 1700000500 * second.

Lemma signed_feed_is_accepted_witness :
  ∃ keys document, ParseKeys (join "," (format_pin <$> pins1)) = Ok keys ∧
    Verify keys DefaultRegistry (feed_body 5) feed_now = Ok document ∧
    do_Payload document = payload_no 5 ∧ do_Raw document = feed_body 5.
Proof.
  apply (signed_feed_is_accepted (payload_no 5) "k1" feed_key).
  - exact (toy_codec x05).
  - vm_compute. reflexivity.
  - repeat constructor.
  - apply NoDup_cons. split; [|apply NoDup_singleton]. intros [=]%list_elem_of_singleton.
  - by left.
  - vm_compute. congruence.
  - vm_compute. reflexivity.
  - vm_compute. reflexivity.
Defined.

Definition service1 : Service :=
  {| sv_registry := DefaultRegistry; sv_product := ServerProductID; sv_version := "1.2.9";
     sv_keys := list_to_map pins1;
     sv_url := {| url_Scheme := "https"; url_Host := "example.test"; url_Hostname := "example.test";
                  url_has_User := false; url_Opaque := ""; url_Fragment := ""; url_RawQuery := "";
                  url_ForceQuery := false |};
     sv_kind := InstallBinary;
     sv_platform := {| pf_OS := "linux"; pf_Arch := "amd64"; pf_Executable := "/opt/it's here/sesame-server" |};
     sv_interval := DefaultInterval; sv_retry := DefaultRetryInterval; sv_configured := true |}.

Definition answering (body : bytes) : surroundings :=
  {| cl_now := feed_now;
     cl_answer := Some {| fr_StatusCode := 200; fr_ContentLength := -1; fr_Body := body; fr_BodyFails := false |};
     cl_ctx := None; cl_fault := λ _, None |}.

Definition on_row : update_row :=
  {| ur_enabled := UpdatesOn; ur_channel := "stable"; ur_last_feed := ""; ur_checked_at := None; ur_last_error := "" |}.
Definition db_on : database :=
  {| db_audit_log := []; db_update_settings := Some on_row; db_update_sequences := ∅ |}.
Definition db_accepted : database := (runCheck service1 false (answering (feed_body 5)) 0 db_on).2.

(** An owner turns to the beta channel and back between the two checks. *)
Definition db_later : database :=
  (Service_Configure service1 false (answering []) feed_now feed_now (in_Actor owner_entry) {| uc_Enabled := None; uc_Channel := Some "beta" |}
     db_accepted).2.

Lemma rollbacks_are_refused_witness :
  ∃ r db, runCheck service1 false (answering (feed_body 4)) 0 db_later = (r, db) ∧ r = Ok UpdateErrorRollback ∧
          feed_of db = Some (string_of (feed_body 5)).
Proof.
  assert (∃ d, Verify (sv_keys service1) DefaultRegistry (feed_body 5) feed_now = Ok d ∧
     ev_KeyID (do_Envelope d) = "k1" ∧ pl_Sequence (do_Payload d) = 5) as (d & Hd & Hk & Hs)
    by (eexists; split; [vm_compute; reflexivity|split; reflexivity]).
  assert (∃ d, Verify (sv_keys service1) DefaultRegistry (feed_body 4) feed_now = Ok d ∧
     ev_KeyID (do_Envelope d) = "k1" ∧ pl_Sequence (do_Payload d) = 4) as (d' & Hd' & Hk' & Hs')
    by (eexists; split; [vm_compute; reflexivity|split; reflexivity]).
  assert (∃ db, runCheck service1 false (answering (feed_body 4)) 0 db_later = (Ok UpdateErrorRollback, db)) as (db & Hr)
    by (eexists; vm_compute; reflexivity).
  exists (Ok UpdateErrorRollback), db. split; [exact Hr|]. split; [reflexivity|].
  destruct (rollbacks_are_refused service1 false (answering (feed_body 5)) 0 db_on db_accepted db_later (feed_body 5) d
    service1 false (answering (feed_body 4)) 0 (feed_body 4) d' (Ok UpdateErrorRollback) db) as (_ & -> & _).
  - vm_compute. reflexivity.
  - vm_compute. reflexivity.
  - exact Hd.
  - apply rtc_once. apply step_configure.
  - vm_compute. reflexivity.
  - exact Hd'.
  - congruence.
  - lia.
  - exact Hr.
  - vm_compute. reflexivity.
Defined.

Definition status1 : Status :=
  match Service_Status service1 false (answering []) 0 db_accepted with
  | (Ok st, _) => st
  | _ => base_status service1 {| us_Choice := ""; us_Channel := ""; us_Sequences := ∅; us_Feed := []; us_CheckedAt := None;
                                 us_LastError := "" |}
  end.

Lemma announced_update_is_authentic_witness :
  su_Available status1 = true ∧ ∃ key payloadBytes signature,
    ed25519_Verify key (bytes_of signingContext ++ payloadBytes) signature = true.
Proof.
  split; [vm_compute; reflexivity|].
  destruct (announced_update_is_authentic service1 false (answering []) 0 db_accepted status1 db_accepted)
    as (_ & _ & key & pb & sig & _ & _ & _ & _ & _ & _ & _ & Hv & _); [vm_compute; reflexivity..|].
  eauto.
Defined.

Lemma shown_commands_are_exact_witness :
  ∃ release found, match_binary (re_Binaries release) (sv_platform service1) = Some found ∧
    la_Version <$> su_Latest status1 = Some (re_Version release) ∧
    sh_words <$> (cm_Text <$> su_Commands status1) = Some <$> intended found (sv_platform service1).
Proof.
  destruct (shown_commands_are_exact service1 false (answering []) 0 db_accepted status1 db_accepted server_spec)
    as (row & document & release & _ & _ & _ & Hlat & Hwords); [vm_compute; reflexivity..|]. cbn [sv_kind service1] in Hwords.
  destruct (match_binary _ _) as [found|] eqn:Em; [eauto|]. vm_compute in Hwords. discriminate Hwords.
Defined.
